(* ===== verification/_CoqProject ===== *)
-Q . S2P
Prelude.v
GoStrings.v
Json.v
Dsd.v
Bolt.v
Journal.v
Apply.v
Spec.v
Policy.v
Docker.v
Secrets.v
Rollout.v
NeverCut.v
Limiter.v
Store.v
Daemon.v
Driver.v
Gc.v
Traefik.v
DockerApi.v
DockerLogs.v
Naming.v
CpDb.v
Deploy.v
DeployHistory.v
DeployPipeline.v
Engines.v
Render.v
RenderDeploy.v
RenderCluster.v
CpDsd.v
RenderDoc.v
RenderOrder.v
RenderPolicy.v
RenderKeep.v
DsdStore.v
DsdMachine.v
DsdReports.v
Waiters.v
Kms.v
Vault.v
VaultSpec.v
VaultKeep.v
VaultOps.v
VaultRotate.v
VaultReenc.v
VaultAgents.v
VaultClaims.v
Backups.v
BackupRuns.v
BackupClaims.v
BackupKeys.v
Resync.v
ConnPool.v
ServerCatalog.v
Billing.v
BillingClaims.v
Paddle.v
NetAddr.v
PaddleClaims.v
PublicHost.v
BillingDemo.v
BillingSync.v
BillingSyncClaims.v
Servers.v
Lifecycle.v
Clusters.v
FleetRuns.v
FleetClaims.v
FleetDemo.v
Domains.v
DomainClaims.v
DomainDemo.v
Alerts.v
Dispatcher.v
Outbox.v
OutboxClaims.v
AlertClaims.v
OutboxDemo.v
