(* ===== verification/Prelude.v ===== *)
(** * SigmaHub: a verification library for the control plane and the host agent

    SigmaHub deploys applications on machines its users own.  A control plane
    ([src/cp], Go over PostgreSQL) keeps what every tenant wants and renders,
    for each server, a Desired-State Document: a list of operations with
    dependencies, versioned, signed and served by long polls.  An agent on the
    server ([src/agent], Go) verifies a document, orders its operations, applies
    them against Docker under a local policy, journals what it did and reports.
    Around that run a vault of secrets, backups, billing, a registry of servers
    and clusters, domains, alerts, and sweepers that end what got stuck.

    ** How the files correspond to the code

    Shared ground.
    - [Prelude]: results, the effect monad [io], notations, tactics and hints;
      [GoStrings]: [strings], [strconv], [fmt]; [Json]: [encoding/json] values
      and struct codecs; [Bolt]: the agent's embedded store as an interface with
      its laws and a faulty in-memory instance; [NetAddr]: [net.ParseIP],
      [net.SplitHostPort] and which addresses are public.
    - [CpDb]: the control plane's tables as records and lists, statements,
      transactions, faults, and the Hoare rules ([does], [triple]) every store
      theorem uses.

    The agent.
    - [Dsd] ([agent/internal/dsd], and the same code of [cp/internal/dsd]):
      documents and [TopoOrder]; [Journal], [Apply] ([agent/internal/apply]):
      the journal and the op loop.
    - [Spec], [Policy], [Secrets], [Docker], [DockerApi], [DockerLogs],
      [Rollout], [NeverCut], [Limiter], [Store], [Driver], [Gc], [Traefik],
      [Daemon] ([agent/internal/container]): container specs, the deny-by-default
      policy, secret injection, the Engine API client, rollouts, the op
      handlers, drift repair and garbage collection, the ingress proxy; [Daemon]
      is an in-memory daemon to run them on.

    Deploying.
    - [Naming] ([cp/internal/dsd/naming.go]); [Deploy], [DeployHistory],
      [DeployPipeline] ([cp/internal/store/deployments.go], parts of [git.go],
      [alerts_store.go]): the release history and the pipeline.
    - [Engines] ([store/db_engines.go], [llm_engines.go], [s3_engines.go]);
      [Render], [RenderDeploy], [RenderCluster], [RenderDoc], [CpDsd]
      ([cp/internal/reconciler], [cp/internal/dsd]): rendering a document;
      [RenderOrder], [RenderPolicy], [RenderKeep]: what the renderer promises the
      agent, with the agent's own definitions on the other side.
    - [DsdStore], [DsdMachine], [DsdReports] ([store/dsd_store.go]): issuing,
      re-driving and acknowledging documents; [Waiters] (long polls); [Resync],
      [ConnPool] ([reconciler.go]): passes over the fleet, slots, connections.

    Tenants.
    - [Kms], [Vault], [VaultSpec], [VaultKeep], [VaultOps], [VaultRotate],
      [VaultReenc], [VaultAgents], [VaultClaims] ([cp/internal/kms],
      [store/secrets_*.go]): envelope encryption and rotation.
    - [Backups], [BackupRuns], [BackupClaims], [BackupKeys] ([store/backups.go],
      [pitr.go], [cp/internal/backup/scheduler.go]).
    - [ServerCatalog] ([store/server_catalog.go], [facts.go], [compat.go],
      [server_units.go]); [Billing], [BillingClaims], [BillingSync],
      [BillingSyncClaims], [Paddle], [PaddleClaims], [BillingDemo]
      ([store/billing.go], [cp/internal/billingsync], [cp/internal/paddle],
      [cp/internal/api/billing.go]).
    - [Servers], [Lifecycle], [Clusters], [FleetRuns], [FleetClaims],
      [FleetDemo] ([store/registry.go], [heartbeat.go], [mesh.go],
      [lifecycle.go], [decommission.go], [clusters.go], parts of [domain.go]).
    - [PublicHost] ([store/public_host.go], [checkPublicIP] of
      [alerts_store.go]); [Domains], [DomainClaims], [DomainDemo]
      ([store/domains.go], [dns.go], [handleAgentDomainStatus] of
      [cp/internal/api/agent.go]); [Alerts] ([store/alerts_store.go]),
      [Dispatcher] ([cp/internal/alerts]), [Outbox], [OutboxClaims],
      [OutboxDemo] (replicas draining one outbox), [AlertClaims] (where a
      delivery may go).

    A Go method on a store is an [io] computation over [cp]; a transaction is
    [transaction]; an SQL statement is one [exec], [update] or [query] whose
    condition is a bool function on rows; an HTTP handler or a goroutine that
    interleaves is a step of a relation ([Waiters], [Resync], [ConnPool],
    [Outbox]).  Definitions keep the names of the code.

    ** What the theorems show

    - The history of releases is append-only and one deployment per resource and
      server is in flight; reports advance it whatever their order
      ([DeployHistory], [DeployPipeline]).
    - A rollout never stops the serving generation before its successor is
      healthy ([NeverCut]); every handler acts only on permitted specs
      ([Driver], [Policy]); the op loop orders, skips and journals as specified
      ([Apply], [Dsd]); garbage collection spares what the document names.
    - What the control plane renders is ordered, permitted and kept running by
      the agent ([RenderOrder], [RenderPolicy], [RenderKeep]).
    - The rows of [server_dsd] refine an abstract channel of documents, and what
      is owed is delivered ([DsdMachine]); no change is lost to a long poll
      ([Waiters]); reconciles neither wedge nor starve ([ConnPool], [Resync]).
    - The vault refines a store of plaintexts, rotations complete, and agents
      get exactly the secrets their documents refer to ([VaultClaims],
      [VaultAgents]).
    - Backup runs are never lost nor duplicated and are dispatched with what
      they need ([BackupClaims], [BackupKeys]).
    - Billing converges whatever the order of events, prices one number
      everywhere and caps only after the grace period ([BillingClaims],
      [PaddleClaims], [BillingSyncClaims]).
    - Mesh addresses are unique, registrations single-use, tombstones final,
      decommissions end ([FleetClaims]).
    - Destinations are refused exactly in eleven blocks of IPv4, a delivery
      goes nowhere else whatever a tenant configures, and given names are DNS
      labels ([PublicHost], [AlertClaims]).
    - Every stored domain is a host name that stays inside its router matcher
      and routes to one resource; a DNS setup without a reason is a finished
      one; an expiring certificate is told once ([DomainClaims]).
    - An alert in the outbox is sent, fails the permitted number of times or is
      due again within the hour, whatever crashes; dispatchers within their
      leases never hold one together; every due one is claimed ([Outbox],
      [OutboxClaims]).

    Several theorems are concrete schedules in which the code does not do what
    its comments say; they are evaluated, and listed among the findings of the
    manifest.

    ** Bounds, fuel and assumptions

    Recursion that Go does on the call stack takes fuel where it is not
    structural: [Dsd.visit] (one unit per unseen id), the SHA-256 schedule,
    decoders that walk a byte string; each is started with a bound that a lemma
    or the length of its input shows enough.  Integers that can wrap are Z with
    the wrap written out ([BillingSync.shift_one], float64 by [spec_float]);
    times are microseconds of one clock, the database's [now()] and Go's
    [time.Now()] being the same inside one operation.

    Parameters stand for what is not under [src]: the Docker daemon, clock,
    prober and file system of the host (classes of [Docker], [Rollout],
    [Secrets]), bbolt ([Bolt]), Ed25519 and AES-GCM ([CpDsd.Signatures],
    [Kms.Aead]), PostgreSQL's order of rows that no ORDER BY decides
    ([CpDb.Postgres]), the text of JSON values and floats ([DockerApi.JsonText],
    [Vault.JsonReader], [ServerCatalog.JsonSize], [ServerCatalog.FloatText]),
    Paddle's API, [url.Parse] and the resolver
    ([Alerts.Destinations]), and the answers of HTTP and SMTP endpoints
    ([Dispatcher.Internet]).  Their laws are hypotheses of the
    theorems that use them, and an instance witnesses each.  SHA-256 and HMAC
    are defined.  Every store operation is one step at one [now()], as its row
    and advisory locks make it, unless a file says it interleaves; a statement
    may fail wherever the fault schedule says so.

    ** Not modelled

    Process wiring ([cmd/], [server.go], configuration, [supervise], the ticker
    loops), HTTP decoding of most [api] handlers, metrics and telemetry
    shipping, and the parts whose whole content is calls to external programs
    or services: the agent's backup runner (restic, pg_dump), builder (BuildKit),
    k8s and WireGuard set-up, host hardening, self-update, uninstall; the
    control plane's GitHub, Hugging Face and Vault-KMS clients and the
    installer script it serves.  Of the store: Git ingest and previews apart
    from [CreateHeadDeployment], projects and environments and the creation of
    resources, retention, purging and service tokens.  Columns that nothing
    modelled reads (descriptions, regions, display names) are left out of the
    rows.  The dashboard ([src/web], TypeScript) is not modelled.  The manifest
    lists each part with its reason. *)

From stdpp Require Export base tactics option strings numbers gmap sets list.
From stdpp Require Import pretty.

#[export] Set Default Goal Selector "!".
#[export] Set Warnings "-clear-no-such-hyp,-notation-incompatible-prefix".

(** ** Results and the effect monad *)

(** A Go call that may fail: the value, or the error value. *)
Inductive result (E A : Type) : Type :=
| Ok (a : A)
| Err (e : E).
Arguments Ok {E A} a.
Arguments Err {E A} e.

(** In the agent an [error] is only ever compared with nil and rendered with
    [Error()], so it is its message. *)
Abbreviation res := (result string).

Definition is_ok {E A} (r : result E A) : bool :=
  match r with Ok _ => true | Err _ => false end.

Definition result_bind {E A B} (r : result E A) (k : A -> result E B) : result E B :=
  match r with Ok a => k a | Err e => Err e end.

(** [fmt.Errorf("...: %w", err)] seen through [Error()]. *)
Definition wrap_err {A} (pre : string) (r : res A) : res A :=
  match r with Ok a => Ok a | Err e => Err (pre +:+ e) end.

(** A computation over a world [D] that may fail; the world it leaves behind
    is observable in both cases, as side effects are in Go. *)
Definition io (D A : Type) : Type := D -> res A * D.

Definition ret {D A} (a : A) : io D A := fun d => (Ok a, d).
Definition fail {D A} (e : string) : io D A := fun d => (Err e, d).
Definition bind {D A B} (m : io D A) (k : A -> io D B) : io D B :=
  fun d => match m d with
           | (Ok a, d') => k a d'
           | (Err e, d') => (Err e, d')
           end.
(** [err := m(); ...]: the error becomes a value the caller inspects or drops. *)
Definition attempt {D A} (m : io D A) : io D (res A) :=
  fun d => let '(r, d') := m d in (Ok r, d').
Definition lift {D A} (r : res A) : io D A := fun d => (r, d).
Definition wrapping {D A} (pre : string) (m : io D A) : io D A :=
  fun d => let '(r, d') := m d in (wrap_err pre r, d').

(** [for _, x := range xs { body }] whose body never aborts the loop. *)
Fixpoint for_each {D A} (xs : list A) (body : A -> io D unit) : io D unit :=
  match xs with
  | [] => ret tt
  | x :: xs => bind (body x) (fun _ => for_each xs body)
  end.

Declare Scope io_scope.
Delimit Scope io_scope with io.
Notation "x <- m ;; k" := (bind m (fun x => k))
  (at level 100, m at next level, right associativity) : io_scope.
Notation "m ;; k" := (bind m (fun _ => k))
  (at level 100, right associativity) : io_scope.
(** ** Machine integers *)

Definition int64_min : Z := - 2 ^ 63.
Definition int64_max : Z := 2 ^ 63 - 1.

(** Two's-complement wrap-around of Go's [int], [int64] and [time.Duration]. *)
Definition wrap64 (z : Z) : Z := (z + 2 ^ 63) mod 2 ^ 64 - 2 ^ 63.
Definition wrapu64 (z : Z) : Z := z mod 2 ^ 64.
Definition in_int64 (z : Z) : Prop := (int64_min <= z <= int64_max)%Z.

Lemma wrap64_in z : in_int64 (wrap64 z).
Proof.
  unfold wrap64, in_int64, int64_min, int64_max.
  pose proof (Z.mod_pos_bound (z + 2 ^ 63) (2 ^ 64)). lia.
Qed.

Lemma wrap64_id z : in_int64 z -> wrap64 z = z.
Proof.
  unfold wrap64, in_int64, int64_min, int64_max. intros H.
  rewrite Z.mod_small; lia.
Qed.

(** ** Tactics shared by the components *)

(** Split every match of a hypothesis or of the goal, keeping the equations. *)
Ltac split_match :=
  repeat (case_match; simplify_eq/=; try done).

Ltac invert H := inversion H; clear H; simplify_eq/=.

(** Two runs of one computation from one world are the same run. *)
Ltac same_run :=
  repeat match goal with
  | H1 : ?x = (_, _), H2 : ?x = (_, _) |- _ => rewrite H1 in H2; simplify_eq/=
  end.

(** One step through a computation in [io]: name the outcome of the call that
    runs first and split on it. *)
Ltac io_step :=
  match goal with
  | H : context [match ?c ?d with (_, _) => _ end] |- _ =>
      let r := fresh "r" in let E := fresh "E" in
      destruct (c d) as [r ?] eqn:E; destruct r; simplify_eq/=
  end.

(** ** Generic lemmas *)

Section results.
Context {D A B : Type}.

Lemma bind_ok (m : io D A) (k : A -> io D B) d b d' :
  bind m k d = (Ok b, d') <->
  exists a d1, m d = (Ok a, d1) /\ k a d1 = (Ok b, d').
Proof.
  unfold bind. destruct (m d) as [[a|e] d1]; split.
  - eauto.
  - intros (a' & d2 & [= -> ->] & ?). done.
  - intros [=].
  - intros (a' & d2 & [=] & ?).
Qed.

Lemma bind_err (m : io D A) (k : A -> io D B) d e d' :
  bind m k d = (Err e, d') <->
  m d = (Err e, d') \/ exists a d1, m d = (Ok a, d1) /\ k a d1 = (Err e, d').
Proof.
  unfold bind. destruct (m d) as [[a|e0] d1]; split.
  - eauto.
  - intros [[=]|(a' & d2 & [= -> ->] & ?)]. done.
  - intros [= -> ->]. by left.
  - intros [[= -> ->]|(a' & d2 & [=] & ?)]. done.
Qed.

Lemma bind_run (m : io D A) (k : A -> io D B) d a d1 : m d = (Ok a, d1) -> bind m k d = k a d1.
Proof. unfold bind. by intros ->. Qed.

Lemma attempt_run (m : io D A) d r d1 : m d = (r, d1) -> attempt m d = (Ok r, d1).
Proof. unfold attempt. by intros ->. Qed.

Lemma attempt_ok (m : io D A) d r d' :
  attempt m d = (Ok r, d') <-> m d = (r, d').
Proof. unfold attempt. destruct (m d). split; by intros [= -> ->]. Qed.

Lemma attempt_never_err (m : io D A) d e d' : attempt m d <> (Err e, d').
Proof. unfold attempt. by destruct (m d). Qed.
End results.

(** ** Instrumentation

    [simulates erase m1 m2]: the computation [m1] over an instrumented world
    does what [m2] does once the instrumentation is erased. *)
Section simulation.
Context {D1 D2 : Type} (erase : D1 -> D2).

Definition simulates {A} (m1 : io D1 A) (m2 : io D2 A) : Prop :=
  forall d, let '(r, d') := m1 d in m2 (erase d) = (r, erase d').

Lemma simulates_ret {A} (a : A) : simulates (ret a) (ret a).
Proof. by intros d. Qed.

Lemma simulates_bind {A B} (m1 : io D1 A) (m2 : io D2 A) (k1 : A -> io D1 B) (k2 : A -> io D2 B) :
  simulates m1 m2 -> (forall a, simulates (k1 a) (k2 a)) ->
  simulates (bind m1 k1) (bind m2 k2).
Proof.
  intros Hm Hk d. unfold bind. specialize (Hm d). destruct (m1 d) as [[a|e] d1]; rewrite Hm; [|done].
  apply Hk.
Qed.

Lemma simulates_attempt {A} (m1 : io D1 A) (m2 : io D2 A) :
  simulates m1 m2 -> simulates (attempt m1) (attempt m2).
Proof. intros Hm d. unfold attempt. specialize (Hm d). destruct (m1 d). by rewrite Hm. Qed.

Lemma simulates_wrapping {A} pre (m1 : io D1 A) (m2 : io D2 A) :
  simulates m1 m2 -> simulates (wrapping pre m1) (wrapping pre m2).
Proof. intros Hm d. unfold wrapping. specialize (Hm d). destruct (m1 d). by rewrite Hm. Qed.

Lemma simulates_lift {A} (r : res A) : simulates (lift r) (lift r).
Proof. by intros d. Qed.

Lemma simulates_fail {A} e : simulates (fail (A := A) e) (fail e).
Proof. by intros d. Qed.

Lemma simulates_for_each {A} (xs : list A) f1 f2 :
  (forall x, simulates (f1 x) (f2 x)) -> simulates (for_each xs f1) (for_each xs f2).
Proof.
  intros Hf. induction xs as [|x xs IH]; [apply simulates_ret|].
  by apply simulates_bind.
Qed.
End simulation.

(** ** A Hoare logic for [io]

    [triple P m Q]: run from a world in [P], [m] ends with a result and a world
    in [Q].  Every [io] computation terminates, so this is total correctness. *)
Section hoare.
Context {D : Type}.

Definition triple {A} (P : D -> Prop) (m : io D A) (Q : res A -> D -> Prop) : Prop :=
  forall d, P d -> let '(r, d') := m d in Q r d'.

Lemma triple_run {A} P (m : io D A) Q d r d' : triple P m Q -> P d -> m d = (r, d') -> Q r d'.
Proof. intros H HP E. specialize (H d HP). by rewrite E in H. Qed.

Lemma triple_ret {A} (a : A) (Q : res A -> D -> Prop) : triple (Q (Ok a)) (ret a) Q.
Proof. by intros d. Qed.

Lemma triple_fail {A} e (Q : res A -> D -> Prop) : triple (Q (Err e)) (fail e) Q.
Proof. by intros d. Qed.

Lemma triple_lift {A} (r : res A) (Q : res A -> D -> Prop) : triple (Q r) (lift r) Q.
Proof. by intros d. Qed.

Lemma triple_weaken {A} P P' (m : io D A) (Q Q' : res A -> D -> Prop) :
  triple P' m Q' -> (forall d, P d -> P' d) -> (forall r d, Q' r d -> Q r d) -> triple P m Q.
Proof.
  intros H HP HQ d Hd. specialize (H d (HP d Hd)). destruct (m d). auto.
Qed.

Lemma triple_bind {A B} P (m : io D A) (k : A -> io D B) (R : A -> D -> Prop) Q :
  triple P m (fun r d => match r with Ok a => R a d | Err e => Q (Err e) d end) ->
  (forall a, triple (R a) (k a) Q) -> triple P (bind m k) Q.
Proof.
  intros Hm Hk d Hd. unfold bind. specialize (Hm d Hd). destruct (m d) as [[a|e] d1]; [|done].
  by apply Hk.
Qed.

Lemma triple_attempt {A} P (m : io D A) Q :
  triple P m (fun r d => Q (Ok r) d) -> triple P (attempt m) Q.
Proof. intros Hm d Hd. unfold attempt. specialize (Hm d Hd). by destruct (m d). Qed.

Lemma triple_wrapping {A} P pre (m : io D A) Q :
  triple P m (fun r d => Q (wrap_err pre r) d) -> triple P (wrapping pre m) Q.
Proof. intros Hm d Hd. unfold wrapping. specialize (Hm d Hd). by destruct (m d). Qed.

(** A loop keeps its invariant, whatever its bodies return. *)
Lemma triple_for_each {A} (I : D -> Prop) (xs : list A) body :
  (forall x, x ∈ xs -> triple I (body x) (fun r d => r = Ok tt /\ I d)) ->
  triple I (for_each xs body) (fun r d => r = Ok tt /\ I d).
Proof.
  induction xs as [|x xs IH]; intros Hb; cbn; [by intros d|].
  eapply (triple_bind _ _ _ (fun _ => I)).
  - eapply triple_weaken; [apply Hb; left|done|]. cbn. by intros r d [-> ?].
  - intros _. apply IH. intros y Hy. apply Hb. by right.
Qed.
End hoare.

Lemma concat_map_elem {A B} (f : A -> list B) l y :
  y ∈ concat (map f l) <-> exists x, x ∈ l /\ y ∈ f x.
Proof.
  rewrite list_elem_of_In, in_concat. split.
  - intros (k & (x & <- & Hx)%in_map_iff & Hy). exists x.
    split; by apply list_elem_of_In.
  - intros (x & Hx & Hy). exists (f x). split; [|by apply list_elem_of_In].
    apply in_map_iff. exists x. split; [done|by apply list_elem_of_In].
Qed.

Section lists.
Context {A : Type}.

Lemma filter_elem (P : A -> bool) (l : list A) x :
  x ∈ List.filter P l <-> x ∈ l /\ P x = true.
Proof. rewrite !list_elem_of_In. apply filter_In. Qed.

Lemma elem_of_snoc (l : list A) x y : x ∈ l ++ [y] <-> x ∈ l \/ x = y.
Proof. rewrite elem_of_app, list_elem_of_singleton. done. Qed.

Lemma existsb_elem (f : A -> bool) l :
  existsb f l = true <-> exists x, x ∈ l /\ f x = true.
Proof. rewrite existsb_exists. by setoid_rewrite list_elem_of_In. Qed.

Lemma forallb_elem (f : A -> bool) l :
  forallb f l = true <-> forall x, x ∈ l -> f x = true.
Proof. rewrite forallb_forall. by setoid_rewrite list_elem_of_In. Qed.
End lists.

Lemma NoDup_map_inj {A B} (f : A -> B) l x y : NoDup (map f l) -> x ∈ l -> y ∈ l -> f x = f y -> x = y.
Proof.
  intros Hn (i & Hi)%list_elem_of_lookup (j & Hj)%list_elem_of_lookup E.
  assert (i = j) as ->; [|congruence]. eapply (NoDup_lookup (map f l)); [done|..].
  - by rewrite list_lookup_fmap, Hi.
  - by rewrite list_lookup_fmap, Hj, E.
Qed.

Lemma NoDup_map_filter {A B} (key : A -> B) (p : A -> bool) l : NoDup (map key l) -> NoDup (map key (List.filter p l)).
Proof.
  induction l as [|x l IH]; cbn; [done|]. intros [Hx Hn]%NoDup_cons.
  destruct (p x); cbn; [|by apply IH]. apply NoDup_cons. split; [|by apply IH].
  intros (y & E & [Hy _]%filter_elem)%list_elem_of_fmap. apply Hx. rewrite E. by apply list_elem_of_fmap_2.
Qed.

Lemma list_to_set_size_le `{Countable K} (l : list K) : size (list_to_set l : gset K) <= length l.
Proof.
  induction l as [|x l IH]; cbn; [by rewrite size_empty|].
  rewrite size_union_alt, size_singleton.
  enough (size ((list_to_set l : gset K) ∖ {[x]}) <= size (list_to_set l : gset K)) by lia.
  apply subseteq_size. set_solver.
Qed.

Create HintDb sigma discriminated.
#[export] Hint Resolve wrap64_in : sigma.
#[export] Hint Resolve simulates_ret simulates_bind simulates_attempt simulates_wrapping
  simulates_lift simulates_fail simulates_for_each : sigma.
Create Rewrite HintDb sigma_rw.
#[export] Hint Rewrite @elem_of_snoc @filter_elem @existsb_elem @forallb_elem : sigma_rw.
