(* ===== verification/GoStrings.v ===== *)
(** * The parts of Go's [strings], [strconv] and [fmt] the program uses

    A Go string is a byte string, modelled as [string] (a list of 8-bit
    [ascii]); every function below works on bytes, as Go's indexing does. *)

From stdpp Require Import pretty sorting.
From S2P Require Import Prelude.
From Stdlib Require Import Ascii String.

Local Open Scope string_scope.

(** ** Searching *)

(** [strings.HasPrefix] *)
Fixpoint has_prefix (s p : string) {struct p} : bool :=
  match p, s with
  | EmptyString, _ => true
  | String a p, String b s => Ascii.eqb a b && has_prefix s p
  | String _ _, EmptyString => false
  end.

(** [strings.Contains] *)
Fixpoint contains (s sub : string) : bool :=
  has_prefix s sub ||
  match s with
  | EmptyString => false
  | String _ s => contains s sub
  end.

Fixpoint has_char (s : string) (c : ascii) : bool :=
  match s with
  | EmptyString => false
  | String b s => Ascii.eqb b c || has_char s c
  end.

(** [strings.ContainsAny] for ASCII [chars] *)
Fixpoint contains_any (s chars : string) : bool :=
  match s with
  | EmptyString => false
  | String b s => has_char chars b || contains_any s chars
  end.

(** [s[i+1:]] for [i := strings.LastIndex(s, c)], with the byte before kept in
    the first component ([s[:i]]); [None] when [i < 0]. *)
Fixpoint cut_last (s : string) (c : ascii) : option (string * string) :=
  match s with
  | EmptyString => None
  | String b s =>
      match cut_last s c with
      | Some (l, r) => Some (String b l, r)
      | None => if Ascii.eqb b c then Some ("", s) else None
      end
  end.

(** [strings.Cut] at a one-byte separator *)
Fixpoint cut (s : string) (c : ascii) : option (string * string) :=
  match s with
  | EmptyString => None
  | String b s =>
      if Ascii.eqb b c then Some ("", s)
      else match cut s c with
           | Some (l, r) => Some (String b l, r)
           | None => None
           end
  end.

(** [s[n:]] and [s[:n]] (total here; Go panics out of range) *)
Fixpoint sdrop (n : nat) (s : string) : string :=
  match n, s with
  | O, _ => s
  | S n, String _ s => sdrop n s
  | S _, EmptyString => EmptyString
  end.

Fixpoint stake (n : nat) (s : string) : string :=
  match n, s with
  | O, _ => EmptyString
  | S n, String b s => String b (stake n s)
  | S _, EmptyString => EmptyString
  end.

(** [strings.TrimPrefix] *)
Definition trim_prefix (s p : string) : string :=
  if has_prefix s p then sdrop (String.length p) s else s.

(** [strings.TrimLeft(s, cutset)] and its mirror, for a predicate on bytes *)
Fixpoint trim_left (f : ascii -> bool) (s : string) : string :=
  match s with
  | String b s' => if f b then trim_left f s' else s
  | EmptyString => s
  end.

Fixpoint trim_right (f : ascii -> bool) (s : string) : string :=
  match s with
  | EmptyString => EmptyString
  | String b s =>
      match trim_right f s with
      | EmptyString => if f b then EmptyString else String b EmptyString
      | s' => String b s'
      end
  end.

Definition trim (f : ascii -> bool) (s : string) : string := trim_right f (trim_left f s).

Definition is_byte (c : ascii) : ascii -> bool := fun b => Ascii.eqb b c.

(** The ASCII white space [strings.TrimSpace] removes. *)
Definition is_space (b : ascii) : bool :=
  let n := nat_of_ascii b in (n =? 32)%nat || ((9 <=? n)%nat && (n <=? 13)%nat).

Definition trim_space : string -> string := trim is_space.

Fixpoint smap (f : ascii -> ascii) (s : string) : string :=
  match s with
  | EmptyString => EmptyString
  | String b s => String (f b) (smap f s)
  end.

Fixpoint sforall (f : ascii -> bool) (s : string) : bool :=
  match s with
  | EmptyString => true
  | String b s => f b && sforall f s
  end.

Definition in_range (lo hi : ascii) (b : ascii) : bool :=
  (nat_of_ascii lo <=? nat_of_ascii b)%nat && (nat_of_ascii b <=? nat_of_ascii hi)%nat.

Definition is_lower : ascii -> bool := in_range "a"%char "z"%char.
Definition is_upper : ascii -> bool := in_range "A"%char "Z"%char.
Definition is_digit : ascii -> bool := in_range "0"%char "9"%char.

(** [strings.ToLower] and [strings.ToUpper] on ASCII *)
Definition lower_byte (b : ascii) : ascii :=
  if is_upper b then ascii_of_nat (nat_of_ascii b + 32) else b.
Definition upper_byte (b : ascii) : ascii :=
  if is_lower b then ascii_of_nat (nat_of_ascii b - 32) else b.
Definition to_lower : string -> string := smap lower_byte.
Definition to_upper : string -> string := smap upper_byte.

(** [strings.EqualFold] on ASCII *)
Definition equal_fold (a b : string) : bool := String.eqb (to_lower a) (to_lower b).

(** ** Formatting *)

(** [%d] *)
Definition dec (z : Z) : string := pretty z.

Fixpoint repeat_byte (n : nat) (b : ascii) : string :=
  match n with O => EmptyString | S n => String b (repeat_byte n b) end.

(** [%020d]: zero-padded to twenty bytes, the sign first. *)
Definition dec020 (z : Z) : string :=
  let digits := pretty (Z.abs_N z) in
  if (z <? 0)%Z
  then String "-"%char (repeat_byte (19 - String.length digits) "0"%char +:+ digits)
  else repeat_byte (20 - String.length digits) "0"%char +:+ digits.

Definition dquote : ascii := ascii_of_nat 34.
Definition backslash : ascii := ascii_of_nat 92.

Definition hex_digit (n : nat) : ascii :=
  ascii_of_nat (if (n <? 10)%nat then 48 + n else 87 + n).

(** [%q]: exact on ASCII; a byte at or above 0x80 is passed through, as Go
    passes the bytes of a printable rune through. *)
Definition quote_byte (b : ascii) : string :=
  let n := nat_of_ascii b in
  let esc c := String backslash (String c EmptyString) in
  if Ascii.eqb b dquote || Ascii.eqb b backslash then esc b
  else if (n =? 7)%nat then esc "a"%char else if (n =? 8)%nat then esc "b"%char
  else if (n =? 9)%nat then esc "t"%char else if (n =? 10)%nat then esc "n"%char
  else if (n =? 11)%nat then esc "v"%char else if (n =? 12)%nat then esc "f"%char
  else if (n =? 13)%nat then esc "r"%char
  else if (n <? 32)%nat || (n =? 127)%nat
  then String backslash (String "x"%char (String (hex_digit (n / 16)) (String (hex_digit (n mod 16)) EmptyString)))
  else String b EmptyString.

Fixpoint quote_bytes (s : string) : string :=
  match s with
  | EmptyString => EmptyString
  | String b s => quote_byte b +:+ quote_bytes s
  end.

Definition quote (s : string) : string :=
  String dquote (quote_bytes s +:+ String dquote EmptyString).

(** ** [strings.Join] *)

Fixpoint join_with (sep : string) (l : list string) : string :=
  match l with
  | [] => ""
  | [x] => x
  | x :: l => x +:+ sep +:+ join_with sep l
  end.

(** ** [sort.Strings] *)

Definition str_le (a b : string) : Prop := String.leb a b = true.
#[export] Instance str_le_dec a b : Decision (str_le a b).
Proof. unfold str_le. apply _. Defined.
Definition sort_strings : list string -> list string := merge_sort str_le.

(** [base64.Encoding.EncodeToString], by the last two characters of the
    alphabet *)
Definition b64_char (c62 c63 : ascii) (n : nat) : ascii :=
  if (n <? 26)%nat then ascii_of_nat (65 + n)
  else if (n <? 52)%nat then ascii_of_nat (71 + n)
  else if (n <? 62)%nat then ascii_of_nat (n - 4)
  else if (n =? 62)%nat then c62 else c63.
Fixpoint b64 (c62 c63 : ascii) (s : string) : string :=
  let char := b64_char c62 c63 in
  match s with
  | EmptyString => ""
  | String a EmptyString =>
      let x := nat_of_ascii a in
      String (char (x / 4)) (String (char (x mod 4 * 16)) "==")
  | String a (String b EmptyString) =>
      let x := nat_of_ascii a in let y := nat_of_ascii b in
      String (char (x / 4)) (String (char (x mod 4 * 16 + y / 16))
        (String (char (y mod 16 * 4)) "="))
  | String a (String b (String c s)) =>
      let x := nat_of_ascii a in let y := nat_of_ascii b in let z := nat_of_ascii c in
      String (char (x / 4)) (String (char (x mod 4 * 16 + y / 16))
        (String (char (y mod 16 * 4 + z / 64)) (String (char (z mod 64)) (b64 c62 c63 s))))
  end%nat.

Definition b64_url : string -> string := b64 "-" "_".
Definition b64_std : string -> string := b64 "+" "/".

(** *** Durations, in nanoseconds *)

Definition Second : Z := 1000000000.
Definition Minute : Z := 60 * Second.

(** Zero-padded to [n] digits. *)
Definition dec_pad (n : nat) (z : Z) : string :=
  let digits := pretty (Z.abs_N z) in
  repeat_byte (n - String.length digits) "0"%char +:+ digits.

(** [fmtFrac]: the fraction of [v] over [10^prec], trailing zeros dropped. *)
Definition frac_string (v : Z) (prec : nat) : string :=
  let f := (v mod 10 ^ Z.of_nat prec)%Z in
  if (f =? 0)%Z then ""
  else "." +:+ trim_right (is_byte "0"%char) (dec_pad prec f).

(** [time.Duration.String] *)
Definition dur_string (d : Z) : string :=
  let u := Z.abs d in
  let unit v prec sfx := dec (v / 10 ^ Z.of_nat prec) +:+ frac_string v prec +:+ sfx in
  let body :=
    if (u =? 0)%Z then "0s"
    else if (u <? 1000)%Z then unit u 0 "ns"
    else if (u <? 1000000)%Z then
      unit u 3 (String (ascii_of_nat 194) (String (ascii_of_nat 181) "s"))
    else if (u <? Second)%Z then unit u 6 "ms"
    else
      let secs := (u / Second)%Z in
      let s := dec (secs mod 60) +:+ frac_string u 9 +:+ "s" in
      if (secs <? 60)%Z then s
      else let mins := (secs / 60)%Z in
           let m := dec (mins mod 60) +:+ "m" +:+ s in
           if (mins <? 60)%Z then m else dec (mins / 60) +:+ "h" +:+ m in
  if (d <? 0)%Z then "-" +:+ body else body.

Example dur_string_15m : dur_string (15 * Minute) = "15m0s".
Proof. vm_compute. reflexivity. Qed.
Example dur_string_frac : dur_string 1500000000 = "1.5s".
Proof. vm_compute. reflexivity. Qed.

(** ** Lemmas *)

#[local] Arguments String.append !_ _ / : simpl nomatch.

Lemma app_nil_r_str s : s +:+ "" = s.
Proof. induction s as [|b s IH]; [done|]. cbn. by rewrite IH. Qed.

Lemma app_assoc_str a b c : (a +:+ b) +:+ c = a +:+ (b +:+ c).
Proof. induction a as [|x a IH]; [done|]. cbn. by f_equal. Qed.

Lemma length_app_str a b : String.length (a +:+ b) = (String.length a + String.length b)%nat.
Proof. induction a as [|x a IH]; [done|]. cbn. by f_equal. Qed.

Lemma app_inj_l a b c : a +:+ b = a +:+ c -> b = c.
Proof. induction a as [|x a IH]; [done|]. cbn. intros [= ?]. auto. Qed.

Lemma app_inj_len a b c d :
  String.length a = String.length c -> a +:+ b = c +:+ d -> a = c /\ b = d.
Proof.
  revert c. induction a as [|x a IH]; intros [|y c] L E; try done.
  cbn in *. injection E as -> E. injection L as L.
  destruct (IH _ L E) as [-> ->]. done.
Qed.

Lemma has_prefix_spec s p : has_prefix s p = true <-> exists t, s = p +:+ t.
Proof.
  revert s. induction p as [|a p IH]; intros s.
  { split; [intros _; by exists s | done]. }
  destruct s as [|b s]; cbn.
  - split; [done | intros (t & [=])].
  - rewrite andb_true_iff, IH, Ascii.eqb_eq. split.
    + intros (-> & t & ->). by exists t.
    + intros (t & [= -> ->]). eauto.
Qed.

Lemma has_prefix_app p t : has_prefix (p +:+ t) p = true.
Proof. apply has_prefix_spec. by exists t. Qed.

Lemma has_prefix_app_same p s t : has_prefix (p +:+ s) (p +:+ t) = has_prefix s t.
Proof. induction p as [|a p IH]; [done|]. cbn. by rewrite Ascii.eqb_refl. Qed.

Lemma has_prefix_nil s : has_prefix s "" = true.
Proof. by destruct s. Qed.

Lemma contains_spec s sub : contains s sub = true <-> exists a b, s = a +:+ sub +:+ b.
Proof.
  induction s as [|c s IH]; cbn [contains]; rewrite orb_true_iff, has_prefix_spec.
  - split.
    + intros [(t & ->)|[=]]. by exists "", t.
    + intros (a & b & E). left. destruct a; [by exists b | done].
  - rewrite IH. split.
    + intros [(t & E)|(a & b & ->)]; [by exists "", t | by exists (String c a), b].
    + intros ([|x a] & b & E); [left; by exists b | right; injection E as -> ->; eauto].
Qed.

Lemma has_char_spec s c : has_char s c = true <-> exists a b, s = a +:+ String c b.
Proof.
  induction s as [|x s IH]; cbn.
  - split; [done|]. intros ([|? ?] & b & [=]).
  - rewrite orb_true_iff, IH, Ascii.eqb_eq. split.
    + intros [->|(a & b & ->)]; [by exists "", s | by exists (String x a), b].
    + intros ([|y a] & b & [= -> ->]); [by left | right; eauto].
Qed.

Lemma has_char_cons b s c : has_char (String b s) c = true <-> b = c \/ has_char s c = true.
Proof. cbn [has_char]. by rewrite orb_true_iff, Ascii.eqb_eq. Qed.

Lemma has_char_app a b c : has_char (a +:+ b) c = has_char a c || has_char b c.
Proof. induction a as [|x a IH]; [done|]. cbn. by rewrite IH, orb_assoc. Qed.

Lemma contains_any_app a b cs : contains_any (a +:+ b) cs = contains_any a cs || contains_any b cs.
Proof. induction a as [|x a IH]; [done|]. cbn. by rewrite IH, orb_assoc. Qed.

Lemma contains_any_spec s cs :
  contains_any s cs = true <-> exists c, has_char cs c = true /\ has_char s c = true.
Proof.
  induction s as [|x s IH]; cbn.
  - split; [done | by intros (? & _ & ?)].
  - rewrite orb_true_iff, IH. split.
    + intros [H|(c & ? & ?)]; [exists x | exists c]; split; auto.
      * by rewrite Ascii.eqb_refl.
      * by rewrite orb_true_iff; right.
    + intros (c & H & [->%Ascii.eqb_eq|H']%orb_true_iff); [by left | right; eauto].
Qed.


(** [s[:i] ++ c ++ s[i+1:] = s], and [c] does not occur after [i]. *)
Lemma cut_last_none s c : cut_last s c = None <-> has_char s c = false.
Proof.
  induction s as [|b s IH]; cbn; [done|].
  destruct (cut_last s c) as [[l r]|].
  - split; [done|]. intros [_ H]%orb_false_iff. by apply IH in H.
  - rewrite (proj1 IH eq_refl), orb_false_r. by destruct (Ascii.eqb b c).
Qed.

Lemma cut_last_spec s c l r :
  cut_last s c = Some (l, r) <-> s = l +:+ String c r /\ has_char r c = false.
Proof.
  revert l r. induction s as [|b s IH]; intros l r; cbn.
  { split; [done | intros [E _]; by destruct l]. }
  destruct (cut_last s c) as [[l' r']|] eqn:E.
  - pose proof (proj1 (IH l' r') eq_refl) as [-> H]. split.
    + by intros [= <- <-].
    + intros [E' H']. destruct l as [|y l]; injection E' as -> E'.
      * rewrite <- E', has_char_app in H'. cbn in H'.
        by rewrite Ascii.eqb_refl, orb_true_r in H'.
      * apply (conj E'), IH in H'. by injection H' as -> ->.
  - apply cut_last_none in E. split.
    + destruct (Ascii.eqb b c) eqn:Eb; [|done].
      apply Ascii.eqb_eq in Eb as ->. by intros [= <- <-].
    + intros [E' H']. destruct l as [|y l]; injection E' as -> E'.
      * by rewrite Ascii.eqb_refl, E'.
      * rewrite E', has_char_app in E. cbn in E.
        by rewrite Ascii.eqb_refl, orb_true_r in E.
Qed.

Lemma cut_spec s c l r :
  cut s c = Some (l, r) <-> s = l +:+ String c r /\ has_char l c = false.
Proof.
  revert l r. induction s as [|b s IH]; intros l r; cbn.
  { split; [done | intros [E _]; by destruct l]. }
  destruct (Ascii.eqb b c) eqn:Eb.
  - apply Ascii.eqb_eq in Eb as ->. split; [by intros [= <- <-]|].
    intros [E H]. destruct l as [|y l]; injection E; [by intros ->|].
    intros _ <-. cbn in H. by rewrite Ascii.eqb_refl in H.
  - destruct (cut s c) as [[l' r']|] eqn:E; split.
    + intros [= <- <-]. destruct (proj1 (IH l' r') eq_refl) as [-> H]. cbn. by rewrite Eb.
    + intros [E' H]. destruct l as [|y l]; injection E' as -> E'.
      { by rewrite Ascii.eqb_refl in Eb. }
      cbn in H. rewrite Eb in H. apply (conj E'), IH in H. by injection H as -> ->.
    + done.
    + intros [E' H]. destruct l as [|y l]; injection E' as -> E'.
      { by rewrite Ascii.eqb_refl in Eb. }
      cbn in H. rewrite Eb in H. by apply (conj E'), IH in H.
Qed.

(** What precedes the first [c] contains any [c]-free prefix. *)
Lemma prefix_before_char p c u l r :
  p +:+ u = l +:+ String c r -> has_char p c = false -> exists y, l = p +:+ y.
Proof.
  revert l. induction p as [|a p IH]; intros l E Hp; [by exists l|]. cbn in Hp.
  apply orb_false_iff in Hp as [Ha Hp]. destruct l as [|b l]; cbn in E.
  - injection E as -> _. by rewrite Ascii.eqb_refl in Ha.
  - injection E as -> E. destruct (IH l E Hp) as (y & ->). by exists y.
Qed.

Lemma sforall_app f a b : sforall f (a +:+ b) = sforall f a && sforall f b.
Proof. induction a as [|x a IH]; [done|]. cbn. by rewrite IH, andb_assoc. Qed.

Lemma sforall_spec f s :
  sforall f s = true <-> forall c, has_char s c = true -> f c = true.
Proof.
  induction s as [|b s IH]; cbn; [done|].
  rewrite andb_true_iff, IH. split.
  - intros [Hb H] c [->%Ascii.eqb_eq|?]%orb_true_iff; auto.
  - intros H. split; [apply H; by rewrite Ascii.eqb_refl|].
    intros c Hc. apply H. by rewrite Hc, orb_true_r.
Qed.

Lemma sforall_impl (f g : ascii -> bool) s :
  (forall c, f c = true -> g c = true) -> sforall f s = true -> sforall g s = true.
Proof. rewrite !sforall_spec. eauto. Qed.

Lemma length_repeat_byte n b : String.length (repeat_byte n b) = n.
Proof. induction n; cbn; congruence. Qed.

Lemma length_smap f s : String.length (smap f s) = String.length s.
Proof. induction s; cbn; congruence. Qed.

Lemma length_stake n s : String.length (stake n s) = min n (String.length s).
Proof. revert s. induction n; intros [|? ?]; cbn; auto. Qed.

Lemma stake_sdrop n s : stake n s +:+ sdrop n s = s.
Proof. revert s. induction n; intros [|? ?]; cbn; [done..|]. by f_equal. Qed.

Lemma sdrop_app a b : sdrop (String.length a) (a +:+ b) = b.
Proof. by induction a. Qed.

Lemma trim_prefix_app p s : trim_prefix (p +:+ s) p = s.
Proof. unfold trim_prefix. by rewrite has_prefix_app, sdrop_app. Qed.

(** *** Decimal rendering *)

Lemma pretty_N_digit_char x : (x < 10)%N -> is_digit (pretty_N_char x) = true.
Proof. intros H. destruct x as [|[[[|[]|]|[|[]|]|]|[[]|[|[]|]|]|]]; try done; lia. Qed.

Lemma pretty_N_go_digits x s : sforall is_digit s = true -> sforall is_digit (pretty_N_go x s) = true.
Proof.
  revert s. induction (N.lt_wf_0 x) as [x _ IH]. intros s Hs.
  destruct (decide (0 < x)%N).
  - rewrite pretty_N_go_step; [|lia]. apply IH; [apply N.div_lt; lia|].
    cbn. rewrite Hs, pretty_N_digit_char; [done|]. apply N.mod_lt. lia.
  - assert (x = 0%N) as -> by lia. by rewrite pretty_N_go_0.
Qed.

Lemma pretty_N_digits (x : N) : sforall is_digit (pretty x) = true.
Proof.
  unfold pretty, pretty_N. destruct (decide (x = 0)%N); [done|]. by apply pretty_N_go_digits.
Qed.

Lemma pretty_N_go_length x s n :
  (x < 10 ^ N.of_nat n)%N ->
  (String.length (pretty_N_go x s) <= n + String.length s)%nat.
Proof.
  revert x s. induction n as [|n IH]; intros x s H.
  - assert (x = 0%N) as -> by (cbn in H; lia). rewrite pretty_N_go_0. lia.
  - destruct (decide (0 < x)%N).
    + rewrite pretty_N_go_step; [|lia].
      eapply Nat.le_trans; [apply IH|cbn; lia].
      rewrite Nat2N.inj_succ, N.pow_succ_r' in H. apply N.Div0.div_lt_upper_bound. lia.
    + assert (x = 0%N) as -> by lia. rewrite pretty_N_go_0. lia.
Qed.

Lemma pretty_N_length (x : N) n :
  (0 < n)%nat -> (x < 10 ^ N.of_nat n)%N -> (String.length (pretty x) <= n)%nat.
Proof.
  intros Hn H. unfold pretty, pretty_N. destruct (decide (x = 0)%N); [cbn; lia|].
  pose proof (pretty_N_go_length x "" n H). cbn in *. lia.
Qed.

(** The number a digit string denotes, read left to right. *)
Definition digit_val (c : ascii) : N := N_of_ascii c - 48.
Fixpoint digits_val (acc : N) (s : string) : N :=
  match s with
  | EmptyString => acc
  | String c s => digits_val (acc * 10 + digit_val c) s
  end.

Lemma digit_val_char x : (x < 10)%N -> digit_val (pretty_N_char x) = x.
Proof. intros H. destruct x as [|[[[|[]|]|[|[]|]|]|[[]|[|[]|]|]|]]; try done; lia. Qed.

Lemma digits_val_go x s : digits_val 0 (pretty_N_go x s) = digits_val x s.
Proof.
  revert s. induction (N.lt_wf_0 x) as [x _ IH]. intros s.
  destruct (decide (0 < x)%N).
  - rewrite pretty_N_go_step; [|lia]. rewrite IH; [|apply N.div_lt; lia]. cbn.
    rewrite digit_val_char; [|apply N.mod_lt; lia]. f_equal.
    pose proof (N.div_mod x 10). lia.
  - assert (x = 0%N) as -> by lia. by rewrite pretty_N_go_0.
Qed.

Lemma digits_val_pretty (x : N) : digits_val 0 (pretty x) = x.
Proof.
  unfold pretty, pretty_N. destruct (decide (x = 0)%N) as [->|]; [done|]. by rewrite digits_val_go.
Qed.

Lemma digits_val_zeros n s : digits_val 0 (repeat_byte n "0"%char +:+ s) = digits_val 0 s.
Proof. by induction n. Qed.

Lemma zero_padded_inj n m (x y : N) :
  repeat_byte n "0"%char +:+ pretty x = repeat_byte m "0"%char +:+ pretty y -> x = y.
Proof.
  intros E%(f_equal (digits_val 0)). by rewrite !digits_val_zeros, !digits_val_pretty in E.
Qed.

Lemma sforall_repeat f n b : f b = true -> sforall f (repeat_byte n b) = true.
Proof. intros H. induction n; cbn; [done|by rewrite H]. Qed.

Lemma zero_padded_digits n (x : N) : sforall is_digit (repeat_byte n "0"%char +:+ pretty x) = true.
Proof. by rewrite sforall_app, sforall_repeat, pretty_N_digits. Qed.
