(* ===== verification/Json.v ===== *)
(** * JSON values and the struct codecs of [encoding/json]

    A [json.RawMessage] is held as the value it parses to.  Encoding a struct
    lists its fields in declaration order and drops the empty [omitempty]
    ones; decoding looks fields up by name (case-insensitively, as Go does),
    leaves absent and null fields at their zero value and rejects a value of
    the wrong type.  A repeated key keeps its last value. *)

From stdpp Require Import sorting.
From S2P Require Import Prelude GoStrings.
From Stdlib Require Import SpecFloat.

Local Open Scope string_scope.

Unset Elimination Schemes.
Inductive json : Type :=
| JNull
| JBool (b : bool)
| JInt (z : Z)             (* an integer literal *)
| JReal (f : spec_float)   (* the float64 a literal denotes *)
| JStr (s : string)
| JArr (vs : list json)
| JObj (fs : list (string * json)).
Set Elimination Schemes.

(** ** Encoding *)

(** The fields of a struct in declaration order, [None] where [omitempty]
    drops the field. *)
Definition fields := list (string * option json).

Fixpoint omit (fs : fields) : list (string * json) :=
  match fs with
  | [] => []
  | (k, Some v) :: fs => (k, v) :: omit fs
  | (_, None) :: fs => omit fs
  end.

Definition JStruct (fs : fields) : json := JObj (omit fs).

Definition keep (v : json) : option json := Some v.
Definition omit_str (s : string) : option json :=
  if String.eqb s "" then None else Some (JStr s).
Definition omit_int (z : Z) : option json := if (z =? 0)%Z then None else Some (JInt z).
Definition omit_bool (b : bool) : option json := if b then Some (JBool true) else None.
Definition omit_list {A} (enc : A -> json) (l : list A) : option json :=
  match l with [] => None | _ => Some (JArr (map enc l)) end.

(** [encoding/json] writes the keys of a map in sorted order. *)
Definition key_le (a b : string * string) : Prop := String.leb a.1 b.1 = true.
#[export] Instance key_le_dec a b : Decision (key_le a b).
Proof. unfold key_le. apply _. Defined.

Definition enc_map (m : gmap string string) : json :=
  JObj (map (fun kv => (kv.1, JStr kv.2)) (merge_sort key_le (map_to_list m))).
Definition omit_map (m : gmap string string) : option json :=
  if decide (m = ∅) then None else Some (enc_map m).

(** ** Decoding *)

Fixpoint jget (fs : list (string * json)) (k : string) : option json :=
  match fs with
  | [] => None
  | (k', v) :: fs =>
      match jget fs k with
      | Some v' => Some v'
      | None => if equal_fold k' k then Some v else None
      end
  end.

(** A field of type string, int, bool, float64, slice, map or struct. *)
Definition dec_str (o : option json) : option string :=
  match o with
  | None | Some JNull => Some ""
  | Some (JStr s) => Some s
  | _ => None
  end.

Definition dec_int (o : option json) : option Z :=
  match o with
  | None | Some JNull => Some 0%Z
  | Some (JInt z) => if ((int64_min <=? z) && (z <=? int64_max))%Z then Some z else None
  | _ => None
  end.

(** A field of type [uint64] *)
Definition dec_uint (o : option json) : option Z :=
  match o with
  | None | Some JNull => Some 0%Z
  | Some (JInt z) => if ((0 <=? z) && (z <? 2 ^ 64))%Z then Some z else None
  | _ => None
  end.

Definition dec_bool (o : option json) : option bool :=
  match o with
  | None | Some JNull => Some false
  | Some (JBool b) => Some b
  | _ => None
  end.

(** The float64 nearest to an integer literal (binary64: 53 bits, emax 1024). *)
Definition float_of_Z (z : Z) : spec_float := binary_normalize 53 1024 z 0 false.

Definition dec_float (o : option json) : option spec_float :=
  match o with
  | None | Some JNull => Some (S754_zero false)
  | Some (JReal f) => Some f
  | Some (JInt z) => Some (float_of_Z z)
  | _ => None
  end.

Definition dec_list {A} (d : json -> option A) (o : option json) : option (list A) :=
  match o with
  | None | Some JNull => Some []
  | Some (JArr vs) => mapM d vs
  | _ => None
  end.

Definition dec_map (o : option json) : option (gmap string string) :=
  match o with
  | None | Some JNull => Some ∅
  | Some (JObj fs) =>
      l ← mapM (fun kv => v ← dec_str (Some kv.2); Some (kv.1, v)) fs;
      Some (list_to_map (rev l))
  | _ => None
  end.

(** [json.Unmarshal] into a struct: null leaves the zero value, anything but
    an object is an error. *)
Definition dec_struct {A} (d : list (string * json) -> option A) (v : json) : option A :=
  match v with
  | JNull => d []
  | JObj fs => d fs
  | _ => None
  end.

Definition dec_struct_field {A} (d : list (string * json) -> option A) (o : option json) : option A :=
  dec_struct d (default JNull o).

(** The field of an object. *)
Definition jfield (v : json) (k : string) : option json :=
  match v with JObj fs => jget fs k | _ => None end.

(** A string element of an array. *)
Definition dec_elem_str (v : json) : option string := dec_str (Some v).

(** ** Reading back what was written *)

(** What [jget] finds among fields some of which were dropped. *)
Definition pick (b : bool) (o r : option json) : option json :=
  if b then match r with Some v => Some v | None => o end else r.
Fixpoint oget (fs : fields) (k : string) : option json :=
  match fs with
  | [] => None
  | (k', o) :: fs => pick (equal_fold k' k) o (oget fs k)
  end.

Lemma jget_omit fs k : jget (omit fs) k = oget fs k.
Proof.
  unfold pick. induction fs as [|[k' [v|]] fs IH]; cbn; [done| |]; rewrite IH; unfold pick;
    by destruct (equal_fold k' k), (oget fs k).
Qed.

Lemma omit_keys fs k : k ∈ (omit fs).*1 -> k ∈ fs.*1.
Proof.
  induction fs as [|[k' [v|]] fs IH]; cbn; [done| |]; rewrite !elem_of_cons; tauto.
Qed.

(** Evaluate field look-ups by literal names. *)
Ltac eval_fields :=
  rewrite ?jget_omit; cbn [oget];
  repeat match goal with
  | |- context [equal_fold ?a ?b] =>
      let v := eval vm_compute in (equal_fold a b) in
      change (equal_fold a b) with v
  end; cbv beta iota delta [pick].

Lemma dec_omit_str s : dec_str (omit_str s) = Some s.
Proof. unfold omit_str. by destruct (String.eqb_spec s "") as [->|]. Qed.

Lemma dec_keep_str s : dec_str (keep (JStr s)) = Some s.
Proof. done. Qed.

Lemma in_int64_b z :
  in_int64 z -> ((int64_min <=? z) && (z <=? int64_max))%Z = true.
Proof. unfold in_int64. rewrite andb_true_iff, !Z.leb_le. lia. Qed.

Lemma dec_keep_int z : in_int64 z -> dec_int (keep (JInt z)) = Some z.
Proof. intros H. unfold keep, dec_int. by rewrite in_int64_b. Qed.

Lemma dec_omit_int z : in_int64 z -> dec_int (omit_int z) = Some z.
Proof.
  intros H. unfold omit_int. destruct (Z.eqb_spec z 0) as [->|]; [done|].
  by apply dec_keep_int.
Qed.

Lemma dec_omit_bool b : dec_bool (omit_bool b) = Some b.
Proof. by destruct b. Qed.

Lemma mapM_enc {A} (enc : A -> json) (d : json -> option A) l :
  (forall x, x ∈ l -> d (enc x) = Some x) -> mapM d (map enc l) = Some l.
Proof.
  induction l as [|x l IH]; intros H; [done|]. cbn.
  rewrite H; [|left]. cbn. rewrite IH; [done|]. intros y Hy. apply H. by right.
Qed.

Lemma dec_omit_list {A} (enc : A -> json) (d : json -> option A) l :
  (forall x, x ∈ l -> d (enc x) = Some x) -> dec_list d (omit_list enc l) = Some l.
Proof. intros H. destruct l as [|x l]; [done|]. unfold omit_list, dec_list. by apply mapM_enc. Qed.

Lemma dec_keep_struct {A} (d : list (string * json) -> option A) fs :
  dec_struct_field d (keep (JStruct fs)) = d (omit fs).
Proof. done. Qed.

Lemma dec_keep_list {A} (enc : A -> json) (d : json -> option A) l :
  (forall x, x ∈ l -> d (enc x) = Some x) -> dec_list d (keep (JArr (map enc l))) = Some l.
Proof. apply mapM_enc. Qed.

Lemma mapM_strs l :
  mapM (fun kv : string * json => v ← dec_str (Some kv.2); Some (kv.1, v))
       (map (fun kv => (kv.1, JStr kv.2)) l) = Some l.
Proof. induction l as [|[k v] l IH]; [done|]. cbn in *. by rewrite IH. Qed.

Lemma dec_enc_map m : dec_map (Some (enc_map m)) = Some m.
Proof.
  unfold dec_map, enc_map. rewrite mapM_strs. cbn. f_equal.
  rewrite <- (list_to_map_to_list m) at 2. 
  assert (P : rev (merge_sort key_le (map_to_list m)) ≡ₚ map_to_list m).
  { by rewrite <- Permutation_rev, merge_sort_Permutation. }
  apply list_to_map_proper; [|done].
  rewrite P. apply NoDup_fst_map_to_list.
Qed.

Lemma dec_omit_map m : dec_map (omit_map m) = Some m.
Proof. unfold omit_map. case_decide; subst; [done|]. apply dec_enc_map. Qed.

#[export] Hint Resolve dec_omit_str dec_keep_str dec_omit_bool dec_omit_map
  dec_omit_int dec_keep_int : sigma.
