(* ===== verification/Dsd.v ===== *)
(** * The Desired-State Document and its dependency order

    Models [agent/internal/dsd/dsd.go] ([cp/internal/dsd/dsd.go] holds the
    same types and the same [TopoOrder]).  [TopoOrder]'s recursive closure
    [visit] becomes [visit] below: its captured maps are the record [dfs], and
    its recursion depth is bounded by fuel, one unit per id not yet seen;
    [visit_spec] shows that the fuel [TopoOrder] starts with is enough. *)

From S2P Require Import Prelude GoStrings Json.

Record Op := mkOp {
  op_ID : string;
  op_Kind : string;
  op_DependsOn : list string;
  op_Spec : json;
}.

Record Document := mkDocument {
  doc_Version : Z;
  doc_OrgID : string;
  doc_ServerID : string;
  doc_Ops : list Op;
}.

Record Signed := mkSigned {
  sg_Document : Document;
  sg_Signature : string;
}.

(** ** Signature check *)

Section verify.
(** [json.Marshal], [base64.StdEncoding] and [crypto/ed25519]. *)
Context (marshal : Document -> string) (b64_decode : string -> option string)
        (ed25519_verify : string -> string -> string -> bool).

(** [ed25519.PublicKeySize] *)
Definition PublicKeySize : nat := 32.

Definition Verify (pubB64 : string) (s : Signed) : res unit :=
  match b64_decode pubB64 with
  | None => Err "dsd: bad pinned key"
  | Some raw =>
      if negb (String.length raw =? PublicKeySize)%nat
      then Err ("dsd: pinned key is " +:+ dec (Z.of_nat (String.length raw)) +:+
                " bytes, want " +:+ dec (Z.of_nat PublicKeySize))
      else if negb (ed25519_verify raw (marshal (sg_Document s)) (sg_Signature s))
      then Err "dsd: signature verification failed"
      else Ok tt
  end.
End verify.

(** ** Dependency order *)

(** [byID]: a later op with the same id replaces an earlier one. *)
Definition by_id (ops : list Op) : gmap string Op :=
  fold_left (fun m op => <[op_ID op := op]> m) ops ∅.

(** The variables [visit] captures: [state] (absent = 0 unseen, 1 visiting,
    2 done), [bad] and [order]. *)
Record dfs := mkDfs {
  state : gmap string nat;
  bad : gset string;
  order : list Op;
}.

Definition dfs0 : dfs := mkDfs ∅ ∅ [].

Section visit.
Context (byID : gmap string Op).

Definition state_of (d : dfs) (id : string) : nat := default 0 (state d !! id).
Definition set_state (id : string) (n : nat) (d : dfs) : dfs :=
  mkDfs (<[id := n]> (state d)) (bad d) (order d).
Definition mark_bad (id : string) (d : dfs) : dfs :=
  mkDfs (<[id := 2]> (state d)) ({[id]} ∪ bad d) (order d).
Definition emit (op : Op) (id : string) (d : dfs) : dfs :=
  mkDfs (<[id := 2]> (state d)) (bad d) (order d ++ [op]).

(** The loop over [op.DependsOn], with the recursive call as a parameter. *)
Fixpoint visit_deps (rec : string -> dfs -> option (bool * dfs))
    (id : string) (op : Op) (deps : list string) (d : dfs) : option (bool * dfs) :=
  match deps with
  | [] => Some (true, emit op id d)
  | dep :: deps =>
      match rec dep d with
      | None => None
      | Some (false, d) => Some (false, mark_bad id d)
      | Some (true, d) => visit_deps rec id op deps d
      end
  end.

Fixpoint visit (fuel : nat) (id : string) (d : dfs) : option (bool * dfs) :=
  match fuel with
  | O => None
  | S fuel =>
      match byID !! id with
      | None => Some (false, d)
      | Some op =>
          match state_of d id with
          | 2 => Some (bool_decide (id ∉ bad d), d)
          | 1 => Some (false, d)
          | _ => visit_deps (visit fuel) id op (op_DependsOn op) (set_state id 1 d)
          end
      end
  end.

Fixpoint visit_all (fuel : nat) (ops : list Op) (d : dfs) : option dfs :=
  match ops with
  | [] => Some d
  | op :: ops =>
      if (state_of d (op_ID op) =? 0)%nat
      then match visit fuel (op_ID op) d with
           | Some (_, d) => visit_all fuel ops d
           | None => None
           end
      else visit_all fuel ops d
  end.
End visit.

Definition topo_run (ops : list Op) : option dfs :=
  visit_all (by_id ops) (S (length ops)) ops dfs0.

(** The ops in dependency order, and the ids that cannot be ordered. *)
Definition TopoOrder (ops : list Op) : list Op * list string :=
  match topo_run ops with
  | Some d => (order d, List.filter (fun id => bool_decide (id ∈ bad d)) (map op_ID ops))
  | None => ([], [])   (* not reached: [topo_run_total] *)
  end.

(** ** Specification *)

Section spec.
Context (byID : gmap string Op).

(** [x] names [y] as a dependency. *)
Definition depends (x y : string) : Prop :=
  exists op, byID !! x = Some op /\ y ∈ op_DependsOn op.

(** An id is resolvable when it exists and all its dependencies are: no
    missing dependency and no cycle is reachable from it. *)
Inductive resolvable : string -> Prop :=
| resolvable_intro id op :
    byID !! id = Some op ->
    (forall y, y ∈ op_DependsOn op -> resolvable y) ->
    resolvable id.

(** Every op comes after all of its dependencies. *)
Definition topological (l : list Op) : Prop :=
  forall l1 op l2, l = l1 ++ op :: l2 ->
  forall y, y ∈ op_DependsOn op -> y ∈ map op_ID l1.

(** What holds between two calls of [visit], with [stack] the ids in state 1. *)
Record dfs_inv (stack : list string) (d : dfs) : Prop := {
  inv_visiting : forall id, state d !! id = Some 1 <-> id ∈ stack;
  inv_range : forall id n, state d !! id = Some n -> n = 1 \/ n = 2;
  inv_known : dom (state d) ⊆ dom byID;
  inv_order : forall op, op ∈ order d <->
    byID !! op_ID op = Some op /\ state d !! op_ID op = Some 2 /\ op_ID op ∉ bad d;
  inv_bad : forall id, id ∈ bad d -> state d !! id = Some 2 /\ ~ resolvable id;
  inv_nodup : NoDup (map op_ID (order d));
  inv_topo : topological (order d);
}.

(** Ids not yet seen: what the recursion depth is bounded by. *)
Definition unseen (d : dfs) : nat := size (dom byID ∖ dom (state d)).

(** How a call may change the captured variables. *)
Record dfs_ext (d d' : dfs) : Prop := {
  ext_done : forall id, state d !! id = Some 2 ->
    state d' !! id = Some 2 /\ (id ∈ bad d' <-> id ∈ bad d);
  ext_seen : dom (state d) ⊆ dom (state d');
}.
End spec.

(** ** Proofs *)

Lemma tc_loop {A} (R : relation A) x : tc R x x -> exists y, R x y /\ tc R y y.
Proof.
  intros H. assert (L : forall a b, tc R a b -> a = b -> exists y, R a y /\ tc R y y).
  { intros a b [a' b' HR|a' y b' HR Htc] E; subst.
    - exists b'. split; [done|by constructor].
    - exists y. split; [done|]. eapply tc_r; eauto. }
  by eapply L.
Qed.

Lemma by_id_lookup ops id op : by_id ops !! id = Some op -> op_ID op = id /\ op ∈ ops.
Proof.
  unfold by_id.
  assert (G : forall ops (m : gmap string Op), (forall k o, m !! k = Some o -> op_ID o = k) ->
    fold_left (fun m op => <[op_ID op := op]> m) ops m !! id = Some op ->
    op_ID op = id /\ (op ∈ ops \/ m !! id = Some op)).
  { clear ops. induction ops as [|o ops IH]; intros m Hm H; cbn in H; [by eauto|].
    apply IH in H as [-> [H|H]].
    - split; [done|left; by right].
    - apply lookup_insert_Some in H as [[? ->]|[? H]]; [|by eauto].
      split; [done|]. left. left.
    - intros k o' [[? ->]|[? ?]]%lookup_insert_Some; eauto. }
  intros H. apply G in H as [? [?|H]]; [done| |].
  - by rewrite lookup_empty in H.
  - intros k o. by rewrite lookup_empty.
Qed.

Lemma by_id_dom ops : dom (by_id ops) = list_to_set (map op_ID ops).
Proof.
  unfold by_id. assert (G : forall ops (m : gmap string Op),
    dom (fold_left (fun m op => <[op_ID op := op]> m) ops m) = list_to_set (map op_ID ops) ∪ dom m).
  { clear ops. induction ops as [|o ops IH]; intros m; cbn; [set_solver|].
    rewrite IH. set_solver. }
  rewrite G. set_solver.
Qed.

Section proofs.
Context (byID : gmap string Op).
Context (byID_wf : forall id op, byID !! id = Some op -> op_ID op = id).

Local Abbreviation depends := (depends byID).
Local Abbreviation resolvable := (resolvable byID).
Local Abbreviation dfs_inv := (dfs_inv byID).
Local Abbreviation unseen := (unseen byID).

Lemma resolvable_acyclic id : resolvable id -> ~ tc depends id id.
Proof.
  induction 1 as [id op Hop _ IH]. intros (y & (op' & Hop' & Hy) & Hyy)%tc_loop.
  rewrite Hop in Hop'. injection Hop' as <-. by eapply IH.
Qed.

Lemma resolvable_dep id y : resolvable id -> depends id y -> resolvable y.
Proof. intros [id' op Hop H] (op' & Hop' & Hy). rewrite Hop in Hop'. injection Hop' as <-. auto. Qed.

Lemma dfs_ext_refl d : dfs_ext d d.
Proof. constructor; [by intros|done]. Qed.

Lemma dfs_ext_trans d1 d2 d3 : dfs_ext d1 d2 -> dfs_ext d2 d3 -> dfs_ext d1 d3.
Proof.
  intros [H1 S1] [H2 S2]. constructor; [|set_solver].
  intros id [? ?]%H1. edestruct H2; [done|]. split; [done|]. by etrans.
Qed.

Lemma unseen_ext d d' : dfs_ext d d' -> unseen d' <= unseen d.
Proof. intros [_ ?]. apply subseteq_size. set_solver. Qed.

Lemma state_of_fresh d id :
  state_of d id <> 1 -> state_of d id <> 2 ->
  (forall n, state d !! id = Some n -> n = 1 \/ n = 2) -> state d !! id = None.
Proof.
  unfold state_of. destruct (state d !! id) as [n|] eqn:E; [|done].
  cbn. intros ? ? H. destruct (H n eq_refl); congruence.
Qed.

Lemma enter_inv stack d id op :
  byID !! id = Some op -> state d !! id = None ->
  dfs_inv stack d -> dfs_inv (id :: stack) (set_state id 1 d).
Proof.
  intros Hop Hid [Hv Hr Hk Ho Hb Hn Ht]. constructor; cbn; [..|done|done].
  - intros x. rewrite elem_of_cons, <- Hv, lookup_insert.
    case_decide; subst; [by split; auto|]. split; [auto|]. by intros [->|].
  - intros x n [[_ <-]|[_ ?]]%lookup_insert_Some; eauto.
  - rewrite dom_insert. apply elem_of_dom_2 in Hop. set_solver.
  - intros o. rewrite Ho, lookup_insert. case_decide; subst; [|done].
    split; [by intros (_ & ? & _); congruence|by intros (_ & ? & _)].
  - intros x Hx. destruct (Hb x Hx). split; [|done].
    rewrite lookup_insert_ne; [done|congruence].
Qed.

Lemma enter_unseen d id op :
  byID !! id = Some op -> state d !! id = None -> unseen (set_state id 1 d) < unseen d.
Proof.
  intros Hop%elem_of_dom_2 Hid%not_elem_of_dom. apply subset_size. unfold unseen. cbn.
  rewrite dom_insert. set_solver.
Qed.

Lemma enter_ext d id : state d !! id = None -> dfs_ext d (set_state id 1 d).
Proof.
  intros H. constructor; cbn; [|set_solver].
  intros x Hx. rewrite lookup_insert_ne; [done|congruence].
Qed.

Lemma emit_topo stack d id op :
  byID !! id = Some op -> dfs_inv stack d ->
  (forall y, y ∈ op_DependsOn op -> state d !! y = Some 2 /\ y ∉ bad d) ->
  topological (order d ++ [op]).
Proof.
  intros Hop [Hv Hr Hk Ho Hb Hn Ht] Hdeps l1 o l2 E y Hy.
  destruct l2 as [|z l2 _] using rev_ind.
  - apply app_inj_tail in E as [<- <-]. destruct (Hdeps y Hy) as [Hs Hnb].
    assert (Hyd : y ∈ dom byID) by (apply Hk; by apply elem_of_dom_2 in Hs).
    apply elem_of_dom in Hyd as [oy Hoy].
    apply list_elem_of_fmap. exists oy. rewrite (byID_wf _ _ Hoy). split; [done|].
    apply Ho. by rewrite (byID_wf _ _ Hoy).
  - rewrite app_comm_cons, app_assoc in E. apply app_inj_tail in E as [E _]. by eapply Ht.
Qed.

Lemma emit_inv stack d id op :
  byID !! id = Some op -> id ∉ stack -> dfs_inv (id :: stack) d ->
  (forall y, y ∈ op_DependsOn op -> state d !! y = Some 2 /\ y ∉ bad d) ->
  dfs_inv stack (emit op id d).
Proof.
  intros Hop Hst Hinv Hdeps. pose proof (emit_topo _ _ _ _ Hop Hinv Hdeps) as Ht'.
  destruct Hinv as [Hv Hr Hk Ho Hb Hn Ht].
  assert (H1 : state d !! id = Some 1) by (apply Hv; left).
  constructor; cbn; [..|done].
  - intros x. rewrite lookup_insert. case_decide; subst; [done|].
    rewrite Hv, elem_of_cons. naive_solver.
  - intros x n [[_ <-]|[_ ?]]%lookup_insert_Some; eauto.
  - rewrite dom_insert. apply elem_of_dom_2 in Hop. set_solver.
  - intros o. rewrite elem_of_snoc, lookup_insert, Ho.
    pose proof (byID_wf _ _ Hop). case_decide as E.
    + rewrite <- E. split.
      * intros [(?&?&?)| ->]; [congruence|]. split_and!; [done..|].
        intros [? ?]%Hb. congruence.
      * intros (? & _ & _). right. congruence.
    + split; [intros [?| ->]; [done|congruence]|auto].
  - intros x Hx. destruct (Hb x Hx). split; [|done]. rewrite lookup_insert_ne; [done|congruence].
  - rewrite map_app. cbn. apply NoDup_app. split; [done|]. split; [|apply NoDup_singleton].
    intros x Hx ->%list_elem_of_singleton. rewrite (byID_wf _ _ Hop) in Hx.
    apply list_elem_of_fmap in Hx as (o & E & (?&?&?)%Ho). congruence.
Qed.

Lemma mark_bad_inv stack d id op :
  byID !! id = Some op -> id ∉ stack -> dfs_inv (id :: stack) d ->
  ~ resolvable id -> dfs_inv stack (mark_bad id d).
Proof.
  intros Hop Hst [Hv Hr Hk Ho Hb Hn Ht] Hnr.
  assert (H1 : state d !! id = Some 1) by (apply Hv; left).
  constructor; cbn; [..|done|done].
  - intros x. rewrite lookup_insert. case_decide; subst; [done|].
    rewrite Hv, elem_of_cons. naive_solver.
  - intros x n [[_ <-]|[_ ?]]%lookup_insert_Some; eauto.
  - rewrite dom_insert. apply elem_of_dom_2 in Hop. set_solver.
  - intros o. rewrite Ho, lookup_insert. case_decide as E.
    + rewrite <- E. split; [by intros (?&?&?); congruence|set_solver].
    + set_solver.
  - intros x [->%elem_of_singleton|Hx]%elem_of_union.
    + by rewrite lookup_insert_eq.
    + destruct (Hb x Hx). split; [|done]. rewrite lookup_insert_ne; [done|congruence].
Qed.

Lemma leave_ext d d' id :
  state d !! id = Some 1 -> state d' = <[id := 2]> (state d) ->
  bad d' = bad d \/ bad d' = {[id]} ∪ bad d -> dfs_ext d d'.
Proof.
  intros H1 Hs Hb. constructor.
  - intros x Hx. assert (x <> id) by congruence. rewrite Hs, lookup_insert_ne; [|done].
    split; [done|]. destruct Hb as [-> | ->]; set_solver.
  - rewrite Hs. set_solver.
Qed.

(** What a call of [visit] on [id] guarantees. *)
Definition visit_post (stack : list string) (id : string) (d : dfs)
    (o : option (bool * dfs)) : Prop :=
  exists b d', o = Some (b, d') /\ dfs_inv stack d' /\ dfs_ext d d' /\
    (id ∈ dom byID -> id ∈ dom (state d')) /\
    if b then state d' !! id = Some 2 /\ id ∉ bad d' else ~ resolvable id.

Lemma visit_deps_spec rec id op stack :
  byID !! id = Some op -> id ∉ stack ->
  forall deps done d,
  op_DependsOn op = done ++ deps ->
  dfs_inv (id :: stack) d ->
  (forall y, y ∈ done -> state d !! y = Some 2 /\ y ∉ bad d) ->
  (forall y d0, y ∈ deps -> dfs_inv (id :: stack) d0 -> dfs_ext d d0 ->
     visit_post (id :: stack) y d0 (rec y d0)) ->
  visit_post stack id d (visit_deps rec id op deps d).
Proof.
  intros Hop Hst. induction deps as [|y deps IH]; intros done d Hdeps Hinv Hdone Hrec; cbn.
  - rewrite app_nil_r in Hdeps. subst done.
    exists true, (emit op id d).
    split_and!; [done|by apply emit_inv| |cbn; set_solver|cbn; by rewrite lookup_insert_eq|].
    + eapply leave_ext; [apply Hinv; left|done|by left].
    + cbn. intros [? _]%(inv_bad _ _ _ Hinv).
      assert (state d !! id = Some 1) by (apply Hinv; left). congruence.
  - destruct (Hrec y d) as (b & d' & -> & Hinv' & Hext & _ & Hb); [left|done|apply dfs_ext_refl|].
    destruct b.
    + destruct Hb as [Hy2 Hynb].
      destruct (IH (done ++ [y]) d') as (b & d'' & -> & ? & Hext' & ? & ?).
      * by rewrite Hdeps, <- app_assoc.
      * done.
      * intros z [Hz| ->]%elem_of_snoc; [|done].
        destruct (Hdone z Hz) as [Hz2 Hznb]. apply Hext in Hz2 as [? Hi]. by rewrite Hi.
      * intros z d0 Hz Hi He. apply Hrec; [by right|done|by eapply dfs_ext_trans].
      * exists b, d''. split_and!; [done..|by eapply dfs_ext_trans|done|done].
    + assert (Hnr : ~ resolvable id).
      { intros Hr. apply Hb. eapply resolvable_dep; [done|]. exists op. split; [done|].
        rewrite Hdeps. set_solver. }
      exists false, (mark_bad id d'). split_and!; [done|by eapply mark_bad_inv| |cbn; set_solver|done].
      eapply dfs_ext_trans; [done|]. eapply leave_ext; [apply Hinv'; left|done|by right].
Qed.

Lemma visit_spec fuel : forall id stack d,
  dfs_inv stack d -> (forall s, s ∈ stack -> tc depends s id) -> unseen d < fuel ->
  visit_post stack id d (visit byID fuel id d).
Proof.
  induction fuel as [|fuel IH]; intros id stack d Hinv Hst Hfuel; [lia|]. cbn.
  destruct (byID !! id) as [op|] eqn:Hop.
  2: { exists false, d. split_and!; [done..|apply dfs_ext_refl| |].
       - intros [? ?]%elem_of_dom. congruence.
       - intros Hr. destruct Hr. congruence. }
  destruct (decide (state_of d id = 1)) as [E1|N1]; [|destruct (decide (state_of d id = 2)) as [E2|N2]].
  - rewrite E1. assert (state d !! id = Some 1) as Hs.
    { unfold state_of in E1. destruct (state d !! id); [by cbn in E1; subst|done]. }
    exists false, d. split_and!; [done..|apply dfs_ext_refl|intros _; by apply elem_of_dom_2 in Hs|].
    intros Hr. eapply resolvable_acyclic; [done|]. by apply Hst, (inv_visiting _ _ _ Hinv).
  - rewrite E2. assert (state d !! id = Some 2) as Hs.
    { unfold state_of in E2. destruct (state d !! id); [by cbn in E2; subst|done]. }
    eexists _, d. split_and!; [done..|apply dfs_ext_refl|intros _; by apply elem_of_dom_2 in Hs|].
    case_bool_decide as Hb; [done|]. by apply Hinv in Hb as [_ ?].
  - pose proof (state_of_fresh d id N1 N2 (inv_range _ _ _ Hinv id)) as Hfresh.
    assert (Hn : id ∉ stack) by (intros ?%Hinv; congruence).
    assert (visit_post stack id d (visit_deps (visit byID fuel) id op (op_DependsOn op) (set_state id 1 d)))
      as Hgoal; [|by destruct (state_of d id) as [|[|[|n]]]].
    destruct (visit_deps_spec (visit byID fuel) id op stack Hop Hn (op_DependsOn op) []
                (set_state id 1 d)) as (b & d' & -> & ? & He & ? & ?).
    + done.
    + by eapply enter_inv.
    + intros y Hy. by apply not_elem_of_nil in Hy.
    + intros y d0 Hy Hi He. apply IH; [done| |].
      * assert (depends id y) by (by exists op).
        intros s [->|Hs]%elem_of_cons; [by constructor|]. eapply tc_r; [|done]. by apply Hst.
      * apply unseen_ext in He. pose proof (enter_unseen d id op Hop Hfresh). lia.
    + exists b, d'. split_and!; [done..| |done|done].
      eapply dfs_ext_trans; [by apply enter_ext|done].
Qed.

Lemma visit_all_spec fuel ops : forall d,
  (forall op, op ∈ ops -> op_ID op ∈ dom byID) ->
  dfs_inv [] d -> unseen d < fuel ->
  exists d', visit_all byID fuel ops d = Some d' /\ dfs_inv [] d' /\ dfs_ext d d' /\
    (forall op, op ∈ ops -> state d' !! op_ID op = Some 2).
Proof.
  induction ops as [|op ops IH]; intros d Hk Hinv Hfuel; cbn.
  { exists d. split_and!; [done..|apply dfs_ext_refl|]. intros ? []%not_elem_of_nil. }
  assert (Hk' : forall op, op ∈ ops -> op_ID op ∈ dom byID) by (intros; apply Hk; by right).
  assert (Hnot1 : forall d, dfs_inv [] d -> op_ID op ∈ dom (state d) -> state d !! op_ID op = Some 2).
  { intros d0 Hi [n Hn]%elem_of_dom. destruct (inv_range _ _ _ Hi _ _ Hn) as [-> | ->]; [|done].
    apply Hi in Hn. by apply not_elem_of_nil in Hn. }
  destruct (Nat.eqb_spec (state_of d (op_ID op)) 0) as [E|E].
  - destruct (visit_spec fuel (op_ID op) [] d) as (b & d1 & -> & Hi1 & He1 & Hd & _); [done| |done|].
    { intros ? []%not_elem_of_nil. }
    destruct (IH d1) as (d2 & -> & Hi2 & He2 & H2); [done..|apply unseen_ext in He1; lia|].
    exists d2. split_and!; [done..|by eapply dfs_ext_trans|].
    intros o [->|Ho]%elem_of_cons; [|auto].
    apply He2, Hnot1; [done|]. apply Hd, Hk. left.
  - destruct (IH d) as (d2 & -> & Hi2 & He2 & H2); [done..|].
    exists d2. split_and!; [done..|]. intros o [->|Ho]%elem_of_cons; [|auto].
    apply He2, Hnot1; [done|]. unfold state_of in E.
    destruct (state d !! op_ID op) eqn:Es; [by apply elem_of_dom_2 in Es|done].
Qed.
End proofs.

Lemma topological_init l x : topological (l ++ [x]) -> topological l.
Proof.
  intros H l1 op l2 -> y Hy. apply (H l1 op (l2 ++ [x])); [|done].
  by rewrite <- app_assoc.
Qed.

Lemma topological_resolvable byID l :
  (forall op, op ∈ l -> byID !! op_ID op = Some op) -> topological l ->
  forall op, op ∈ l -> resolvable byID (op_ID op).
Proof.
  induction l as [|x l IH] using rev_ind; intros Hl Ht op Hop.
  { by apply not_elem_of_nil in Hop. }
  assert (IH' : forall o, o ∈ l -> resolvable byID (op_ID o)).
  { apply IH; [|by eapply topological_init]. intros o Ho. apply Hl. set_solver. }
  apply elem_of_snoc in Hop as [?| ->]; [auto|].
  apply (resolvable_intro _ _ x); [apply Hl; set_solver|].
  intros y Hy. specialize (Ht l x [] eq_refl y Hy).
  apply list_elem_of_fmap in Ht as (o & -> & ?). auto.
Qed.

Lemma dfs0_inv byID : dfs_inv byID [] dfs0.
Proof.
  constructor; cbn.
  - intros id. rewrite lookup_empty. split; [done|by intros ?%not_elem_of_nil].
  - intros id n. by rewrite lookup_empty.
  - set_solver.
  - intros op. rewrite lookup_empty. split; [by intros ?%not_elem_of_nil|]. by intros (? & [=] & ?).
  - set_solver.
  - constructor.
  - intros l1 op l2 E. by destruct l1.
Qed.

Lemma topo_run_total ops : exists d, topo_run ops = Some d /\ dfs_inv (by_id ops) [] d /\
  (forall op, op ∈ ops -> state d !! op_ID op = Some 2).
Proof.
  assert (Hwf : forall id op, by_id ops !! id = Some op -> op_ID op = id).
  { by intros id op [? _]%by_id_lookup. }
  destruct (visit_all_spec _ Hwf (S (length ops)) ops dfs0) as (d & H & Hi & _ & Hd).
  - intros op Hop. rewrite by_id_dom. apply elem_of_list_to_set, list_elem_of_fmap. eauto.
  - apply dfs0_inv.
  - unfold unseen. cbn. rewrite by_id_dom, dom_empty_L, difference_empty_L.
    rewrite <- (length_map op_ID ops). apply Nat.lt_succ_r, list_to_set_size_le.
  - by exists d.
Qed.

(** The facts about [TopoOrder] the other components use. *)
Lemma TopoOrder_facts ops :
  let '(ordered, unresolved) := TopoOrder ops in
  is_Some (topo_run ops) /\
  topological ordered /\
  NoDup (map op_ID ordered) /\
  (forall op, op ∈ ordered <->
     by_id ops !! op_ID op = Some op /\ resolvable (by_id ops) (op_ID op)) /\
  (forall id, id ∈ unresolved <->
     id ∈ map op_ID ops /\ ~ resolvable (by_id ops) id).
Proof.
  destruct (topo_run_total ops) as (d & E & Hi & Hd). unfold TopoOrder. rewrite E.
  assert (Hres : forall op, op ∈ order d -> resolvable (by_id ops) (op_ID op)).
  { apply topological_resolvable; [|apply Hi]. intros op Hop. by apply Hi in Hop as [? _]. }
  split_and!; [done|apply Hi..| |].
  - intros op. split.
    + intros Hop. split; [by apply Hi in Hop as [? _]|auto].
    + intros [Hop Hr]. apply Hi. split; [done|].
      pose proof (by_id_lookup _ _ _ Hop) as [_ Hin]. split; [auto|].
      by intros [_ []]%Hi.
  - intros id. rewrite filter_elem, bool_decide_eq_true. split; intros [Hin H]; (split; [done|]).
    + by apply Hi in H as [_ ?].
    + destruct (decide (id ∈ bad d)) as [|Hnb]; [done|]. exfalso. apply H.
      apply list_elem_of_fmap in Hin as (o & -> & Ho).
      assert (op_ID o ∈ dom (by_id ops)) as [o' Ho']%elem_of_dom.
      { rewrite by_id_dom. apply elem_of_list_to_set, list_elem_of_fmap. eauto. }
      pose proof (by_id_lookup _ _ _ Ho') as [Eo _]. rewrite <- Eo.
      apply Hres, Hi. rewrite Eo. auto.
Qed.

Lemma resolvable_iff ops id :
  resolvable (by_id ops) id <-> id ∈ map op_ID (TopoOrder ops).1.
Proof.
  pose proof (TopoOrder_facts ops) as H. destruct (TopoOrder ops) as [ord un].
  destruct H as (_ & _ & _ & Ho & _). cbn. rewrite list_elem_of_fmap. split.
  - intros Hr. assert (exists op, by_id ops !! id = Some op) as [op Hop] by (destruct Hr; eauto).
    pose proof (by_id_lookup _ _ _ Hop) as [<- _]. exists op. split; [done|]. by apply Ho.
  - by intros (op & -> & [_ Hr]%Ho).
Qed.

#[export] Instance resolvable_dec ops id : Decision (resolvable (by_id ops) id).
Proof.
  refine (cast_if (decide (id ∈ map op_ID (TopoOrder ops).1))); by rewrite resolvable_iff.
Defined.

(** C22: [TopoOrder] returns exactly the ops whose dependencies all exist and
    form no cycle, each once and after everything it depends on, and reports
    every other id as unresolved; it always returns. *)
Theorem TopoOrder_spec ops :
  let '(ordered, unresolved) := TopoOrder ops in
  is_Some (topo_run ops) /\
  topological ordered /\
  NoDup (map op_ID ordered) /\
  (forall op, op ∈ ordered <->
     by_id ops !! op_ID op = Some op /\ resolvable (by_id ops) (op_ID op)) /\
  (forall id, id ∈ unresolved <->
     id ∈ map op_ID ops /\ ~ resolvable (by_id ops) id).
Proof. exact (TopoOrder_facts ops). Qed.
