(* ===== verification/Bolt.v ===== *)
(** * The embedded key-value store the agent keeps its state in

    The agent's journal ([agent/internal/apply/journal.go]) and its desired
    container set ([agent/internal/container/store.go]) live in bbolt files.
    bbolt is a third-party package: [Bolt] is the part of it the agent calls,
    [BoltLaws] the documented behaviour it relies on (an [Update] transaction
    is atomic and rolled back on error, a [View] changes nothing, a cursor
    walks a bucket in byte order of the keys), and [MemBolt] an instance with
    a schedule of I/O failures. *)

From stdpp Require Import sorting.
From S2P Require Import Prelude GoStrings.

(** Byte order of keys. *)
Definition key_lt (a b : string) : Prop := String.compare a b = Lt.

Class Bolt (DB V : Type) := {
  (** what is stored: (bucket, key) to value *)
  bolt_view : DB -> gmap (string * string) V;
  (** [db.Update(func(tx) { return tx.Bucket(b).Put(k, v) })] *)
  bolt_put : string -> string -> V -> io DB unit;
  (** [db.Update(func(tx) { return tx.Bucket(b).Delete(k) })] *)
  bolt_delete : string -> string -> io DB unit;
  (** [db.View(func(tx) { ... tx.Bucket(b).Get(k) ... })] *)
  bolt_get : string -> string -> io DB (option V);
  (** [db.View] over a cursor: all the entries of a bucket *)
  bolt_entries : string -> io DB (list (string * V));
}.

Class BoltLaws (DB V : Type) `{!Bolt DB V} := {
  put_ok b k v d d' : bolt_put b k v d = (Ok tt, d') ->
    bolt_view d' = <[(b, k) := v]> (bolt_view d);
  put_err b k v d e d' : bolt_put b k v d = (Err e, d') -> bolt_view d' = bolt_view d;
  delete_ok b k d d' : bolt_delete b k d = (Ok tt, d') ->
    bolt_view d' = delete (b, k) (bolt_view d);
  delete_err b k d e d' : bolt_delete b k d = (Err e, d') -> bolt_view d' = bolt_view d;
  get_same b k d r d' : bolt_get b k d = (r, d') -> bolt_view d' = bolt_view d;
  get_ok b k d o d' : bolt_get b k d = (Ok o, d') -> o = bolt_view d !! (b, k);
  entries_same b d r d' : bolt_entries b d = (r, d') -> bolt_view d' = bolt_view d;
  entries_sorted b d l d' : bolt_entries b d = (Ok l, d') -> StronglySorted key_lt l.*1;
  entries_elem b d l d' : bolt_entries b d = (Ok l, d') ->
    forall k v, (k, v) ∈ l <-> bolt_view d !! (b, k) = Some v;
}.

(** ** Byte order *)

Lemma ascii_compare_refl a : Ascii.compare a a = Eq.
Proof. unfold Ascii.compare. apply N.compare_refl. Qed.

Lemma ascii_compare_eq a b : Ascii.compare a b = Eq -> a = b.
Proof.
  unfold Ascii.compare. intros H%N.compare_eq_iff.
  rewrite <- (Ascii.ascii_N_embedding a), <- (Ascii.ascii_N_embedding b). by rewrite H.
Qed.

Lemma key_lt_cons a b s t :
  key_lt (String a s) (String b t) <->
  Ascii.compare a b = Lt \/ (a = b /\ key_lt s t).
Proof.
  unfold key_lt. cbn [String.compare]. destruct (Ascii.compare a b) eqn:E.
  - apply ascii_compare_eq in E as ->. naive_solver.
  - naive_solver.
  - split; [done|]. intros [?|[-> _]]; [done|]. by rewrite ascii_compare_refl in E.
Qed.

#[export] Instance key_lt_irrefl : Irreflexive key_lt.
Proof.
  intros s H. unfold key_lt in H. pose proof (String.compare_antisym s s) as E.
  by rewrite H in E.
Qed.

#[export] Instance key_lt_trans : Transitive key_lt.
Proof.
  intros s. induction s as [|a s IH]; intros [|b t] [|c u]; try done.
  rewrite !key_lt_cons. intros [H1|[-> H1]] [H2|[-> H2]].
  - left. revert H1 H2. unfold Ascii.compare. rewrite !N.compare_lt_iff. lia.
  - by left.
  - by left.
  - right. split; [done|]. by eapply IH.
Qed.

#[export] Instance key_lt_dec a b : Decision (key_lt a b).
Proof. unfold key_lt. apply _. Defined.

(** Between a prefix and a string that has it, every string has it. *)
Lemma prefix_interval p a b :
  ~ key_lt a p -> key_lt a b -> has_prefix b p = true -> has_prefix a p = true.
Proof.
  revert a b. induction p as [|c p IH]; intros a b Hp Hab Hb; [done|].
  destruct b as [|y b]; [done|]. cbn in Hb.
  apply andb_true_iff in Hb as [->%Ascii.eqb_eq Hb].
  destruct a as [|x a]; [by destruct Hp|]. rewrite key_lt_cons in *. cbn.
  destruct (Ascii.compare x y) eqn:E.
  - apply ascii_compare_eq in E as ->. rewrite Ascii.eqb_refl. cbn.
    destruct Hab as [?|[_ Hab]]; [done|].
    eapply IH; [|done|done]. intros ?. apply Hp. by right.
  - destruct Hp. by left.
  - destruct Hab as [?|[-> _]]; [done|]. by rewrite ascii_compare_refl in E.
Qed.

(** A string with the prefix is not before it. *)
Lemma prefix_not_lt p s : has_prefix s p = true -> ~ key_lt s p.
Proof.
  revert s. induction p as [|c p IH]; intros [|b s] H; try done.
  cbn in H. apply andb_true_iff in H as [->%Ascii.eqb_eq H].
  rewrite key_lt_cons. intros [E|[_ ?]]; [by rewrite ascii_compare_refl in E|by eapply IH].
Qed.

(** ** A cursor scan *)

Section scan.
Context {V : Type}.

(** [c.Seek(p)]: the entries from the first key at or after [p]. *)
Fixpoint seek (p : string) (l : list (string * V)) : list (string * V) :=
  match l with
  | [] => []
  | (k, v) :: l' => if bool_decide (key_lt k p) then seek p l' else l
  end.

(** [for ; k != nil && bytes.HasPrefix(k, p); k, v = c.Next()] *)
Fixpoint take_prefixed (p : string) (l : list (string * V)) : list (string * V) :=
  match l with
  | [] => []
  | (k, v) :: l' => if has_prefix k p then (k, v) :: take_prefixed p l' else []
  end.

Lemma take_prefixed_elem p l k v :
  StronglySorted key_lt l.*1 -> (forall k, k ∈ l.*1 -> ~ key_lt k p) ->
  (k, v) ∈ take_prefixed p l <-> (k, v) ∈ l /\ has_prefix k p = true.
Proof.
  induction l as [|[k' v'] l IH]; intros Hs Hp; cbn in *.
  { split; [by intros ?%not_elem_of_nil|by intros [?%not_elem_of_nil _]]. }
  apply StronglySorted_inv in Hs as [Hs Hk'].
  destruct (has_prefix k' p) eqn:E.
  - rewrite !elem_of_cons, IH; [naive_solver|done|set_solver].
  - split; [by intros ?%not_elem_of_nil|].
    rewrite elem_of_cons. intros [[[= -> ->]|Hin] Hk]; [congruence|].
    rewrite (prefix_interval p k' k) in E; [done|apply Hp; left| |done].
    rewrite Forall_forall in Hk'. apply Hk', list_elem_of_fmap. by exists (k, v).
Qed.

Lemma seek_prefixed_elem p l k v :
  StronglySorted key_lt l.*1 ->
  (k, v) ∈ take_prefixed p (seek p l) <-> (k, v) ∈ l /\ has_prefix k p = true.
Proof.
  induction l as [|[k' v'] l IH]; intros Hs; cbn.
  { split; [by intros ?%not_elem_of_nil|by intros [?%not_elem_of_nil _]]. }
  apply StronglySorted_inv in Hs as [Hs Hk']. case_bool_decide as Hlt.
  - rewrite IH; [|done]. rewrite elem_of_cons.
    split; [naive_solver|]. intros [[[= -> ->]|?] Hk]; [|done].
    by destruct (prefix_not_lt p k').
  - apply take_prefixed_elem; [by constructor|].
    intros x [->|Hx]%elem_of_cons; [done|]. intros Hxp. apply Hlt.
    rewrite Forall_forall in Hk'. etrans; [by apply Hk'|done].
Qed.
End scan.

(** ** An in-memory instance with scheduled failures *)

Record mem_bolt (V : Type) := mkMemBolt {
  mb_content : gmap (string * string) V;
  mb_faults : list bool;   (* whether the next calls fail *)
}.
Arguments mkMemBolt {V} _ _.
Arguments mb_content {V} _.
Arguments mb_faults {V} _.

Section mem.
Context {V : Type}.

Definition mb_call {A} (a : A) (f : gmap (string * string) V -> gmap (string * string) V)
    : io (mem_bolt V) A := fun d =>
  match mb_faults d with
  | true :: fs => (Err "input/output error", mkMemBolt (mb_content d) fs)
  | fs => (Ok a, mkMemBolt (f (mb_content d)) (tail fs))
  end.

Definition bucket_of (b : string) (m : gmap (string * string) V) : list (string * V) :=
  omap (fun '((b', k), v) => if String.eqb b b' then Some (k, v) else None) (map_to_list m).

Definition entry_le (a b : string * V) : Prop := ~ key_lt b.1 a.1.
#[global] Instance entry_le_dec a b : Decision (entry_le a b).
Proof. unfold entry_le. apply _. Defined.

#[global] Instance MemBolt : Bolt (mem_bolt V) V := {
  bolt_view := mb_content;
  bolt_put b k v := mb_call tt (fun m => <[(b, k) := v]> m);
  bolt_delete b k := mb_call tt (fun m => delete (b, k) m);
  bolt_get b k := fun d => mb_call (mb_content d !! (b, k)) id d;
  bolt_entries b := fun d => mb_call (merge_sort entry_le (bucket_of b (mb_content d))) id d;
}.

Lemma bucket_of_elem b m k v : (k, v) ∈ bucket_of b m <-> m !! (b, k) = Some v.
Proof.
  unfold bucket_of. rewrite list_elem_of_omap. split.
  - intros ([[b' k'] v'] & H & E). destruct (String.eqb_spec b b') as [->|]; [|done].
    injection E as -> ->. by apply elem_of_map_to_list in H.
  - intros H. exists ((b, k), v). rewrite elem_of_map_to_list, String.eqb_refl. done.
Qed.

Lemma bucket_of_nodup b m : NoDup (bucket_of b m).*1.
Proof.
  unfold bucket_of. pose proof (NoDup_fst_map_to_list m) as H. revert H.
  induction (map_to_list m) as [|[[b' k] v] l IH]; cbn; [intros _; constructor|].
  rewrite NoDup_cons. intros [Hn Hl]. destruct (String.eqb_spec b b') as [->|]; [|by apply IH].
  cbn. apply NoDup_cons. split; [|by apply IH].
  intros ([k0 v0] & -> & ([[b0 k1] v1] & Hin & E)%list_elem_of_omap)%list_elem_of_fmap.
  destruct (String.eqb_spec b' b0) as [->|]; [|done]. injection E as -> ->.
  apply Hn, list_elem_of_fmap. by exists ((b0, k0), v0).
Qed.

Lemma key_lt_trichotomy a b : key_lt a b \/ a = b \/ key_lt b a.
Proof.
  unfold key_lt. destruct (String.compare a b) eqn:E; auto.
  - right; left. by apply String.compare_eq_iff.
  - right; right. by rewrite String.compare_antisym, E.
Qed.

#[global] Instance entry_le_total : Total entry_le.
Proof.
  intros a b. unfold entry_le. destruct (key_lt_trichotomy a.1 b.1) as [H|[->|H]].
  - left. intros H'. by eapply (irreflexivity key_lt), (transitivity H).
  - left. apply (irreflexivity key_lt).
  - right. intros H'. by eapply (irreflexivity key_lt), (transitivity H).
Qed.

#[global] Instance entry_le_trans : Transitive entry_le.
Proof.
  intros a b c. unfold entry_le. intros H1 H2 H3.
  destruct (key_lt_trichotomy b.1 c.1) as [H|[E|H]]; [|congruence|done].
  destruct (key_lt_trichotomy a.1 b.1) as [H'|[E|H']]; [| |done].
  - eapply (irreflexivity key_lt), (transitivity H3). by etrans.
  - rewrite E in H3. by eapply (irreflexivity key_lt), (transitivity H3).
Qed.

Lemma entry_sorted_strict l :
  StronglySorted entry_le l -> NoDup l.*1 -> StronglySorted key_lt l.*1.
Proof.
  induction 1 as [|x l Hs IH Hx]; cbn; [constructor|].
  rewrite NoDup_cons. intros [Hn Hl]. constructor; [auto|].
  apply Forall_forall. intros k Hk.
  pose proof Hk as (e & -> & He)%list_elem_of_fmap.
  destruct (key_lt_trichotomy x.1 e.1) as [?|[E|H]]; [done|congruence|].
  destruct (proj1 (Forall_forall _ _) Hx e He). done.
Qed.

Lemma mb_call_ok {A} (a : A) f d r d' :
  mb_call a f d = (Ok r, d') -> r = a /\ mb_content d' = f (mb_content d).
Proof. unfold mb_call. destruct (mb_faults d) as [|[] fs]; by intros [= <- <-]. Qed.

Lemma mb_call_err {A} (a : A) f d e d' :
  mb_call a f d = (Err e, d') -> mb_content d' = mb_content d.
Proof. unfold mb_call. destruct (mb_faults d) as [|[] fs]; by intros [= <- <-]. Qed.

Lemma mb_call_id {A} (a : A) d r d' : mb_call a id d = (r, d') -> mb_content d' = mb_content d.
Proof. destruct r; [by intros [_ ?]%mb_call_ok|apply mb_call_err]. Qed.

#[global] Instance MemBoltLaws : BoltLaws (mem_bolt V) V.
Proof.
  constructor; cbn; intros b.
  - by intros k v d d' [_ ?]%mb_call_ok.
  - intros k v d e d'. apply mb_call_err.
  - by intros k d d' [_ ?]%mb_call_ok.
  - intros k d e d'. apply mb_call_err.
  - intros k d r d'. apply mb_call_id.
  - by intros k d o d' [? _]%mb_call_ok.
  - intros d r d'. apply mb_call_id.
  - intros d l d' [-> _]%mb_call_ok. apply entry_sorted_strict.
    + apply (StronglySorted_merge_sort _).
    + rewrite merge_sort_Permutation. apply bucket_of_nodup.
  - intros d l d' [-> _]%mb_call_ok k v. rewrite merge_sort_Permutation. apply bucket_of_elem.
Qed.
End mem.
