(* ===== verification/Journal.v ===== *)
(** * The agent's journal of applied documents

    Models [agent/internal/apply/journal.go] over the store interface of
    [Bolt]: per-(version, op) results, the last applied version and the last
    version whose status report was acknowledged. *)

From stdpp Require Import pretty.
From Stdlib Require Import Ascii.
From S2P Require Import Prelude GoStrings Bolt.

Local Open Scope string_scope.
Local Open Scope io_scope.

(** The recorded outcome of one op; [At] in nanoseconds. *)
Record OpResult := mkOpResult {
  or_Version : Z;
  or_OpID : string;
  or_State : string;   (* "applied" | "failed" | "skipped" *)
  or_Err : string;
  or_At : Z;
}.

(** What the two buckets hold, before [encoding/json] turns it into bytes. *)
Inductive jval :=
| JVersion (v : Z)
| JResult (r : OpResult).

Definition bucketMeta : string := "meta".
Definition bucketJournal : string := "journal".

(** The key of the result of one op: [%020d:%s]. *)
Definition key (version : Z) (opID : string) : string :=
  dec020 version +:+ ":" +:+ opID.

Section journal.
Context {DB : Type} `{!Bolt DB jval}.

(** [json.Unmarshal] into an [int64] or an [OpResult] rejects the other shape. *)
Definition as_version (o : option jval) : res Z :=
  match o with
  | None => Ok 0%Z
  | Some (JVersion v) => Ok v
  | Some (JResult _) => Err "json: cannot unmarshal object into Go value of type int64"
  end.

Definition as_result (o : option jval) : res (option OpResult) :=
  match o with
  | None => Ok None
  | Some (JResult r) => Ok (Some r)
  | Some (JVersion _) => Err "json: cannot unmarshal number into Go value of type apply.OpResult"
  end.

Definition LastAppliedVersion : io DB Z :=
  o <- bolt_get bucketMeta "lastAppliedVersion" ;; lift (as_version o).

Definition SetLastAppliedVersion (v : Z) : io DB unit :=
  bolt_put bucketMeta "lastAppliedVersion" (JVersion v).

Definition LastReportedVersion : io DB Z :=
  o <- bolt_get bucketMeta "lastReportedVersion" ;; lift (as_version o).

Definition SetLastReportedVersion (v : Z) : io DB unit :=
  bolt_put bucketMeta "lastReportedVersion" (JVersion v).

(** The accumulation over the cursor's entries. *)
Fixpoint collect (out : gmap string OpResult) (l : list (string * jval)) : res (gmap string OpResult) :=
  match l with
  | [] => Ok out
  | (_, v) :: l =>
      match as_result (Some v) with
      | Ok (Some r) => collect (<[or_OpID r := r]> out) l
      | Ok None => collect out l
      | Err e => Err e
      end
  end.

Definition ResultsForVersion (version : Z) : io DB (gmap string OpResult) :=
  let prefix := dec020 version +:+ ":" in
  es <- bolt_entries bucketJournal ;;
  lift (collect ∅ (take_prefixed prefix (seek prefix es))).

Definition Record_ (r : OpResult) : io DB unit :=
  bolt_put bucketJournal (key (or_Version r) (or_OpID r)) (JResult r).

Definition Result (version : Z) (opID : string) : io DB (option OpResult) :=
  o <- bolt_get bucketJournal (key version opID) ;; lift (as_result o).
End journal.

(** ** Keys *)

Lemma dec020_length z : in_int64 z -> String.length (dec020 z) = 20%nat.
Proof.
  intros H. unfold dec020. assert (Hl : (String.length (pretty (Z.abs_N z)) <= 19)%nat).
  { apply pretty_N_length; [lia|]. unfold in_int64, int64_min, int64_max in H. lia. }
  destruct (z <? 0)%Z; cbn [String.length]; rewrite length_app_str, length_repeat_byte; lia.
Qed.

Lemma dec020_inj x y : dec020 x = dec020 y -> x = y.
Proof.
  unfold dec020.
  assert (D : forall n (a : N) s, String "-"%char s <> repeat_byte n "0"%char +:+ pretty a).
  { intros n a s E. pose proof (zero_padded_digits n a) as H. by rewrite <- E in H. }
  destruct (Z.ltb_spec x 0), (Z.ltb_spec y 0); intros E.
  - injection E as E%zero_padded_inj. lia.
  - by apply D in E.
  - symmetry in E. by apply D in E.
  - apply zero_padded_inj in E. lia.
Qed.

(** The prefix [ResultsForVersion] scans for selects exactly one version. *)
Lemma key_prefix v v' id :
  in_int64 v -> in_int64 v' ->
  has_prefix (key v' id) (dec020 v +:+ ":") = true <-> v' = v.
Proof.
  intros H H'. unfold key. rewrite has_prefix_spec. split.
  - intros (t & E). rewrite !app_assoc_str in E.
    apply app_inj_len in E as [E _]; [by apply dec020_inj|by rewrite !dec020_length].
  - intros ->. exists id. by rewrite app_assoc_str.
Qed.

Lemma key_inj v v' id id' :
  in_int64 v -> in_int64 v' -> key v id = key v' id' -> v = v' /\ id = id'.
Proof.
  intros H H' E. unfold key in E.
  apply app_inj_len in E as [Ev Eid]; [|by rewrite !dec020_length].
  split; [by apply dec020_inj|]. by injection Eid.
Qed.

Lemma key_inj_id v id id' : key v id = key v id' -> id = id'.
Proof. unfold key. intros E%app_inj_l. by injection E. Qed.

(** ** What the operations do to the stored contents *)

Section laws.
Context {DB : Type} `{!Bolt DB jval, !BoltLaws DB jval}.

(** The results bucket as the operations see it. *)
Definition result_at (d : DB) (v : Z) (id : string) : option OpResult :=
  match bolt_view d !! (bucketJournal, key v id) with
  | Some (JResult r) => Some r
  | _ => None
  end.

(** Every entry of the results bucket is a result filed under its own key. *)
Definition journal_wf (d : DB) : Prop :=
  forall k j, bolt_view d !! (bucketJournal, k) = Some j ->
  exists r, j = JResult r /\ k = key (or_Version r) (or_OpID r) /\ in_int64 (or_Version r).

Lemma Record_ok r d d' : Record_ r d = (Ok tt, d') ->
  bolt_view d' = <[(bucketJournal, key (or_Version r) (or_OpID r)) := JResult r]> (bolt_view d).
Proof. apply put_ok. Qed.

Lemma Record_err r d e d' : Record_ r d = (Err e, d') -> bolt_view d' = bolt_view d.
Proof. apply put_err. Qed.

Lemma Record_wf r d o d' :
  in_int64 (or_Version r) -> journal_wf d -> Record_ r d = (o, d') -> journal_wf d'.
Proof.
  intros Hv Hwf E k j. destruct o as [[]|e].
  - rewrite (Record_ok _ _ _ E). intros [[[= <-] <-]|[_ H]]%lookup_insert_Some; eauto.
  - rewrite (Record_err _ _ _ _ E). apply Hwf.
Qed.

Lemma Record_lookup r d d' v id : Record_ r d = (Ok tt, d') ->
  result_at d' v id =
  if decide (key v id = key (or_Version r) (or_OpID r)) then Some r else result_at d v id.
Proof.
  intros E. unfold result_at. rewrite (Record_ok _ _ _ E), lookup_insert.
  repeat case_decide; congruence.
Qed.

Lemma Result_same v id d o d' : Result v id d = (o, d') -> bolt_view d' = bolt_view d.
Proof.
  unfold Result, bind, lift. destruct (bolt_get _ _ d) as [[x|e] d1] eqn:E;
    intros [= _ <-]; by apply get_same in E.
Qed.

Lemma Result_ok v id d o d' : Result v id d = (Ok o, d') -> o = result_at d v id.
Proof.
  unfold Result, bind, lift, result_at. destruct (bolt_get _ _ d) as [[x|e] d1] eqn:E; [|done].
  apply get_ok in E as ->. intros [= H _].
  destruct (bolt_view d !! _) as [[?|r]|]; cbn in H; congruence.
Qed.

Lemma SetLastAppliedVersion_ok v d d' : SetLastAppliedVersion v d = (Ok tt, d') ->
  bolt_view d' = <[(bucketMeta, "lastAppliedVersion") := JVersion v]> (bolt_view d).
Proof. apply put_ok. Qed.

Lemma result_at_meta d k j d' v id :
  bolt_view d' = <[(bucketMeta, k) := j]> (bolt_view d) -> result_at d' v id = result_at d v id.
Proof. intros E. unfold result_at. by rewrite E, lookup_insert_ne. Qed.

Lemma collect_from l out m id r :
  collect out l = Ok m -> m !! id = Some r ->
  (exists k, (k, JResult r) ∈ l /\ or_OpID r = id) \/ out !! id = Some r.
Proof.
  revert out. induction l as [|[k [v|r0]] l IH]; intros out H Hm; cbn in H; [|done|].
  - injection H as <-. auto.
  - destruct (IH _ H Hm) as [(k' & ? & ?)|Ho].
    + left. exists k'. split; [by right|done].
    + apply lookup_insert_Some in Ho as [[? ->]|[_ ?]]; [|by right].
      left. exists k. split; [left|done].
Qed.

Lemma collect_to l out m id r :
  collect out l = Ok m ->
  (exists k, (k, JResult r) ∈ l /\ or_OpID r = id) \/ out !! id = Some r ->
  (forall k' r', (k', JResult r') ∈ l -> or_OpID r' = id -> r' = r) ->
  m !! id = Some r.
Proof.
  revert out. induction l as [|[k [v|r0]] l IH]; intros out H Hin Hu; cbn in H; [|done|].
  - injection H as <-. destruct Hin as [(? & []%not_elem_of_nil & _)|?]; done.
  - apply (IH _ H); [|intros k' r' ?; apply (Hu k'); by right].
    destruct (decide (or_OpID r0 = id)) as [E|E].
    + right. rewrite E, lookup_insert_eq. f_equal. apply (Hu k); [left|done].
    + rewrite lookup_insert_ne; [|done].
      destruct Hin as [(k' & [[= -> ->]|?]%elem_of_cons & ?)|?]; [done| |by right].
      left. eauto.
Qed.

(** [ResultsForVersion] reads back exactly the results recorded for that
    version, keyed by op id. *)
Theorem ResultsForVersion_spec version d m d' :
  journal_wf d -> in_int64 version ->
  ResultsForVersion version d = (Ok m, d') ->
  bolt_view d' = bolt_view d /\
  forall id, m !! id = result_at d version id.
Proof.
  intros Hwf Hv. unfold ResultsForVersion, bind, lift.
  destruct (bolt_entries bucketJournal d) as [[es|e] d1] eqn:E; [|done]. intros [= H <-].
  split; [by apply entries_same in E|]. intros id.
  pose proof (entries_sorted _ _ _ _ E) as Hs. pose proof (entries_elem _ _ _ _ E) as He.
  set (l := take_prefixed _ _) in H.
  assert (Hl : forall k j, (k, j) ∈ l <->
    exists r, j = JResult r /\ k = key version (or_OpID r) /\ or_Version r = version /\
      result_at d version (or_OpID r) = Some r).
  { intros k j. unfold l. rewrite seek_prefixed_elem, He; [|done]. split.
    - intros [Hk Hp]. destruct (Hwf _ _ Hk) as (r & -> & -> & Hr).
      apply key_prefix in Hp; [|done..]. subst version. exists r. split_and!; [done..|].
      unfold result_at. by rewrite Hk.
    - intros (r & -> & -> & Hr & Ha). unfold result_at in Ha. split; [|by apply key_prefix].
      destruct (bolt_view d !! _) as [[?|r']|] eqn:Hk; congruence. }
  apply option_eq. intros r. split.
  - intros Hm. destruct (collect_from _ _ _ _ _ H Hm) as [(k & Hk & <-)|Hk].
    + apply Hl in Hk as (r' & [= <-] & _ & _ & Ha). done.
    + by rewrite lookup_empty in Hk.
  - intros Ha. assert (Ha' := Ha). unfold result_at in Ha.
    destruct (bolt_view d !! _) as [[?|r']|] eqn:Hk; [done| |done]. injection Ha as ->.
    destruct (Hwf _ _ Hk) as (r'' & [= <-] & Ek & Hr).
    apply key_inj in Ek as [-> ->]; [|done..].
    apply (collect_to _ _ _ _ _ H).
    + left. eexists. split; [|done]. apply Hl. eauto.
    + intros k' r' (r1 & [= <-] & _ & _ & H1)%Hl E'. rewrite E' in H1. congruence.
Qed.
End laws.

(** Two versions whose decimal renderings share a prefix, and one result each. *)
Lemma ResultsForVersion_spec_witness :
  let d := mkMemBolt (list_to_map
    [((bucketJournal, key 1 "a"), JResult (mkOpResult 1 "a" "applied" "" 0));
     ((bucketJournal, key 11 "b"), JResult (mkOpResult 11 "b" "failed" "x" 0))]) [] in
  exists m d', ResultsForVersion 1 d = (Ok m, d') /\
    m !! "a" = result_at d 1 "a" /\ m !! "b" = None.
Proof.
  intros d. destruct (ResultsForVersion 1 d) as [[m|e] d'] eqn:E.
  - exists m, d'. destruct (ResultsForVersion_spec 1 d m d') as [_ H].
    + intros k j Hk. cbn in Hk.
      apply lookup_insert_Some in Hk as [[[= <-] <-]|[_ Hk]].
      * eexists. split_and!; [reflexivity|reflexivity|split; vm_compute; congruence].
      * apply lookup_insert_Some in Hk as [[[= <-] <-]|[_ Hk]]; [|by rewrite lookup_empty in Hk].
        eexists. split_and!; [reflexivity|reflexivity|split; vm_compute; congruence].
    + split; vm_compute; congruence.
    + exact E.
    + split; [reflexivity|]. split; [exact (H "a")|]. rewrite (H "b"). vm_compute. reflexivity.
  - vm_compute in E. discriminate E.
Defined.
