(* ===== verification/Apply.v ===== *)
(** * Applying a document: the dependency-ordered, journalled op loop

    Models [agent/internal/apply/apply.go].  The loop runs over two worlds:
    the journal's store and the host the handlers act on.  The host also
    carries the clock and the caller's context ([ApplyEnv]). *)

From Stdlib Require Import Ascii.
From S2P Require Import Prelude GoStrings Json Dsd Bolt Journal.

Local Open Scope string_scope.
Local Open Scope io_scope.

(** The clock and whether the caller's context is done. *)
Class ApplyEnv (W : Type) := {
  env_now : W -> Z;
  env_cancelled : W -> bool;
}.

(** [DefaultOpTimeout] *)
Definition DefaultOpTimeout : Z := 15 * Minute.

Definition defaultOpTimeouts : gmap string Z := list_to_map
  [("image.build", 30 * Minute); ("image.pull", 15 * Minute);
   ("backup.run", 30 * Minute); ("backup.base", 30 * Minute);
   ("backup.verify", 30 * Minute); ("backup.restore", 30 * Minute);
   ("backup.restore-pitr", 30 * Minute); ("k8s.node", 30 * Minute)]%Z.

Section apply.
Context {DB W : Type} `{!Bolt DB jval, !ApplyEnv W}.

(** A handler gets its deadline (the context it runs under) and the op. *)
Definition Handler : Type := Z -> Op -> io W unit.

Record Registry := mkRegistry {
  handlers : gmap string Handler;
  timeouts : gmap string Z;
}.

Definition NewRegistry : Registry := mkRegistry ∅ defaultOpTimeouts.
Definition Register (kind : string) (h : Handler) (r : Registry) : Registry :=
  mkRegistry (<[kind := h]> (handlers r)) (timeouts r).
Definition SetTimeout (kind : string) (d : Z) (r : Registry) : Registry :=
  mkRegistry (handlers r) (<[kind := d]> (timeouts r)).
Definition timeoutFor (r : Registry) (kind : string) : Z :=
  match timeouts r !! kind with
  | Some d => if (0 <? d)%Z then d else DefaultOpTimeout
  | None => DefaultOpTimeout
  end.

Definition apply_world : Type := DB * W.
Definition on_db {A} (m : io DB A) : io apply_world A :=
  fun s => let '(r, d) := m s.1 in (r, (d, s.2)).
Definition now : io apply_world Z := fun s => (Ok (env_now s.2), s).

(** The two maps [Apply] fills: the results and the ids failed or skipped. *)
Definition progress : Type := gmap string OpResult * gset string.

Definition record_failed (res : OpResult) (p : progress) : progress :=
  (<[or_OpID res := res]> p.1, {[or_OpID res]} ∪ p.2).

Fixpoint fail_unresolved (version : Z) (ids : list string) (p : progress) : io apply_world progress :=
  match ids with
  | [] => ret p
  | id :: ids =>
      at_ <- now ;;
      let res := mkOpResult version id "failed" "unorderable (cycle or missing dependency)" at_ in
      _ <- on_db (Record_ res) ;;
      fail_unresolved version ids (record_failed res p)
  end.

(** The first failed or skipped prerequisite, quoted in the reason. *)
Fixpoint skip_reason (p : progress) (deps : list string) : option string :=
  match deps with
  | [] => None
  | dep :: deps =>
      if bool_decide (dep ∈ p.2) then
        let err := match p.1 !! dep with Some r => or_Err r | None => "" end in
        Some (if String.eqb err ""
              then "prerequisite " +:+ dep +:+ " failed"
              else "prerequisite " +:+ dep +:+ " failed: " +:+ err)
      else skip_reason p deps
  end.

(** The outcome of a handler that ran under [budget]: state and error. *)
Definition outcome (budget : Z) (timedOut : bool) (err : res unit) : string * string :=
  if timedOut then
    ("failed", "op timed out after " +:+ dur_string budget +:+
               match err with Err e => ": " +:+ e | Ok _ => "" end)
  else match err with
       | Err e => ("failed", e)
       | Ok _ => ("applied", "")
       end.

Definition run_handler (r : Registry) (op : Op) : io apply_world (string * string) := fun s =>
  match handlers r !! op_Kind op with
  | None => (Ok ("failed", "unknown op kind " +:+ quote (op_Kind op)), s)
  | Some h =>
      let budget := timeoutFor r (op_Kind op) in
      let deadline := (env_now s.2 + budget)%Z in
      let '(err, w) := h deadline op s.2 in
      let timedOut := (deadline <=? env_now w)%Z && negb (env_cancelled w) in
      (Ok (outcome budget timedOut err), (s.1, w))
  end.

Definition applied (r : OpResult) : bool := String.eqb (or_State r) "applied".

Definition already_applied (prev : option OpResult) : option OpResult :=
  match prev with
  | Some pr => if applied pr then Some pr else None
  | None => None
  end.

(** One iteration of the loop over the ordered ops: resume, skip or run. *)
Definition apply_op (r : Registry) (version : Z) (op : Op) (p : progress) : io apply_world progress :=
  prev <- on_db (Result version (op_ID op)) ;;
  match already_applied prev with
  | Some pr => ret (<[op_ID op := pr]> p.1, p.2)
  | None =>
      match skip_reason p (op_DependsOn op) with
      | Some why =>
          at_ <- now ;;
          let res := mkOpResult version (op_ID op) "skipped" why at_ in
          _ <- on_db (Record_ res) ;;
          ret (record_failed res p)
      | None =>
          at_ <- now ;;
          out <- run_handler r op ;;
          let res := mkOpResult version (op_ID op) out.1 out.2 at_ in
          _ <- on_db (Record_ res) ;;
          ret (if applied res then (<[op_ID op := res]> p.1, p.2) else record_failed res p)
      end
  end.

Fixpoint apply_ops (r : Registry) (version : Z) (ops : list Op) (p : progress) : io apply_world progress :=
  match ops with
  | [] => ret p
  | op :: ops => p' <- apply_op r version op p ;; apply_ops r version ops p'
  end.

Definition Apply (r : Registry) (doc : Document) : io apply_world (gmap string OpResult) :=
  let '(ordered, unresolved) := TopoOrder (doc_Ops doc) in
  p <- fail_unresolved (doc_Version doc) unresolved (∅, ∅) ;;
  p <- apply_ops r (doc_Version doc) ordered p ;;
  _ <- on_db (SetLastAppliedVersion (doc_Version doc)) ;;
  ret p.1.
End apply.
Arguments Handler W : clear implicits.
Arguments Registry W : clear implicits.

(** ** Instrumented hosts

    A host that also records which ops' handlers were called, in order. *)
Section traced.
Context {W : Type} `{!ApplyEnv W}.

#[export] Instance traced_env : ApplyEnv (W * list string) := {
  env_now s := env_now s.1;
  env_cancelled s := env_cancelled s.1;
}.

Definition traced_handler (h : Handler W) : Handler (W * list string) :=
  fun deadline op s =>
    let '(r, w) := h deadline op s.1 in (r, (w, (s.2 ++ [op_ID op])%list)).

Definition traced (r : Registry W) : Registry (W * list string) :=
  mkRegistry (traced_handler <$> handlers r) (timeouts r).
End traced.

(** ** One iteration *)

Section step.
Context {DB W : Type} `{!Bolt DB jval, !BoltLaws DB jval, !ApplyEnv W}.
Implicit Types (d : DB) (w : W) (p : progress).

Definition add_result (res : OpResult) (p : progress) : progress :=
  if applied res then (<[or_OpID res := res]> p.1, p.2) else record_failed res p.

(** How the result of one op came about. *)
Inductive op_outcome (r : Registry W) (op : Op) (p : progress) (prev : option OpResult)
    (res : OpResult) : Prop :=
| out_resumed : prev = Some res -> applied res = true -> op_outcome r op p prev res
| out_skipped why :
    already_applied prev = None -> skip_reason p (op_DependsOn op) = Some why ->
    or_State res = "skipped" -> or_Err res = why -> op_outcome r op p prev res
| out_run (s : DB * W) :
    already_applied prev = None -> skip_reason p (op_DependsOn op) = None ->
    fst (run_handler r op s) = Ok (or_State res, or_Err res) -> op_outcome r op p prev res.

(** The results of other ops, and results already applied, are left alone. *)
Definition db_frame (v : Z) (ids : list string) (d d' : DB) : Prop :=
  (forall id, id ∉ ids -> result_at d' v id = result_at d v id) /\
  (forall id x, result_at d v id = Some x -> applied x = true -> result_at d' v id = Some x).

Lemma db_frame_refl v ids d d' : bolt_view d' = bolt_view d -> db_frame v ids d d'.
Proof. intros E. unfold db_frame, result_at. by rewrite E. Qed.

Lemma db_frame_trans v ids1 ids2 d1 d2 d3 :
  db_frame v ids1 d1 d2 -> db_frame v ids2 d2 d3 -> db_frame v (ids1 ++ ids2)%list d1 d3.
Proof.
  intros [F1 A1] [F2 A2]. split; [|by eauto].
  intros id Hid. rewrite F2, F1; [done|set_solver..].
Qed.

Lemma record_frame v id res d o d' :
  or_Version res = v -> or_OpID res = id ->
  already_applied (result_at d v id) = None ->
  Record_ res d = (o, d') -> db_frame v [id] d d'.
Proof.
  intros <- <- Ha E. destruct o as [[]|e]; [|apply Record_err in E; by apply db_frame_refl].
  split; intros x; rewrite (Record_lookup _ _ _ _ x E).
  - intros Hx. rewrite decide_False; [done|]. intros ->%key_inj_id. set_solver.
  - intros y Hy Happ. case_decide as Ek; [|done]. apply key_inj_id in Ek as ->.
    unfold already_applied in Ha. by rewrite Hy, Happ in Ha.
Qed.

Lemma result_at_same d d' v id : bolt_view d' = bolt_view d -> result_at d' v id = result_at d v id.
Proof. unfold result_at. by intros ->. Qed.

Lemma run_handler_db (r : Registry W) op d w o s' :
  run_handler r op (d, w) = (o, s') -> s'.1 = d /\ exists out, o = Ok out.
Proof.
  unfold run_handler. destruct (handlers r !! _) as [h|]; cbn.
  - destruct (h _ _ _). intros [= <- <-]. eauto.
  - intros [= <- <-]. eauto.
Qed.

(** What one iteration guarantees, whether or not it fails. *)
Definition iteration_post (r : Registry W) v op p d (o : res progress) (d' : DB) : Prop :=
  journal_wf d' /\ db_frame v [op_ID op] d d' /\
  match o with
  | Err _ => True
  | Ok p' => exists res, p' = add_result res p /\ result_at d' v (op_ID op) = Some res /\
      or_OpID res = op_ID op /\ or_Version res = v /\
      op_outcome r op p (result_at d v (op_ID op)) res
  end.

(** The tail shared by the skip and the run branch: record, then note. *)
Lemma record_post (r : Registry W) v op p d d1 res o d' w w' :
  in_int64 v -> journal_wf d -> bolt_view d1 = bolt_view d ->
  or_Version res = v -> or_OpID res = op_ID op ->
  already_applied (result_at d v (op_ID op)) = None ->
  op_outcome r op p (result_at d v (op_ID op)) res ->
  bind (on_db (Record_ res)) (fun _ => ret (add_result res p)) (d1, w) = (o, (d', w')) ->
  iteration_post r v op p d o d' /\ w' = w.
Proof.
  intros Hv Hwf Ed Hrv Hid Hna Hout. unfold bind, on_db, ret. cbn.
  destruct (Record_ res d1) as [x d2] eqn:E.
  assert (Hwf1 : journal_wf d1) by (unfold journal_wf; by rewrite Ed).
  assert (Hna1 : already_applied (result_at d1 v (op_ID op)) = None)
    by (by rewrite (result_at_same _ _ _ _ Ed)).
  assert (Hwf2 : journal_wf d2).
  { refine (Record_wf _ _ _ _ _ Hwf1 E). by rewrite Hrv. }
  assert (Hf : db_frame v [op_ID op] d d2).
  { apply (db_frame_trans v [] [op_ID op] d d1 d2); [by apply db_frame_refl|].
    by eapply record_frame. }
  destruct x as [[]|e]; intros [= <- <- <-]; (split; [|done]); split_and!; try done.
  exists res. split_and!; try done.
  rewrite (Record_lookup _ _ _ _ _ E), <- Hrv, <- Hid. by rewrite decide_True.
Qed.

Lemma apply_op_post (r : Registry W) v op p d w o d' w' :
  in_int64 v -> journal_wf d ->
  apply_op r v op p (d, w) = (o, (d', w')) -> iteration_post r v op p d o d'.
Proof.
  intros Hv Hwf. unfold apply_op. unfold bind at 1, on_db at 1. cbn.
  destruct (Result v (op_ID op) d) as [[prev|e] d1] eqn:E.
  2: { intros [= <- <- _]. apply Result_same in E. split_and!; [|by apply db_frame_refl|done].
       unfold journal_wf. by rewrite E. }
  pose proof (Result_same _ _ _ _ _ E) as Ed. apply Result_ok in E as ->.
  assert (Hwf1 : journal_wf d1) by (unfold journal_wf; by rewrite Ed).
  destruct (already_applied (result_at d v (op_ID op))) as [pr|] eqn:Ha.
  - unfold ret. intros [= <- <- _]. unfold already_applied in Ha.
    destruct (result_at d v (op_ID op)) as [x|] eqn:Hx; [|done].
    destruct (applied x) eqn:Happ; [|done]. injection Ha as ->.
    assert (or_OpID pr = op_ID op /\ or_Version pr = v) as [Hid Hver].
    { unfold result_at in Hx. destruct (bolt_view d !! _) as [[?|y]|] eqn:Hl; [done| |done].
      injection Hx as ->. destruct (Hwf _ _ Hl) as (z & [= <-] & Ek & Hz).
      apply key_inj in Ek as [? ?]; [done..|]. done. }
    split_and!; [done|by apply db_frame_refl|]. exists pr.
    split_and!; [unfold add_result; by rewrite Happ, Hid|by rewrite (result_at_same _ _ _ _ Ed)|done..|].
    by constructor.
  - destruct (skip_reason p (op_DependsOn op)) as [why|] eqn:Hs.
    + unfold bind at 1, now at 1. cbn. intros H.
      refine (proj1 (record_post r v op p d d1 _ o d' w w' Hv Hwf Ed _ _ Ha _ H)); [done..|].
      by eapply out_skipped.
    + unfold bind at 1, now at 1. cbn. unfold bind at 1.
      destruct (run_handler r op (d1, w)) as [out [d2 w2]] eqn:Er.
      pose proof (run_handler_db _ _ _ _ _ _ Er) as (E2 & y & ->). cbn in E2. subst d2.
      intros H.
      refine (proj1 (record_post r v op p d d1 _ o d' w2 w' Hv Hwf Ed _ _ Ha _ H)); [done..|].
      eapply (out_run _ _ _ _ _ (d1, w)); [done..|]. rewrite Er. by destruct y.
Qed.
End step.

(** ** The whole loop *)

Section loop.
Context {DB W : Type} `{!Bolt DB jval, !BoltLaws DB jval, !ApplyEnv W}.
Implicit Types (d : DB) (w : W) (p : progress).

Abbreviation ids := (map op_ID).

(** The results held in memory are those in the journal, and the failed set
    is exactly the ids whose result is not "applied". *)
Definition progress_inv (v : Z) (p : progress) (d : DB) : Prop :=
  (forall id x, p.1 !! id = Some x -> result_at d v id = Some x) /\
  (forall id, id ∈ p.2 <-> exists x, p.1 !! id = Some x /\ applied x = false).

(** The dependencies of every op are known before it is reached. *)
Definition deps_known (ops : list Op) (p : progress) : Prop :=
  forall l1 op l2, ops = (l1 ++ op :: l2)%list ->
  forall y, y ∈ op_DependsOn op -> y ∈ dom p.1 \/ y ∈ ids l1.

Lemma add_result_fst res p : (add_result res p).1 = <[or_OpID res := res]> p.1.
Proof. unfold add_result. by destruct (applied res). Qed.

Lemma progress_inv_step v p d d' res :
  progress_inv v p d -> or_OpID res ∉ dom p.1 ->
  (forall id, id <> or_OpID res -> result_at d' v id = result_at d v id) ->
  result_at d' v (or_OpID res) = Some res -> progress_inv v (add_result res p) d'.
Proof.
  intros [H1 H2] Hn Hf Hr. split.
  - intros id x. rewrite add_result_fst. intros [[<- <-]|[Hne Hx]]%lookup_insert_Some; [done|].
    rewrite Hf; auto.
  - intros id. assert (Hid : p.1 !! or_OpID res = None) by (by apply not_elem_of_dom).
    rewrite add_result_fst. unfold add_result.
    assert (Hp2 : or_OpID res ∉ p.2) by (rewrite H2, Hid; by intros (? & [=] & _)).
    destruct (applied res) eqn:Ha; cbn [record_failed fst snd].
    + rewrite H2, lookup_insert. case_decide as E; [|done]. subst.
      split; [by rewrite Hid; intros (? & [=] & _)|].
      intros (? & [= <-] & ?). congruence.
    + rewrite elem_of_union, elem_of_singleton, H2, lookup_insert.
      case_decide as E; [subst; split; [eauto|auto]|naive_solver].
Qed.

Lemma skip_reason_none p deps : skip_reason p deps = None <-> forall y, y ∈ deps -> y ∉ p.2.
Proof.
  induction deps as [|y deps IH]; cbn; [split; [by intros _ ? ?%not_elem_of_nil|done]|].
  case_bool_decide as E; [split; [done|]|rewrite IH; set_solver].
  intros H. by destruct (H y); [left|].
Qed.

Lemma skip_reason_some p deps why : skip_reason p deps = Some why -> exists y, y ∈ deps /\ y ∈ p.2.
Proof.
  induction deps as [|y deps IH]; cbn; [done|]. case_bool_decide as E.
  - intros _. exists y. split; [left|done].
  - intros (z & ? & ?)%IH. exists z. split; [by right|done].
Qed.

(** Why an op has the result it has, in terms of the results returned. *)
Inductive op_summary (v : Z) (d : DB) (results : gmap string OpResult) (op : Op)
    (res : OpResult) : Prop :=
| sum_resumed :   (* already applied when the document was (re-)entered *)
    result_at d v (op_ID op) = Some res -> applied res = true -> op_summary v d results op res
| sum_skipped y x :   (* behind a prerequisite that is not applied *)
    or_State res = "skipped" -> y ∈ op_DependsOn op ->
    results !! y = Some x -> applied x = false -> op_summary v d results op res
| sum_run :   (* run, with every prerequisite applied *)
    or_State res = "applied" \/ or_State res = "failed" ->
    (forall y, y ∈ op_DependsOn op -> exists x, results !! y = Some x /\ applied x = true) ->
    op_summary v d results op res.

Lemma run_handler_state (r : Registry W) op (s : DB * W) st err :
  fst (run_handler r op s) = Ok (st, err) -> st = "applied" \/ st = "failed".
Proof.
  unfold run_handler. destruct (handlers r !! _) as [h|]; cbn.
  - destruct (h _ _ _) as [e w]. cbn. unfold outcome.
    destruct (_ && _); [|destruct e]; intros [= <- _]; auto.
  - intros [= <- _]. auto.
Qed.

Lemma outcome_summary (r : Registry W) v op p d d0 p' res :
  progress_inv v p d0 -> (forall y, y ∈ op_DependsOn op -> y ∈ dom p.1) ->
  (forall id x, p.1 !! id = Some x -> p'.1 !! id = Some x) ->
  op_outcome (DB := DB) r op p (result_at d v (op_ID op)) res -> op_summary v d p'.1 op res.
Proof.
  intros [_ Hf] Hdeps Hmono [Hprev Ha|why Hna Hs Hst _|s Hna Hs Hrun].
  - by apply sum_resumed.
  - apply skip_reason_some in Hs as (y & Hy & (x & Hx & Hx')%Hf). eapply sum_skipped; eauto.
  - apply sum_run; [by eapply run_handler_state|].
    intros y Hy. pose proof (Hdeps y Hy) as [x Hx]%elem_of_dom. exists x. split; [auto|].
    destruct (applied x) eqn:E; [done|]. rewrite skip_reason_none in Hs.
    destruct (Hs y Hy). apply Hf. eauto.
Qed.

(** What running the loop over [ops] guarantees. *)
Definition loop_post v ops p d (o : res progress) d' : Prop :=
  journal_wf d' /\ db_frame v (ids ops) d d' /\
  match o with
  | Err _ => True
  | Ok p' => progress_inv v p' d' /\ dom p'.1 = dom p.1 ∪ list_to_set (ids ops) /\
      (forall id x, p.1 !! id = Some x -> p'.1 !! id = Some x) /\
      (forall op, op ∈ ops -> exists x, p'.1 !! op_ID op = Some x /\ op_summary v d p'.1 op x)
  end.

Lemma deps_known_step op ops p res :
  or_OpID res = op_ID op -> deps_known (op :: ops) p -> deps_known ops (add_result res p).
Proof.
  intros Hid H l1 op' l2 -> y Hy. rewrite add_result_fst, dom_insert_L, Hid.
  destruct (H (op :: l1) op' l2 eq_refl y Hy) as [?|Hin]; [set_solver|].
  cbn in Hin. apply elem_of_cons in Hin as [->|?]; set_solver.
Qed.

Lemma apply_ops_post (r : Registry W) v ops : forall p d w o d' w',
  in_int64 v -> journal_wf d -> progress_inv v p d ->
  NoDup (ids ops) -> (forall id, id ∈ ids ops -> id ∉ dom p.1) -> deps_known ops p ->
  apply_ops r v ops p (d, w) = (o, (d', w')) -> loop_post v ops p d o d'.
Proof.
  induction ops as [|op ops IH]; intros p d w o d' w' Hv Hwf Hinv Hnd Hfresh Hdk; cbn [apply_ops].
  { unfold ret. intros [= <- <- _]. split_and!; [done|by apply db_frame_refl|done|set_solver|done|].
    by intros op ?%not_elem_of_nil. }
  cbn in Hnd. apply NoDup_cons in Hnd as [Hnin Hnd].
  unfold bind. destruct (apply_op r v op p (d, w)) as [o1 [d1 w1]] eqn:E1.
  pose proof (apply_op_post r v op p d w o1 d1 w1 Hv Hwf E1) as (Hwf1 & Hf1 & Hp1).
  destruct o1 as [p1|e].
  2: { intros [= <- <- _]. split_and!; [done| |done].
       rewrite <- (app_nil_r (ids (op :: ops))). cbn [map].
       destruct Hf1 as [F A]. split; [|done]. intros id Hid. apply F. set_solver. }
  destruct Hp1 as (res & -> & Hres & Hid & Hver & Hout). intros E2.
  assert (Hinv1 : progress_inv v (add_result res p) d1).
  { apply (progress_inv_step v p d); [done| | |by rewrite Hid].
    - rewrite Hid. apply Hfresh. left.
    - intros id Hne. apply Hf1. rewrite <- Hid. set_solver. }
  destruct (IH (add_result res p) d1 w1 o d' w' Hv Hwf1 Hinv1 Hnd) as (Hwf2 & Hf2 & Hp2).
  { intros id Hin. rewrite add_result_fst, dom_insert_L, Hid.
    assert (id ∉ dom p.1) by (apply Hfresh; by right). set_solver. }
  { by eapply deps_known_step. }
  { done. }
  split_and!; [done|by apply (db_frame_trans v [op_ID op] (ids ops) d d1 d')|].
  destruct o as [p'|e]; [|done]. destruct Hp2 as (Hi & Hdom & Hmono & Hsum).
  assert (Hmono0 : forall id x, p.1 !! id = Some x -> p'.1 !! id = Some x).
  { intros id x Hx. apply Hmono. rewrite add_result_fst, lookup_insert_ne; [done|].
    intros <-. rewrite Hid in Hx. eapply Hfresh; [left|by apply elem_of_dom_2 in Hx]. }
  split_and!; [done|rewrite Hdom, add_result_fst, dom_insert_L, Hid; set_solver|done|].
  intros op' [->|Hin]%elem_of_cons.
  - exists res. split; [apply Hmono; by rewrite add_result_fst, Hid, lookup_insert_eq|].
    eapply outcome_summary; [exact Hinv| |exact Hmono0|exact Hout].
    intros y Hy. destruct (Hdk [] op ops eq_refl y Hy) as [?|?%not_elem_of_nil]; done.
  - destruct (Hsum op' Hin) as (x & Hx & Hs). exists x. split; [done|].
    destruct Hs as [Hs1 Hs2|y z ? ? ? ?|? ?].
    + apply sum_resumed; [|done]. destruct Hf1 as [F _]. rewrite <- F; [done|].
      rewrite list_elem_of_singleton. intros E. apply Hnin. rewrite <- E.
      apply list_elem_of_fmap. eauto.
    + by eapply sum_skipped.
    + by apply sum_run.
Qed.

Lemma progress_inv_failed v p d d' res :
  progress_inv v p d -> applied res = false ->
  (forall id, id <> or_OpID res -> result_at d' v id = result_at d v id) ->
  result_at d' v (or_OpID res) = Some res -> progress_inv v (record_failed res p) d'.
Proof.
  intros [H1 H2] Ha Hf Hr. split; cbn.
  - intros id x [[<- <-]|[Hne Hx]]%lookup_insert_Some; [done|]. rewrite Hf; auto.
  - intros id. rewrite elem_of_union, elem_of_singleton, H2, lookup_insert.
    case_decide as E; [subst; split; [eauto|auto]|naive_solver].
Qed.

Lemma fail_unresolved_post v l : forall p d w o d' w',
  in_int64 v -> journal_wf d -> progress_inv v p d ->
  fail_unresolved (W := W) v l p (d, w) = (o, (d', w')) ->
  journal_wf d' /\ w' = w /\ (forall id, id ∉ l -> result_at d' v id = result_at d v id) /\
  match o with
  | Err _ => True
  | Ok p' => progress_inv v p' d' /\ dom p'.1 = dom p.1 ∪ list_to_set l /\
      (forall id, id ∈ l -> exists x, p'.1 !! id = Some x /\ or_State x = "failed") /\
      (forall id, id ∉ l -> p'.1 !! id = p.1 !! id)
  end.
Proof.
  induction l as [|id l IH]; intros p d w o d' w' Hv Hwf Hinv; cbn [fail_unresolved].
  { unfold ret. intros [= <- <- <-]. split_and!; [done..|set_solver| |done].
    by intros ? ?%not_elem_of_nil. }
  unfold bind at 1, now at 1. cbn. unfold bind at 1, on_db at 1. cbn.
  set (res := mkOpResult v id _ _ _).
  destruct (Record_ res d) as [[[]|e] d1] eqn:E.
  2: { intros [= <- <- <-]. pose proof (Record_err _ _ _ _ E) as Ed.
       split_and!; [unfold journal_wf; by rewrite Ed|done| |done].
       intros x _. by apply result_at_same. }
  assert (Hres : forall x, result_at d1 v x = if decide (x = id) then Some res else result_at d v x).
  { intros x. rewrite (Record_lookup _ _ _ v x E). cbn.
    repeat case_decide; subst; try done. by destruct H0; eapply key_inj_id. }
  assert (Hwf1 : journal_wf d1) by (by eapply (Record_wf res)).
  assert (Hinv1 : progress_inv v (record_failed res p) d1).
  { apply (progress_inv_failed v p d); [done..| |cbn; by rewrite Hres, decide_True].
    intros x Hx. rewrite Hres, decide_False; done. }
  intros E2. destruct (IH _ _ _ _ _ _ Hv Hwf1 Hinv1 E2) as (Hwf2 & -> & Hf & Hp).
  split_and!; [done..| |].
  - intros x Hx. rewrite Hf, Hres, decide_False; [done|set_solver..].
  - destruct o as [p'|]; [|done]. destruct Hp as (? & Hdom & Hfail & Hsame).
    split_and!; [done|rewrite Hdom; cbn; set_solver| |].
    + intros x [->|Hx]%elem_of_cons; [|auto].
      destruct (decide (id ∈ l)) as [|Hni]; [auto|]. rewrite Hsame; [|done]. cbn.
      rewrite lookup_insert_eq. eauto.
    + intros x Hx. rewrite Hsame; [|set_solver]. cbn. rewrite lookup_insert_ne; [done|set_solver].
Qed.
End loop.

(** ** The versions bucket *)

Section meta.
Context {DB W : Type} `{!Bolt DB jval, !BoltLaws DB jval, !ApplyEnv W}.

Definition meta_same (d d' : DB) : Prop :=
  forall k, bolt_view d' !! (bucketMeta, k) = bolt_view d !! (bucketMeta, k).

Lemma Record_meta res (d : DB) o d' : Record_ res d = (o, d') -> meta_same d d'.
Proof.
  intros E k. destruct o as [[]|e].
  - by rewrite (Record_ok _ _ _ E), lookup_insert_ne.
  - by rewrite (Record_err _ _ _ _ E).
Qed.

Lemma view_meta (d d' : DB) : bolt_view d' = bolt_view d -> meta_same d d'.
Proof. by intros E k; rewrite E. Qed.

Lemma meta_trans (d1 d2 d3 : DB) : meta_same d1 d2 -> meta_same d2 d3 -> meta_same d1 d3.
Proof. intros H1 H2 k. by rewrite H2. Qed.

Lemma fail_unresolved_meta v l : forall p (s : DB * W) o s',
  fail_unresolved v l p s = (o, s') -> meta_same s.1 s'.1.
Proof.
  induction l as [|id l IH]; intros p [d w] o s'; cbn [fail_unresolved].
  { unfold ret. by intros [= _ <-]. }
  unfold bind at 1, now at 1. cbn. unfold bind at 1, on_db at 1. cbn.
  destruct (Record_ _ d) as [[[]|e] d1] eqn:E; intros H.
  - eapply meta_trans; [by eapply Record_meta|]. by apply IH in H.
  - injection H as _ <-. by eapply Record_meta.
Qed.

Lemma apply_op_meta (r : Registry W) v op p (s : DB * W) o s' :
  apply_op r v op p s = (o, s') -> meta_same s.1 s'.1.
Proof.
  destruct s as [d w]. unfold apply_op. unfold bind at 1, on_db at 1. cbn.
  destruct (Result v (op_ID op) d) as [[prev|e] d1] eqn:E;
    pose proof (view_meta _ _ (Result_same _ _ _ _ _ E)) as Hm; [|by intros [= _ <-]].
  destruct (already_applied prev); [by intros [= _ <-]|].
  destruct (skip_reason p _) as [why|]; unfold bind at 1, now at 1; cbn.
  - unfold bind, on_db, ret. cbn. destruct (Record_ _ d1) as [[[]|e] d2] eqn:E2;
      intros [= _ <-]; (eapply meta_trans; [done|by eapply Record_meta]).
  - unfold bind at 1. destruct (run_handler r op (d1, w)) as [out [d2 w2]] eqn:Er.
    pose proof (run_handler_db _ _ _ _ _ _ Er) as (E2 & y & ->). cbn in E2. subst d2.
    unfold bind, on_db, ret. cbn. destruct (Record_ _ d1) as [[[]|e] d2] eqn:E2;
      intros [= _ <-]; (eapply meta_trans; [done|by eapply Record_meta]).
Qed.

Lemma apply_ops_meta (r : Registry W) v ops : forall p (s : DB * W) o s',
  apply_ops r v ops p s = (o, s') -> meta_same s.1 s'.1.
Proof.
  induction ops as [|op ops IH]; intros p s o s'; cbn [apply_ops].
  { unfold ret. by intros [= _ <-]. }
  unfold bind. destruct (apply_op r v op p s) as [[p1|e] s1] eqn:E1; intros H.
  - eapply meta_trans; [by eapply apply_op_meta|]. by apply IH in H.
  - injection H as _ <-. by eapply apply_op_meta.
Qed.
End meta.

(** ** Traces *)

Section trace.
Context {DB W : Type} `{!Bolt DB jval, !BoltLaws DB jval, !ApplyEnv W}.

Lemma run_traced (r : Registry W) op (d : DB) w t o d' w' t' :
  run_handler (traced r) op (d, (w, t)) = (o, (d', (w', t'))) ->
  t' = t \/ (t' = (t ++ [op_ID op])%list /\ is_Some (handlers r !! op_Kind op)).
Proof.
  unfold run_handler. cbn. rewrite lookup_fmap. destruct (handlers r !! _) as [h|]; cbn.
  - unfold traced_handler. cbn. destruct (h _ _ _) as [e w1]. intros [= _ _ _ <-]. right. eauto.
  - intros [= _ _ _ <-]. by left.
Qed.

Lemma apply_op_trace (r : Registry W) v op p (d : DB) w t o d' w' t' :
  apply_op (traced r) v op p (d, (w, t)) = (o, (d', (w', t'))) ->
  t' = t \/ (t' = (t ++ [op_ID op])%list /\ is_Some (handlers r !! op_Kind op) /\
    already_applied (result_at d v (op_ID op)) = None /\
    skip_reason p (op_DependsOn op) = None).
Proof.
  unfold apply_op. unfold bind at 1, on_db at 1. cbn.
  destruct (Result v (op_ID op) d) as [[prev|e] d1] eqn:E; [|intros [= _ _ _ <-]; by left].
  apply Result_ok in E as ->.
  destruct (already_applied _) eqn:Ha; [intros [= _ _ _ <-]; by left|].
  destruct (skip_reason p _) as [why|] eqn:Hs; unfold bind at 1, now at 1; cbn.
  - unfold bind, on_db, ret. cbn. destruct (Record_ _ d1) as [[[]|e] d2];
      intros [= _ _ _ <-]; by left.
  - unfold bind at 1. destruct (run_handler _ op _) as [out [d2 [w2 t2]]] eqn:Er.
    pose proof (run_handler_db _ _ _ _ _ _ Er) as (E2 & y & ->).
    intros H. assert (t' = t2) as ->.
    { revert H. unfold bind, on_db, ret. cbn. by destruct (Record_ _ d2) as [[[]|e] d3]; intros [=]. }
    destruct (run_traced _ _ _ _ _ _ _ _ _ Er) as [?|[? ?]]; auto.
Qed.

Lemma apply_ops_trace (r : Registry W) v ops : forall p (d : DB) w t o d' w' t',
  in_int64 v -> journal_wf d -> progress_inv v p d ->
  NoDup (map op_ID ops) -> (forall id, id ∈ map op_ID ops -> id ∉ dom p.1) -> deps_known ops p ->
  apply_ops (traced r) v ops p (d, (w, t)) = (o, (d', (w', t'))) ->
  exists t1, t' = (t ++ t1)%list /\ sublist t1 (map op_ID ops) /\
  forall id, id ∈ t1 -> already_applied (result_at d v id) = None /\
    exists op, op ∈ ops /\ op_ID op = id /\ is_Some (handlers r !! op_Kind op) /\
      forall y, y ∈ op_DependsOn op -> exists x, result_at d' v y = Some x /\ applied x = true.
Proof.
  induction ops as [|op ops IH]; intros p d w t o d' w' t' Hv Hwf Hinv Hnd Hfresh Hdk H.
  { injection H as _ _ _ <-. exists []. rewrite app_nil_r. split_and!; [done|constructor|].
    by intros ? ?%not_elem_of_nil. }
  pose proof (apply_ops_post _ v (op :: ops) p d (w, t) o d' (w', t') Hv Hwf Hinv Hnd Hfresh Hdk H)
    as (_ & Hframe & _).
  cbn [apply_ops] in H. cbn in Hnd. apply NoDup_cons in Hnd as [Hnin Hnd].
  unfold bind in H. destruct (apply_op _ v op p _) as [o1 [d1 [w1 t1]]] eqn:E1.
  pose proof (apply_op_post _ v op p d (w, t) o1 d1 (w1, t1) Hv Hwf E1) as (Hwf1 & Hf1 & Hp1).
  pose proof (apply_op_trace _ _ _ _ _ _ _ _ _ _ _ E1) as Ht1.
  assert (Hhead : forall a, a ∈ (if decide (t1 = t) then [] else [op_ID op]) ->
    already_applied (result_at d v a) = None /\
    exists op', op' ∈ op :: ops /\ op_ID op' = a /\ is_Some (handlers r !! op_Kind op') /\
      forall y, y ∈ op_DependsOn op' -> exists x, result_at d' v y = Some x /\ applied x = true).
  { intros a. case_decide; [by intros ?%not_elem_of_nil|]. intros ->%list_elem_of_singleton.
    destruct Ht1 as [?|(_ & Hh & Hna & Hs)]; [done|]. split; [done|].
    exists op. split_and!; [left|done..|]. intros y Hy.
    destruct (Hdk [] op ops eq_refl y Hy) as [[x Hx]%elem_of_dom|?%not_elem_of_nil]; [|done].
    destruct (applied x) eqn:Ha.
    - exists x. split; [|done]. apply Hframe; [by apply Hinv|done].
    - rewrite skip_reason_none in Hs. destruct (Hs y Hy). apply Hinv. eauto. }
  assert (Et1 : t1 = (t ++ if decide (t1 = t) then [] else [op_ID op])%list).
  { case_decide as E; [by rewrite app_nil_r|]. by destruct Ht1 as [?|[? _]]. }
  destruct o1 as [p1|e].
  2: { injection H as _ _ _ <-. eexists. split_and!; [exact Et1| |exact Hhead].
       case_decide; [apply sublist_nil_l|]. cbn. apply sublist_skip, sublist_nil_l. }
  destruct Hp1 as (res & -> & Hres & Hid & Hver & Hout).
  destruct (IH (add_result res p) d1 w1 t1 o d' w' t') as (t2 & -> & Hsub & Htail); try done.
  { apply (progress_inv_step v p d); [done| | |by rewrite Hid].
    - rewrite Hid. apply Hfresh. left.
    - intros id Hne. apply Hf1. rewrite <- Hid. set_solver. }
  { intros id Hin. rewrite add_result_fst, dom_insert_L, Hid.
    assert (id ∉ dom p.1) by (apply Hfresh; by right). set_solver. }
  { by eapply deps_known_step. }
  exists ((if decide (t1 = t) then [] else [op_ID op]) ++ t2)%list. split_and!.
  - by rewrite Et1 at 1; rewrite <- app_assoc.
  - case_decide; cbn; [by apply sublist_cons|by apply sublist_skip].
  - intros a [Ha|Ha]%elem_of_app; [auto|].
    destruct (Htail a Ha) as (Hna & op' & Hin & <- & Hh & Hdeps). split.
    + destruct Hf1 as [F _]. rewrite <- F; [done|]. rewrite list_elem_of_singleton.
      intros E. apply Hnin. rewrite <- E. apply list_elem_of_fmap. eauto.
    + exists op'. split_and!; [by right|done..].
Qed.
End trace.

(** ** What [Apply] guarantees *)

Section main.
Context {DB W : Type} `{!Bolt DB jval, !BoltLaws DB jval, !ApplyEnv W}.

Lemma ordered_deps_known ops p :
  deps_known (TopoOrder ops).1 p.
Proof.
  pose proof (TopoOrder_facts ops) as H. destruct (TopoOrder ops) as [ord un].
  destruct H as (_ & Ht & _). intros l1 op l2 E y Hy. right. by eapply Ht.
Qed.

Lemma ordered_not_unresolved ops id :
  id ∈ map op_ID (TopoOrder ops).1 -> id ∉ (TopoOrder ops).2.
Proof.
  pose proof (TopoOrder_facts ops) as H. destruct (TopoOrder ops) as [ord un].
  destruct H as (_ & _ & _ & Ho & Hu). cbn.
  intros (op & -> & [_ Hr]%Ho)%list_elem_of_fmap [_ Hn]%Hu. done.
Qed.

Lemma ordered_nodup ops : NoDup (map op_ID (TopoOrder ops).1).
Proof.
  pose proof (TopoOrder_facts ops) as H. destruct (TopoOrder ops) as [ord un]. by destruct H as (_&_&?&_).
Qed.

(** Ordered and unresolved ids together are the document's ids. *)
Lemma ordered_or_unresolved ops :
  list_to_set (map op_ID (TopoOrder ops).1) ∪ list_to_set (TopoOrder ops).2 =
  (list_to_set (map op_ID ops) : gset string).
Proof.
  pose proof (TopoOrder_facts ops) as H. destruct (TopoOrder ops) as [ord un].
  destruct H as (_ & _ & _ & Ho & Hu). cbn. apply set_eq. intros id.
  rewrite elem_of_union, !elem_of_list_to_set. split.
  - intros [(op & -> & [Hb _]%Ho)%list_elem_of_fmap|[? _]%Hu]; [|done].
    apply by_id_lookup in Hb as [_ ?]. apply list_elem_of_fmap. eauto.
  - intros Hin. destruct (decide (id ∈ un)) as [|Hn]; [by right|]. left.
    assert (id ∈ dom (by_id ops)) as [op Hop]%elem_of_dom
      by (rewrite by_id_dom; by apply elem_of_list_to_set).
    pose proof (by_id_lookup _ _ _ Hop) as [<- Hi]. apply list_elem_of_fmap. exists op. split; [done|].
    apply Ho. split; [done|]. apply dec_stable. intros Hr. apply Hn, Hu. done.
Qed.

(** The state in which the loop over the ordered ops is entered. *)
Lemma Apply_prefix (r : Registry W) doc (d : DB) w o d' w' :
  journal_wf d -> in_int64 (doc_Version doc) ->
  Apply r doc (d, w) = (o, (d', w')) ->
  exists d1, journal_wf d1 /\ meta_same d d1 /\
    (forall id, id ∉ (TopoOrder (doc_Ops doc)).2 ->
      result_at d1 (doc_Version doc) id = result_at d (doc_Version doc) id) /\
    ((exists e, o = Err e /\ d' = d1 /\ w' = w) \/
     exists p, progress_inv (doc_Version doc) p d1 /\
       dom p.1 = list_to_set (TopoOrder (doc_Ops doc)).2 /\
       (forall id, id ∈ (TopoOrder (doc_Ops doc)).2 ->
          exists x, p.1 !! id = Some x /\ or_State x = "failed") /\
       bind (apply_ops r (doc_Version doc) (TopoOrder (doc_Ops doc)).1 p)
         (fun p => bind (on_db (SetLastAppliedVersion (doc_Version doc))) (fun _ => ret p.1))
         (d1, w) = (o, (d', w'))).
Proof.
  intros Hwf Hv. unfold Apply. destruct (TopoOrder (doc_Ops doc)) as [ord un]. cbn.
  unfold bind at 1. destruct (fail_unresolved _ un _ (d, w)) as [o1 [d1 w1]] eqn:E.
  pose proof (fail_unresolved_meta _ _ _ _ _ _ E) as Hm. cbn in Hm.
  apply fail_unresolved_post in E as (Hwf1 & -> & Hf & Hp); [|done..|].
  2: { split; cbn; [intros id x; by rewrite lookup_empty|].
       intros id. rewrite lookup_empty. split; [set_solver|by intros (? & [=] & _)]. }
  intros H. exists d1. split_and!; [done..|]. destruct o1 as [p1|e].
  - right. destruct Hp as (Hi & Hdom & Hfail & _). exists p1. split_and!; [done| |done|done].
    rewrite Hdom. cbn. set_solver.
  - left. injection H as <- <- <-. eauto.
Qed.

End main.

Section theorems.
Context {DB W : Type} `{!Bolt DB jval, !BoltLaws DB jval, !ApplyEnv W}.

(** A document applied without a journal error: every op of it has exactly one
    result, that result is in the journal, unorderable ops failed, an ordered
    op is "skipped" exactly when it sits behind a prerequisite that is not
    applied and otherwise was run after all of its prerequisites were applied
    (or had been applied before); and the version is recorded as applied. *)
Theorem Apply_spec (r : Registry W) doc (d : DB) w results d' w' :
  journal_wf d -> in_int64 (doc_Version doc) ->
  Apply r doc (d, w) = (Ok results, (d', w')) ->
  bolt_view d' !! (bucketMeta, "lastAppliedVersion") = Some (JVersion (doc_Version doc)) /\
  dom results = list_to_set (map op_ID (doc_Ops doc)) /\
  (forall id x, results !! id = Some x -> result_at d' (doc_Version doc) id = Some x) /\
  (forall id, id ∈ (TopoOrder (doc_Ops doc)).2 ->
     exists x, results !! id = Some x /\ or_State x = "failed") /\
  (forall op, op ∈ (TopoOrder (doc_Ops doc)).1 ->
     exists x, results !! op_ID op = Some x /\ op_summary (doc_Version doc) d results op x).
Proof.
  intros Hwf Hv H.
  destruct (Apply_prefix _ _ _ _ _ _ _ Hwf Hv H) as (d1 & Hwf1 & _ & Hf1 & [(e & [=] & _)|(p & Hi & Hdom & Hfail & Hrest)]).
  unfold bind at 1 in Hrest.
  destruct (apply_ops r _ _ p (d1, w)) as [[p2|e] [d2 w2]] eqn:E; [|done].
  pose proof (fun A B => apply_ops_post _ _ _ _ _ _ _ _ _ Hv Hwf1 Hi A B (ordered_deps_known _ _) E)
    as HP.
  destruct HP as (Hwf2 & Hframe & Hi2 & Hdom2 & Hmono & Hsum); [apply ordered_nodup| |].
  { intros id Hid. rewrite Hdom. apply ordered_not_unresolved in Hid. set_solver. }
  unfold bind, on_db, ret in Hrest. cbn in Hrest.
  destruct (SetLastAppliedVersion _ d2) as [[[]|e] d3] eqn:E3; [|done].
  injection Hrest as <- <- <-. pose proof (SetLastAppliedVersion_ok _ _ _ E3) as Ev.
  split_and!.
  - by rewrite Ev, lookup_insert_eq.
  - by rewrite Hdom2, Hdom, (union_comm_L (list_to_set _)), ordered_or_unresolved.
  - intros id x Hx. rewrite (result_at_meta _ _ _ _ _ _ Ev). by apply Hi2.
  - intros id Hid. destruct (Hfail id Hid) as (x & Hx & ?). eauto.
  - intros op Hop. destruct (Hsum op Hop) as (x & Hx & Hs). exists x. split; [done|].
    destruct Hs; [apply sum_resumed; [|done]|by eapply sum_skipped|by apply sum_run].
    rewrite <- Hf1; [done|]. apply ordered_not_unresolved, list_elem_of_fmap. eauto.
Qed.

(** C4: whatever the outcome, no handler is called twice, none for an op already
    applied at this version, none before everything the op depends on is
    recorded as applied, none of an unregistered kind, and calls follow the
    dependency order.  A run cut short therefore resumes without repeating
    what was recorded. *)
Theorem Apply_trace (r : Registry W) doc (d : DB) w o d' w' t :
  journal_wf d -> in_int64 (doc_Version doc) ->
  Apply (traced r) doc (d, (w, [])) = (o, (d', (w', t))) ->
  sublist t (map op_ID (TopoOrder (doc_Ops doc)).1) /\ NoDup t /\
  forall id, id ∈ t ->
    already_applied (result_at d (doc_Version doc) id) = None /\
    exists op, op ∈ doc_Ops doc /\ op_ID op = id /\ is_Some (handlers r !! op_Kind op) /\
      forall y, y ∈ op_DependsOn op ->
        exists x, result_at d' (doc_Version doc) y = Some x /\ applied x = true.
Proof.
  intros Hwf Hv H.
  destruct (Apply_prefix _ _ _ _ _ _ _ Hwf Hv H)
    as (d1 & Hwf1 & _ & Hf1 & [(e & -> & -> & [= _ ->])|(p & Hi & Hdom & Hfail & Hrest)]).
  { split_and!; [apply sublist_nil_l|constructor|by intros ? ?%not_elem_of_nil]. }
  unfold bind at 1 in Hrest.
  destruct (apply_ops _ _ _ p (d1, (w, []))) as [o2 [d2 [w2 t2]]] eqn:E.
  apply apply_ops_trace in E as (t1 & -> & Hsub & Ht); [|done..|apply ordered_nodup| |apply ordered_deps_known].
  2: { intros id Hid. rewrite Hdom. apply ordered_not_unresolved in Hid. set_solver. }
  assert (t = t1 /\ forall y, result_at d' (doc_Version doc) y = result_at d2 (doc_Version doc) y)
    as [-> Hsame].
  { destruct o2 as [p2|e]; [|by injection Hrest as _ <- _ <-].
    unfold bind, on_db, ret in Hrest. cbn in Hrest.
    destruct (SetLastAppliedVersion _ d2) as [[[]|e] d3] eqn:E3; injection Hrest as _ <- _ <-.
    - split; [done|]. intros y. exact (result_at_meta _ _ _ _ _ _ (SetLastAppliedVersion_ok _ _ _ E3)).
    - split; [done|]. intros y. exact (result_at_same _ _ _ _ (put_err _ _ _ _ _ _ E3)). }
  cbn in *. split_and!; [done|eapply sublist_NoDup; [apply ordered_nodup|done]|].
  intros id Hid. destruct (Ht id Hid) as (Hna & op & Hop & <- & Hh & Hdeps). split.
  - rewrite <- Hf1; [done|]. apply ordered_not_unresolved, list_elem_of_fmap. eauto.
  - exists op. split_and!; [|done..|].
    + pose proof (TopoOrder_facts (doc_Ops doc)) as HT. destruct (TopoOrder (doc_Ops doc)).
      destruct HT as (_ & _ & _ & Ho & _). apply Ho in Hop as [Hb _]. by apply by_id_lookup in Hb as [_ ?].
    + intros y Hy. rewrite Hsame. auto.
Qed.

(** A run that fails leaves the last applied version where it was. *)
Theorem Apply_err_version (r : Registry W) doc (d : DB) w e d' w' :
  Apply r doc (d, w) = (Err e, (d', w')) ->
  bolt_view d' !! (bucketMeta, "lastAppliedVersion") =
  bolt_view d !! (bucketMeta, "lastAppliedVersion").
Proof.
  unfold Apply. destruct (TopoOrder (doc_Ops doc)) as [ord un].
  unfold bind. destruct (fail_unresolved _ un _ (d, w)) as [[p|e1] [d1 w1]] eqn:E1;
    pose proof (fail_unresolved_meta _ _ _ _ _ _ E1) as H1; cbn in H1; [|intros [= _ <- _]; apply H1].
  destruct (apply_ops r _ ord p (d1, w1)) as [[p2|e2] [d2 w2]] eqn:E2;
    pose proof (apply_ops_meta _ _ _ _ _ _ _ E2) as H2; cbn in H2;
    [|intros [= _ <- _]; rewrite H2; apply H1].
  unfold on_db, ret. cbn.
  destruct (SetLastAppliedVersion _ d2) as [[[]|e3] d3] eqn:E3; [done|intros [= _ <- _]].
  rewrite (put_err _ _ _ _ _ _ E3), H2. apply H1.
Qed.
End theorems.

(** ** The instrumentation changes nothing *)

Section erasure.
Context {DB W : Type} `{!Bolt DB jval, !ApplyEnv W}.

Definition forget (s : DB * (W * list string)) : DB * W := (s.1, s.2.1).

Lemma forget_on_db {A} (m : io DB A) : simulates forget (on_db m) (on_db m).
Proof. intros [d [w t]]. unfold on_db. cbn. by destruct (m d). Qed.

Lemma forget_now : simulates forget now now.
Proof. by intros [d [w t]]. Qed.

Lemma forget_run_handler (r : Registry W) op :
  simulates forget (run_handler (traced r) op) (run_handler r op).
Proof.
  intros [d [w t]]. unfold run_handler, traced, timeoutFor. cbn. rewrite lookup_fmap.
  destruct (handlers r !! _) as [h|]; cbn; [|done].
  unfold traced_handler. cbn. by destruct (h _ _ _).
Qed.

#[local] Hint Resolve forget_on_db forget_now forget_run_handler : sigma.

Lemma forget_apply_op (r : Registry W) v op p :
  simulates forget (apply_op (traced r) v op p) (apply_op r v op p).
Proof.
  unfold apply_op. apply simulates_bind; [auto with sigma|]. intros prev.
  destruct (already_applied prev); [auto with sigma|].
  destruct (skip_reason p _); auto 10 with sigma.
Qed.

Lemma forget_fail_unresolved v l p :
  simulates forget (fail_unresolved v l p) (fail_unresolved v l p).
Proof. revert p. induction l as [|id l IH]; intros p; cbn [fail_unresolved]; auto with sigma. Qed.

Lemma forget_apply_ops (r : Registry W) v ops p :
  simulates forget (apply_ops (traced r) v ops p) (apply_ops r v ops p).
Proof.
  revert p. induction ops as [|op ops IH]; intros p; cbn [apply_ops]; auto with sigma.
  apply simulates_bind; [apply forget_apply_op|auto].
Qed.

(** Recording which handlers are called changes neither the result nor the
    journal nor what the handlers do to the host. *)
Lemma Apply_forget (r : Registry W) doc :
  simulates forget (Apply (traced r) doc) (Apply r doc).
Proof.
  unfold Apply. destruct (TopoOrder (doc_Ops doc)) as [ord un].
  apply simulates_bind; [apply forget_fail_unresolved|]. intros p.
  apply simulates_bind; [apply forget_apply_ops|]. intros p'.
  auto with sigma.
Qed.
End erasure.

(** ** One handler call *)

Lemma timeoutFor_pos {W} (r : Registry W) kind : (0 < timeoutFor r kind)%Z.
Proof.
  unfold timeoutFor. destruct (timeouts r !! kind); [destruct (Z.ltb_spec 0 z); [done|]|]; done.
Qed.

(** An op is reported "applied" exactly when its kind is registered, its
    handler returned nil, and it did so before its own (positive) deadline,
    unless the caller's context ended first; a handler that outlives its
    deadline is a failure whatever it returns. *)
Theorem run_handler_applied {DB W : Type} `{!ApplyEnv W} (r : Registry W) op (d : DB) w :
  (0 < timeoutFor r (op_Kind op))%Z /\
  ((exists err, (run_handler r op (d, w)).1 = Ok ("applied", err)) <->
   exists h, handlers r !! op_Kind op = Some h /\
     let deadline := (env_now w + timeoutFor r (op_Kind op))%Z in
     let '(err, w') := h deadline op w in
     err = Ok tt /\ ((env_now w' < deadline)%Z \/ env_cancelled w' = true)).
Proof.
  split; [apply timeoutFor_pos|]. unfold run_handler.
  destruct (handlers r !! op_Kind op) as [h|]; cbn.
  2: { split; [by intros (? & [=])|by intros (? & [=] & _)]. }
  destruct (h _ op w) as [err w'] eqn:Eh. unfold outcome.
  destruct (Z.leb_spec (env_now w + timeoutFor r (op_Kind op)) (env_now w')) as [L|L];
    destruct (env_cancelled w') eqn:Ec, err as [[]|e]; cbn.
  all: split; [intros (x & Hx)|intros (h' & [= <-] & Hx); rewrite Eh in Hx; destruct Hx as [? Hx]].
  all: try done; try (by eexists); try (exfalso; destruct Hx; [lia|congruence]).
  all: exists h; split; [done|]; rewrite Eh, Ec; auto.
Qed.

(** ** A concrete run

    A three-op document (one with a missing dependency) on a host whose clock
    each handler advances by a second, over a journal in memory. *)
Section demo.

#[local] Instance clock_env : ApplyEnv Z := { env_now t := t; env_cancelled _ := false }.

Definition demo_handler : Handler Z := fun _ op t =>
  (if String.eqb (op_ID op) "b" then Err "boom" else Ok tt, (t + Second)%Z).

Definition demo_registry : Registry Z :=
  Register "resource.sync" demo_handler NewRegistry.

Definition demo_doc : Document := mkDocument 7 "org" "srv"
  [mkOp "c" "resource.sync" ["b"] JNull; mkOp "b" "resource.sync" ["a"] JNull;
   mkOp "a" "resource.sync" [] JNull; mkOp "x" "resource.sync" ["missing"] JNull].

Definition demo_journal : mem_bolt jval := mkMemBolt ∅ [].

Lemma demo_wf : journal_wf demo_journal.
Proof. intros k j H. unfold demo_journal in H. cbn in H. by rewrite lookup_empty in H. Qed.

Definition demo_run := Apply demo_registry demo_doc (demo_journal, 0%Z).
Definition demo_traced := Apply (traced demo_registry) demo_doc (demo_journal, (0%Z, [])).
(** The journal fails on the third call: the run stops. *)
Definition demo_failed := Apply demo_registry demo_doc (mkMemBolt ∅ [false; false; true], 0%Z).

Definition state_in (o : res (gmap string OpResult)) (id : string) : option string :=
  match o with Ok m => or_State <$> m !! id | Err _ => None end.

Example demo_states :
  map (state_in demo_run.1) ["a"; "b"; "c"; "x"] =
  [Some "applied"; Some "failed"; Some "skipped"; Some "failed"].
Proof. vm_compute. reflexivity. Qed.

Example demo_calls : snd (snd (snd demo_traced)) = ["a"; "b"].
Proof. vm_compute. reflexivity. Qed.

Lemma demo_int64 : in_int64 (doc_Version demo_doc).
Proof. split; vm_compute; congruence. Qed.

Lemma Apply_spec_witness :
  match demo_run with
  | (Ok results, (d', _)) =>
      bolt_view d' !! (bucketMeta, "lastAppliedVersion") = Some (JVersion 7) /\
      dom results = list_to_set ["c"; "b"; "a"; "x"]
  | (Err _, _) => False
  end.
Proof.
  assert (H : is_ok demo_run.1 = true) by (vm_compute; reflexivity).
  destruct demo_run as [[m|e] [d' w']] eqn:E; [|discriminate H].
  destruct (Apply_spec demo_registry demo_doc demo_journal 0%Z m d' w' demo_wf demo_int64 E)
    as (Hv & Hd & _).
  split; [exact Hv|exact Hd].
Defined.

Lemma Apply_trace_witness : NoDup (snd (snd (snd demo_traced))).
Proof.
  destruct demo_traced as [o [d' [w' t]]] eqn:E.
  destruct (Apply_trace demo_registry demo_doc demo_journal 0%Z o d' w' t demo_wf demo_int64 E)
    as (_ & Hn & _).
  exact Hn.
Defined.

Lemma Apply_err_version_witness :
  match demo_failed with
  | (Err _, (d', _)) => bolt_view d' !! (bucketMeta, "lastAppliedVersion") = None
  | (Ok _, _) => False
  end.
Proof.
  assert (H : is_ok demo_failed.1 = false) by (vm_compute; reflexivity).
  destruct demo_failed as [[m|e] [d' w']] eqn:E; [discriminate H|].
  exact (Apply_err_version demo_registry demo_doc _ 0%Z e d' w' E).
Defined.
End demo.
