(* ===== verification/Spec.v ===== *)
(** * Container specifications

    Models [agent/internal/container/spec.go]: the payloads of the container
    ops, their JSON form, the managed labels and the fingerprint used for
    drift detection. *)

From Stdlib Require Import SpecFloat.
From S2P Require Import Prelude GoStrings Json Dsd.

Local Open Scope string_scope.

(** ** Op kinds *)

Definition KindNetworkEnsure := "network.ensure".
Definition KindVolumeEnsure := "volume.ensure".
Definition KindImagePull := "image.pull".
Definition KindContainerApply := "container.apply".
Definition KindVolumeRemove := "volume.remove".
Definition KindDeployRollout := "deploy.rollout".
Definition KindDeployRecreate := "deploy.recreate".
Definition KindResourceSync := "resource.sync".
(** [agent/internal/container/traefik.go] *)
Definition KindProxyTraefik := "proxy.traefik".
Definition traefikContainerName := "sigmahub-traefik".

(** ** Labels *)

Definition LabelManaged := "sigmahub.managed".
Definition LabelResourceID := "sigmahub.resourceId".
Definition LabelSpecHash := "sigmahub.specHash".
Definition LabelService := "sigmahub.service".
Definition LabelServerID := "sigmahub.serverId".

(** [labels[k]]: the empty string for an absent key. *)
Definition label (m : gmap string string) (k : string) : string := default "" (m !! k).

(** ** Payloads *)

Record PortMapping := mkPortMapping {
  pm_Container : Z; pm_Host : Z; pm_Protocol : string; pm_HostIP : string;
}.
Record VolumeMount := mkVolumeMount {
  vm_Name : string; vm_MountPath : string; vm_ReadOnly : bool;
}.
Record HostMount := mkHostMount { hm_Source : string; hm_Target : string }.
Record SecretRef := mkSecretRef { sr_Name : string; sr_EnvVar : bool }.
Record Secret := mkSecret { s_Name : string; s_Value : string; s_EnvVar : bool }.

Record HealthProbe := mkHealthProbe {
  hp_Type : string; hp_Path : string; hp_Port : Z; hp_IntervalSec : Z; hp_TimeoutSec : Z;
}.

Record ContainerSpec := mkContainerSpec {
  cs_ResourceID : string;
  cs_Service : string;
  cs_Name : string;
  cs_Image : string;
  cs_Network : string;
  cs_NetworkAliases : list string;
  cs_Env : gmap string string;
  cs_Ports : list PortMapping;
  cs_Volumes : list VolumeMount;
  cs_Command : list string;
  cs_User : string;
  cs_ReadOnlyRootfs : bool;
  cs_Tmpfs : list string;
  cs_CPUs : spec_float;
  cs_MemoryMB : Z;
  cs_Restart : string;
  cs_SecretRefs : list SecretRef;
  cs_Labels : gmap string string;
  cs_GPUs : Z;
  cs_ShmSizeMB : Z;
  cs_Privileged : bool;
  cs_HostNetwork : bool;
  cs_HostPID : bool;
  cs_HostMounts : list HostMount;
}.

(** [RolloutSpec] and [RecreateSpec] have the same fields. *)
Record RolloutSpec := mkRolloutSpec {
  rs_Container : ContainerSpec;
  rs_Generation : string;
  rs_Health : HealthProbe;
  rs_DeploymentID : string;
}.

Record NetworkSpec := mkNetworkSpec { ns_Name : string }.
Record VolumeSpec := mkVolumeSpec { vs_Name : string; vs_ResourceID : string }.
Record ImageSpec := mkImageSpec { is_Image : string; is_RegistryHost : string }.
Record resourceSyncSpec := mkResourceSyncSpec { rss_ResourceID : string; rss_Retain : list string }.

Definition with_name (n : string) (s : ContainerSpec) : ContainerSpec :=
  let 'mkContainerSpec a b _ d e f g h i j k l m n' o p q r s' t u v w x := s in
  mkContainerSpec a b n d e f g h i j k l m n' o p q r s' t u v w x.

Definition with_env (env : gmap string string) (s : ContainerSpec) : ContainerSpec :=
  let 'mkContainerSpec a b c d e f _ h i j k l m n' o p q r s' t u v w x := s in
  mkContainerSpec a b c d e f env h i j k l m n' o p q r s' t u v w x.

(** ** JSON: encoding *)

Definition enc_port (p : PortMapping) : json := JStruct
  [("container", keep (JInt (pm_Container p))); ("host", omit_int (pm_Host p));
   ("protocol", omit_str (pm_Protocol p)); ("hostIp", omit_str (pm_HostIP p))].
Definition enc_volume (v : VolumeMount) : json := JStruct
  [("name", keep (JStr (vm_Name v))); ("mountPath", keep (JStr (vm_MountPath v)));
   ("readOnly", omit_bool (vm_ReadOnly v))].
Definition enc_host_mount (h : HostMount) : json := JStruct
  [("source", keep (JStr (hm_Source h))); ("target", keep (JStr (hm_Target h)))].
Definition enc_secret_ref (s : SecretRef) : json := JStruct
  [("name", keep (JStr (sr_Name s))); ("envVar", omit_bool (sr_EnvVar s))].
Definition omit_float (f : spec_float) : option json :=
  match f with S754_zero _ => None | _ => Some (JReal f) end.

Definition spec_fields (s : ContainerSpec) : fields :=
  [("resourceId", keep (JStr (cs_ResourceID s))); ("service", omit_str (cs_Service s));
   ("name", keep (JStr (cs_Name s))); ("image", keep (JStr (cs_Image s)));
   ("network", keep (JStr (cs_Network s)));
   ("networkAliases", omit_list JStr (cs_NetworkAliases s));
   ("env", omit_map (cs_Env s)); ("ports", omit_list enc_port (cs_Ports s));
   ("volumes", omit_list enc_volume (cs_Volumes s)); ("command", omit_list JStr (cs_Command s));
   ("user", omit_str (cs_User s)); ("readOnlyRootfs", omit_bool (cs_ReadOnlyRootfs s));
   ("tmpfs", omit_list JStr (cs_Tmpfs s)); ("cpus", omit_float (cs_CPUs s));
   ("memoryMb", omit_int (cs_MemoryMB s)); ("restart", omit_str (cs_Restart s));
   ("secretRefs", omit_list enc_secret_ref (cs_SecretRefs s)); ("labels", omit_map (cs_Labels s));
   ("gpus", omit_int (cs_GPUs s)); ("shmSizeMb", omit_int (cs_ShmSizeMB s));
   ("privileged", omit_bool (cs_Privileged s)); ("hostNetwork", omit_bool (cs_HostNetwork s));
   ("hostPid", omit_bool (cs_HostPID s)); ("hostMounts", omit_list enc_host_mount (cs_HostMounts s))].

Definition enc_spec (s : ContainerSpec) : json := JStruct (spec_fields s).

Definition enc_probe (p : HealthProbe) : json := JStruct
  [("type", keep (JStr (hp_Type p))); ("path", omit_str (hp_Path p));
   ("port", omit_int (hp_Port p)); ("intervalSec", omit_int (hp_IntervalSec p));
   ("timeoutSec", omit_int (hp_TimeoutSec p))].

Definition enc_rollout (r : RolloutSpec) : json := JStruct
  [("container", keep (enc_spec (rs_Container r))); ("generation", keep (JStr (rs_Generation r)));
   ("health", keep (enc_probe (rs_Health r))); ("deploymentId", omit_str (rs_DeploymentID r))].

(** ** JSON: decoding *)

Definition dec_port : json -> option PortMapping := dec_struct (fun fs =>
  c ← dec_int (jget fs "container"); h ← dec_int (jget fs "host");
  p ← dec_str (jget fs "protocol"); ip ← dec_str (jget fs "hostIp");
  Some (mkPortMapping c h p ip)).
Definition dec_volume : json -> option VolumeMount := dec_struct (fun fs =>
  n ← dec_str (jget fs "name"); p ← dec_str (jget fs "mountPath");
  r ← dec_bool (jget fs "readOnly"); Some (mkVolumeMount n p r)).
Definition dec_host_mount : json -> option HostMount := dec_struct (fun fs =>
  s ← dec_str (jget fs "source"); t ← dec_str (jget fs "target"); Some (mkHostMount s t)).
Definition dec_secret_ref : json -> option SecretRef := dec_struct (fun fs =>
  n ← dec_str (jget fs "name"); e ← dec_bool (jget fs "envVar"); Some (mkSecretRef n e)).

Definition dec_spec_fields (fs : list (string * json)) : option ContainerSpec :=
  resourceId ← dec_str (jget fs "resourceId"); service ← dec_str (jget fs "service");
  name ← dec_str (jget fs "name"); image ← dec_str (jget fs "image");
  network ← dec_str (jget fs "network");
  aliases ← dec_list dec_elem_str (jget fs "networkAliases");
  env ← dec_map (jget fs "env"); ports ← dec_list dec_port (jget fs "ports");
  volumes ← dec_list dec_volume (jget fs "volumes");
  command ← dec_list dec_elem_str (jget fs "command"); user ← dec_str (jget fs "user");
  ro ← dec_bool (jget fs "readOnlyRootfs"); tmpfs ← dec_list dec_elem_str (jget fs "tmpfs");
  cpus ← dec_float (jget fs "cpus"); mem ← dec_int (jget fs "memoryMb");
  restart ← dec_str (jget fs "restart");
  refs ← dec_list dec_secret_ref (jget fs "secretRefs"); labels ← dec_map (jget fs "labels");
  gpus ← dec_int (jget fs "gpus"); shm ← dec_int (jget fs "shmSizeMb");
  priv ← dec_bool (jget fs "privileged"); hostnet ← dec_bool (jget fs "hostNetwork");
  hostpid ← dec_bool (jget fs "hostPid"); mounts ← dec_list dec_host_mount (jget fs "hostMounts");
  Some (mkContainerSpec resourceId service name image network aliases env ports volumes command
    user ro tmpfs cpus mem restart refs labels gpus shm priv hostnet hostpid mounts).

Definition dec_spec : json -> option ContainerSpec := dec_struct dec_spec_fields.

Definition dec_probe_fields (fs : list (string * json)) : option HealthProbe :=
  t ← dec_str (jget fs "type"); p ← dec_str (jget fs "path"); port ← dec_int (jget fs "port");
  i ← dec_int (jget fs "intervalSec"); o ← dec_int (jget fs "timeoutSec");
  Some (mkHealthProbe t p port i o).

Definition dec_rollout : json -> option RolloutSpec := dec_struct (fun fs =>
  c ← dec_struct_field dec_spec_fields (jget fs "container");
  g ← dec_str (jget fs "generation");
  h ← dec_struct_field dec_probe_fields (jget fs "health");
  d ← dec_str (jget fs "deploymentId");
  Some (mkRolloutSpec c g h d)).

Definition dec_network : json -> option NetworkSpec := dec_struct (fun fs =>
  n ← dec_str (jget fs "name"); Some (mkNetworkSpec n)).
Definition dec_volume_spec : json -> option VolumeSpec := dec_struct (fun fs =>
  n ← dec_str (jget fs "name"); r ← dec_str (jget fs "resourceId"); Some (mkVolumeSpec n r)).
Definition dec_image : json -> option ImageSpec := dec_struct (fun fs =>
  i ← dec_str (jget fs "image"); h ← dec_str (jget fs "registryHost"); Some (mkImageSpec i h)).
Definition dec_resource_sync : json -> option resourceSyncSpec := dec_struct (fun fs =>
  r ← dec_str (jget fs "resourceId"); l ← dec_list dec_elem_str (jget fs "retain");
  Some (mkResourceSyncSpec r l)).

(** ** Fingerprint *)

(** The first sixteen hex digits of the SHA-256 of a value's JSON text. *)
Class Digest := digest : json -> string.

Definition SpecHash `{Digest} (s : ContainerSpec) : string := digest (enc_spec s).

(** ** What a spec must satisfy to be representable in JSON *)

Definition port_wf (p : PortMapping) : Prop := in_int64 (pm_Container p) /\ in_int64 (pm_Host p).

(** Integers in range, and a CPU share that is not the negative zero that
    [omitempty] drops. *)
Record spec_wf (s : ContainerSpec) : Prop := {
  wf_ports : forall p, p ∈ cs_Ports s -> port_wf p;
  wf_mem : in_int64 (cs_MemoryMB s);
  wf_gpus : in_int64 (cs_GPUs s);
  wf_shm : in_int64 (cs_ShmSizeMB s);
  wf_cpus : cs_CPUs s <> S754_zero true;
}.

Record probe_wf (p : HealthProbe) : Prop := {
  wf_hport : in_int64 (hp_Port p);
  wf_hint : in_int64 (hp_IntervalSec p);
  wf_hto : in_int64 (hp_TimeoutSec p);
}.

(** ** Round trips *)

Ltac struct_rt := unfold dec_struct, JStruct; eval_fields.

Lemma dec_enc_port p : port_wf p -> dec_port (enc_port p) = Some p.
Proof.
  intros [Hc Hh]. unfold dec_port, enc_port. struct_rt.
  rewrite (dec_keep_int _ Hc), (dec_omit_int _ Hh), !dec_omit_str. by destruct p.
Qed.

Lemma dec_enc_volume v : dec_volume (enc_volume v) = Some v.
Proof. unfold dec_volume, enc_volume. struct_rt. rewrite dec_omit_bool. by destruct v. Qed.

Lemma dec_enc_host_mount h : dec_host_mount (enc_host_mount h) = Some h.
Proof. unfold dec_host_mount, enc_host_mount. struct_rt. by destruct h. Qed.

Lemma dec_enc_secret_ref r : dec_secret_ref (enc_secret_ref r) = Some r.
Proof. unfold dec_secret_ref, enc_secret_ref. struct_rt. rewrite dec_omit_bool. by destruct r. Qed.

Lemma dec_enc_str_elem (s : string) : dec_elem_str (JStr s) = Some s.
Proof. done. Qed.

Lemma dec_omit_float f : f <> S754_zero true -> dec_float (omit_float f) = Some f.
Proof. by destruct f as [[]| | |]. Qed.

Lemma dec_enc_spec_fields s : spec_wf s -> dec_spec_fields (omit (spec_fields s)) = Some s.
Proof.
  intros [Hp Hm Hg Hs Hc]. unfold dec_spec_fields, spec_fields. eval_fields.
  rewrite !dec_keep_str, !dec_omit_str, !dec_omit_bool, !dec_omit_map, !dec_omit_float by done.
  rewrite !dec_omit_int by done.
  rewrite !(dec_omit_list JStr) by (intros; apply dec_enc_str_elem).
  rewrite (dec_omit_list enc_port) by (intros; by apply dec_enc_port, Hp).
  rewrite (dec_omit_list enc_volume) by (intros; apply dec_enc_volume).
  rewrite (dec_omit_list enc_secret_ref) by (intros; apply dec_enc_secret_ref).
  rewrite (dec_omit_list enc_host_mount) by (intros; apply dec_enc_host_mount).
  by destruct s.
Qed.

Lemma dec_spec_enc s : spec_wf s -> dec_spec (enc_spec s) = Some s.
Proof. apply dec_enc_spec_fields. Qed.


Lemma dec_enc_probe p : probe_wf p -> dec_probe_fields (omit
  [("type", keep (JStr (hp_Type p))); ("path", omit_str (hp_Path p));
   ("port", omit_int (hp_Port p)); ("intervalSec", omit_int (hp_IntervalSec p));
   ("timeoutSec", omit_int (hp_TimeoutSec p))]) = Some p.
Proof.
  intros [Hp Hi Ht]. unfold dec_probe_fields. eval_fields.
  rewrite !dec_omit_str, (dec_omit_int _ Hp), (dec_omit_int _ Hi), (dec_omit_int _ Ht).
  by destruct p.
Qed.

Lemma dec_enc_rollout r :
  spec_wf (rs_Container r) -> probe_wf (rs_Health r) -> dec_rollout (enc_rollout r) = Some r.
Proof.
  intros Hc Hh. unfold dec_rollout, enc_rollout. struct_rt. unfold enc_spec, enc_probe.
  rewrite !dec_keep_struct, dec_enc_spec_fields by done. rewrite dec_keep_str. cbn [mbind option_bind].
  rewrite dec_enc_probe by done. rewrite dec_omit_str. by destruct r.
Qed.

Definition demo_spec : ContainerSpec :=
  mkContainerSpec "res_1" "web" "sigmahub-res_1-web" "nginx:1.27" "sigmahub-p" ["web"]
    {["A" := "1"]} [mkPortMapping 80 8080 "" ""] [mkVolumeMount "sigmahub-res_1-d" "/data" true]
    ["run"] "1000" true ["/tmp"] (S754_finite false 6755399441055744 (-52)) 512 "always"
    [mkSecretRef "K" true] {["x" := "y"]} (-1) 64 false false false [].

