(* ===== verification/Policy.v ===== *)
(** * The agent's local policy gates

    Models [agent/internal/container/policy.go] (the deny-by-default gate every
    container spec passes before it reaches Docker), [allowlist.go] (the image
    allowlist) and the name check of [secrets.go]. *)

From Stdlib Require Import Ascii.
From S2P Require Import Prelude GoStrings Json Spec.

Local Open Scope string_scope.

Record PolicyError := mkPolicyError { Rule : string; Detail : string }.

(** The method [Error] *)
Definition PolicyError_Error (e : PolicyError) : string :=
  "policy: " +:+ Rule e +:+ " denied: " +:+ Detail e.

(** A check returns nil ([None]) or the violation. *)
Definition check := option PolicyError.

(** [if err := c(); err != nil { return err }] *)
Definition and_then (c k : check) : check := match c with Some e => Some e | None => k end.

Definition managedNamePrefix := "sigmahub-".

(** The two separators a host path can contain. *)
Definition path_separators : string := String "/"%char (String backslash EmptyString).

Definition isManagedName (name : string) : bool :=
  if negb (has_prefix name managedNamePrefix) then false
  else if contains_any name path_separators || contains name ".." then false
  else true.

Fixpoint checkVolumes (vols : list VolumeMount) : check :=
  match vols with
  | [] => None
  | v :: vols =>
      if negb (isManagedName (vm_Name v))
      then Some (mkPolicyError "volume" ("volume mount source " +:+ quote (vm_Name v) +:+
             " is not a managed named volume; host-path binds are never permitted"))
      else checkVolumes vols
  end.

Definition checkNetwork (network : string) : check :=
  if String.eqb network "" then
    Some (mkPolicyError "network" "container network must be an explicit managed network")
  else if String.eqb network "none" then None
  else if String.eqb network "host" then
    Some (mkPolicyError "network" "host networking is never permitted; use the project network")
  else if has_prefix network "container:" then
    Some (mkPolicyError "network" "joining another container's network namespace is not permitted")
  else if has_prefix network "ns:" then
    Some (mkPolicyError "network" "attaching a raw network namespace path is not permitted")
  else if negb (isManagedName network) then
    Some (mkPolicyError "network" ("network " +:+ quote network +:+ " is not a managed project network"))
  else None.

(** What follows the last colon, unless it contains a slash. *)
Definition image_tag (image : string) : string :=
  match cut_last image ":"%char with
  | Some (_, rest) => if contains rest "/" then "" else rest
  | None => ""
  end.

Definition checkImagePinned (image : string) : check :=
  if String.eqb image "" then Some (mkPolicyError "image" "image reference is empty")
  else if contains image "@sha256:" then None
  else
    let tag := image_tag image in
    if String.eqb tag "" then
      Some (mkPolicyError "image" ("image " +:+ quote image +:+ " is not pinned (no tag or digest)"))
    else if String.eqb tag "latest" then
      Some (mkPolicyError "image" "the floating 'latest' tag is not permitted; pin a version tag or digest")
    else None.

Definition CheckPolicy (s : ContainerSpec) : check :=
  if cs_Privileged s then
    Some (mkPolicyError "privileged" "privileged containers are never permitted")
  else if cs_HostNetwork s then
    Some (mkPolicyError "host-network" "host networking is never permitted; use the project network")
  else if cs_HostPID s then
    Some (mkPolicyError "host-pid" "the host PID namespace is never permitted")
  else if (0 <? length (cs_HostMounts s))%nat then
    Some (mkPolicyError "host-mount" ("host-path mounts are never permitted (" +:+
      dec (Z.of_nat (length (cs_HostMounts s))) +:+ " requested); use named volumes"))
  else and_then (checkVolumes (cs_Volumes s))
      (and_then (checkNetwork (cs_Network s)) (checkImagePinned (cs_Image s))).

(** ** Image allowlist *)

Record ImageAllowlist := mkImageAllowlist { Enabled : bool; Prefixes : list string }.

Fixpoint on_allowlist (image : string) (ps : list string) : bool :=
  match ps with
  | [] => false
  | p :: ps => if has_prefix image p then true else on_allowlist image ps
  end.

Definition allowlist_Check (a : ImageAllowlist) (image : string) : check :=
  if negb (Enabled a) then None
  else if on_allowlist image (Prefixes a) then None
  else Some (mkPolicyError "image-allowlist" "image is not on the org signature allowlist").

(** ** Secret file names *)

(** [filepath.Base] on Unix: trailing slashes dropped, then the last element. *)
Definition Base (path : string) : string :=
  if String.eqb path "" then "."
  else let p := trim_right (is_byte "/"%char) path in
       let last := match cut_last p "/"%char with Some (_, r) => r | None => p end in
       if String.eqb last "" then "/" else last.

Definition nul : ascii := ascii_of_nat 0.
Definition secret_separators : string :=
  String "/"%char (String backslash (String nul EmptyString)).

Definition safeSecretFileName (name : string) : res string :=
  if String.eqb name "" || String.eqb name "." || String.eqb name ".." then
    Err ("invalid secret name " +:+ quote name)
  else if contains_any name secret_separators then
    Err ("secret name " +:+ quote name +:+ " must not contain a path separator")
  else if negb (String.eqb name (Base name)) then
    Err ("secret name " +:+ quote name +:+ " must be a plain filename")
  else Ok name.

(** ** What the gates promise *)

(** A managed object name: the control plane's prefix, and nothing Docker would
    read as a path. *)
Record managed_name (n : string) : Prop := {
  mn_prefix : exists t, n = managedNamePrefix +:+ t;
  mn_slash : has_char n "/"%char = false;
  mn_backslash : has_char n backslash = false;
  mn_dots : forall a b, n <> a +:+ ".." +:+ b;
}.

(** A pinned image: a digest, or a tag other than [latest]. *)
Definition pinned (image : string) : Prop :=
  (exists a b, image = a +:+ "@sha256:" +:+ b) \/
  (exists repo tag, image = repo +:+ String ":"%char tag /\
     has_char tag ":"%char = false /\ has_char tag "/"%char = false /\
     tag <> "" /\ tag <> "latest").

Record permitted (s : ContainerSpec) : Prop := {
  p_privileged : cs_Privileged s = false;
  p_hostnet : cs_HostNetwork s = false;
  p_hostpid : cs_HostPID s = false;
  p_mounts : cs_HostMounts s = [];
  p_volumes : forall v, v ∈ cs_Volumes s -> managed_name (vm_Name v);
  p_network : cs_Network s = "none" \/ managed_name (cs_Network s);
  p_image : pinned (cs_Image s);
}.

Lemma isManagedName_spec n : isManagedName n = true <-> managed_name n.
Proof.
  unfold isManagedName. destruct (has_prefix n managedNamePrefix) eqn:Ep; cbn [negb].
  2:{ split; [done|]. intros [Hp _ _ _]. apply has_prefix_spec in Hp. congruence. }
  apply has_prefix_spec in Ep.
  destruct (contains_any n path_separators) eqn:Ec; cbn [orb].
  - split; [done|]. intros [_ Hs Hb _]. apply contains_any_spec in Ec as (c & Hc & Hn).
    unfold path_separators in Hc. rewrite !has_char_cons in Hc.
    destruct Hc as [<-|[<-|?]]; [congruence..|done].
  - assert (Hno : forall c, has_char path_separators c = true -> has_char n c = false).
    { intros c Hc. apply not_true_is_false. intros Hn.
      rewrite (proj2 (contains_any_spec n path_separators)) in Ec; [done|eauto]. }
    destruct (contains n "..") eqn:Ed.
    + split; [done|]. intros [_ _ _ Hd]. apply contains_spec in Ed as (a & b & ->).
      by destruct (Hd a b).
    + split; [|done]. intros _. split; [done|by apply Hno|by apply Hno|].
      intros a b ->. apply not_true_iff_false in Ed. apply Ed, contains_spec. eauto.
Qed.

Lemma checkVolumes_spec vols :
  checkVolumes vols = None <-> forall v, v ∈ vols -> managed_name (vm_Name v).
Proof.
  induction vols as [|v vols IH]; cbn.
  { split; [intros _ v ?%not_elem_of_nil; done|done]. }
  destruct (isManagedName (vm_Name v)) eqn:E; cbn.
  - rewrite IH. apply isManagedName_spec in E. split.
    + intros H x [->|Hx]%elem_of_cons; auto.
    + intros H x Hx. apply H. by right.
  - split; [done|]. intros H. apply not_true_iff_false in E. destruct E.
    apply isManagedName_spec, H. left.
Qed.

(** None of the reserved modes is a managed name. *)
Lemma managed_not_reserved n : managed_name n ->
  n <> "" /\ n <> "none" /\ n <> "host" /\
  has_prefix n "container:" = false /\ has_prefix n "ns:" = false.
Proof. intros [(t & ->) _ _ _]. done. Qed.

Lemma checkNetwork_spec n : checkNetwork n = None <-> n = "none" \/ managed_name n.
Proof.
  unfold checkNetwork. destruct (isManagedName n) eqn:Em.
  - apply isManagedName_spec in Em as Hm. apply managed_not_reserved in Hm as (H1 & H2 & H3 & H4 & H5).
    rewrite (proj2 (String.eqb_neq _ _) H1), (proj2 (String.eqb_neq _ _) H2),
      (proj2 (String.eqb_neq _ _) H3), H4, H5. cbn. apply isManagedName_spec in Em. tauto.
  - assert (~ managed_name n) by (rewrite <- isManagedName_spec; congruence).
    destruct (String.eqb_spec n ""); [naive_solver|].
    destruct (String.eqb_spec n "none"); [naive_solver|].
    repeat case_match; naive_solver.
Qed.

Lemma contains_slash s : contains s "/" = has_char s "/"%char.
Proof.
  apply eq_true_iff_eq. rewrite contains_spec, has_char_spec.
  split; intros (a & b & ->); by exists a, b.
Qed.

Lemma image_tag_spec image tag : tag <> "" ->
  image_tag image = tag <->
  exists repo, image = repo +:+ String ":"%char tag /\
    has_char tag ":"%char = false /\ has_char tag "/"%char = false.
Proof.
  intros Hne. unfold image_tag. destruct (cut_last image ":"%char) as [[l r]|] eqn:E.
  - rewrite contains_slash. split.
    + destruct (has_char r "/"%char) eqn:Es; [by intros <-|]. intros ->.
      apply cut_last_spec in E as [-> ?]. eauto.
    + intros (repo & Ei & Hc & Hs). rewrite (proj2 (cut_last_spec _ _ _ _) (conj Ei Hc)) in E.
      injection E as <- <-. by rewrite Hs.
  - split; [by intros <-|]. intros (repo & -> & Hc & _).
    rewrite (proj2 (cut_last_spec _ _ _ _) (conj eq_refl Hc)) in E. done.
Qed.

Lemma checkImagePinned_spec image : checkImagePinned image = None <-> pinned image.
Proof.
  unfold checkImagePinned, pinned. destruct (String.eqb_spec image "") as [->|Hne].
  { split; [done|]. intros [(a & b & E)|(a & b & E & _)]; by destruct a. }
  destruct (contains image "@sha256:") eqn:Ed.
  { apply contains_spec in Ed. tauto. }
  assert (Hnd : ~ exists a b, image = a +:+ "@sha256:" +:+ b)
    by (rewrite <- contains_spec; congruence).
  destruct (String.eqb_spec (image_tag image) "") as [Et|Et].
  - split; [done|]. intros [?|(repo & tag & Ei & Hc & Hs & Hn & _)]; [done|].
    rewrite (proj2 (image_tag_spec image tag Hn)) in Et; eauto. done.
  - pose proof (proj1 (image_tag_spec image _ Et) eq_refl) as (repo & Ei & Hc & Hs).
    destruct (String.eqb_spec (image_tag image) "latest") as [El|El].
    + split; [done|]. intros [?|(repo' & tag & Ei' & Hc' & Hs' & Hn & Hl)]; [done|].
      rewrite (proj2 (image_tag_spec image tag Hn)) in El; eauto. done.
    + split; [|done]. intros _. right. exists repo, (image_tag image). done.
Qed.

Lemma and_then_none c k : and_then c k = None <-> c = None /\ k = None.
Proof. destruct c; naive_solver. Qed.

Lemma CheckPolicy_permitted s : CheckPolicy s = None <-> permitted s.
Proof.
  unfold CheckPolicy. destruct (cs_Privileged s) eqn:E1; [split; [done|intros []; congruence]|].
  destruct (cs_HostNetwork s) eqn:E2; [split; [done|intros []; congruence]|].
  destruct (cs_HostPID s) eqn:E3; [split; [done|intros []; congruence]|].
  destruct (cs_HostMounts s) as [|h l] eqn:E4; cbn [length Nat.ltb Nat.leb];
    [|split; [done|intros []; congruence]].
  rewrite !and_then_none, checkVolumes_spec, checkNetwork_spec, checkImagePinned_spec.
  split; [intros (? & ? & ?); by constructor|intros []; auto].
Qed.

(** The rules in the order the gate applies them, with what breaks each. *)
Definition violations (s : ContainerSpec) : list (string * Prop) :=
  [("privileged", cs_Privileged s = true); ("host-network", cs_HostNetwork s = true);
   ("host-pid", cs_HostPID s = true); ("host-mount", cs_HostMounts s <> []);
   ("volume", exists v, v ∈ cs_Volumes s /\ ~ managed_name (vm_Name v));
   ("network", cs_Network s <> "none" /\ ~ managed_name (cs_Network s));
   ("image", ~ pinned (cs_Image s))].

(** [r] is the first of the rules that is broken. *)
Fixpoint first_violation (vs : list (string * Prop)) (r : string) : Prop :=
  match vs with
  | [] => False
  | (n, P) :: vs => (P /\ r = n) \/ (~ P /\ first_violation vs r)
  end.

Lemma checkVolumes_rule vols e : checkVolumes vols = Some e ->
  Rule e = "volume" /\ exists v, v ∈ vols /\ ~ managed_name (vm_Name v).
Proof.
  induction vols as [|v vols IH]; cbn; [done|]. destruct (isManagedName (vm_Name v)) eqn:E; cbn.
  - intros (? & x & ? & ?)%IH. split; [done|]. exists x. split; [by right|done].
  - intros [= <-]. split; [done|]. exists v. rewrite <- isManagedName_spec, E. split; [left|done].
Qed.

Lemma checkNetwork_rule n e : checkNetwork n = Some e -> Rule e = "network".
Proof. unfold checkNetwork. repeat case_match; by intros [= <-]. Qed.

Lemma checkImagePinned_rule n e : checkImagePinned n = Some e -> Rule e = "image".
Proof. unfold checkImagePinned. repeat case_match; by intros [= <-]. Qed.

Lemma CheckPolicy_rule s e : CheckPolicy s = Some e -> first_violation (violations s) (Rule e).
Proof.
  unfold CheckPolicy, violations. cbn [first_violation]. intros H.
  destruct (cs_Privileged s); [injection H as <-; tauto|right; split; [done|]].
  destruct (cs_HostNetwork s); [injection H as <-; tauto|right; split; [done|]].
  destruct (cs_HostPID s); [injection H as <-; tauto|right; split; [done|]].
  destruct (cs_HostMounts s); [right; split; [tauto|]|injection H as <-; left; done].
  cbn [length Nat.ltb Nat.leb] in H.
  destruct (checkVolumes (cs_Volumes s)) as [e'|] eqn:Ev; cbn [and_then] in H.
  { injection H as ->. left. apply checkVolumes_rule in Ev as [-> ?]. done. }
  rewrite checkVolumes_spec in Ev. right. split; [naive_solver|].
  destruct (checkNetwork (cs_Network s)) as [e'|] eqn:En; cbn [and_then] in H.
  { injection H as ->. left. rewrite (checkNetwork_rule _ _ En). split; [|done].
    pose proof (checkNetwork_spec (cs_Network s)) as Hs. rewrite En in Hs.
    split; intros ?; enough (Some e = None) by done; tauto. }
  rewrite checkNetwork_spec in En. right. split; [tauto|]. left. split.
  - rewrite <- checkImagePinned_spec. congruence.
  - by apply checkImagePinned_rule in H.
Qed.

(** C19: the policy gate admits exactly the permitted specs - not privileged, no
    host namespace or path, every mount a managed volume, a managed network or
    none, a pinned image - and otherwise names the first rule broken. *)
Theorem CheckPolicy_spec s :
  match CheckPolicy s with
  | None => permitted s
  | Some e => ~ permitted s /\ first_violation (violations s) (Rule e)
  end.
Proof.
  destruct (CheckPolicy s) as [e|] eqn:E.
  - split; [rewrite <- CheckPolicy_permitted; congruence|by apply CheckPolicy_rule].
  - by apply CheckPolicy_permitted.
Qed.

Lemma allowlist_Check_none a image :
  allowlist_Check a image = None <->
  Enabled a = false \/ exists p, p ∈ Prefixes a /\ exists t, image = p +:+ t.
Proof.
  unfold allowlist_Check. destruct (Enabled a); cbn; [|tauto].
  assert (on_allowlist image (Prefixes a) = true <->
          exists p, p ∈ Prefixes a /\ exists t, image = p +:+ t) as H.
  { induction (Prefixes a) as [|p ps IH]; cbn.
    - split; [done|intros (p & ?%not_elem_of_nil & _); done].
    - destruct (has_prefix image p) eqn:E.
      + apply has_prefix_spec in E. split; [|done]. intros _. exists p. split; [left|done].
      + rewrite IH. setoid_rewrite elem_of_cons. split.
        * intros (q & ? & ?). eauto.
        * intros (q & [->|?] & Hq); [|eauto]. apply has_prefix_spec in Hq. congruence. }
  destruct (on_allowlist image (Prefixes a)); naive_solver.
Qed.

(** A secret accepted as a file name stays directly under the directory it is
    joined to. *)
Lemma safeSecretFileName_spec name :
  safeSecretFileName name = Ok name <->
  name <> "" /\ name <> "." /\ name <> ".." /\
  (forall c, has_char secret_separators c = true -> has_char name c = false).
Proof.
  unfold safeSecretFileName.
  destruct (String.eqb_spec name "") as [->|H1]; [naive_solver|].
  destruct (String.eqb_spec name ".") as [->|H2]; [naive_solver|].
  destruct (String.eqb_spec name "..") as [->|H3]; [naive_solver|]. cbn [orb].
  destruct (contains_any name secret_separators) eqn:Ec.
  - apply contains_any_spec in Ec as (c & Hc & Hn). split; [done|].
    intros (_ & _ & _ & H). rewrite H in Hn; done.
  - assert (Hno : forall c, has_char secret_separators c = true -> has_char name c = false).
    { intros c Hc. apply not_true_is_false. intros Hn. apply not_true_iff_false in Ec.
      apply Ec, contains_any_spec. eauto. }
    assert (Base name = name) as ->.
    { pose proof (Hno "/"%char eq_refl) as Hs. unfold Base.
      rewrite (proj2 (String.eqb_neq _ _) H1).
      assert (trim_right (is_byte "/"%char) name = name) as ->.
      { clear -Hs. induction name as [|b s IH]; [done|]. cbn in Hs.
        apply orb_false_iff in Hs as [Hb Hs]. cbn. rewrite IH by done.
        destruct s; [|done]. unfold is_byte. by rewrite Hb. }
      rewrite (proj2 (cut_last_none _ _) Hs). by rewrite (proj2 (String.eqb_neq _ _) H1). }
    rewrite String.eqb_refl. cbn. tauto.
Qed.
