(* ===== verification/Docker.v ===== *)
(** * The Docker daemon as the agent's components see it

    [agent/internal/container] talks to the daemon through a client; the
    rollout code and the image retention take it as Go interfaces
    ([rolloutDocker], [imageRetainer]) so that they can be tested with fakes.
    These are the type classes below; [DockerApi.v] implements them over HTTP,
    and the instrumented instances here record the calls made. *)

From S2P Require Import Prelude GoStrings Json Spec.

Local Open Scope string_scope.

(** [dockerapi.go], the decoded answers *)
Record ContainerState := mkContainerState {
  ID : string; Name : string; Image : string; Running : bool; Pid : Z; IP : string;
  Labels : gmap string string;
}.

Record ImageSummary := mkImageSummary { im_ID : string; RepoTags : list string; Created : Z }.

(** [build.RegistryAuth] *)
Record RegistryAuth := mkRegistryAuth { ra_Host : string; ra_Username : string; ra_Password : string }.

(** [rolloutDocker] *)
Class rolloutDocker (W : Type) := {
  ContainerList : io W (list ContainerState);
  ContainerInspect : string -> io W (option ContainerState);
  ContainerCreate : string -> json -> io W string;
  ContainerStart : string -> io W unit;
  ContainerStop : string -> Z -> io W unit;
  ContainerRemove : string -> bool -> io W unit;
  ContainerLogTail : string -> Z -> io W (list string);
}.

(** [imageRetainer] *)
Class imageRetainer (W : Type) := {
  ImageList : string -> io W (list ImageSummary);
  ImageRemove : string -> bool -> io W unit;
}.

(** The rest of the client: images, networks and volumes. *)
Class dockerObjects (W : Type) := {
  ImagePullAuth : string -> RegistryAuth -> io W unit;
  NetworkExists : string -> io W bool;
  NetworkCreate : string -> gmap string string -> io W unit;
  ManagedNetworks : io W (list string);
  NetworkRemove : string -> io W unit;
  NetworkConnect : string -> string -> io W unit;
  VolumeInspect : string -> io W (option (gmap string string));
  VolumeCreate : string -> gmap string string -> io W unit;
  VolumeRemove : string -> bool -> io W unit;
  ManagedVolumes : io W (list string);
}.

(** ** Time *)

(** [time.Now], and [select { case <-ctx.Done(): return ctx.Err(); case
    <-time.After(d): }]. *)
Class Clock (W : Type) := {
  clock : W -> Z;
  wait : Z -> io W unit;
}.

(** A health probe of a container at an address ([Prober]). *)
Class Prober (W : Type) := probe : string -> HealthProbe -> io W unit.

(** ** Recording the calls *)

Inductive event :=
| Listed (r : res (list ContainerState))
| Inspected (name : string) (r : res (option ContainerState))
| CreatedAs (name : string) (body : json) (r : res string)
| Started (id : string) (r : res unit)
| Stopped (id : string)
| Removed (id : string)
| LogsRead (id : string)
| Probed (ip : string) (r : res unit).

Section traced.
Context {W : Type}.

(** Run [m] on the underlying world and note what it returned. *)
Definition noting {A} (f : res A -> event) (m : io W A) : io (W * list event) A :=
  fun s => let '(r, w) := m s.1 in (r, (w, (s.2 ++ [f r])%list)).
Definition on_world {A} (m : io W A) : io (W * list event) A :=
  fun s => let '(r, w) := m s.1 in (r, (w, s.2)).

#[export] Instance traced_docker `{!rolloutDocker W} : rolloutDocker (W * list event) := {
  ContainerList := noting Listed ContainerList;
  ContainerInspect n := noting (Inspected n) (ContainerInspect n);
  ContainerCreate n b := noting (CreatedAs n b) (ContainerCreate n b);
  ContainerStart id := noting (Started id) (ContainerStart id);
  ContainerStop id g := noting (fun _ => Stopped id) (ContainerStop id g);
  ContainerRemove id f := noting (fun _ => Removed id) (ContainerRemove id f);
  ContainerLogTail id n := noting (fun _ => LogsRead id) (ContainerLogTail id n);
}.

(** Calls that concern no container are not recorded. *)
#[export] Instance traced_objects `{!dockerObjects W} : dockerObjects (W * list event) := {
  ImagePullAuth i a := on_world (ImagePullAuth i a);
  NetworkExists n := on_world (NetworkExists n);
  NetworkCreate n l := on_world (NetworkCreate n l);
  ManagedNetworks := on_world ManagedNetworks;
  NetworkRemove n := on_world (NetworkRemove n);
  NetworkConnect n c := on_world (NetworkConnect n c);
  VolumeInspect n := on_world (VolumeInspect n);
  VolumeCreate n l := on_world (VolumeCreate n l);
  VolumeRemove n f := on_world (VolumeRemove n f);
  ManagedVolumes := on_world ManagedVolumes;
}.

#[export] Instance traced_prober `{!Prober W} : Prober (W * list event) :=
  fun ip p => noting (Probed ip) (probe ip p).

#[export] Instance traced_clock `{!Clock W} : Clock (W * list event) := {
  clock s := clock s.1;
  wait d := on_world (wait d);
}.

(** Erasing the record gives back the computation over the daemon itself. *)
Lemma noting_sim {A} (f : res A -> event) (m : io W A) : simulates fst (noting f m) m.
Proof. intros [w tr]. unfold noting. cbn. by destruct (m w). Qed.

Lemma on_world_sim {A} (m : io W A) : simulates fst (on_world m) m.
Proof. intros [w tr]. unfold on_world. cbn. by destruct (m w). Qed.

(** What a recorded call adds to the record. *)
Lemma triple_noting {A} (f : res A -> event) (m : io W A) (P : list event -> Prop)
    (Q : res A -> list event -> Prop) :
  (forall r tr, P tr -> Q r (tr ++ [f r])%list) ->
  triple (fun s => P s.2) (noting f m) (fun r s => Q r s.2).
Proof. intros H [w tr] HP. unfold noting. cbn. destruct (m w) as [r w']. cbn. by apply H. Qed.

Lemma triple_on_world {A} (m : io W A) (P : list event -> Prop) :
  triple (fun s => P s.2) (on_world m) (fun _ s => P s.2).
Proof. intros [w tr] HP. unfold on_world. cbn. by destruct (m w). Qed.
End traced.

#[export] Hint Resolve noting_sim on_world_sim : sigma.
