(* ===== verification/Secrets.v ===== *)
(** * Secret injection

    Models [agent/internal/container/secrets.go] and [resolveSecrets] of
    [rollout.go]: the values fetched at container-create are folded into the
    environment or written into the container's tmpfs, through the running
    container's mount namespace. *)

From Stdlib Require Import Ascii.
From S2P Require Import Prelude GoStrings Json Spec Policy Docker.

Local Open Scope string_scope.
Local Open Scope io_scope.

Definition SecretsMountDir := "/run/secrets".
Definition tmpfsMagic : Z := 16914836. (* 0x01021994 *)

(** The file system calls of [os] and [syscall]; [Statfs] gives the type of the
    file system that backs a path. *)
Class FileSystem (W : Type) := {
  MkdirAll : string -> Z -> io W unit;
  Statfs : string -> io W Z;
  WriteFile : string -> string -> Z -> io W unit;
}.

(** [SecretFetcher] *)
Definition SecretFetcher (W : Type) : Type := string -> io W (list Secret).

(** [%x] *)
Fixpoint hex_digits (fuel : nat) (z : Z) : string :=
  match fuel with
  | O => ""
  | S fuel =>
      (if (z <? 16)%Z then "" else hex_digits fuel (z / 16)) +:+
      String (hex_digit (Z.to_nat (z mod 16))) ""
  end.
Definition hex (z : Z) : string := hex_digits 16 (wrapu64 z).

(** [filepath.Join(dir, name)] of a clean directory and a plain file name *)
Definition join_path (dir name : string) : string := dir +:+ "/" +:+ name.

Section secrets.
Context {W : Type} `{!FileSystem W}.

Fixpoint write_secrets (dir : string) (secrets : list Secret) : io W unit :=
  match secrets with
  | [] => ret tt
  | s :: secrets =>
      name <- lift (safeSecretFileName (s_Name s)) ;;
      let dst := join_path dir name in
      if negb (has_prefix (dst +:+ "/") (dir +:+ "/")) then
        fail ("secret " +:+ quote (s_Name s) +:+ " resolves outside " +:+ SecretsMountDir)
      else
        _ <- wrapping ("write secret " +:+ quote name +:+ ": ") (WriteFile dst (s_Value s) 292) ;;
        write_secrets dir secrets
  end.

Definition secrets_dir (pid : Z) : string := "/proc/" +:+ dec pid +:+ "/root" +:+ SecretsMountDir.

Definition writeFileSecrets (pid : Z) (secrets : list Secret) : io W unit :=
  if (pid <=? 0)%Z then fail "container has no pid; cannot seed secret files"
  else
    let dir := secrets_dir pid in
    _ <- wrapping "create secrets dir: " (MkdirAll dir 493) ;;
    fs <- wrapping "statfs secrets dir: " (Statfs dir) ;;
    if negb (fs =? tmpfsMagic)%Z then
      fail (SecretsMountDir +:+ " is not tmpfs-backed in the container (fs=0x" +:+ hex fs +:+
            "); refusing to seed secrets to disk")
    else write_secrets dir secrets.

(** The [postStart] closure of [opRollout] and [opRecreate]. *)
Definition seedSecrets `{!rolloutDocker W} (fileSecrets : list Secret) (id : string) : io W unit :=
  match fileSecrets with
  | [] => ret tt
  | _ =>
      cur <- ContainerInspect id ;;
      match cur with
      | Some c =>
          if negb (Running c) || (Pid c <=? 0)%Z
          then fail "container not running after start; refusing to seed secrets to disk"
          else writeFileSecrets (Pid c) fileSecrets
      | None => fail "container not running after start; refusing to seed secrets to disk"
      end
  end.
End secrets.

(** ** Resolving references *)

(** [byName]: the last of several secrets with one name wins. *)
Definition byName (fetched : list Secret) : gmap string Secret :=
  list_to_map (rev (map (fun s => (s_Name s, s)) fetched)).

(** Fold the references into the environment and the list of files; [missing]
    renders the error of an unknown name. *)
Fixpoint resolve_refs (missing : string -> string) (m : gmap string Secret) (refs : list SecretRef)
    (env : gmap string string) (files : list Secret)
    : res (gmap string string * list Secret) :=
  match refs with
  | [] => Ok (env, files)
  | ref :: refs =>
      match m !! sr_Name ref with
      | None => Err (missing (sr_Name ref))
      | Some s =>
          if sr_EnvVar ref
          then resolve_refs missing m refs (<[sr_Name ref := s_Value s]> env) files
          else resolve_refs missing m refs env (files ++ [s])
      end
  end.

Definition resolveSecrets {W} (missing : string -> string) (secrets : option (SecretFetcher W))
    (spec : ContainerSpec) : io W (ContainerSpec * list Secret) :=
  match secrets, cs_SecretRefs spec with
  | None, _ | _, [] => ret (spec, [])
  | Some fetch, refs =>
      fetched <- wrapping "fetch secrets: " (fetch (cs_ResourceID spec)) ;;
      r <- lift (resolve_refs missing (byName fetched) refs (cs_Env spec) []) ;;
      ret (with_env r.1 spec, r.2)
  end.

Definition missing_rollout (name : string) : string :=
  "secret " +:+ quote name +:+ " referenced but not provided".
Definition missing_converge (name : string) : string :=
  "secret " +:+ quote name +:+ " referenced but not provided by the control plane".

(** ** Where secrets can end up *)

(** A host that records the file systems asked about and the files written. *)
Inductive fs_event :=
| Asked (path : string) (r : res Z)
| Wrote (path data : string).

Section traced_fs.
Context {W : Type} `{!FileSystem W}.

#[export] Instance recording_fs : FileSystem (W * list fs_event) := {
  MkdirAll p m s := let '(r, w) := MkdirAll p m s.1 in (r, (w, s.2));
  Statfs p s := let '(r, w) := Statfs p s.1 in (r, (w, s.2 ++ [Asked p r])%list);
  WriteFile p data m s :=
    let '(r, w) := WriteFile p data m s.1 in (r, (w, s.2 ++ [Wrote p data])%list);
}.

(** Directly inside [dir]. *)
Definition child_of (dir path : string) : Prop :=
  exists name, path = dir +:+ "/" +:+ name /\ has_char name "/"%char = false /\
    name <> "" /\ name <> "." /\ name <> "..".

Definition write_of (dir : string) (x : Secret) : fs_event :=
  Wrote (join_path dir (s_Name x)) (s_Value x).

Lemma safe_name_child dir name n :
  safeSecretFileName name = Ok n -> n = name /\ child_of dir (join_path dir n).
Proof.
  intros H. assert (n = name) as ->.
  { revert H. unfold safeSecretFileName. repeat case_match; congruence. }
  apply safeSecretFileName_spec in H as (? & ? & ? & Hc). split; [done|].
  exists name. split_and!; try done. by apply Hc.
Qed.

(** A prefix of the secrets is written; all of them on success. *)
Lemma write_secrets_events dir secrets (s : W * list fs_event) :
  let '(r, s') := write_secrets dir secrets s in
  exists done, done `prefix_of` secrets /\ s'.2 = (s.2 ++ map (write_of dir) done)%list /\
    (forall x, x ∈ done -> child_of dir (join_path dir (s_Name x))) /\
    (r = Ok tt -> done = secrets).
Proof.
  revert s. induction secrets as [|x xs IH]; intros s; cbn.
  { exists []. cbn. rewrite app_nil_r. split_and!; try done. intros ? []%not_elem_of_nil. }
  assert (Hnil : exists done, done `prefix_of` x :: xs /\ s.2 = (s.2 ++ map (write_of dir) done)%list /\
    forall x, x ∈ done -> child_of dir (join_path dir (s_Name x))).
  { exists []. cbn. rewrite app_nil_r. split_and!; [apply prefix_nil|done|intros ? []%not_elem_of_nil]. }
  unfold bind at 1, lift. destruct (safeSecretFileName (s_Name x)) as [n|e] eqn:E; [|naive_solver].
  destruct (safe_name_child dir _ _ E) as [-> Hc].
  destruct (negb _); [naive_solver|].
  unfold bind, wrapping. cbn. destruct (WriteFile _ _ _ s.1) as [[[]|e] w]; cbn.
  2:{ exists [x]. split_and!; [by exists xs|done| |done]. by intros ? ->%list_elem_of_singleton. }
  specialize (IH (w, (s.2 ++ [write_of dir x])%list)). fold (write_of dir x).
  destruct (write_secrets dir xs _) as [r s']. cbn in *. destruct IH as (dn & Hp & -> & Hf & Hr).
  exists (x :: dn). cbn. rewrite <- app_assoc. split_and!; [by apply prefix_cons|done| |].
  - by intros y [->|Hy]%elem_of_cons; [|apply Hf].
  - intros ->. by rewrite Hr.
Qed.

(** C21: seeding writes nothing unless the file system behind the container's
    secrets directory is a tmpfs, and then only plain files directly inside that
    directory, each secret once, in order, under its own name; all of them when
    it succeeds. *)
Theorem writeFileSecrets_safe pid secrets (s : W * list fs_event) :
  let '(r, s') := writeFileSecrets pid secrets s in
  let dir := secrets_dir pid in
  exists evs, s'.2 = (s.2 ++ evs)%list /\
    ((is_ok r = false /\ forall p data, Wrote p data ∉ evs) \/
     exists done, evs = Asked dir (Ok tmpfsMagic) :: map (write_of dir) done /\
       done `prefix_of` secrets /\ (r = Ok tt -> done = secrets) /\
       forall x, x ∈ done -> child_of dir (join_path dir (s_Name x))).
Proof.
  unfold writeFileSecrets.
  destruct (pid <=? 0)%Z.
  { exists []. cbn. rewrite app_nil_r. split; [done|]. left. split; [done|]. intros ?? []%not_elem_of_nil. }
  unfold wrapping, bind. cbn. destruct (MkdirAll _ _ s.1) as [[[]|e] w]; cbn.
  2:{ exists []. cbn. rewrite app_nil_r. split; [done|]. left. split; [done|]. intros ?? []%not_elem_of_nil. }
  destruct (Statfs _ w) as [[fs|e] w1]; cbn.
  2:{ eexists. split; [done|]. left. split; [done|]. by intros ?? ?%list_elem_of_singleton. }
  destruct (Z.eqb_spec fs tmpfsMagic) as [->|]; cbn.
  2:{ eexists. split; [done|]. left. split; [done|]. by intros ?? ?%list_elem_of_singleton. }
  pose proof (write_secrets_events (secrets_dir pid) secrets
    (w1, (s.2 ++ [Asked (secrets_dir pid) (Ok tmpfsMagic)])%list)) as Hw.
  destruct (write_secrets _ _ _) as [r s']. cbn in Hw. destruct Hw as (dn & Hp & -> & Hf & Hr).
  eexists. rewrite <- app_assoc. split; [done|]. right. by exists dn.
Qed.
End traced_fs.
