(* ===== verification/Rollout.v ===== *)
(** * Zero-downtime rollouts

    Models [agent/internal/container/rollout.go]: the health gate, the
    blue-green swap, the recreate swap, and the retention of built images.
    The op handlers that call them are in [Driver.v]. *)

From Stdlib Require Import Ascii.
From S2P Require Import Prelude GoStrings Json Spec Docker Secrets.

Local Open Scope string_scope.
Local Open Scope io_scope.

Definition startupLogLines : Z := 100.

Definition rolloutName (baseName generation : string) : string :=
  if String.eqb generation "" then baseName else baseName +:+ "-" +:+ generation.

Fixpoint olderGenerations (l : list ContainerState) (resourceID service keepName : string)
    : list ContainerState :=
  match l with
  | [] => []
  | c :: l =>
      if String.eqb (label (Labels c) LabelResourceID) resourceID &&
         String.eqb (label (Labels c) LabelService) service &&
         negb (String.eqb (Name c) keepName)
      then c :: olderGenerations l resourceID service keepName
      else olderGenerations l resourceID service keepName
  end.

(** ** The default probe *)

(** The network as the probe uses it: [net.Dialer.DialContext] on tcp, and an
    HTTP GET that returns the status code. *)
Class Network (W : Type) := {
  dial_tcp : string -> Z -> io W unit;
  http_get : string -> Z -> io W Z;
}.

(** [net.JoinHostPort] *)
Definition JoinHostPort (host port : string) : string :=
  if has_char host ":"%char || has_char host "%"%char
  then "[" +:+ host +:+ "]:" +:+ port else host +:+ ":" +:+ port.

Definition defaultProbe `{Network W} : Prober W := fun ip p =>
  if String.eqb (hp_Type p) "none" then ret tt
  else
    let port := if (hp_Port p =? 0)%Z then 80%Z else hp_Port p in
    let addr := JoinHostPort ip (dec port) in
    if String.eqb (hp_Type p) "tcp" then dial_tcp addr (3 * Second)
    else
      let path := if String.eqb (hp_Path p) "" then "/" else hp_Path p in
      status <- http_get ("http://" +:+ addr +:+ path) (3 * Second) ;;
      if ((status <? 200) || (400 <=? status))%Z
      then fail ("health check " +:+ path +:+ " returned " +:+ dec status)
      else ret tt.

Section rollout.
Context {W : Type} `{!rolloutDocker W, !Clock W, !Prober W}.

(** [startupSink] *)
Definition startupSink : Type := string -> list string -> W -> W.

Definition captureStartupLogs (sink : option startupSink) (deploymentID id : string) : io W unit :=
  match sink with
  | None => ret tt
  | Some f =>
      if String.eqb deploymentID "" then ret tt
      else
        lines <- attempt (ContainerLogTail id startupLogLines) ;;
        match lines with
        | Ok (l :: ls) => fun w => (Ok tt, f deploymentID (l :: ls) w)
        | _ => ret tt
        end
  end.

(** ** The health gate *)

(** One round: [None] when healthy, else why not. *)
Definition gate_round (name : string) (p : HealthProbe) : io W (option string) :=
  cur <- ContainerInspect name ;;
  match cur with
  | None => ret (Some "container exited before becoming healthy")
  | Some c =>
      if negb (Running c) then ret (Some "container exited before becoming healthy")
      else if String.eqb (hp_Type p) "none" then ret None
      else if String.eqb (IP c) "" then ret (Some "container has no address yet")
      else
        r <- attempt (probe (IP c) p) ;;
        match r with Err e => ret (Some e) | Ok _ => ret None end
  end.

(** The polling loop; [Ok None] only when the fuel runs out. *)
Fixpoint gate_loop (fuel : nat) (name : string) (p : HealthProbe) (interval timeout deadline : Z)
    : io W (option unit) :=
  match fuel with
  | O => ret None
  | S fuel =>
      v <- gate_round name p ;;
      match v with
      | None => ret (Some tt)
      | Some lastErr => fun w =>
          if (deadline <? clock w)%Z
          then fail ("health gate timed out after " +:+ dur_string timeout +:+ ": " +:+ lastErr) w
          else (wait interval ;; gate_loop fuel name p interval timeout deadline) w
      end
  end.

Definition gate_interval (p : HealthProbe) : Z :=
  let i := wrap64 (hp_IntervalSec p * Second) in if (i <=? 0)%Z then (2 * Second)%Z else i.
Definition gate_timeout (p : HealthProbe) : Z :=
  let t := wrap64 (hp_TimeoutSec p * Second) in if (t <=? 0)%Z then (90 * Second)%Z else t.

(** Rounds enough for any clock that advances by the interval in each wait. *)
Definition gate_fuel (p : HealthProbe) : nat :=
  S (S (Z.to_nat (gate_timeout p / gate_interval p))).

Definition out_of_fuel := "health gate: out of fuel".

Definition gateHealthy (name : string) (p : HealthProbe) : io W unit := fun w =>
  let deadline := (clock w + gate_timeout p)%Z in
  (r <- gate_loop (gate_fuel p) name p (gate_interval p) (gate_timeout p) deadline ;;
   match r with Some _ => ret tt | None => fail out_of_fuel end) w.

(** ** Draining and swapping *)

Definition drain_one (c : ContainerState) : io W unit :=
  _ <- attempt (ContainerStop (ID c) (15 * Second)) ;;
  _ <- attempt (ContainerRemove (ID c) true) ;;
  ret tt.

Definition drainOld (resourceID service keepName : string) : io W unit :=
  l <- ContainerList ;;
  for_each (olderGenerations l resourceID service keepName) drain_one.

(** [_ = dk.ContainerRemove(ctx, id, true); return err] *)
Definition remove_and_fail {A} (id : string) (e : string) : io W A :=
  _ <- attempt (ContainerRemove id true) ;; fail e.

(** Create, start and seed the new generation; [what] names it in the errors.
    A started container that cannot be seeded is removed again. *)
Definition bring_up (what newName : string) (body : json) (postStart : option (string -> io W unit))
    : io W string :=
  id <- wrapping ("create " +:+ what +:+ " generation: ") (ContainerCreate newName body) ;;
  started <- attempt (ContainerStart id) ;;
  match started with
  | Err e => remove_and_fail id ("start " +:+ what +:+ " generation: " +:+ e)
  | Ok _ =>
      match postStart with
      | None => ret id
      | Some f =>
          seeded <- attempt (f id) ;;
          match seeded with
          | Err e => remove_and_fail id ("post-start: " +:+ e)
          | Ok _ => ret id
          end
      end
  end.

Definition performRollout (spec : RolloutSpec) (body : json) (hash : string)
    (postStart : option (string -> io W unit)) (startup : option startupSink) : io W unit :=
  let resourceID := cs_ResourceID (rs_Container spec) in
  let service := cs_Service (rs_Container spec) in
  let newName := rolloutName (cs_Name (rs_Container spec)) (rs_Generation spec) in
  let swap :=
    id <- bring_up "new" newName body postStart ;;
    gate <- attempt (gateHealthy newName (rs_Health spec)) ;;
    match gate with
    | Err e =>
        captureStartupLogs startup (rs_DeploymentID spec) id ;;
        remove_and_fail id ("new version unhealthy, kept previous: " +:+ e)
    | Ok _ => drainOld resourceID service newName
    end in
  cur <- ContainerInspect newName ;;
  match cur with
  | None => swap
  | Some c =>
      if Running c && String.eqb (label (Labels c) LabelSpecHash) hash
      then drainOld resourceID service newName
      else if Running c then
        fail ("generation " +:+ quote newName +:+
          " already held by a running container with a different spec — refusing to cut")
      else
        _ <- wrapping "remove stale generation: " (ContainerRemove (ID c) true) ;;
        swap
  end.

Definition performRecreate (spec : RolloutSpec) (body : json) (hash : string)
    (postStart : option (string -> io W unit)) (startup : option startupSink) : io W unit :=
  let resourceID := cs_ResourceID (rs_Container spec) in
  let service := cs_Service (rs_Container spec) in
  let newName := rolloutName (cs_Name (rs_Container spec)) (rs_Generation spec) in
  let gate id :=
    g <- attempt (gateHealthy newName (rs_Health spec)) ;;
    match g with
    | Err e =>
        captureStartupLogs startup (rs_DeploymentID spec) id ;;
        fail ("recreated service unhealthy: " +:+ e)
    | Ok _ => ret tt
    end in
  let replace :=
    _ <- wrapping "drain before recreate: " (drainOld resourceID service "") ;;
    id <- bring_up "recreate" newName body postStart ;;
    gate id in
  cur <- ContainerInspect newName ;;
  match cur with
  | Some c =>
      if Running c && String.eqb (label (Labels c) LabelSpecHash) hash
      then _ <- gate (ID c) ;; drainOld resourceID service newName
      else replace
  | None => replace
  end.
End rollout.
Arguments startupSink W : clear implicits.

(** ** Image retention *)

Definition defaultImageRetention : Z := 20.

(** The tags under the prefix, each once, in the order of the list. *)
Fixpoint prefix_tags (prefix : string) (tags : list string) (seen : gset string) : list string :=
  match tags with
  | [] => []
  | t :: tags =>
      if has_prefix t prefix && negb (bool_decide (t ∈ seen))
      then t :: prefix_tags prefix tags ({[t]} ∪ seen)
      else prefix_tags prefix tags seen
  end.

Section retain.
Context {W : Type} `{!imageRetainer W}.

Fixpoint retain_loop (keep : Z) (inUse : gset string) (kept : Z) (tags : list string) : io W unit :=
  match tags with
  | [] => ret tt
  | t :: tags =>
      if bool_decide (t ∈ inUse) then retain_loop keep inUse kept tags
      else if (kept <? keep)%Z then retain_loop keep inUse (kept + 1) tags
      else _ <- attempt (ImageRemove t false) ;; retain_loop keep inUse kept tags
  end.

Definition retainImages (prefix : string) (keep : Z) (inUse : gset string) : io W unit :=
  let keep := if (keep <=? 0)%Z then defaultImageRetention else keep in
  if String.eqb prefix "" then ret tt
  else
    imgs <- attempt (ImageList (prefix +:+ "*")) ;;
    match imgs with
    | Err _ => ret tt
    | Ok imgs => retain_loop keep inUse 0 (prefix_tags prefix (concat (map RepoTags imgs)) ∅)
    end.
End retain.

Definition imageRepoPrefix (image : string) : string :=
  if negb (has_prefix image "sigmahub/") then ""
  else match cut_last image ":"%char with
       | Some (l, _) => if String.eqb l "" then "" else l +:+ ":"
       | None => ""
       end.

Definition inUseImages `{rolloutDocker W} (resourceID deployedTag : string) : io W (gset string) :=
  let base : gset string := if String.eqb deployedTag "" then ∅ else {[deployedTag]} in
  l <- attempt ContainerList ;;
  match l with
  | Err _ => ret base
  | Ok l => ret (list_to_set (map Image (List.filter (fun c =>
      String.eqb (label (Labels c) LabelResourceID) resourceID && negb (String.eqb (Image c) "")) l)) ∪ base)
  end.

(** ** Bookkeeping never fails *)

Lemma retain_loop_ok `{imageRetainer W} keep inUse kept tags (w : W) :
  exists w', retain_loop keep inUse kept tags w = (Ok tt, w').
Proof.
  revert kept w. induction tags as [|t tags IH]; intros kept w; cbn; [by eexists|].
  case_bool_decide; [apply IH|]. destruct (kept <? keep)%Z; [apply IH|].
  unfold bind, attempt. destruct (ImageRemove t false w). apply IH.
Qed.

Lemma retainImages_ok `{imageRetainer W} prefix keep inUse (w : W) :
  exists w', retainImages prefix keep inUse w = (Ok tt, w').
Proof.
  unfold retainImages. destruct (String.eqb prefix ""); [by eexists|].
  unfold bind, attempt. destruct (ImageList _ w) as [[imgs|e] w']; [apply retain_loop_ok|by eexists].
Qed.

Lemma inUseImages_ok `{rolloutDocker W} rid tag (w : W) :
  exists u w', inUseImages rid tag w = (Ok u, w').
Proof. unfold inUseImages, bind, attempt. destruct (ContainerList w) as [[l|e] w']; by do 2 eexists. Qed.

(** ** The health gate ends

    The clock never goes back, and advances by at least [d] in a completed
    [wait d]. *)
Class ClockLaws (W : Type) `{!rolloutDocker W, !Clock W, !Prober W} := {
  wait_advances d w w' : wait d w = (Ok tt, w') -> (clock w + d <= clock w')%Z;
  inspect_clock n w r w' : ContainerInspect n w = (r, w') -> (clock w <= clock w')%Z;
  probe_clock ip p w r w' : probe ip p w = (r, w') -> (clock w <= clock w')%Z;
}.

Section gate.
Context {W : Type} `{!rolloutDocker W, !Clock W, !Prober W, !ClockLaws W}.

Definition late_error (timeout : Z) (why : string) : string :=
  "health gate timed out after " +:+ dur_string timeout +:+ ": " +:+ why.

(** The loop as the code has it, without fuel. *)
Inductive polls (name : string) (p : HealthProbe) (interval timeout deadline : Z)
    : W -> res unit -> W -> Prop :=
| polls_err w e w' : gate_round name p w = (Err e, w') ->
    polls name p interval timeout deadline w (Err e) w'
| polls_healthy w w' : gate_round name p w = (Ok None, w') ->
    polls name p interval timeout deadline w (Ok tt) w'
| polls_late w why w' : gate_round name p w = (Ok (Some why), w') -> (deadline < clock w')%Z ->
    polls name p interval timeout deadline w (Err (late_error timeout why)) w'
| polls_cancelled w why w1 e w' : gate_round name p w = (Ok (Some why), w1) ->
    (clock w1 <= deadline)%Z -> wait interval w1 = (Err e, w') ->
    polls name p interval timeout deadline w (Err e) w'
| polls_again w why w1 w2 r w' : gate_round name p w = (Ok (Some why), w1) ->
    (clock w1 <= deadline)%Z -> wait interval w1 = (Ok tt, w2) ->
    polls name p interval timeout deadline w2 r w' ->
    polls name p interval timeout deadline w r w'.

Lemma gate_round_clock name p w r w' :
  gate_round name p w = (r, w') -> (clock w <= clock w')%Z.
Proof.
  unfold gate_round, bind. destruct (ContainerInspect name w) as [[[c|]|e] w1] eqn:E.
  - apply inspect_clock in E. destruct (negb _); [by intros [= <- <-]|].
    destruct (String.eqb _ _); [by intros [= <- <-]|].
    destruct (String.eqb _ _); [by intros [= <- <-]|].
    unfold attempt. destruct (probe _ _ w1) as [r1 w2] eqn:Ep. apply probe_clock in Ep.
    destruct r1; intros [= <- <-]; lia.
  - apply inspect_clock in E. by intros [= <- <-].
  - apply inspect_clock in E. by intros [= <- <-].
Qed.

(** With [n] intervals left before the deadline, [n + 1] rounds suffice. *)
Lemma gate_loop_polls name p interval timeout deadline n w :
  (0 < interval)%Z -> (deadline - clock w < Z.of_nat n * interval)%Z ->
  exists r w', polls name p interval timeout deadline w r w' /\
    gate_loop (S n) name p interval timeout deadline w =
      (match r with Ok _ => Ok (Some tt) | Err e => Err e end, w').
Proof.
  intros Hi. revert w. induction n as [|n IH]; intros w Hd; cbn [gate_loop]; unfold bind at 1.
  all: destruct (gate_round name p w) as [[[why|]|e] w1] eqn:E;
    [|exists (Ok tt), w1; split; [by apply polls_healthy|done]
     |exists (Err e), w1; split; [by apply polls_err|done]].
  all: pose proof (gate_round_clock _ _ _ _ _ E); destruct (Z.ltb_spec deadline (clock w1));
    [exists (Err (late_error timeout why)), w1; split; [by eapply polls_late|done]|].
  - lia.
  - unfold bind at 1. destruct (wait interval w1) as [[[]|e] w2] eqn:Ew.
    + pose proof (wait_advances _ _ _ Ew). destruct (IH w2) as (r & w' & Hp & Eq); [lia|].
      exists r, w'. split; [by eapply polls_again|exact Eq].
    + exists (Err e), w2. split; [by eapply polls_cancelled|done].
Qed.

Lemma gate_interval_pos p : (0 < gate_interval p)%Z.
Proof. unfold gate_interval, Second. destruct (Z.leb_spec (wrap64 (hp_IntervalSec p * 1000000000)) 0); lia. Qed.

Lemma gate_timeout_pos p : (0 < gate_timeout p)%Z.
Proof. unfold gate_timeout, Second. destruct (Z.leb_spec (wrap64 (hp_TimeoutSec p * 1000000000)) 0); lia. Qed.

Lemma gateHealthy_run name p w :
  exists r w', polls name p (gate_interval p) (gate_timeout p) (clock w + gate_timeout p) w r w' /\
    gateHealthy name p w = (r, w').
Proof.
  pose proof (gate_interval_pos p) as Hi. pose proof (gate_timeout_pos p) as Ht.
  destruct (gate_loop_polls name p (gate_interval p) (gate_timeout p) (clock w + gate_timeout p)
    (S (Z.to_nat (gate_timeout p / gate_interval p))) w) as (r & w' & Hp & E); [done| |].
  { pose proof (Z.mul_succ_div_gt (gate_timeout p) (gate_interval p) Hi).
    pose proof (Z.div_pos (gate_timeout p) (gate_interval p)). nia. }
  exists r, w'. split; [done|]. unfold gateHealthy, gate_fuel, bind. rewrite E. by destruct r as [[]|].
Qed.

Lemma polls_det name p interval timeout deadline w r1 w1 r2 w2 :
  polls name p interval timeout deadline w r1 w1 ->
  polls name p interval timeout deadline w r2 w2 -> r1 = r2 /\ w1 = w2.
Proof.
  intros H. revert r2 w2. induction H; intros rr ww Hpolls; inversion Hpolls; simplify_eq/=; same_run;
    try done; try lia; auto.
Qed.

(** The health gate always returns, with exactly what the code's unbounded
    polling loop returns: the bound on its rounds, computed from the probe's
    interval and timeout, is enough for every clock that does not go back. *)
Theorem gateHealthy_spec name p w r w' :
  gateHealthy name p w = (r, w') <->
  polls name p (gate_interval p) (gate_timeout p) (clock w + gate_timeout p) w r w'.
Proof.
  destruct (gateHealthy_run name p w) as (r0 & w0 & Hp & E). rewrite E. split.
  - by intros [= <- <-].
  - intros H. by destruct (polls_det _ _ _ _ _ _ _ _ _ _ Hp H) as [-> ->].
Qed.
End gate.

(** ** Retention *)

Section retention.
Context {W : Type} `{!imageRetainer W}.

(** An image store that records the tags it is asked to remove. *)
#[export] Instance traced_images : imageRetainer (W * list string) := {
  ImageList ref s := let '(r, w) := ImageList ref s.1 in (r, (w, s.2));
  ImageRemove t force s := let '(r, w) := ImageRemove t force s.1 in (r, (w, s.2 ++ [t])%list);
}.

Lemma prefix_tags_elem prefix tags seen t :
  t ∈ prefix_tags prefix tags seen <-> has_prefix t prefix = true /\ t ∈ tags /\ t ∉ seen.
Proof.
  revert seen. induction tags as [|x tags IH]; intros seen; cbn.
  { split; [by intros ?%not_elem_of_nil|by intros (_ & ?%not_elem_of_nil & _)]. }
  destruct (has_prefix x prefix) eqn:Ex; cbn [andb].
  - case_bool_decide as Hx; cbn [negb].
    + rewrite IH, elem_of_cons. naive_solver.
    + rewrite elem_of_cons, IH, elem_of_union, elem_of_singleton, elem_of_cons.
      destruct (decide (t = x)) as [->|]; naive_solver.
  - rewrite IH, elem_of_cons. naive_solver congruence.
Qed.

Lemma prefix_tags_nodup prefix tags seen : NoDup (prefix_tags prefix tags seen).
Proof.
  revert seen. induction tags as [|x tags IH]; intros seen; cbn; [constructor|].
  destruct (has_prefix x prefix && _); [|apply IH]. constructor; [|apply IH].
  rewrite prefix_tags_elem, elem_of_union, elem_of_singleton. tauto.
Qed.

Definition unused (inUse : gset string) (t : string) : bool := negb (bool_decide (t ∈ inUse)).

Lemma retain_loop_spec keep inUse kept tags (s : W * list string) : (0 <= kept)%Z ->
  let '(r, s') := retain_loop keep inUse kept tags s in
  r = Ok tt /\
  s'.2 = (s.2 ++ drop (Z.to_nat (keep - kept)) (List.filter (unused inUse) tags))%list.
Proof.
  revert kept s. induction tags as [|t tags IH]; intros kept s Hk; cbn.
  { by rewrite drop_nil, app_nil_r. }
  unfold unused at 1. case_bool_decide; cbn [negb]; [by apply IH|].
  destruct (Z.ltb_spec kept keep).
  - specialize (IH (kept + 1)%Z s). destruct (retain_loop _ _ (kept + 1) tags s) as [r s'].
    destruct IH as [-> ->]; [lia|]. split; [done|]. f_equal.
    replace (Z.to_nat (keep - kept)) with (S (Z.to_nat (keep - (kept + 1)))) by lia. done.
  - unfold bind, attempt. cbn. destruct (ImageRemove t false s.1) as [r w].
    specialize (IH kept (w, (s.2 ++ [t])%list) Hk).
    destruct (retain_loop keep inUse kept tags _) as [r' s']. destruct IH as [-> ->].
    split; [done|]. cbn. replace (Z.to_nat (keep - kept)) with 0%nat by lia.
    cbn. by rewrite drop_0, <- app_assoc.
Qed.

(** Retention never fails and removes exactly the surplus: of the tags under
    the prefix that no container uses, newest first and each once, all but the
    first [keep] (twenty when [keep] is not positive); nothing when the prefix
    is empty or the images cannot be listed. *)
Theorem retainImages_spec prefix keep inUse (w : W) :
  let '(r, s') := retainImages prefix keep inUse (w, []) in
  let keep' := if (keep <=? 0)%Z then 20%Z else keep in
  r = Ok tt /\
  match fst (ImageList (prefix +:+ "*") w) with
  | Ok imgs =>
      let tags := prefix_tags prefix (concat (map RepoTags imgs)) ∅ in
      NoDup tags /\
      (forall t, t ∈ tags <-> has_prefix t prefix = true /\ exists im, im ∈ imgs /\ t ∈ RepoTags im) /\
      s'.2 = if String.eqb prefix "" then []
             else drop (Z.to_nat keep') (List.filter (unused inUse) tags)
  | Err _ => s'.2 = []
  end.
Proof.
  assert (Htags : forall imgs t, t ∈ prefix_tags prefix (concat (map RepoTags imgs)) ∅ <->
    has_prefix t prefix = true /\ exists im, im ∈ imgs /\ t ∈ RepoTags im).
  { intros imgs t. rewrite prefix_tags_elem, list_elem_of_In, in_concat.
    setoid_rewrite in_map_iff. setoid_rewrite list_elem_of_In. set_solver. }
  unfold retainImages. destruct (String.eqb prefix ""); cbn.
  { destruct (ImageList _ w) as [[imgs|e] w']; cbn; split; try done.
    split_and!; [apply prefix_tags_nodup|apply Htags|done]. }
  unfold bind, attempt. cbn. destruct (ImageList _ w) as [[imgs|e] w'] eqn:E; cbn; [|done].
  pose proof (retain_loop_spec (if (keep <=? 0)%Z then defaultImageRetention else keep) inUse 0
    (prefix_tags prefix (concat (map RepoTags imgs)) ∅) (w', []) (Z.le_refl 0)) as H.
  destruct (retain_loop _ _ _ _ _) as [r s']. destruct H as [-> H]. split; [done|].
  split_and!; [apply prefix_tags_nodup|apply Htags|]. rewrite H, Z.sub_0_r. done.
Qed.
End retention.
