(* ===== verification/NeverCut.v ===== *)
(** * A rollout never cuts the serving generation

    What [performRollout] and [performRecreate] of [Rollout.v] do to the
    containers of the host, for every Docker daemon, clock and prober: the
    statements are about the record of the calls made. *)

From S2P Require Import Prelude GoStrings Json Spec Docker Secrets Rollout.

Local Open Scope string_scope.

Section facts.
Variables (newName hash ptype resourceID service : string).
Implicit Types (tr : list event) (id : string).

(** The calls that take a container down. *)
Definition touches (e : event) (id : string) : Prop := e = Stopped id \/ e = Removed id.

(** A container this run created. *)
Definition own tr id : Prop := exists n b, CreatedAs n b (Ok id) ∈ tr.
(** A stopped container that held the new generation's name. *)
Definition outlived tr id : Prop :=
  exists c, Inspected newName (Ok (Some c)) ∈ tr /\ ID c = id /\ Running c = false.
(** The new generation was seen running, and it has nothing to probe or the
    probe of its address passed. *)
Definition gated tr : Prop :=
  exists c, Inspected newName (Ok (Some c)) ∈ tr /\ Running c = true /\
    (ptype = "none" \/ Probed (IP c) (Ok tt) ∈ tr).
(** It passed the gate, or it was already running with the wanted spec. *)
Definition serving_ready tr : Prop :=
  gated tr \/ exists c, Inspected newName (Ok (Some c)) ∈ tr /\ Running c = true /\
    label (Labels c) LabelSpecHash = hash.
(** A listed container of the same resource and service under another name. *)
Definition older tr id : Prop :=
  exists l c, Listed (Ok l) ∈ tr /\ c ∈ olderGenerations l resourceID service newName /\ ID c = id.

(** Every container taken down so far was one of the rollout's own. *)
Definition cautious tr : Prop :=
  forall pre e post id, tr = (pre ++ e :: post)%list -> touches e id -> own pre id \/ outlived pre id.
(** Older generations were taken down only once the new one was ready. *)
Definition never_cut tr : Prop :=
  forall pre e post id, tr = (pre ++ e :: post)%list -> touches e id ->
    own pre id \/ outlived pre id \/ (serving_ready pre /\ older pre id).

(** A call that neither creates a container nor takes one down. *)
Definition reading (e : event) : Prop :=
  match e with CreatedAs _ _ _ | Stopped _ | Removed _ => False | _ => True end.

Lemma reading_touches e id : reading e -> ~ touches e id.
Proof. intros H. by intros [->| ->]. Qed.

(** An assertion about the record that such calls keep. *)
Definition stable (P : list event -> Prop) : Prop :=
  forall tr e, P tr -> reading e -> P (tr ++ [e])%list.
Definition mono (P : list event -> Prop) : Prop := forall tr e, P tr -> P (tr ++ [e])%list.

Lemma mono_stable P : mono P -> stable P.
Proof. intros H tr e HP _. by apply H. Qed.
Lemma stable_and P Q : stable P -> stable Q -> stable (fun tr => P tr /\ Q tr).
Proof. intros HP HQ tr e [? ?] He. split; auto. Qed.

Lemma stable_and_elem P x : stable P -> stable (fun tr => P tr /\ x ∈ tr).
Proof. intros HP tr e [? ?] He. split; [auto|]. rewrite elem_of_app. tauto. Qed.

Lemma in_snoc {A} (x y : A) l : x ∈ l -> x ∈ (l ++ [y])%list.
Proof. rewrite elem_of_app. tauto. Qed.

Lemma own_mono id : mono (fun tr => own tr id).
Proof. intros tr e (n & b & H). exists n, b. by apply in_snoc. Qed.
Lemma stale_mono id : mono (fun tr => outlived tr id).
Proof. intros tr e (c & H & ?). exists c. split; [by apply in_snoc|done]. Qed.
Lemma gated_mono : mono gated.
Proof.
  intros tr e (c & H & Hr & Hp). exists c. split_and!; [by apply in_snoc|done|].
  destruct Hp as [?|?]; [by left|]. right. by apply in_snoc.
Qed.
Lemma ready_mono : mono serving_ready.
Proof.
  intros tr e [Hg|(c & H & Hr & Hh)]; [left; by apply gated_mono|right].
  exists c. split_and!; [by apply in_snoc|done|done].
Qed.
Lemma elem_mono x : mono (fun tr => x ∈ tr).
Proof. intros tr e. apply in_snoc. Qed.

(** Appending one call to a record. *)
Lemma split_snoc {A} (tr pre post : list A) x e :
  (tr ++ [x])%list = (pre ++ e :: post)%list ->
  (post = [] /\ pre = tr /\ e = x) \/ exists post', post = (post' ++ [x])%list /\ tr = (pre ++ e :: post')%list.
Proof.
  destruct post as [|y post] using rev_ind; intros E.
  - left. apply app_inj_tail in E as [-> ->]. done.
  - right. exists post. rewrite app_comm_cons, app_assoc in E. apply app_inj_tail in E as [-> ->]. done.
Qed.

Lemma never_cut_snoc tr e : never_cut tr ->
  (forall id, touches e id -> own tr id \/ outlived tr id \/ (serving_ready tr /\ older tr id)) ->
  never_cut (tr ++ [e])%list.
Proof.
  intros Hn He pre x post id [(-> & -> & ->)|(post' & -> & ->)]%split_snoc Ht; [by apply He|].
  by eapply Hn.
Qed.

Lemma cautious_snoc tr e : cautious tr ->
  (forall id, touches e id -> own tr id \/ outlived tr id) -> cautious (tr ++ [e])%list.
Proof.
  intros Hn He pre x post id [(-> & -> & ->)|(post' & -> & ->)]%split_snoc Ht; [by apply He|].
  by eapply Hn.
Qed.

Lemma cautious_never_cut tr : cautious tr -> never_cut tr.
Proof. intros H pre e post id E Ht. destruct (H pre e post id E Ht); auto. Qed.

Lemma cautious_stable : stable cautious.
Proof. intros tr e H He. apply cautious_snoc; [done|]. intros id []%reading_touches; done. Qed.

Lemma cautious_nil : cautious [].
Proof. intros pre e post id E. by destruct pre. Qed.
End facts.

#[export] Hint Resolve mono_stable stable_and own_mono stale_mono gated_mono ready_mono elem_mono
  cautious_stable cautious_nil in_snoc : sigma.

(** ** The steps of a rollout *)

Section rollout.
Context {W : Type} `{!rolloutDocker W, !Clock W, !Prober W, !FileSystem W}.
Local Abbreviation world := (W * list event)%type.
Implicit Types (P : list event -> Prop).

#[local] Instance traced_files : FileSystem world := {
  MkdirAll p m := on_world (MkdirAll p m);
  Statfs p := on_world (Statfs p);
  WriteFile p data m := on_world (WriteFile p data m);
}.

(** [record P m Q]: from a record in [P], [m] leaves one in [Q]. *)
Definition record {A} P (m : io world A) (Q : res A -> list event -> Prop) : Prop :=
  triple (fun s => P s.2) m (fun r s => Q r s.2).

(** A computation that neither creates a container nor takes one down. *)
Definition quiet {A} (m : io world A) : Prop := forall P, stable P -> record P m (fun _ => P).

Lemma quiet_noting {A} (f : res A -> event) (m : io W A) :
  (forall r, reading (f r)) -> quiet (noting f m).
Proof. intros Hf P HP. apply triple_noting. intros r tr Htr. by apply HP. Qed.

Lemma quiet_on_world {A} (m : io W A) : quiet (on_world m).
Proof. intros P _. apply triple_on_world. Qed.

Lemma quiet_ret {A} (a : A) : quiet (ret a).
Proof. intros P _ s Hs. exact Hs. Qed.
Lemma quiet_fail {A} e : quiet (@fail _ A e).
Proof. intros P _ s Hs. exact Hs. Qed.
Lemma quiet_lift {A} (r : res A) : quiet (lift r).
Proof. intros P _ s Hs. exact Hs. Qed.
Lemma quiet_bind {A B} (m : io world A) (k : A -> io world B) :
  quiet m -> (forall a, quiet (k a)) -> quiet (bind m k).
Proof.
  intros Hm Hk P HP. eapply (triple_bind _ _ _ (fun _ s => P s.2)); [|intros a; by apply Hk].
  eapply triple_weaken; [by apply Hm|done|]. by intros [a|e] s.
Qed.
Lemma quiet_attempt {A} (m : io world A) : quiet m -> quiet (attempt m).
Proof. intros Hm P HP. apply triple_attempt. by apply Hm. Qed.
Lemma quiet_wrapping {A} pre (m : io world A) : quiet m -> quiet (wrapping pre m).
Proof. intros Hm P HP. apply triple_wrapping. by apply Hm. Qed.

Create HintDb quiet discriminated.
Local Hint Resolve quiet_ret quiet_fail quiet_lift quiet_bind quiet_attempt quiet_wrapping
  quiet_on_world : quiet.

Lemma quiet_inspect n : quiet (ContainerInspect n).
Proof. apply quiet_noting. done. Qed.
Lemma quiet_list : quiet ContainerList.
Proof. apply quiet_noting. done. Qed.
Lemma quiet_logs id n : quiet (ContainerLogTail id n).
Proof. apply quiet_noting. done. Qed.
Lemma quiet_start id : quiet (ContainerStart id).
Proof. apply quiet_noting. done. Qed.
Lemma quiet_probe ip p : quiet (probe ip p).
Proof. apply quiet_noting. done. Qed.
Lemma quiet_wait d : quiet (wait d).
Proof. apply quiet_on_world. Qed.
Local Hint Resolve quiet_inspect quiet_list quiet_logs quiet_start quiet_probe : quiet.

Lemma quiet_write_secrets dir ss : quiet (write_secrets dir ss).
Proof.
  induction ss as [|s ss IH]; cbn; [auto with quiet|].
  apply quiet_bind; [auto with quiet|]. intros n. case_match; [auto with quiet|].
  apply quiet_bind; [|done]. apply quiet_wrapping, quiet_on_world.
Qed.

Lemma quiet_seed ss id : quiet (seedSecrets ss id).
Proof.
  unfold seedSecrets. destruct ss as [|s ss]; [auto with quiet|].
  apply quiet_bind; [auto with quiet|]. intros [c|]; [|auto with quiet].
  case_match; [auto with quiet|]. unfold writeFileSecrets. case_match; [auto with quiet|].
  apply quiet_bind; [apply quiet_wrapping, quiet_on_world|]. intros _.
  apply quiet_bind; [apply quiet_wrapping, quiet_on_world|]. intros fs.
  case_match; [auto with quiet|]. apply quiet_write_secrets.
Qed.

(** The log sink acts on the world, not on the daemon. *)
Definition sink_on_world (f : startupSink W) : startupSink world :=
  fun dep lines s => (f dep lines s.1, s.2).

Lemma quiet_capture sink dep id : quiet (captureStartupLogs (sink_on_world <$> sink) dep id).
Proof.
  unfold captureStartupLogs. destruct sink as [f|]; cbn [fmap option_fmap option_map];
    [|auto with quiet]. case_match; [auto with quiet|].
  apply quiet_bind; [auto with quiet|]. intros [[|l ls]|e]; [auto with quiet| |auto with quiet].
  intros P HP s Hs. exact Hs.
Qed.

Lemma quiet_gate_round name p : quiet (gate_round name p).
Proof.
  unfold gate_round. apply quiet_bind; [auto with quiet|]. intros [c|]; [|auto with quiet].
  repeat (case_match; [auto with quiet|]). apply quiet_bind; [auto with quiet|].
  intros [|]; auto with quiet.
Qed.

(** [m] keeps [P], and a result tells [F] about the record. *)
Lemma quiet_noting_tells {A} (f : res A -> event) (m : io W A) P (F : res A -> list event -> Prop) :
  stable P -> (forall r, reading (f r)) -> (forall r tr, F r (tr ++ [f r])%list) ->
  record P (noting f m) (fun r tr => P tr /\ F r tr).
Proof. intros HP Hq HF. apply triple_noting. intros r tr Htr. split; [by apply HP|done]. Qed.

Lemma record_inspect n P : stable P ->
  record P (ContainerInspect n) (fun r tr => P tr /\ Inspected n r ∈ tr).
Proof.
  intros HP. apply (quiet_noting_tells _ _ P (fun r tr => Inspected n r ∈ tr)); [done| |].
  - done.
  - intros r tr. apply elem_of_app. right. by apply list_elem_of_singleton.
Qed.

Lemma record_list P : stable P -> record P ContainerList (fun r tr => P tr /\ Listed r ∈ tr).
Proof.
  intros HP. apply (quiet_noting_tells _ _ P (fun r tr => Listed r ∈ tr)); [done| |].
  - done.
  - intros r tr. apply elem_of_app. right. by apply list_elem_of_singleton.
Qed.

Lemma record_probe ip p P : stable P -> record P (probe ip p) (fun r tr => P tr /\ Probed ip r ∈ tr).
Proof.
  intros HP. apply (quiet_noting_tells _ _ P (fun r tr => Probed ip r ∈ tr)); [done| |].
  - done.
  - intros r tr. apply elem_of_app. right. by apply list_elem_of_singleton.
Qed.

Lemma record_create n b newName :
  record (cautious newName) (ContainerCreate n b)
    (fun r tr => cautious newName tr /\ forall id, r = Ok id -> own tr id).
Proof.
  apply triple_noting. intros r tr Htr. split.
  - apply cautious_snoc; [done|]. by intros id [[=]|[=]].
  - intros id ->. exists n, b. apply elem_of_app. right. by apply list_elem_of_singleton.
Qed.

(** Sequencing when only an [Ok] continues; an error keeps [P]. *)
Lemma record_bind {A B} P (m : io world A) (k : A -> io world B) (R : A -> list event -> Prop) Q :
  record P m (fun r tr => match r with Ok a => R a tr | Err e => Q (Err e) tr end) ->
  (forall a, record (R a) (k a) Q) -> record P (bind m k) Q.
Proof. intros Hm Hk. exact (triple_bind _ _ _ (fun a s => R a s.2) _ Hm Hk). Qed.

Lemma record_weaken {A} P P' (m : io world A) Q Q' :
  record P' m Q' -> (forall tr, P tr -> P' tr) -> (forall r tr, Q' r tr -> Q r tr) -> record P m Q.
Proof. intros H HP HQ. eapply triple_weaken; [exact H|intros s; apply HP|intros r s; apply HQ]. Qed.

Lemma record_ret {A} (a : A) P (Q : res A -> list event -> Prop) :
  (forall tr, P tr -> Q (Ok a) tr) -> record P (ret a) Q.
Proof. intros H s Hs. by apply H. Qed.
Lemma record_fail {A} e P (Q : res A -> list event -> Prop) :
  (forall tr, P tr -> Q (Err e) tr) -> record P (fail e) Q.
Proof. intros H s Hs. by apply H. Qed.

Lemma record_attempt {A} P (m : io world A) Q :
  record P m (fun r tr => Q (Ok r) tr) -> record P (attempt m) Q.
Proof. intros H. exact (triple_attempt _ _ (fun r s => Q r s.2) H). Qed.
Lemma record_wrapping {A} P pre (m : io world A) Q :
  record P m (fun r tr => Q (wrap_err pre r) tr) -> record P (wrapping pre m) Q.
Proof. intros H. exact (triple_wrapping _ _ _ (fun r s => Q r s.2) H). Qed.

Section names.
Variables (newName hash resourceID service : string) (p : HealthProbe).
Local Abbreviation gated' := (gated newName (hp_Type p)).
Local Abbreviation ready' := (serving_ready newName hash (hp_Type p)).

Lemma record_gate_round P : stable P ->
  record P (gate_round newName p) (fun r tr => P tr /\ (r = Ok None -> gated' tr)).
Proof.
  intros HP. unfold gate_round.
  apply (record_bind _ _ _ (fun cur tr => P tr /\ Inspected newName (Ok cur) ∈ tr)).
  { eapply record_weaken; [by apply record_inspect|done|]. by intros [a|e] tr [? ?]. }
  intros [c|]; [|by apply record_ret; intros tr [? _]].
  destruct (Running c) eqn:Hr; cbn [negb]; [|by apply record_ret; intros tr [? _]].
  destruct (String.eqb_spec (hp_Type p) "none") as [Hn|_].
  { apply record_ret. intros tr [? Hi]. split; [done|]. intros _. exists c. auto. }
  destruct (String.eqb (IP c) ""); [by apply record_ret; intros tr [? _]|].
  apply (record_bind _ _ _ (fun r tr => (P tr /\ Inspected newName (Ok (Some c)) ∈ tr) /\ Probed (IP c) r ∈ tr)).
  { apply record_attempt.
    apply (record_probe (IP c) p (fun tr => P tr /\ Inspected newName (Ok (Some c)) ∈ tr)).
    by apply stable_and_elem. }
  intros [[]|e]; apply record_ret; intros tr [[? Hi] Hp]; (split; [done|]); [|done].
  intros _. exists c. auto.
Qed.

Lemma record_gate_loop P fuel interval timeout deadline : stable P ->
  record P (gate_loop fuel newName p interval timeout deadline)
    (fun r tr => P tr /\ (r = Ok (Some tt) -> gated' tr)).
Proof.
  intros HP. induction fuel as [|fuel IH]; cbn [gate_loop]; [by apply record_ret|].
  apply (record_bind _ _ _ (fun v tr => P tr /\ (v = None -> gated' tr))).
  { eapply record_weaken; [by apply record_gate_round|done|].
    intros [a|e] tr [? Ht]; [|done]. split; [done|]. intros ->. auto. }
  intros [why|]; [|apply record_ret; intros tr [? ?]; auto].
  intros s [Hs _]. cbv beta. destruct (deadline <? clock s)%Z; [by split|].
  apply (record_bind P (wait interval) _ (fun _ => P)
    (fun r tr => P tr /\ (r = Ok (Some tt) -> gated' tr))); [|by intros _|done].
  eapply record_weaken; [by apply quiet_wait|done|]. by intros [a|e] tr.
Qed.

Lemma record_gate P : stable P ->
  record P (gateHealthy newName p) (fun r tr => P tr /\ (r = Ok tt -> gated' tr)).
Proof.
  intros HP s Hs. unfold gateHealthy.
  apply (record_bind P _ _ (fun r tr => P tr /\ (r = Some tt -> gated' tr))
    (fun r tr => P tr /\ (r = Ok tt -> gated' tr))); [| |done].
  - eapply record_weaken; [by apply record_gate_loop|done|].
    intros [a|e] tr [? Ht]; [|done]. split; [done|]. intros ->. auto.
  - intros [[]|]; [apply record_ret|apply record_fail]; intros tr [? ?]; (split; [done|]); [auto|done].
Qed.

(** ** Taking containers down *)

Local Abbreviation cautious' := (cautious newName).
Local Abbreviation never_cut' := (never_cut newName hash (hp_Type p) resourceID service).
Local Abbreviation older' := (older newName resourceID service).

(** Removing one of its own, or a stale one, is cautious. *)
Lemma record_remove_own id force :
  record (fun tr => cautious' tr /\ (own tr id \/ outlived newName tr id)) (ContainerRemove id force)
    (fun _ => cautious').
Proof.
  apply triple_noting. intros r tr [Hc Ho]. apply cautious_snoc; [done|].
  by intros id' [[=]|[= <-]].
Qed.

Lemma record_remove_and_fail {A} id e :
  record (fun tr => cautious' tr /\ (own tr id \/ outlived newName tr id)) (@remove_and_fail world _ A id e)
    (fun r tr => (exists e', r = Err e') /\ cautious' tr).
Proof.
  apply (record_bind _ _ _ (fun _ => cautious')).
  - apply record_attempt. apply record_remove_own.
  - intros _. apply record_fail. eauto.
Qed.

(** The new generation is brought up without touching any other container. *)
Lemma record_bring_up what body ss :
  record cautious' (bring_up what newName body (Some (seedSecrets ss)))
    (fun r tr => cautious' tr /\ forall id, r = Ok id -> own tr id).
Proof.
  apply (record_bind _ _ _ (fun id tr => cautious' tr /\ own tr id)).
  { apply record_wrapping. eapply record_weaken;
      [apply (record_create newName body newName)|done|].
    intros [id|e] tr [Hc Ho]; cbn; split; try done. by apply Ho. }
  intros id. assert (Hst : stable (fun tr => cautious' tr /\ own tr id)).
  { apply stable_and; [apply cautious_stable|apply mono_stable, own_mono]. }
  assert (Hrf : forall e, record (fun tr => cautious' tr /\ own tr id)
    (remove_and_fail (A := string) id e) (fun r tr => cautious' tr /\ forall id', r = Ok id' -> own tr id')).
  { intros e. eapply record_weaken; [apply record_remove_and_fail|tauto|].
    intros r tr [(e' & ->) Hc]. by split. }
  apply (record_bind _ _ _ (fun _ tr => cautious' tr /\ own tr id)).
  { apply record_attempt. by apply quiet_start. }
  intros [[]|e]; [|by apply Hrf].
  apply (record_bind _ _ _ (fun _ tr => cautious' tr /\ own tr id)).
  { apply record_attempt. by apply quiet_seed. }
  intros [[]|e]; [|by apply Hrf].
  apply record_ret. intros tr [? ?]. split; [done|]. by intros ? [= <-].
Qed.
Definition drained (l : list ContainerState) (tr : list event) : Prop :=
  forall c, c ∈ l -> Stopped (ID c) ∈ tr /\ Removed (ID c) ∈ tr.

Lemma older_mono id : mono (fun tr => older' tr id).
Proof. intros tr e (l & c & H & ?). exists l, c. split; [by apply in_snoc|done]. Qed.

(** An older generation may be stopped or removed once the new one is ready. *)
Definition may_drain (tr : list event) (ids : list string) : Prop :=
  never_cut' tr /\ ready' tr /\ forall id, id ∈ ids -> older' tr id.

Lemma may_drain_snoc tr ids e id :
  may_drain tr ids -> id ∈ ids -> (forall id', touches e id' -> id' = id) -> may_drain (tr ++ [e])%list ids.
Proof.
  intros (Hn & Hr & Ho) Hid He. split_and!.
  - apply never_cut_snoc; [done|]. intros id' ->%He. right; right. split; [done|by apply Ho].
  - by apply ready_mono.
  - intros id' Hid'. by apply older_mono, Ho.
Qed.

Lemma record_drain_one c ids (F : list event -> Prop) : ID c ∈ ids -> mono F ->
  record (fun tr => may_drain tr ids /\ F tr) (drain_one c)
    (fun r tr => r = Ok tt /\ may_drain tr ids /\ (F tr /\ Stopped (ID c) ∈ tr /\ Removed (ID c) ∈ tr)).
Proof.
  intros Hc HF. unfold drain_one.
  apply (record_bind _ _ _ (fun _ tr => may_drain tr ids /\ F tr /\ Stopped (ID c) ∈ tr)).
  { apply record_attempt, triple_noting. intros r tr [Hm Hf]. split_and!.
    - eapply may_drain_snoc; [done..|]. by intros id' [[= <-]|[=]].
    - by apply HF.
    - apply elem_of_app. right. by apply list_elem_of_singleton. }
  intros _. apply (record_bind _ _ _ (fun _ tr => may_drain tr ids /\
    (F tr /\ Stopped (ID c) ∈ tr /\ Removed (ID c) ∈ tr))).
  { apply record_attempt, triple_noting. intros r tr (Hm & Hf & Hs). split_and!.
    - eapply may_drain_snoc; [done..|]. by intros id' [[=]|[= <-]].
    - by apply HF.
    - by apply in_snoc.
    - apply elem_of_app. right. by apply list_elem_of_singleton. }
  intros _. by apply record_ret.
Qed.

Lemma record_drain_all ids cs (F : list event -> Prop) : (forall c, c ∈ cs -> ID c ∈ ids) -> mono F ->
  record (fun tr => may_drain tr ids /\ F tr) (for_each cs drain_one)
    (fun r tr => r = Ok tt /\ may_drain tr ids /\ F tr /\ drained cs tr).
Proof.
  revert F. induction cs as [|c cs IH]; intros F Hids HF; cbn [for_each].
  { apply record_ret. intros tr [Hm Hf]. split_and!; try done. intros c []%not_elem_of_nil. }
  pose (F' := fun tr => F tr /\ Stopped (ID c) ∈ tr /\ Removed (ID c) ∈ tr).
  apply (record_bind _ _ _ (fun _ tr => may_drain tr ids /\ F' tr)).
  - eapply record_weaken; [apply (record_drain_one c ids F); [|done]|done|].
    + apply Hids. left.
    + by intros r tr (-> & ? & ?).
  - intros _. eapply record_weaken; [apply (IH F')|done|].
    + intros x Hx. apply Hids. by right.
    + intros tr e (? & ? & ?). split_and!; [by apply HF|by apply in_snoc|by apply in_snoc].
    + intros r tr (-> & ? & (? & ? & ?) & Hd). split_and!; try done.
      by intros x [->|Hx]%elem_of_cons; [|apply Hd].
Qed.

(** What a completed drain leaves in the record. *)
Definition drain_done (tr : list event) : Prop :=
  exists l, Listed (Ok l) ∈ tr /\ drained (olderGenerations l resourceID service newName) tr.

Lemma record_drainOld :
  record (fun tr => cautious' tr /\ ready' tr) (drainOld resourceID service newName)
    (fun r tr => never_cut' tr /\ (is_ok r = false -> cautious' tr) /\
                 (r = Ok tt -> ready' tr /\ drain_done tr)).
Proof.
  unfold drainOld.
  apply (record_bind _ _ _ (fun l tr => (cautious' tr /\ ready' tr) /\ Listed (Ok l) ∈ tr)).
  { eapply record_weaken; [apply (record_list (fun tr => cautious' tr /\ ready' tr))|done|].
    - apply stable_and; [apply cautious_stable|apply mono_stable, ready_mono].
    - intros [l|e] tr [[Hc Hr] Hl]; [done|]. split_and!; [by apply cautious_never_cut|done..]. }
  intros l. set (cs := olderGenerations l resourceID service newName).
  eapply record_weaken; [apply (record_drain_all (map ID cs) cs (fun tr => Listed (Ok l) ∈ tr))| |].
  - intros c Hc. apply list_elem_of_fmap. eauto.
  - apply elem_mono.
  - intros tr [[Hc Hr] Hl]. split; [|done]. split_and!; [by apply cautious_never_cut|done|].
    intros id (c & -> & Hin)%list_elem_of_fmap. by exists l, c.
  - intros r tr (-> & (Hn & Hr & _) & Hl & Hd). split_and!; [done|done|].
    intros _. split; [done|]. by exists l.
Qed.
(** ** The recreate swap: the old generations go first *)

(** No container was created before every listed member of its group was
    stopped and removed. *)
Definition exclusive (tr : list event) : Prop :=
  forall pre n b r post, tr = (pre ++ CreatedAs n b r :: post)%list ->
    exists l, Listed (Ok l) ∈ pre /\ drained (olderGenerations l resourceID service "") pre.
Definition no_create (tr : list event) : Prop := forall n b r, CreatedAs n b r ∉ tr.

Lemma no_create_exclusive tr : no_create tr -> exclusive tr.
Proof.
  intros H pre n b r post ->. exfalso. apply (H n b r), elem_of_app. right. left.
Qed.

Lemma exclusive_snoc tr e : exclusive tr ->
  (forall n b r, e = CreatedAs n b r ->
     exists l, Listed (Ok l) ∈ tr /\ drained (olderGenerations l resourceID service "") tr) ->
  exclusive (tr ++ [e])%list.
Proof.
  intros He Hn pre n b r post [(-> & -> & <-)|(post' & -> & ->)]%split_snoc; [by eapply Hn|by eapply He].
Qed.

Lemma exclusive_stable : stable exclusive.
Proof. intros tr e He Hr. apply exclusive_snoc; [done|]. by intros n b r ->. Qed.

Lemma no_create_snoc tr e : no_create tr -> (forall n b r, e <> CreatedAs n b r) -> no_create (tr ++ [e])%list.
Proof.
  intros Hn He n b r [H|H%list_elem_of_singleton]%elem_of_app.
  - by apply (Hn n b r).
  - by apply (He n b r).
Qed.

Lemma no_create_stable : stable no_create.
Proof. intros tr e Hn He. apply no_create_snoc; [done|]. by intros n b r ->. Qed.

(** Draining creates nothing, and takes every one of [cs] down. *)
Lemma record_drain_each (F : list event -> Prop) cs :
  (forall tr e, F tr -> (forall n b r, e <> CreatedAs n b r) -> F (tr ++ [e])%list) ->
  record F (for_each cs drain_one) (fun r tr => r = Ok tt /\ F tr /\ drained cs tr).
Proof.
  revert F. induction cs as [|c cs IH]; intros F HF; cbn [for_each].
  { apply record_ret. intros tr Hf. split_and!; try done. intros c []%not_elem_of_nil. }
  pose (F' := fun tr => F tr /\ Stopped (ID c) ∈ tr /\ Removed (ID c) ∈ tr).
  apply (record_bind _ _ _ (fun _ => F')).
  - unfold drain_one. apply (record_bind _ _ _ (fun _ tr => F tr /\ Stopped (ID c) ∈ tr)).
    { apply record_attempt, triple_noting. intros r tr Hf. split; [by apply HF|].
      apply elem_of_app. right. by apply list_elem_of_singleton. }
    intros _. apply (record_bind _ _ _ (fun _ => F')); [|intros _; by apply record_ret].
    apply record_attempt, triple_noting. intros r tr [Hf Hs]. split_and!; [by apply HF|by apply in_snoc|].
    apply elem_of_app. right. by apply list_elem_of_singleton.
  - intros _. eapply record_weaken; [apply (IH F')|done|].
    + intros tr e (? & ? & ?) He. split_and!; [by apply HF|by apply in_snoc|by apply in_snoc].
    + intros r tr (-> & (? & ? & ?) & Hd). split_and!; try done.
      by intros x [->|Hx]%elem_of_cons; [|apply Hd].
Qed.

Lemma record_drain_group (F : list event -> Prop) keep :
  (forall tr e, F tr -> (forall n b r, e <> CreatedAs n b r) -> F (tr ++ [e])%list) ->
  record F (drainOld resourceID service keep)
    (fun r tr => F tr /\ (r = Ok tt -> exists l, Listed (Ok l) ∈ tr /\
       drained (olderGenerations l resourceID service keep) tr)).
Proof.
  intros HF. unfold drainOld.
  apply (record_bind _ _ _ (fun l tr => F tr /\ Listed (Ok l) ∈ tr)).
  { eapply record_weaken; [apply (record_list F)|done|].
    - intros tr e Hf He. apply HF; [done|]. by intros n b r ->.
    - intros [l|e] tr [? ?]; [done|]. by split. }
  intros l. eapply record_weaken;
    [apply (record_drain_each (fun tr => F tr /\ Listed (Ok l) ∈ tr))| |].
  - intros tr e [? ?] He. split; [by apply HF|by apply in_snoc].
  - done.
  - intros r tr (-> & [? ?] & Hd). split; [done|]. intros _. by exists l.
Qed.

(** A failed start or seed removes the container, and creates nothing. *)
Lemma record_cleanup (F : list event -> Prop) {A} id e :
  (forall tr e, F tr -> (forall n b r, e <> CreatedAs n b r) -> F (tr ++ [e])%list) ->
  record F (@remove_and_fail world _ A id e) (fun r tr => (exists e', r = Err e') /\ F tr).
Proof.
  intros HF. apply (record_bind _ _ _ (fun _ => F)).
  - apply record_attempt, triple_noting. intros r tr Htr. by apply HF.
  - intros _. apply record_fail. eauto.
Qed.
End names.

(** ** The rollout *)

(** What the record of a rollout shows. *)
Record rollout_record (spec : RolloutSpec) (hash : string) (r : res unit) (tr : list event) : Prop := {
  rr_never_cut : never_cut (rolloutName (cs_Name (rs_Container spec)) (rs_Generation spec)) hash
      (hp_Type (rs_Health spec)) (cs_ResourceID (rs_Container spec)) (cs_Service (rs_Container spec)) tr;
  rr_failed : is_ok r = false ->
    cautious (rolloutName (cs_Name (rs_Container spec)) (rs_Generation spec)) tr;
  rr_done : r = Ok tt ->
    serving_ready (rolloutName (cs_Name (rs_Container spec)) (rs_Generation spec)) hash (hp_Type (rs_Health spec)) tr /\
    drain_done (rolloutName (cs_Name (rs_Container spec)) (rs_Generation spec))
      (cs_ResourceID (rs_Container spec)) (cs_Service (rs_Container spec)) tr;
}.

Section main.
Variables (spec : RolloutSpec) (body : json) (hash : string) (ss : list Secret)
  (startup : option (startupSink W)).
Local Abbreviation newName := (rolloutName (cs_Name (rs_Container spec)) (rs_Generation spec)).
Local Abbreviation cautious' := (cautious newName).

Lemma rollout_record_err e tr : cautious' tr -> rollout_record spec hash (Err e) tr.
Proof. intros Hc. constructor; [by apply cautious_never_cut|done|done]. Qed.

Lemma record_drain_rollout :
  record (fun tr => cautious' tr /\ serving_ready newName hash (hp_Type (rs_Health spec)) tr)
    (drainOld (cs_ResourceID (rs_Container spec)) (cs_Service (rs_Container spec)) newName)
    (rollout_record spec hash).
Proof.
  eapply record_weaken; [apply (record_drainOld newName hash _ _ (rs_Health spec))|done|].
  intros r tr (? & ? & ?). by constructor.
Qed.

Lemma record_swap :
  record cautious'
    (bind (bring_up "new" newName body (Some (seedSecrets ss))) (fun id =>
     bind (attempt (gateHealthy newName (rs_Health spec))) (fun gate =>
     match gate with
     | Err e =>
         bind (captureStartupLogs (sink_on_world <$> startup) (rs_DeploymentID spec) id) (fun _ =>
         remove_and_fail id ("new version unhealthy, kept previous: " +:+ e))
     | Ok _ => drainOld (cs_ResourceID (rs_Container spec)) (cs_Service (rs_Container spec)) newName
     end)))
    (rollout_record spec hash).
Proof.
  apply (record_bind _ _ _ (fun id tr => cautious' tr /\ own tr id)).
  { eapply record_weaken; [apply record_bring_up|done|].
    intros [id|e] tr [Hc Ho]; [auto|by apply rollout_record_err]. }
  intros id. assert (stable (fun tr => cautious' tr /\ own tr id)) as Hst.
  { apply stable_and; [apply cautious_stable|apply mono_stable, own_mono]. }
  apply (record_bind _ _ _ (fun g tr => (cautious' tr /\ own tr id) /\
    (g = Ok tt -> gated newName (hp_Type (rs_Health spec)) tr))).
  { apply record_attempt. eapply record_weaken; [by apply (record_gate _ _ _ Hst)|done|].
    intros r tr [? ?]. auto. }
  intros [[]|e].
  - eapply record_weaken; [apply record_drain_rollout| |done].
    intros tr [[Hc _] Hg]. split; [done|]. left. by apply Hg.
  - apply (record_bind _ _ _ (fun _ tr => cautious' tr /\ own tr id)).
    + eapply record_weaken; [apply (quiet_capture startup _ id _ Hst)|by intros tr [? _]|].
      intros [a|e'] tr [Hc ?]; [done|by apply rollout_record_err].
    + intros _. eapply record_weaken; [apply (record_remove_and_fail newName)|intros tr [? ?]; auto|].
      intros r tr [(e' & ->) Hc]. by apply rollout_record_err.
Qed.

Local Abbreviation exclusive' := (exclusive (cs_ResourceID (rs_Container spec)) (cs_Service (rs_Container spec))).
Local Abbreviation gated' := (gated newName (hp_Type (rs_Health spec))).

(** A completed drain of the whole group. *)
Definition emptied (tr : list event) : Prop :=
  exists l, Listed (Ok l) ∈ tr /\
    drained (olderGenerations l (cs_ResourceID (rs_Container spec)) (cs_Service (rs_Container spec)) "") tr.

Lemma exclusive_uncreated tr e :
  exclusive' tr -> (forall n b r, e <> CreatedAs n b r) -> exclusive' (tr ++ [e])%list.
Proof. intros He Hn. apply exclusive_snoc; [done|]. intros n b r E. by destruct (Hn n b r). Qed.

Lemma record_bring_up_exclusive what :
  record (fun tr => no_create tr /\ emptied tr) (bring_up what newName body (Some (seedSecrets ss)))
    (fun _ => exclusive').
Proof.
  assert (Hc : forall id e, record exclusive' (remove_and_fail (A := string) id e) (fun _ => exclusive')).
  { intros id e. eapply record_weaken; [apply (record_cleanup exclusive'), exclusive_uncreated|done|].
    by intros r tr [_ ?]. }
  apply (record_bind _ _ _ (fun _ => exclusive')).
  { apply record_wrapping. apply triple_noting. intros r tr [Hn He].
    assert (exclusive' (tr ++ [CreatedAs newName body r])%list); [|by destruct r].
    apply exclusive_snoc; [by apply no_create_exclusive|]. by intros n b r' _. }
  intros id. apply (record_bind _ _ _ (fun _ => exclusive')).
  { apply record_attempt, quiet_start, exclusive_stable. }
  intros [[]|e]; [|by apply Hc].
  apply (record_bind _ _ _ (fun _ => exclusive')).
  { apply record_attempt, quiet_seed, exclusive_stable. }
  intros [[]|e]; [|by apply Hc]. by apply record_ret.
Qed.

(** The gate of the recreate swap: success means gated. *)
Lemma record_recreate_gate (P : list event -> Prop) id : stable P ->
  record P
    (bind (attempt (gateHealthy newName (rs_Health spec))) (fun g =>
     match g with
     | Err e =>
         bind (captureStartupLogs (sink_on_world <$> startup) (rs_DeploymentID spec) id) (fun _ =>
         fail ("recreated service unhealthy: " +:+ e))
     | Ok _ => ret tt
     end))
    (fun r tr => P tr /\ (r = Ok tt -> gated' tr)).
Proof.
  intros HP. apply (record_bind _ _ _ (fun g tr => P tr /\ (g = Ok tt -> gated' tr))).
  { apply record_attempt. by apply record_gate. }
  intros [[]|e]; [apply record_ret; intros tr [? ?]; auto|].
  apply (record_bind _ _ _ (fun _ => P)).
  - eapply record_weaken; [apply (quiet_capture startup _ id _ HP)|by intros tr [? _]|].
    by intros [a|e'] tr.
  - intros _. by apply record_fail.
Qed.

(** The recreate swap never has two generations: whatever the daemon
    answers, it creates the new container only after it listed the containers
    of the resource and service and stopped and removed every one of them; and
    it reports success only if the new generation passed the health gate. *)
Theorem performRecreate_exclusive w :
  let '(r, s) := performRecreate spec body hash (Some (seedSecrets ss))
                   (sink_on_world <$> startup) (w, []) in
  exclusive' s.2 /\ (r = Ok tt -> gated' s.2).
Proof.
  apply (record_bind (fun tr => tr = []) _ _ (fun _ => no_create)
    (fun r tr => exclusive' tr /\ (r = Ok tt -> gated' tr))); [| |done].
  { eapply record_weaken; [apply (quiet_inspect _ no_create), no_create_stable| |].
    - by intros tr -> n b r ?%not_elem_of_nil.
    - intros [c|e] tr ?; [done|]. split; [by apply no_create_exclusive|done]. }
  intros cur.
  assert (Hreplace : record no_create
    (bind (wrapping "drain before recreate: "
       (drainOld (cs_ResourceID (rs_Container spec)) (cs_Service (rs_Container spec)) "")) (fun _ =>
     bind (bring_up "recreate" newName body (Some (seedSecrets ss))) (fun id =>
     bind (attempt (gateHealthy newName (rs_Health spec))) (fun g =>
     match g with
     | Err e =>
         bind (captureStartupLogs (sink_on_world <$> startup) (rs_DeploymentID spec) id) (fun _ =>
         fail ("recreated service unhealthy: " +:+ e))
     | Ok _ => ret tt
     end)))) (fun r tr => exclusive' tr /\ (r = Ok tt -> gated' tr))).
  { apply (record_bind _ _ _ (fun _ tr => no_create tr /\ emptied tr)).
    { apply record_wrapping. eapply record_weaken;
        [apply (record_drain_group _ _ no_create), no_create_snoc|done|].
      intros [[]|e] tr [Hn Hl]; cbn; [split; [done|by apply Hl]|].
      split; [by apply no_create_exclusive|done]. }
    intros _. apply (record_bind _ _ _ (fun _ => exclusive')).
    { eapply record_weaken; [apply record_bring_up_exclusive|done|]. by intros [id|e] tr. }
    intros id. apply record_recreate_gate, exclusive_stable. }
  destruct cur as [c|]; [|exact Hreplace].
  destruct (Running c && String.eqb (label (Labels c) LabelSpecHash) hash); [|exact Hreplace].
  apply (record_bind _ _ _ (fun _ tr => no_create tr /\ gated' tr)).
  { eapply record_weaken; [apply (record_recreate_gate no_create), no_create_stable|done|].
    intros [[]|e] tr [? Hg]; [auto|]. split; [by apply no_create_exclusive|done]. }
  intros _. eapply record_weaken; [apply (record_drain_group _ _ (fun tr => no_create tr /\ gated' tr))|done|].
  - intros tr e [? ?] He. split; [by apply no_create_snoc|by apply gated_mono].
  - intros r tr [[? ?] _]. split; [by apply no_create_exclusive|done].
Qed.
End main.
End rollout.
