(* ===== verification/Limiter.v ===== *)
(** * The op rate limiter

    Models [agent/internal/container/ratelimit.go]: a token bucket in float64
    arithmetic (binary64, round to nearest even, without fused operations). *)

From Stdlib Require Import SpecFloat.
From S2P Require Import Prelude GoStrings Json.

Local Open Scope Z_scope.

Definition f64_add := SFadd 53 1024.
Definition f64_sub := SFsub 53 1024.
Definition f64_mul := SFmul 53 1024.
Definition f64_div := SFdiv 53 1024.

(** [time.Duration.Seconds] *)
Definition Seconds (d : Z) : spec_float :=
  f64_add (float_of_Z (Z.quot d Second))
          (f64_div (float_of_Z (Z.rem d Second)) (float_of_Z 1000000000)).

Record rateLimiter := mkRateLimiter {
  tokens : spec_float; max : spec_float; perSec : spec_float; lastFill : Z;
}.

Definition newRateLimiter (burst : Z) (perSec : spec_float) (now : Z) : rateLimiter :=
  mkRateLimiter (float_of_Z burst) (float_of_Z burst) perSec now.

Definition allow (now : Z) (r : rateLimiter) : bool * rateLimiter :=
  let elapsed := Seconds (now - lastFill r) in
  let r :=
    if SFltb (S754_zero false) elapsed then
      let t := f64_add (tokens r) (f64_mul elapsed (perSec r)) in
      mkRateLimiter (if SFltb (max r) t then max r else t) (max r) (perSec r) now
    else r in
  if SFltb (tokens r) (float_of_Z 1) then (false, r)
  else (true, mkRateLimiter (f64_sub (tokens r) (float_of_Z 1)) (max r) (perSec r) (lastFill r)).

(** The answers to a sequence of calls. *)
Fixpoint allows (r : rateLimiter) (times : list Z) : list bool :=
  match times with
  | [] => []
  | t :: times => let '(b, r') := allow t r in b :: allows r' times
  end.

(** The agent's limiter: [newRateLimiter(20, 5)]. *)
Definition opLimiter (now : Z) : rateLimiter := newRateLimiter 20 (float_of_Z 5) now.

(** ** No refill without elapsed time *)

(** Not above zero: what [0 < f] rejects by the sign alone. *)
Definition nonpos (f : spec_float) : Prop :=
  match f with
  | S754_zero _ | S754_nan => True
  | S754_finite s _ _ | S754_infinity s => s = true
  end.

Lemma nonpos_ltb f : nonpos f -> SFltb (S754_zero false) f = false.
Proof. by destruct f as [|[]| |[]]. Qed.

Lemma round_aux_nonpos mx ex lx : nonpos (binary_round_aux 53 1024 true mx ex lx).
Proof.
  unfold binary_round_aux. destruct (shr_fexp _ _ _ _ _) as [mrs e'].
  destruct (shr_fexp _ _ _ _ _) as [mrs'' e'']. destruct (shr_m mrs''); [done| |done].
  by destruct (e'' <=? 1024 - 53).
Qed.

Lemma normalize_nonpos m e : m <= 0 -> nonpos (binary_normalize 53 1024 m e false).
Proof.
  intros Hm. destruct m as [|m|m]; cbn; [done|lia|]. unfold binary_round.
  destruct (shl_align _ _ _). apply round_aux_nonpos.
Qed.

Lemma float_of_Z_nonpos z : z <= 0 -> nonpos (float_of_Z z).
Proof. apply normalize_nonpos. Qed.

Lemma div_nonpos f m e : nonpos f -> nonpos (f64_div f (S754_finite false m e)).
Proof.
  destruct f as [s|s| |s m' e']; cbn; try done; intros ->; [done|].
  destruct (SFdiv_core_binary _ _ _ _ _ _) as [[mz ez] lz]. apply round_aux_nonpos.
Qed.

Lemma add_nonpos f g : nonpos f -> nonpos g -> nonpos (f64_add f g).
Proof.
  destruct f as [s|s| |s m e], g as [s'|s'| |s' m' e']; cbn; intros H1 H2; subst; cbn; try done.
  - by destruct s, s'.
  - apply normalize_nonpos. lia.
Qed.

Lemma Seconds_nonpos d : d <= 0 -> nonpos (Seconds d).
Proof.
  intros Hd. unfold Seconds. apply add_nonpos.
  - apply float_of_Z_nonpos. unfold Second. apply Z.opp_nonneg_nonpos.
    rewrite <- Z.quot_opp_l by lia. apply Z.quot_pos; lia.
  - change (float_of_Z 1000000000) with (S754_finite false 8388608000000000 (-23)).
    apply div_nonpos, float_of_Z_nonpos. unfold Second.
    apply Z.rem_nonpos; lia.
Qed.

Lemma allow_frozen now r : now <= lastFill r ->
  allow now r =
    (if SFltb (tokens r) (float_of_Z 1) then (false, r)
     else (true, mkRateLimiter (f64_sub (tokens r) (float_of_Z 1)) (max r) (perSec r) (lastFill r))).
Proof.
  intros H. unfold allow. rewrite nonpos_ltb; [done|]. apply Seconds_nonpos. lia.
Qed.

(** Counting down from [k] tokens is exact. *)
Lemma tokens_step k : (k <= 20)%nat ->
  SFltb (float_of_Z (Z.of_nat k)) (float_of_Z 1) = (k =? 0)%nat /\
  f64_sub (float_of_Z (Z.of_nat (S k))) (float_of_Z 1) = float_of_Z (Z.of_nat k).
Proof.
  intros H. do 21 (destruct k as [|k]; [split; vm_compute; reflexivity|]). lia.
Qed.

Lemma allows_countdown k mx ps t0 times : (k <= 20)%nat -> (forall t, t ∈ times -> t <= t0) ->
  allows (mkRateLimiter (float_of_Z (Z.of_nat k)) mx ps t0) times =
  map (fun i => (i <? k)%nat) (seq 0 (length times)).
Proof.
  revert k. induction times as [|t times IH]; intros k Hk Ht; [done|].
  cbn [allows length seq map]. rewrite allow_frozen by (apply Ht; left). cbn [tokens].
  assert (Ht' : forall t, t ∈ times -> t <= t0) by (intros x Hx; apply Ht; by right).
  rewrite (proj1 (tokens_step k Hk)). destruct k as [|k]; cbn [Nat.eqb].
  - rewrite (IH 0%nat Hk Ht'). f_equal. rewrite <- !seq_shift, !map_map. done.
  - cbn [max perSec lastFill]. rewrite (proj2 (tokens_step k ltac:(lia))), (IH k) by (lia || done).
    cbn. f_equal. by rewrite <- seq_shift, map_map.
Qed.

(** A burst is bounded: as long as the clock has not passed the moment the
    agent's limiter was made (or has gone back), the first twenty ops are let
    through and every further one is refused. *)
Theorem limiter_burst t0 times :
  (forall t, t ∈ times -> t <= t0) ->
  allows (opLimiter t0) times = map (fun i => (i <? 20)%nat) (seq 0 (length times)).
Proof. intros H. by apply (allows_countdown 20). Qed.

Lemma limiter_burst_witness :
  (forall t, t ∈ repeat 5 22 -> t <= 5) /\
  allows (opLimiter 5) (repeat 5 22) = map (fun i => (i <? 20)%nat) (seq 0 22).
Proof.
  assert (forall t, t ∈ repeat 5 22 -> t <= 5) as H.
  { intros t Ht. apply list_elem_of_In, repeat_spec in Ht as ->. lia. }
  split; [exact H|exact (limiter_burst 5 (repeat 5 22) H)].
Defined.
