(* ===== verification/Store.v ===== *)
(** * The desired-state store

    Models [agent/internal/container/store.go]: the last-applied spec of every
    container, in its own key-value store, which the reconcile loop reads
    without the control plane. *)

From S2P Require Import Prelude GoStrings Json Bolt Spec.

Local Open Scope string_scope.
Local Open Scope io_scope.

Definition desiredBucket := "desired".

(** The text of a decoding error; nothing reads it. *)
Definition unmarshal_error := "json: cannot unmarshal value".

(** [json.Unmarshal(v, &x); err] *)
Definition unmarshal {A} (o : option A) : res A :=
  match o with Some a => Ok a | None => Err unmarshal_error end.

(** The order in which [for k, v := range m] visits a map: some order, which
    may differ from one moment to the next. *)
Class RangeOrder (W : Type) := {
  range_map {A} : W -> gmap string A -> list (string * A);
  range_map_perm {A} w (m : gmap string A) : range_map w m ≡ₚ map_to_list m;
}.

Section store.
Context {DB : Type} `{!Bolt DB json}.

Definition PutDesired (name : string) (spec : ContainerSpec) : io DB unit :=
  bolt_put desiredBucket name (enc_spec spec).

Definition DeleteDesired (name : string) : io DB unit := bolt_delete desiredBucket name.

Definition HasDesired (name : string) : io DB bool :=
  v <- bolt_get desiredBucket name ;;
  ret (match v with Some _ => true | None => false end).

(** The [ForEach] callback: decode, or stop at the first error. *)
Fixpoint decode_all (l : list (string * json)) (out : gmap string ContainerSpec)
    : res (gmap string ContainerSpec) :=
  match l with
  | [] => Ok out
  | (k, v) :: l =>
      match unmarshal (dec_spec v) with
      | Ok spec => decode_all l (<[k := spec]> out)
      | Err e => Err e
      end
  end.

Definition AllDesired : io DB (gmap string ContainerSpec) :=
  l <- bolt_entries desiredBucket ;;
  lift (decode_all l ∅).
End store.

(** ** The store as a map *)

Section laws.
Context {DB : Type} `{!Bolt DB json, !BoltLaws DB json}.
Implicit Types (d : DB).

(** What is stored for a name. *)
Definition desired_at d (name : string) : option json := bolt_view d !! (desiredBucket, name).

(** Every stored value is the encoding of a representable spec. *)
Definition store_wf d : Prop :=
  forall name v, desired_at d name = Some v -> exists spec, spec_wf spec /\ v = enc_spec spec.

(** The specs of a well-formed store. *)
Definition holds d (m : gmap string ContainerSpec) : Prop :=
  (forall name spec, m !! name = Some spec -> spec_wf spec) /\
  forall name, desired_at d name = enc_spec <$> m !! name.

Lemma decode_all_ok l out :
  (forall k v, (k, v) ∈ l -> exists spec, spec_wf spec /\ v = enc_spec spec) ->
  NoDup l.*1 ->
  exists m, decode_all l out = Ok m /\
    forall k, m !! k = match list_to_map (M := gmap string json) l !! k with
                       | Some v => dec_spec v | None => out !! k end.
Proof.
  revert out. induction l as [|[k v] l IH]; intros out Hl Hn; cbn [decode_all].
  { exists out. split; [done|]. intros k. done. }
  destruct (Hl k v) as (spec & Hwf & ->); [left|].
  rewrite fmap_cons in Hn. apply NoDup_cons in Hn as [Hk Hn]. cbn in Hk.
  rewrite dec_spec_enc by done. cbn [unmarshal].
  destruct (IH (<[k := spec]> out)) as (m & Hm & Hlk); [|done|].
  { intros k' v' H. apply (Hl k' v'). by right. }
  exists m. split; [done|]. intros k'. rewrite Hlk. cbn [list_to_map foldr uncurry fst snd].
  destruct (decide (k' = k)) as [->|Hne].
  - rewrite not_elem_of_list_to_map_1 by done. rewrite !lookup_insert_eq. symmetry. by apply dec_spec_enc.
  - by rewrite !lookup_insert_ne by done.
Qed.

(** A well-formed store reads back as the map it holds. *)
Lemma AllDesired_holds d m r d' :
  holds d m -> AllDesired d = (r, d') ->
  holds d' m /\ match r with
                | Ok m' => m' = m
                | Err e => bolt_entries desiredBucket d = (Err e, d')
                end.
Proof.
  intros [Hwf Hm]. unfold AllDesired, bind, lift.
  destruct (bolt_entries desiredBucket d) as [[l|e] d1] eqn:E.
  - pose proof (entries_same _ _ _ _ E) as Hs. pose proof (entries_sorted _ _ _ _ E) as Hso.
    pose proof (entries_elem _ _ _ _ E) as Hel.
    assert (Hnd : NoDup l.*1).
    { clear -Hso. revert Hso. generalize (l.*1). intros ks Hso.
      induction Hso as [|x xs ? IH Hx]; constructor; [|done].
      intros Hin. rewrite Forall_forall in Hx. by apply (irreflexivity key_lt x), Hx. }
    destruct (decode_all_ok l ∅) as (m' & Hm' & Hlk); [|done|].
    { intros k v Hin. apply Hel in Hin. specialize (Hm k). unfold desired_at in Hm.
      rewrite Hin in Hm. destruct (m !! k) as [spec|] eqn:Ek; [|done]. injection Hm as ->. eauto. }
    rewrite Hm'. intros [= <- <-]. split.
    { split; [done|]. intros name. unfold desired_at. rewrite Hs. apply Hm. }
    apply map_eq. intros k. rewrite Hlk. specialize (Hm k). unfold desired_at in Hm.
    destruct (list_to_map (M := gmap string json) l !! k) as [v|] eqn:Ev.
    + apply elem_of_list_to_map_2, Hel in Ev. rewrite Ev in Hm.
      destruct (m !! k) as [spec|] eqn:Ek; [|done]. injection Hm as ->. eauto using dec_spec_enc.
    + rewrite lookup_empty. destruct (m !! k) as [spec|] eqn:Ek; [|done].
      symmetry in Hm. cbn in Hm. symmetry in Hm. apply Hel in Hm.
      apply not_elem_of_list_to_map_2 in Ev. destruct Ev. apply list_elem_of_fmap.
      by exists (k, enc_spec spec).
  - intros [= <- <-]. split; [|done]. split; [done|]. intros name. unfold desired_at.
    rewrite (entries_same _ _ _ _ E). apply Hm.
Qed.

Lemma PutDesired_holds d m name spec r d' :
  holds d m -> spec_wf spec -> PutDesired name spec d = (r, d') ->
  holds d' (match r with Ok _ => <[name := spec]> m | Err _ => m end).
Proof.
  intros [Hwf Hm] Hs E. unfold PutDesired in E. destruct r as [[]|e].
  - apply put_ok in E. split.
    + intros k s. destruct (decide (k = name)) as [->|].
      * rewrite lookup_insert_eq. by intros [= <-].
      * rewrite lookup_insert_ne by done. apply Hwf.
    + intros k. unfold desired_at. rewrite E. destruct (decide (k = name)) as [->|].
      * by rewrite !lookup_insert_eq.
      * rewrite !lookup_insert_ne by congruence. apply Hm.
  - apply put_err in E. split; [done|]. intros k. unfold desired_at. rewrite E. apply Hm.
Qed.

Lemma DeleteDesired_holds d m name r d' :
  holds d m -> DeleteDesired name d = (r, d') ->
  holds d' (match r with Ok _ => delete name m | Err _ => m end).
Proof.
  intros [Hwf Hm] E. unfold DeleteDesired in E. destruct r as [[]|e].
  - apply delete_ok in E. split.
    + intros k s. rewrite lookup_delete_Some. intros [_ ?]. eauto.
    + intros k. unfold desired_at. rewrite E. destruct (decide (k = name)) as [->|].
      * by rewrite !lookup_delete_eq.
      * rewrite !lookup_delete_ne by congruence. apply Hm.
  - apply delete_err in E. split; [done|]. intros k. unfold desired_at. rewrite E. apply Hm.
Qed.

Lemma HasDesired_holds d m name r d' :
  holds d m -> HasDesired name d = (r, d') ->
  holds d' m /\ forall b, r = Ok b -> b = bool_decide (is_Some (m !! name)).
Proof.
  intros [Hwf Hm]. unfold HasDesired, bind, ret.
  destruct (bolt_get desiredBucket name d) as [[o|e] d1] eqn:E; intros [= <- <-].
  - pose proof (get_same _ _ _ _ _ E) as Hs. apply get_ok in E as ->. split.
    + split; [done|]. intros k. unfold desired_at. rewrite Hs. apply Hm.
    + intros b [= <-]. specialize (Hm name). unfold desired_at in Hm. rewrite Hm.
      by destruct (m !! name).
  - split; [|done]. split; [done|]. intros k. unfold desired_at.
    rewrite (get_same _ _ _ _ _ E). apply Hm.
Qed.
End laws.

(** ** Dropping some of the records *)

Section store_lemmas.
Context {DB : Type} `{!Bolt DB json, !BoltLaws DB json}.

(** A store whose reads and deletions do not fail. *)
Definition reliable : Prop :=
  (forall k (db : DB) e db', bolt_delete desiredBucket k db <> (Err e, db')) /\
  (forall (db : DB) e db', bolt_entries desiredBucket db <> (Err e, db')).

(** Deleting the names [doomed] picks out, ignoring failures. *)
Lemma delete_each_holds (doomed : string * ContainerSpec -> bool) all (db : DB) m :
  holds db m ->
  let '(r, db') := for_each all (fun ns =>
    if doomed ns then bind (attempt (DeleteDesired ns.1)) (fun _ => ret tt) else ret tt) db in
  r = Ok tt /\ exists m', holds db' m' /\ m' ⊆ m /\
    (forall n, (forall x, (n, x) ∈ all -> doomed (n, x) = false) -> m' !! n = m !! n) /\
    (reliable -> forall n x, (n, x) ∈ all -> doomed (n, x) = true -> m' !! n = None).
Proof.
  revert db m. induction all as [|[n x] all IH]; intros db m Hm; cbn [for_each].
  { split; [done|]. exists m. split_and!; try done. by intros _ n x ?%not_elem_of_nil. }
  unfold bind at 1. destruct (doomed (n, x)) eqn:Ed.
  - unfold bind, attempt. cbn. destruct (DeleteDesired n db) as [r db1] eqn:E. cbn.
    apply (DeleteDesired_holds _ _ _ _ _ Hm) in E as Hm1.
    specialize (IH db1 _ Hm1). destruct (for_each all _ db1) as [r' db2].
    destruct IH as [-> (m' & Hm' & Hsub & Hkeep & Hgone)]. split; [done|]. exists m'.
    assert (Hsub1 : match r with Ok _ => delete n m | Err _ => m end ⊆ m)
      by (destruct r; [apply delete_subseteq|done]).
    split_and!; [done|by etrans| |].
    + intros k Hk. rewrite Hkeep by (intros y Hy; apply Hk; by right).
      destruct r; [|done]. rewrite lookup_delete_ne; [done|]. intros ->.
      specialize (Hk x). rewrite Hk in Ed; [done|left].
    + intros Hr k y [[= -> ->]|Hin]%elem_of_cons Hd; [|by eapply Hgone].
      destruct r as [[]|e]; [|by destruct (proj1 Hr _ _ _ _ E)].
      destruct (m' !! n) as [z|] eqn:Ez; [|done].
      eapply lookup_weaken in Ez; [|exact Hsub]. by rewrite lookup_delete_eq in Ez.
  - cbn. specialize (IH db m Hm). destruct (for_each all _ db) as [r' db2].
    destruct IH as [-> (m' & Hm' & Hsub & Hkeep & Hgone)]. split; [done|]. exists m'.
    split_and!; [done|done| |].
    + intros k Hk. apply Hkeep. intros y Hy. apply Hk. by right.
    + intros Hr k y [[= -> ->]|Hin]%elem_of_cons Hd; [congruence|by eapply Hgone].
Qed.
End store_lemmas.
