(* ===== verification/Daemon.v ===== *)
(** * An in-memory daemon

    A concrete instance of every interface the container components use, for
    running them on concrete inputs: containers live in a list, ids are
    numbered, [wait] advances the clock, and the probe of an address succeeds
    from a given moment on. *)

From S2P Require Import Prelude GoStrings Json Apply Spec Docker Secrets Rollout Store.

Local Open Scope string_scope.

Record daemon := mkDaemon {
  dm_containers : list ContainerState;
  dm_next : Z;
  dm_now : Z;
  dm_healthy_at : Z;      (* probes succeed from here on *)
  dm_images : list ImageSummary;
}.

Definition with_containers (l : list ContainerState) (d : daemon) : daemon :=
  mkDaemon l (dm_next d) (dm_now d) (dm_healthy_at d) (dm_images d).

Definition is_container (n : string) (c : ContainerState) : bool :=
  String.eqb (Name c) n || String.eqb (ID c) n.

Definition new_container (name : string) (body : json) (id : string) : ContainerState :=
  mkContainerState id name (default "" (dec_str (jfield body "Image"))) false 0 ""
    (default ∅ (dec_map (jfield body "Labels"))).

Definition set_running (b : bool) (c : ContainerState) : ContainerState :=
  mkContainerState (ID c) (Name c) (Image c) b (if b then 7%Z else 0%Z)
    (if b then "10.0.0.2" else "") (Labels c).

Definition with_container (id : string) (f : ContainerState -> ContainerState) (d : daemon) : daemon :=
  with_containers (map (fun c => if is_container id c then f c else c) (dm_containers d)) d.

#[export] Instance daemon_docker : rolloutDocker daemon := {
  ContainerList d := (Ok (dm_containers d), d);
  ContainerInspect n d := (Ok (List.find (is_container n) (dm_containers d)), d);
  ContainerCreate n body d :=
    if existsb (is_container n) (dm_containers d)
    then (Err "docker api 409: name already in use", d)
    else let id := "c" +:+ dec (dm_next d) in
         (Ok id, mkDaemon (dm_containers d ++ [new_container n body id]) (dm_next d + 1) (dm_now d)
                   (dm_healthy_at d) (dm_images d));
  ContainerStart id d := (Ok tt, with_container id (set_running true) d);
  ContainerStop id _ d := (Ok tt, with_container id (set_running false) d);
  ContainerRemove id _ d :=
    (Ok tt, with_containers (List.filter (fun c => negb (is_container id c)) (dm_containers d)) d);
  ContainerLogTail _ _ d := (Ok ["boom"], d);
}.

#[export] Instance daemon_clock : Clock daemon := {
  clock := dm_now;
  wait n d := (Ok tt, mkDaemon (dm_containers d) (dm_next d) (dm_now d + n) (dm_healthy_at d) (dm_images d));
}.

#[export] Instance daemon_prober : Prober daemon := fun _ _ d =>
  (if (dm_healthy_at d <=? dm_now d)%Z then Ok tt else Err "connection refused", d).

#[export] Instance daemon_files : FileSystem daemon := {
  MkdirAll _ _ d := (Ok tt, d);
  Statfs _ d := (Ok tmpfsMagic, d);
  WriteFile _ _ _ d := (Ok tt, d);
}.

#[export] Instance daemon_env : ApplyEnv daemon := {
  env_now := dm_now;
  env_cancelled _ := false;
}.

#[export] Instance daemon_images_ops : imageRetainer daemon := {
  ImageList _ d := (Ok (dm_images d), d);
  ImageRemove t _ d := (Ok tt, mkDaemon (dm_containers d) (dm_next d) (dm_now d) (dm_healthy_at d)
    (List.filter (fun im => negb (bool_decide (t ∈ RepoTags im))) (dm_images d)));
}.

#[export, program] Instance daemon_range : RangeOrder daemon := { range_map A _ m := map_to_list m }.
Next Obligation. done. Qed.

#[export] Instance daemon_digest : Digest := fun v =>
  default "" (dec_str (jfield v "name")) +:+ "@" +:+ default "" (dec_str (jfield v "image")).

#[export] Instance daemon_clock_laws : ClockLaws daemon.
Proof.
  constructor.
  - intros d w w' [= <-]. cbn. lia.
  - by intros n w r w' [= _ <-].
  - by intros ip p w r w' [= _ <-].
Qed.

Definition demo_probe : HealthProbe := mkHealthProbe "tcp" "" 80 1 10.

Definition demo_container (id name rid : string) (run : bool) : ContainerState :=
  set_running run (mkContainerState id name "img:1" run 0 "" {[LabelResourceID := rid]}).

Definition demo_daemon : daemon :=
  mkDaemon [demo_container "c1" "web" "r1" true; demo_container "c2" "old" "r2" true]
    3 0 (4 * Second) [].

(** The gate opens in the round after the fourth wait. *)
Example demo_gate :
  let '(r, d) := gateHealthy "web" demo_probe demo_daemon in r = Ok tt /\ dm_now d = (4 * Second)%Z.
Proof. vm_compute. split; reflexivity. Qed.

Lemma gateHealthy_spec_witness :
  let r := gateHealthy "web" demo_probe demo_daemon in
  is_ok r.1 = true /\
  polls "web" demo_probe (gate_interval demo_probe) (gate_timeout demo_probe)
    (clock demo_daemon + gate_timeout demo_probe) demo_daemon r.1 r.2.
Proof.
  cbv zeta. split; [vm_compute; reflexivity|].
  destruct (gateHealthy "web" demo_probe demo_daemon) as [r d] eqn:E. cbn [fst snd].
  exact (proj1 (gateHealthy_spec "web" demo_probe demo_daemon r d) E).
Defined.
