(* ===== verification/Driver.v ===== *)
(** * The Docker driver: the container op handlers

    Models [agent/internal/container/driver.go] and the rollout handlers of
    [rollout.go].  A handler runs over the driver's rate limiter, its
    desired-state store and the world with the daemon in it.  The driver's
    mutex is not a definition: every handler below is one critical section. *)

From Stdlib Require Import SpecFloat Ascii.
From stdpp Require Import sorting.
From S2P Require Import Prelude GoStrings Json Dsd Bolt Apply Spec Policy Docker Secrets Rollout Limiter Store Daemon.

Local Open Scope string_scope.
Local Open Scope io_scope.

(** The state a handler can change. *)
Record host (DB W : Type) := mkHost { h_limiter : rateLimiter; h_store : DB; h_world : W }.
Arguments mkHost {DB W} _ _ _.
Arguments h_limiter {DB W} _.
Arguments h_store {DB W} _.
Arguments h_world {DB W} _.

Record Driver (W : Type) := mkDriver {
  d_allowlist : ImageAllowlist;
  d_secrets : option (SecretFetcher W);
  d_startup : option (startupSink W);
  d_registry : option (io W RegistryAuth);
  d_serverID : string;
}.
Arguments mkDriver {W} _ _ _ _ _.
Arguments d_allowlist {W} _.
Arguments d_secrets {W} _.
Arguments d_startup {W} _.
Arguments d_registry {W} _.
Arguments d_serverID {W} _.

Definition NewDriver {W} (fetcher : option (SecretFetcher W)) : Driver W :=
  mkDriver (mkImageAllowlist false []) fetcher None None "".
Definition SetServerID {W} (id : string) (d : Driver W) : Driver W :=
  mkDriver (d_allowlist d) (d_secrets d) (d_startup d) (d_registry d) id.
Definition SetStartupLogSink {W} (sink : startupSink W) (d : Driver W) : Driver W :=
  mkDriver (d_allowlist d) (d_secrets d) (Some sink) (d_registry d) (d_serverID d).
Definition SetRegistryFetcher {W} (f : io W RegistryAuth) (d : Driver W) : Driver W :=
  mkDriver (d_allowlist d) (d_secrets d) (d_startup d) (Some f) (d_serverID d).

(** ** The create body *)

(** Insert every pair, later ones over earlier ones. *)
Definition over {A} (m m' : gmap string A) : gmap string A := m' ∪ m.

Definition managedLabels (serverID resourceID : string) : gmap string string :=
  let l := <[LabelResourceID := resourceID]> (<[LabelManaged := "true"]> ∅) in
  if String.eqb serverID "" then l else <[LabelServerID := serverID]> l.

Definition body_labels (serverID : string) (spec : ContainerSpec) (specHash : string) : gmap string string :=
  let labels := over (cs_Labels spec) (managedLabels serverID (cs_ResourceID spec)) in
  let labels := <[LabelSpecHash := specHash]> labels in
  if String.eqb (cs_Service spec) "" then labels else <[LabelService := cs_Service spec]> labels.

Definition body_env (spec : ContainerSpec) : list string :=
  sort_strings (map (fun kv => kv.1 +:+ "=" +:+ kv.2) (map_to_list (cs_Env spec))).

Definition port_key (p : PortMapping) : string :=
  dec (pm_Container p) +:+ "/" +:+ (if String.eqb (pm_Protocol p) "" then "tcp" else pm_Protocol p).

(** The bindings of the published ports, by key. *)
Definition port_binding (p : PortMapping) : gmap string string :=
  let b := <["HostPort" := dec (pm_Host p)]> ∅ in
  if String.eqb (pm_HostIP p) "" then b else <["HostIp" := pm_HostIP p]> b.

Definition exposed_ports (ports : list PortMapping) : gset string :=
  list_to_set (map port_key ports).

Definition port_bindings (ports : list PortMapping) : gmap string (gmap string string) :=
  fold_left (fun m p => if (0 <? pm_Host p)%Z then <[port_key p := port_binding p]> m else m) ports ∅.

Definition body_bind (v : VolumeMount) : string :=
  vm_Name v +:+ ":" +:+ vm_MountPath v +:+ ":" +:+ (if vm_ReadOnly v then "ro" else "rw").

Definition body_binds (vols : list VolumeMount) : list string := sort_strings (map body_bind vols).

Definition securityOpt : list string := ["no-new-privileges:true"; "apparmor=docker-default"].

(** [int64(f)]: truncation towards zero of a value in range. *)
Definition trunc_int64 (f : spec_float) : Z :=
  match f with
  | S754_finite s m e =>
      let v := if (0 <=? e)%Z then (Zpos m * 2 ^ e)%Z else (Zpos m / 2 ^ (- e))%Z in
      if s then (- v)%Z else v
  | _ => 0%Z
  end.

(** A JSON object with sorted keys, as [json.Marshal] writes a map. *)
Definition enc_gmap {A} (enc : A -> json) (m : gmap string A) : json :=
  JObj (map (fun k => (k, from_option enc JNull (m !! k))) (sort_strings (map fst (map_to_list m)))).

Definition enc_strings (l : list string) : json := JArr (map JStr l).
Definition enc_set (s : gset string) : json :=
  JObj (map (fun k => (k, JObj [])) (sort_strings (elements s))).

Definition when (b : bool) (v : json) : option json := if b then Some v else None.

Definition device_requests (gpus : Z) : json :=
  JArr [JObj [("Capabilities", JArr [enc_strings ["gpu"]]);
              ("Count", JInt (if (gpus <? 0)%Z then -1 else gpus)%Z); ("Driver", JStr "nvidia")]].

(** [hostConfig] *)
Definition host_config (spec : ContainerSpec) : fields :=
  [("Binds", keep (enc_strings (body_binds (cs_Volumes spec))));
   ("DeviceRequests", when (negb (cs_GPUs spec =? 0)%Z) (device_requests (cs_GPUs spec)));
   ("Memory", when (0 <? cs_MemoryMB spec)%Z (JInt (wrap64 (wrap64 (cs_MemoryMB spec * 1024) * 1024))));
   ("NanoCpus", when (SFltb (S754_zero false) (cs_CPUs spec))
                  (JInt (trunc_int64 (f64_mul (cs_CPUs spec) (float_of_Z 1000000000)))));
   ("NetworkMode", keep (JStr (cs_Network spec)));
   ("PortBindings", keep (enc_gmap (fun b => JArr [enc_map b]) (port_bindings (cs_Ports spec))));
   ("Privileged", keep (JBool false));
   ("ReadonlyRootfs", keep (JBool (cs_ReadOnlyRootfs spec)));
   ("RestartPolicy", keep (JObj [("Name", JStr (if String.eqb (cs_Restart spec) ""
                                                then "unless-stopped" else cs_Restart spec))]));
   ("SecurityOpt", keep (enc_strings securityOpt));
   ("ShmSize", when (0 <? cs_ShmSizeMB spec)%Z (JInt (wrap64 (wrap64 (cs_ShmSizeMB spec * 1024) * 1024))));
   ("Tmpfs", when (negb (bool_decide (cs_Tmpfs spec = [])))
               (enc_gmap JStr (list_to_map (map (fun p => (p, "")) (cs_Tmpfs spec)))))].

Definition buildCreateBody (serverID : string) (spec : ContainerSpec) (specHash : string) : json :=
  JStruct
  [("Cmd", omit_list JStr (cs_Command spec));
   ("Env", keep (enc_strings (body_env spec)));
   ("ExposedPorts", keep (enc_set (exposed_ports (cs_Ports spec))));
   ("HostConfig", keep (JStruct (host_config spec)));
   ("Image", keep (JStr (cs_Image spec)));
   ("Labels", keep (enc_map (body_labels serverID spec specHash)));
   ("NetworkingConfig",
      when (negb (bool_decide (cs_NetworkAliases spec = [])) && negb (String.eqb (cs_Network spec) ""))
        (JObj [("EndpointsConfig", JObj [(cs_Network spec,
           JObj [("Aliases", enc_strings (cs_NetworkAliases spec))])])]));
   ("User", omit_str (cs_User spec))].

(** ** Convergence *)

Definition terminalRestart (policy : string) : bool :=
  String.eqb policy "no" || String.eqb policy "on-failure".

Definition converged `{Digest} (spec : ContainerSpec) (cur : option ContainerState) : bool :=
  match cur with
  | None => false
  | Some c =>
      if negb (String.eqb (label (Labels c) LabelSpecHash) (SpecHash spec)) then false
      else if Running c then true else terminalRestart (cs_Restart spec)
  end.

Section driver.
Context {DB W : Type} `{!Bolt DB json, !rolloutDocker W, !imageRetainer W, !dockerObjects W,
  !FileSystem W, !Clock W, !Prober W, !RangeOrder W, dig : Digest}.
Implicit Types (d : Driver W).

Local Abbreviation hio := (io (host DB W)).

Definition on_host {A} (m : io W A) : hio A := fun s =>
  let '(r, w) := m (h_world s) in (r, mkHost (h_limiter s) (h_store s) w).
Definition on_store {A} (m : io DB A) : hio A := fun s =>
  let '(r, db) := m (h_store s) in (r, mkHost (h_limiter s) db (h_world s)).

Definition throttle : hio unit := fun s =>
  let '(ok, l) := allow (clock (h_world s)) (h_limiter s) in
  (if ok then Ok tt else Err "rate limited: too many container ops; will retry on next resync",
   mkHost l (h_store s) (h_world s)).

(** [if err := c; err != nil { return err }] *)
Definition deny (c : check) : hio unit :=
  match c with Some e => fail (PolicyError_Error e) | None => ret tt end.

Definition decode {A} (what : string) (o : option A) : hio A :=
  wrapping ("decode " +:+ what +:+ " spec: ") (lift (unmarshal o)).

Definition opNetworkEnsure (op : Op) : hio unit :=
  throttle ;;
  spec <- decode "network" (dec_network (op_Spec op)) ;;
  exists_ <- on_host (NetworkExists (ns_Name spec)) ;;
  if exists_ : bool then ret tt
  else on_host (NetworkCreate (ns_Name spec) (<[LabelManaged := "true"]> ∅)).

Definition opVolumeEnsure (d : Driver W) (op : Op) : hio unit :=
  throttle ;;
  spec <- decode "volume" (dec_volume_spec (op_Spec op)) ;;
  cur <- on_host (VolumeInspect (vs_Name spec)) ;;
  match cur with
  | Some _ => ret tt
  | None => on_host (VolumeCreate (vs_Name spec) (managedLabels (d_serverID d) (vs_ResourceID spec)))
  end.

Definition opImagePull (d : Driver W) (op : Op) : hio unit :=
  throttle ;;
  spec <- decode "image" (dec_image (op_Spec op)) ;;
  deny (allowlist_Check (d_allowlist d) (is_Image spec)) ;;
  auth <- (if String.eqb (is_RegistryHost spec) "" then ret (mkRegistryAuth "" "" "")
           else match d_registry d with
                | None => fail ("pull from " +:+ is_RegistryHost spec +:+
                    " needs a registry credential and this agent has no way to fetch one")
                | Some f =>
                    got <- wrapping ("resolve registry credential for " +:+ is_RegistryHost spec +:+ ": ")
                             (on_host f) ;;
                    ret (if String.eqb (ra_Host got) ""
                         then mkRegistryAuth (is_RegistryHost spec) (ra_Username got) (ra_Password got)
                         else got)
                end) ;;
  on_host (ImagePullAuth (is_Image spec) auth).

Definition removeQuietly (id : string) : io W unit :=
  _ <- attempt (ContainerRemove id true) ;; ret tt.

(** The part of [converge] that seeds file secrets into a started container. *)
Definition converge_seed (name id : string) (fileSecrets : list Secret) : io W unit :=
  match fileSecrets with
  | [] => ret tt
  | _ =>
      cur <- attempt (ContainerInspect id) ;;
      match cur with
      | Err e => removeQuietly id ;; fail ("inspect for secret seeding: " +:+ e)
      | Ok cur =>
          let live := match cur with Some c => Running c && (0 <? Pid c)%Z | None => false end in
          if negb live then
            removeQuietly id ;;
            fail ("container " +:+ quote name +:+
                  " not running after start; refusing to seed secrets to disk")
          else
            seeded <- attempt (writeFileSecrets (from_option Pid 0%Z cur) fileSecrets) ;;
            match seeded with
            | Err e => removeQuietly id ;; fail ("seed secret files: " +:+ e)
            | Ok _ => ret tt
            end
      end
  end.

Definition converge d (spec : ContainerSpec) : io W unit :=
  cur <- ContainerInspect (cs_Name spec) ;;
  if converged spec cur then ret tt
  else
    r <- resolveSecrets missing_converge (d_secrets d) spec ;;
    let '(effective, fileSecrets) := r in
    _ <- match cur with
         | Some c => wrapping "remove stale container: " (ContainerRemove (ID c) true)
         | None => ret tt
         end ;;
    id <- wrapping "create container: " (ContainerCreate (cs_Name spec)
            (buildCreateBody (d_serverID d) effective (SpecHash spec))) ;;
    _ <- wrapping "start container: " (ContainerStart id) ;;
    converge_seed (cs_Name spec) id fileSecrets.

Definition opContainerApply d (op : Op) : hio unit :=
  throttle ;;
  spec <- decode "container" (dec_spec (op_Spec op)) ;;
  deny (CheckPolicy spec) ;;
  _ <- on_host (converge d spec) ;;
  on_store (PutDesired (cs_Name spec) spec).

Definition opVolumeRemove (op : Op) : hio unit :=
  throttle ;;
  spec <- decode "volume" (dec_volume_spec (op_Spec op)) ;;
  cur <- on_host (VolumeInspect (vs_Name spec)) ;;
  match cur with
  | None => ret tt
  | Some labels =>
      if negb (String.eqb (label labels LabelManaged) "true") then
        fail (PolicyError_Error (mkPolicyError "volume-unmanaged"
                ("refusing to remove unmanaged volume " +:+ quote (vs_Name spec))))
      else on_host (VolumeRemove (vs_Name spec) true)
  end.

(** ** Rollout handlers *)

(** Drop the desired records of the older generations. *)
Definition prune_generations (genSpec : ContainerSpec) (all : list (string * ContainerSpec)) : io DB unit :=
  for_each all (fun ns =>
    if negb (String.eqb ns.1 (cs_Name genSpec)) &&
       String.eqb (cs_ResourceID ns.2) (cs_ResourceID genSpec) &&
       String.eqb (cs_Service ns.2) (cs_Service genSpec)
    then _ <- attempt (DeleteDesired ns.1) ;; ret tt
    else ret tt).

Definition persistRolloutGeneration (genSpec : ContainerSpec) : hio unit := fun s =>
  (all <- attempt (on_store AllDesired) ;;
   _ <- match all with
        | Err _ => ret tt
        | Ok all => on_store (prune_generations genSpec (range_map (h_world s) all))
        end ;;
   on_store (PutDesired (cs_Name genSpec) genSpec)) s.

(** What [opRollout] and [opRecreate] do once the spec is decoded and policed. *)
Definition swap_rest d
    (perform : RolloutSpec -> json -> string -> option (string -> io W unit) -> option (startupSink W) -> io W unit)
    (spec : RolloutSpec) : hio unit :=
  r <- on_host (resolveSecrets missing_rollout (d_secrets d) (rs_Container spec)) ;;
  let '(effective, fileSecrets) := r in
  let genSpec := with_name (rolloutName (cs_Name (rs_Container spec)) (rs_Generation spec)) (rs_Container spec) in
  let hash := SpecHash genSpec in
  let body := buildCreateBody (d_serverID d) effective hash in
  _ <- on_host (perform spec body hash (Some (seedSecrets fileSecrets)) (d_startup d)) ;;
  _ <- attempt (persistRolloutGeneration genSpec) ;;
  inUse <- on_host (inUseImages (cs_ResourceID (rs_Container spec)) (cs_Image (rs_Container spec))) ;;
  on_host (retainImages (imageRepoPrefix (cs_Image (rs_Container spec))) defaultImageRetention inUse).

Definition op_swap d (what : string)
    (perform : RolloutSpec -> json -> string -> option (string -> io W unit) -> option (startupSink W) -> io W unit)
    (op : Op) : hio unit :=
  throttle ;;
  spec <- decode what (dec_rollout (op_Spec op)) ;;
  deny (CheckPolicy (rs_Container spec)) ;;
  swap_rest d perform spec.

Definition opRollout d (op : Op) : hio unit := op_swap d "rollout" performRollout op.
Definition opRecreate d (op : Op) : hio unit := op_swap d "recreate" performRecreate op.
End driver.

Section runs.
Context {DB W A : Type}.
Implicit Types (s : host DB W).

Lemma on_store_run (m : io DB A) s r db :
  m (h_store s) = (r, db) -> on_store m s = (r, mkHost (h_limiter s) db (h_world s)).
Proof. unfold on_store. by intros ->. Qed.

Lemma on_host_run (m : io W A) s r w :
  m (h_world s) = (r, w) -> on_host m s = (r, mkHost (h_limiter s) (h_store s) w).
Proof. unfold on_host. by intros ->. Qed.
End runs.

(** ** Isolation of what is created *)

(** The part of a bind before its first colon is the volume, and no path. *)
Lemma bind_source_managed n rest : managed_name n ->
  exists src r, cut (n +:+ String ":"%char rest) ":"%char = Some (src, r) /\ managed_name src.
Proof.
  intros [(t & Ht) Hs Hb Hd].
  destruct (cut (n +:+ String ":"%char rest) ":"%char) as [[src r]|] eqn:E.
  - exists src, r. split; [done|]. apply cut_spec in E as [E Hc].
    destruct (prefix_before_char src ":"%char (String ":"%char r) n rest) as (x & Hx); [done..|].
    assert (managedNamePrefix +:+ (t +:+ String ":"%char rest) = src +:+ String ":"%char r) as E'.
    { by rewrite <- app_assoc_str, <- Ht. }
    destruct (prefix_before_char managedNamePrefix ":"%char _ _ _ E') as (y & Hy); [done|].
    rewrite Hx, has_char_app in Hs. rewrite Hx, has_char_app in Hb.
    apply orb_false_iff in Hs as [Hs _]. apply orb_false_iff in Hb as [Hb _].
    split; [by exists y|done|done|]. intros a b ->. apply (Hd a (b +:+ x)).
    by rewrite Hx, !app_assoc_str.
  - exfalso. assert (has_char (n +:+ String ":"%char rest) ":"%char = true) as Hh.
    { apply has_char_spec. eauto. }
    assert (forall s, cut s ":"%char = None -> has_char s ":"%char = false) as Hn.
    { induction s as [|a s IH]; cbn; [done|]. destruct (Ascii.eqb a ":"); [done|].
      destruct (cut s ":"%char) as [[]|]; [done|auto]. }
    by rewrite (Hn _ E) in Hh.
Qed.

Lemma permitted_with_env env spec : permitted spec -> permitted (with_env env spec).
Proof. destruct spec. intros []. constructor; done. Qed.

Definition host_config_keys : list string :=
  ["Binds"; "DeviceRequests"; "Memory"; "NanoCpus"; "NetworkMode"; "PortBindings"; "Privileged";
   "ReadonlyRootfs"; "RestartPolicy"; "SecurityOpt"; "ShmSize"; "Tmpfs"].

(** What the body of a create call asks the daemon for. *)
Record isolated (body : json) : Prop := {
  iso_host : exists hc, jfield body "HostConfig" = Some (JObj hc) /\
    (forall k, k ∈ hc.*1 -> k ∈ host_config_keys) /\
    jget hc "Privileged" = Some (JBool false) /\
    jget hc "SecurityOpt" = Some (enc_strings ["no-new-privileges:true"; "apparmor=docker-default"]) /\
    (exists n, jget hc "NetworkMode" = Some (JStr n) /\ (n = "none" \/ managed_name n)) /\
    (exists bs, jget hc "Binds" = Some (enc_strings bs) /\
       forall b, b ∈ bs -> exists src rest, cut b ":"%char = Some (src, rest) /\ managed_name src);
  iso_image : exists img, jfield body "Image" = Some (JStr img) /\ pinned img;
}.

Lemma create_body_isolated_gen sid spec hash : permitted spec -> isolated (buildCreateBody sid spec hash).
Proof.
  intros Hp. constructor.
  - exists (omit (host_config spec)). split_and!.
    + unfold buildCreateBody, JStruct, jfield. eval_fields. reflexivity.
    + intros k Hk. apply omit_keys in Hk. exact Hk.
    + unfold host_config. eval_fields. reflexivity.
    + unfold host_config. eval_fields. reflexivity.
    + exists (cs_Network spec). split; [unfold host_config; eval_fields; reflexivity|]. apply Hp.
    + exists (body_binds (cs_Volumes spec)). split; [unfold host_config; eval_fields; reflexivity|].
      intros b. unfold body_binds, sort_strings. rewrite merge_sort_Permutation.
      rewrite list_elem_of_fmap. intros (v & -> & Hv). unfold body_bind.
      apply (bind_source_managed (vm_Name v)), (p_volumes _ Hp _ Hv).
  - exists (cs_Image spec). split; [|apply Hp].
    unfold buildCreateBody, JStruct, jfield. eval_fields. reflexivity.
Qed.

(** Whatever the control plane signed, a spec the policy admits is created
    isolated, with any secrets in its environment: never privileged, under the
    pinned security options, on no network or a managed one, every bind source
    a managed volume and no host path, no other host setting than the twelve
    the agent knows, and from a pinned image. *)
Theorem create_body_isolated sid spec env hash :
  CheckPolicy spec = None -> isolated (buildCreateBody sid (with_env env spec) hash).
Proof.
  intros H. apply create_body_isolated_gen, permitted_with_env. by apply CheckPolicy_permitted.
Qed.

Lemma create_body_isolated_witness :
  CheckPolicy demo_spec = None /\ isolated (buildCreateBody "srv" (with_env ∅ demo_spec) "h").
Proof.
  assert (H : CheckPolicy demo_spec = None) by (vm_compute; reflexivity).
  split; [exact H|exact (create_body_isolated "srv" demo_spec ∅ "h" H)].
Defined.

(** The managed labels win over the caller's. *)
Lemma body_labels_managed sid spec hash :
  let l := body_labels sid spec hash in
  l !! LabelManaged = Some "true" /\ l !! LabelResourceID = Some (cs_ResourceID spec) /\
  l !! LabelSpecHash = Some hash /\ (sid <> "" -> l !! LabelServerID = Some sid) /\
  (cs_Service spec <> "" -> l !! LabelService = Some (cs_Service spec)).
Proof.
  cbv zeta. unfold body_labels, managedLabels, over.
  destruct (String.eqb_spec (cs_Service spec) ""), (String.eqb_spec sid "");
    split_and!; intros; try done;
    repeat first [rewrite lookup_insert_eq; reflexivity | rewrite lookup_insert_ne by done
                 | apply lookup_union_Some_l].
Qed.

(** What the daemon will report of a created container's labels. *)
Lemma body_labels_decoded sid spec hash :
  dec_map (jfield (buildCreateBody sid spec hash) "Labels") = Some (body_labels sid spec hash).
Proof. unfold buildCreateBody, JStruct, jfield. eval_fields. apply dec_enc_map. Qed.

(** ** The handlers *)

Section handlers.
Context {DB W : Type} `{!Bolt DB json, !BoltLaws DB json, !rolloutDocker W, !imageRetainer W,
  !dockerObjects W, !FileSystem W, !Clock W, !Prober W, !RangeOrder W, dig : Digest}.
Implicit Types (d : Driver W) (s : host DB W).

Lemma throttle_run s :
  exists r l, throttle s = (r, mkHost l (h_store s) (h_world s)).
Proof. unfold throttle. destruct (allow _ _) as [b l]. destruct b; eauto. Qed.

(** The prologue of a handler that applies a policed spec: throttle, decode,
    police; only then does the rest run. *)
Definition policed {A} (what : string) (o : option A) (spec_of : A -> ContainerSpec)
    (rest : A -> io (host DB W) unit) : io (host DB W) unit :=
  bind throttle (fun _ => bind (decode what o) (fun x =>
  bind (deny (CheckPolicy (spec_of x))) (fun _ => rest x))).

Lemma policed_run {A} what (o : option A) spec_of rest s :
  (exists e l, policed what o spec_of rest s = (Err e, mkHost l (h_store s) (h_world s))) \/
  (exists x l, o = Some x /\ permitted (spec_of x) /\
     policed what o spec_of rest s = rest x (mkHost l (h_store s) (h_world s))).
Proof.
  unfold policed. destruct (throttle_run s) as (r & l & E). destruct r as [[]|e].
  2:{ left. exists e, l. unfold bind. by rewrite E. }
  rewrite (bind_run _ _ _ _ _ E). destruct o as [x|]; [|left; eexists _, l; reflexivity].
  unfold bind, decode, wrapping, lift. cbn.
  destruct (CheckPolicy (spec_of x)) as [e|] eqn:Ec; [left; eexists _, l; reflexivity|].
  right. exists x, l. split_and!; [done|by apply CheckPolicy_permitted|done].
Qed.

(** The container an op asks for. *)
Definition wants_container (op : Op) (spec : ContainerSpec) : Prop :=
  dec_spec (op_Spec op) = Some spec \/ rs_Container <$> dec_rollout (op_Spec op) = Some spec.


(** A container is recorded as desired only after it converged: on success
    the store gains exactly the op's spec, with its secret references and not
    their values; on any failure it is unchanged. *)
Theorem opContainerApply_spec d op s m r s' :
  holds (h_store s) m -> (forall spec, dec_spec (op_Spec op) = Some spec -> spec_wf spec) ->
  opContainerApply d op s = (r, s') ->
  match r with
  | Err _ => holds (h_store s') m
  | Ok _ => exists spec, dec_spec (op_Spec op) = Some spec /\ permitted spec /\
      converge d spec (h_world s) = (Ok tt, h_world s') /\
      holds (h_store s') (<[cs_Name spec := spec]> m)
  end.
Proof.
  intros Hm Hwf E.
  destruct (policed_run "container" (dec_spec (op_Spec op)) id
    (fun spec => bind (on_host (converge d spec)) (fun _ => on_store (PutDesired (cs_Name spec) spec))) s)
    as [(e & l & E1)|(spec & l & Ed & Hp & E1)].
  { change (opContainerApply d op s = (Err e, mkHost l (h_store s) (h_world s))) in E1.
    rewrite E1 in E. by injection E as <- <-. }
  change (opContainerApply d op s = bind (on_host (converge d spec))
    (fun _ => on_store (PutDesired (cs_Name spec) spec)) (mkHost l (h_store s) (h_world s))) in E1.
  rewrite E1 in E. clear E1. unfold bind, on_host in E. cbn in E.
  destruct (converge d spec (h_world s)) as [[[]|e] w] eqn:Ec; [|by injection E as <- <-].
  unfold on_store in E. cbn in E. destruct (PutDesired (cs_Name spec) spec (h_store s)) as [r1 db] eqn:Ep.
  injection E as <- <-. apply (PutDesired_holds _ _ _ _ _ _ Hm (Hwf _ Ed)) in Ep.
  destruct r1 as [[]|e]; [|done]. exists spec. done.
Qed.

(** The records of a resource and service, other than one name. *)
Definition same_group (g x : ContainerSpec) : Prop :=
  cs_ResourceID x = cs_ResourceID g /\ cs_Service x = cs_Service g.

(** [m'] is [m] with the generation recorded and older ones possibly dropped. *)
Record recorded (genSpec : ContainerSpec) (m m' : gmap string ContainerSpec) : Prop := {
  rec_new : m' !! cs_Name genSpec = Some genSpec;
  rec_kept : forall n, n <> cs_Name genSpec ->
    m' !! n = m !! n \/ (m' !! n = None /\ exists x, m !! n = Some x /\ same_group genSpec x);
  rec_pruned : @reliable DB _ -> forall n x, n <> cs_Name genSpec ->
    m !! n = Some x -> same_group genSpec x -> m' !! n = None;
}.

Lemma is_same_group g x :
  String.eqb (cs_ResourceID x) (cs_ResourceID g) && String.eqb (cs_Service x) (cs_Service g) = true <->
  same_group g x.
Proof. by rewrite andb_true_iff, !String.eqb_eq. Qed.

Lemma persist_recorded genSpec s m r s' :
  holds (h_store s) m -> spec_wf genSpec -> persistRolloutGeneration genSpec s = (r, s') ->
  h_world s' = h_world s /\ h_limiter s' = h_limiter s /\
  exists m', holds (h_store s') m' /\ (r = Ok tt -> recorded genSpec m m') /\
    (is_ok r = false -> m' ⊆ m).
Proof.
  intros Hm Hwf. unfold persistRolloutGeneration.
  destruct (AllDesired (h_store s)) as [all db1] eqn:Ea.
  rewrite (bind_run _ _ _ _ _ (attempt_run _ _ _ _ (on_store_run _ _ _ _ Ea))).
  apply (AllDesired_holds _ _ _ _ Hm) in Ea as [Hm1 Hall].
  set (doomed := fun ns : string * ContainerSpec =>
    negb (String.eqb ns.1 (cs_Name genSpec)) &&
    String.eqb (cs_ResourceID ns.2) (cs_ResourceID genSpec) &&
    String.eqb (cs_Service ns.2) (cs_Service genSpec)).
  assert (exists db2 m2, holds db2 m2 /\ m2 ⊆ m /\
    (forall n, m2 !! n = m !! n \/ (m2 !! n = None /\ exists x, m !! n = Some x /\ same_group genSpec x)) /\
    (@reliable DB _ -> forall n x, n <> cs_Name genSpec ->
       m !! n = Some x -> same_group genSpec x -> m2 !! n = None) /\
    match all with
    | Err _ => ret tt
    | Ok all => on_store (prune_generations genSpec (range_map (h_world s) all))
    end (mkHost (h_limiter s) db1 (h_world s)) = (Ok tt, mkHost (h_limiter s) db2 (h_world s)))
    as (db2 & m2 & Hm2 & Hsub & Hkeep & Hgone & E2).
  { destruct all as [all|e].
    - subst all. pose proof (delete_each_holds doomed (range_map (h_world s) m) db1 m Hm1) as Hd.
      unfold on_store, prune_generations. cbn [h_store h_limiter h_world]. fold doomed.
      destruct (for_each _ _ db1) as [r1 db2]. destruct Hd as [-> (m2 & Hm2 & Hsub & Hkeep & Hgone)].
      exists db2, m2. split_and!; [done|done| | |done].
      + intros n. destruct (m !! n) as [x|] eqn:Ex.
        * destruct (doomed (n, x)) eqn:Edm.
          -- destruct (m2 !! n) as [y|] eqn:Ey; [left|right].
             ++ eapply lookup_weaken in Ey; [|exact Hsub]. congruence.
             ++ split; [done|]. exists x. split; [done|]. apply is_same_group.
                unfold doomed in Edm. cbn in Edm. rewrite <- andb_assoc in Edm. by apply andb_true_iff in Edm as [_ ?].
          -- left. rewrite <- Ex. apply Hkeep. intros y Hy. rewrite range_map_perm in Hy.
             apply elem_of_map_to_list in Hy. congruence.
        * left. destruct (m2 !! n) as [y|] eqn:Ey; [|done]. eapply lookup_weaken in Ey; [|exact Hsub]. congruence.
      + intros Hr n x Hn Ex Hg. apply (Hgone Hr n x).
        * rewrite range_map_perm. by apply elem_of_map_to_list.
        * unfold doomed. cbn. rewrite <- andb_assoc. apply andb_true_iff.
          split; [by apply negb_true_iff, String.eqb_neq|by apply is_same_group].
    - exists db1, m. split_and!; try done; [by left|]. intros [_ Hr]. by destruct (Hr _ _ _ Hall). }
  rewrite (bind_run _ _ _ _ _ E2). unfold on_store. cbn [h_store h_limiter h_world].
  destruct (PutDesired (cs_Name genSpec) genSpec db2) as [r1 db3] eqn:Ep. intros [= <- <-]. cbn.
  split_and!; [done|done|]. apply (PutDesired_holds _ _ _ _ _ _ Hm2 Hwf) in Ep.
  destruct r1 as [[]|e]; eexists; (split; [exact Ep|]).
  - split; [|done]. intros _. constructor.
    + by rewrite lookup_insert_eq.
    + intros n Hn. rewrite lookup_insert_ne by done. apply Hkeep.
    + intros Hr n x Hn Ex Hg. rewrite lookup_insert_ne by done. by eapply Hgone.
  - by split.
Qed.

(** The swap [perform] ran to success for the op, leaving the world [w2]. *)
Definition swap_ran d
    (perform : RolloutSpec -> json -> string -> option (string -> io W unit) -> option (startupSink W) -> io W unit)
    (op : Op) s (spec : RolloutSpec) (w2 : W) : Prop :=
  exists effective files w1,
    dec_rollout (op_Spec op) = Some spec /\ permitted (rs_Container spec) /\
    resolveSecrets missing_rollout (d_secrets d) (rs_Container spec) (h_world s) = (Ok (effective, files), w1) /\
    let genSpec := with_name (rolloutName (cs_Name (rs_Container spec)) (rs_Generation spec)) (rs_Container spec) in
    perform spec (buildCreateBody (d_serverID d) effective (SpecHash genSpec)) (SpecHash genSpec)
      (Some (seedSecrets files)) (d_startup d) w1 = (Ok tt, w2).

Definition swap_outcome d perform (op : Op) s m (r : res unit) s' : Prop :=
  (is_ok r = false /\ h_store s' = h_store s /\
     (is_ok (fst (throttle s)) = false \/ ~ exists spec w2, swap_ran d perform op s spec w2)) \/
  (r = Ok tt /\ exists spec w2 m', swap_ran d perform op s spec w2 /\ holds (h_store s') m' /\
     let genSpec := with_name (rolloutName (cs_Name (rs_Container spec)) (rs_Generation spec)) (rs_Container spec) in
     (recorded genSpec m m' \/ m' ⊆ m)).

Lemma op_swap_outcome d what perform op s m r s' :
  holds (h_store s) m ->
  (forall spec n, dec_rollout (op_Spec op) = Some spec -> spec_wf (with_name n (rs_Container spec))) ->
  op_swap d what perform op s = (r, s') -> swap_outcome d perform op s m r s'.
Proof.
  intros Hm Hwf E. unfold op_swap in E. destruct (throttle_run s) as (t & l & Et).
  destruct t as [[]|e].
  2:{ unfold bind in E. rewrite Et in E. injection E as <- <-. left. rewrite Et. auto. }
  rewrite (bind_run _ _ _ _ _ Et) in E. unfold bind at 1, decode, wrapping, lift in E.
  destruct (dec_rollout (op_Spec op)) as [spec|] eqn:Ed; cbn [unmarshal wrap_err] in E.
  2:{ injection E as <- <-. left. split_and!; [done..|]. right.
      intros (spec & w2 & eff & files & w1 & Ed' & _). congruence. }
  unfold bind at 1 in E. destruct (CheckPolicy (rs_Container spec)) as [pe|] eqn:Ec; cbn [deny fail] in E.
  { injection E as <- <-. left. split_and!; [done..|]. right.
    intros (spec' & w2 & eff & files & w1 & Ed' & Hp & _). rewrite Ed in Ed'. injection Ed' as <-.
    apply CheckPolicy_permitted in Hp. congruence. }
  cbn [ret] in E. apply CheckPolicy_permitted in Ec. unfold swap_rest in E.
  destruct (resolveSecrets missing_rollout (d_secrets d) (rs_Container spec) (h_world s)) as [rr w1] eqn:Er.
  destruct rr as [[effective files]|e].
  2:{ unfold bind at 1, on_host at 1 in E. cbn [h_world] in E. rewrite Er in E. injection E as <- <-.
      left. split_and!; [done..|]. right. intros (spec' & w2 & eff & fs & w1' & Ed' & _ & Er' & _).
      rewrite Ed in Ed'. injection Ed' as <-. rewrite Er in Er'. done. }
  rewrite (bind_run _ _ _ _ _ (on_host_run _ (mkHost l (h_store s) (h_world s)) _ _ Er)) in E.
  set (genSpec := with_name (rolloutName (cs_Name (rs_Container spec)) (rs_Generation spec)) (rs_Container spec)) in *.
  cbn [h_limiter h_store] in E.
  destruct (perform spec (buildCreateBody (d_serverID d) effective (SpecHash genSpec)) (SpecHash genSpec)
    (Some (seedSecrets files)) (d_startup d) w1) as [rp w2] eqn:Ep.
  destruct rp as [[]|e].
  2:{ unfold bind at 1, on_host at 1 in E. cbn [h_world] in E. rewrite Ep in E. injection E as <- <-.
      left. split_and!; [done..|]. right. intros (spec' & w2' & eff & fs & w1' & Ed' & _ & Er' & Ep').
      rewrite Ed in Ed'. injection Ed' as <-. rewrite Er in Er'. injection Er' as <- <- <-.
      cbv zeta in Ep'. fold genSpec in Ep'. by rewrite Ep in Ep'. }
  rewrite (bind_run _ _ _ _ _ (on_host_run _ (mkHost l (h_store s) w1) _ _ Ep)) in E.
  cbn [h_limiter h_store] in E.
  destruct (persistRolloutGeneration genSpec (mkHost l (h_store s) w2)) as [r3 s3] eqn:E3.
  rewrite (bind_run _ _ _ _ _ (attempt_run _ _ _ _ E3)) in E.
  destruct (persist_recorded genSpec (mkHost l (h_store s) w2) m _ _ Hm (Hwf spec _ eq_refl) E3) as (Hw & Hl & m' & Hm' & Hok & Herr).
  destruct (inUseImages_ok (cs_ResourceID (rs_Container spec)) (cs_Image (rs_Container spec)) (h_world s3))
    as (u & w4 & E4).
  rewrite (bind_run _ _ _ _ _ (on_host_run _ s3 _ _ E4)) in E.
  destruct (retainImages_ok (imageRepoPrefix (cs_Image (rs_Container spec))) defaultImageRetention u w4) as (w5 & E5).
  rewrite (on_host_run _ (mkHost (h_limiter s3) (h_store s3) w4) _ _ E5) in E. injection E as <- <-.
  right. split; [done|]. exists spec, w2, m'. split_and!; [|exact Hm'|].
  - exists effective, files, w1. split_and!; done.
  - destruct r3 as [[]|e3]; [left; by apply Hok|right; by apply Herr].
Qed.

(** A rollout (or recreate) op succeeds exactly when the swap itself did:
    what follows the swap never fails it.  A failed op leaves the desired store
    as it was; after a successful one the new generation is recorded and only
    records of the same resource and service are gone - all the older ones, when
    the store works - unless recording itself failed, which adds nothing. *)
Theorem swap_handlers_spec d op s m r s' :
  holds (h_store s) m ->
  (forall spec n, dec_rollout (op_Spec op) = Some spec -> spec_wf (with_name n (rs_Container spec))) ->
  (opRollout d op s = (r, s') -> swap_outcome d performRollout op s m r s') /\
  (opRecreate d op s = (r, s') -> swap_outcome d performRecreate op s m r s').
Proof. intros Hm Hwf. split; by apply op_swap_outcome. Qed.
End handlers.

(** ** Concrete runs *)

Definition demo_store : mem_bolt json :=
  mkMemBolt (<[(desiredBucket, "web") := enc_spec (with_name "web" demo_spec)]>
            (<[(desiredBucket, "old") := enc_spec (with_name "old" demo_spec)]> ∅)) [].
Definition demo_desired : gmap string ContainerSpec :=
  <["web" := with_name "web" demo_spec]> (<["old" := with_name "old" demo_spec]> ∅).
Lemma demo_spec_wf n : spec_wf (with_name n demo_spec).
Proof.
  constructor; cbn.
  - intros p ->%list_elem_of_singleton. split; split; vm_compute; congruence.
  - split; vm_compute; congruence.
  - split; vm_compute; congruence.
  - split; vm_compute; congruence.
  - congruence.
Qed.

Lemma demo_holds : holds demo_store demo_desired.
Proof.
  split.
  - intros n spec. unfold demo_desired. rewrite !lookup_insert_Some, lookup_empty.
    intros [[_ <-]|[_ [[_ <-]|[_ [=]]]]]; apply demo_spec_wf.
  - intros n. unfold desired_at, demo_store, demo_desired. cbn.
    destruct (decide (n = "web")) as [->|Hw]; [by rewrite !lookup_insert_eq|].
    rewrite !(lookup_insert_ne _ _ n), (lookup_insert_ne _ _ (desiredBucket, n)) by congruence.
    destruct (decide (n = "old")) as [->|Ho]; [by rewrite !lookup_insert_eq|].
    by rewrite !lookup_insert_ne by congruence.
Qed.

Definition demo_state : host (mem_bolt json) daemon := mkHost (opLimiter 0) demo_store demo_daemon.

Definition bad_spec : ContainerSpec :=
  let 'mkContainerSpec a b c d e f g h i j k l m n o p q r t u _ w x y := demo_spec in
  mkContainerSpec a b c d e f g h i j k l m n o p q r t u true w x y.
Definition bad_op : Op := mkOp "op1" KindContainerApply [] (enc_spec bad_spec).
Definition apply_demo_op : Op := mkOp "op1" KindContainerApply [] (enc_spec (with_name "new" demo_spec)).
Definition rollout_demo_op : Op :=
  mkOp "op1" KindDeployRollout []
    (enc_rollout (mkRolloutSpec (with_name "web" demo_spec) "g2" demo_probe "")).


Lemma decoded_wf (op : Op) spec0 :
  dec_spec (op_Spec op) = Some spec0 -> spec_wf spec0 ->
  forall spec, dec_spec (op_Spec op) = Some spec -> spec_wf spec.
Proof. intros E Hw spec. rewrite E. by intros [= <-]. Qed.

Lemma demo_decodes : dec_spec (op_Spec apply_demo_op) = Some (with_name "new" demo_spec).
Proof. apply dec_spec_enc, demo_spec_wf. Qed.

Lemma opContainerApply_spec_witness :
  holds (h_store demo_state) demo_desired /\
  is_ok (fst (opContainerApply (NewDriver None) apply_demo_op demo_state)) = true /\
  exists spec, dec_spec (op_Spec apply_demo_op) = Some spec /\ permitted spec.
Proof.
  split; [exact demo_holds|]. split; [vm_compute; reflexivity|].
  assert (Hok : is_ok (fst (opContainerApply (NewDriver None) apply_demo_op demo_state)) = true)
    by (vm_compute; reflexivity).
  destruct (opContainerApply (NewDriver None) apply_demo_op demo_state) as [r s'] eqn:E.
  pose proof (opContainerApply_spec (NewDriver None) apply_demo_op demo_state demo_desired r s' demo_holds
    (decoded_wf _ _ demo_decodes (demo_spec_wf "new")) E) as P.
  destruct r as [[]|e]; [|discriminate Hok].
  destruct P as (spec & Es & Hp & _). exists spec. exact (conj Es Hp).
Defined.

Lemma demo_probe_wf : probe_wf demo_probe.
Proof. constructor; split; vm_compute; congruence. Qed.

Lemma demo_rollout_wf spec n :
  dec_rollout (op_Spec rollout_demo_op) = Some spec -> spec_wf (with_name n (rs_Container spec)).
Proof.
  cbn [op_Spec rollout_demo_op]. rewrite dec_enc_rollout; [|apply demo_spec_wf|apply demo_probe_wf].
  intros [= <-]. cbn [rs_Container]. apply demo_spec_wf.
Qed.

Lemma swap_handlers_spec_witness :
  holds (h_store demo_state) demo_desired /\
  is_ok (fst (opRollout (NewDriver None) rollout_demo_op demo_state)) = true /\
  swap_outcome (NewDriver None) performRollout rollout_demo_op demo_state demo_desired
    (fst (opRollout (NewDriver None) rollout_demo_op demo_state))
    (snd (opRollout (NewDriver None) rollout_demo_op demo_state)).
Proof.
  split; [exact demo_holds|]. split; [vm_compute; reflexivity|].
  destruct (opRollout (NewDriver None) rollout_demo_op demo_state) as [r s'] eqn:E.
  exact (proj1 (swap_handlers_spec (NewDriver None) rollout_demo_op demo_state demo_desired r s'
    demo_holds demo_rollout_wf) E).
Defined.
