(* ===== verification/Gc.v ===== *)
(** * Reconciliation, garbage collection and teardown

    Models [agent/internal/container/reconcile.go] and [purge.go]: the loop
    that repairs drift from the local desired set, the removal of containers a
    document no longer describes, and the decommission teardown. *)

From Stdlib Require Import Ascii.
From S2P Require Import Prelude GoStrings Json Dsd Bolt Apply Spec Policy Docker Secrets Rollout Limiter Store Daemon Driver.

Local Open Scope string_scope.
Local Open Scope io_scope.

(** ** What a document wants *)

Definition rolloutGroupKey (resourceID service : string) : string :=
  resourceID +:+ String nul service.

(** The names one op wants kept. *)
Definition op_names (op : Op) : list string :=
  if String.eqb (op_Kind op) KindProxyTraefik then [traefikContainerName]
  else if String.eqb (op_Kind op) KindContainerApply then
    match dec_spec (op_Spec op) with
    | Some spec => if String.eqb (cs_Name spec) "" then [] else [cs_Name spec]
    | None => []
    end
  else if String.eqb (op_Kind op) KindDeployRollout || String.eqb (op_Kind op) KindDeployRecreate then
    match dec_rollout (op_Spec op) with
    | Some rs => if String.eqb (cs_Name (rs_Container rs)) "" then []
                 else [rolloutName (cs_Name (rs_Container rs)) (rs_Generation rs)]
    | None => []
    end
  else [].

Definition desiredNames (doc : Document) : gset string :=
  list_to_set (concat (map op_names (doc_Ops doc))).

(** The group a rollout or recreate op manages. *)
Definition op_rollout_group (op : Op) : list string :=
  if String.eqb (op_Kind op) KindDeployRollout || String.eqb (op_Kind op) KindDeployRecreate then
    match dec_rollout (op_Spec op) with
    | Some rs => if String.eqb (cs_ResourceID (rs_Container rs)) "" then []
                 else [rolloutGroupKey (cs_ResourceID (rs_Container rs)) (cs_Service (rs_Container rs))]
    | None => []
    end
  else [].

Definition rolloutManagedGroups (doc : Document) : gset string :=
  list_to_set (concat (map op_rollout_group (doc_Ops doc))).

(** The groups a resource.sync stub retains. *)
Definition op_retained (op : Op) : list string :=
  if negb (String.eqb (op_Kind op) KindResourceSync) then []
  else match dec_resource_sync (op_Spec op) with
       | Some stub => if String.eqb (rss_ResourceID stub) "" then []
                      else map (rolloutGroupKey (rss_ResourceID stub)) (rss_Retain stub)
       | None => []
       end.

Definition protectedGroups (doc : Document) : gset string :=
  rolloutManagedGroups doc ∪ list_to_set (concat (map op_retained (doc_Ops doc))).

Definition ownedByAnotherServer (labels : gmap string string) (serverID : string) : bool :=
  let owner := label labels LabelServerID in
  negb (String.eqb owner "") && negb (String.eqb serverID "") && negb (String.eqb owner serverID).

Definition gcReap (c : ContainerState) (want protected : gset string) (serverID : string) : bool :=
  if bool_decide (Name c ∈ want) then false
  else if ownedByAnotherServer (Labels c) serverID then false
  else let rid := label (Labels c) LabelResourceID in
       if negb (String.eqb rid "") &&
          bool_decide (rolloutGroupKey rid (label (Labels c) LabelService) ∈ protected)
       then false else true.

Section gc.
Context {DB W : Type} `{!Bolt DB json, !rolloutDocker W, !imageRetainer W, !dockerObjects W,
  !FileSystem W, !Clock W, !Prober W, !RangeOrder W, dig : Digest}.
Implicit Types (d : Driver W).
Local Abbreviation hio := (io (host DB W)).

(** ** Garbage collection *)

Definition prune_unwanted (want : gset string) (all : list (string * ContainerSpec)) : io DB unit :=
  for_each all (fun ns =>
    if negb (bool_decide (ns.1 ∈ want)) then _ <- attempt (DeleteDesired ns.1) ;; ret tt else ret tt).

Definition remove_all (reap : ContainerState -> bool) (l : list ContainerState) : io W unit :=
  for_each l (fun c =>
    if negb (reap c) then ret tt else _ <- attempt (ContainerRemove (ID c) true) ;; ret tt).

Definition GC d (doc : Document) : hio unit := fun s =>
  let want := desiredNames doc in
  (stored <- attempt (on_store AllDesired) ;;
   _ <- match stored with
        | Err _ => ret tt
        | Ok all => on_store (prune_unwanted want (range_map (h_world s) all))
        end ;;
   managed <- attempt (on_host ContainerList) ;;
   match managed with
   | Err _ => ret tt
   | Ok l => on_host (remove_all (fun c => gcReap c want (protectedGroups doc) (d_serverID d)) l)
   end) s.

(** ** Drift repair *)

Definition reconcileOne d (name : string) (spec : ContainerSpec) : hio unit :=
  still <- attempt (on_store (HasDesired name)) ;;
  match still with
  | Err _ | Ok false => ret tt
  | Ok true =>
      cur <- attempt (on_host (ContainerInspect name)) ;;
      match cur with
      | Err _ => ret tt
      | Ok cur =>
          if converged spec cur then ret tt
          else _ <- attempt (on_host (converge d spec)) ;; ret tt
      end
  end.

Fixpoint reconcile_all `{!ApplyEnv W} d (l : list (string * ContainerSpec)) : hio unit :=
  match l with
  | [] => ret tt
  | (name, spec) :: l => fun s =>
      if env_cancelled (h_world s) then (Ok tt, s)
      else (_ <- reconcileOne d name spec ;; reconcile_all d l) s
  end.

Definition Reconcile `{!ApplyEnv W} d : hio unit := fun s =>
  (desired <- attempt (on_store AllDesired) ;;
   match desired with
   | Err _ => ret tt
   | Ok m => reconcile_all d (range_map (h_world s) m)
   end) s.

(** ** Teardown *)

(** Run the action on every element and collect what failed. *)
Fixpoint collect {D A} (what : A -> string) (act : A -> io D unit) (l : list A) (errs : list string)
    : io D (list string) :=
  match l with
  | [] => ret errs
  | x :: l =>
      r <- attempt (act x) ;;
      collect what act l (match r with Err e => (errs ++ [what x +:+ ": " +:+ e])%list | Ok _ => errs end)
  end.

(** [errors.Join]: the messages on a line each. *)
Fixpoint join_lines (l : list string) : string :=
  match l with
  | [] => ""
  | [x] => x
  | x :: l => x +:+ String (ascii_of_nat 10) (join_lines l)
  end.

Definition join_errors {D} (errs : list string) : io D unit :=
  match errs with [] => ret tt | _ => fail (join_lines errs) end.

Definition RemoveManagedContainers d : hio unit := fun s =>
  (stored <- wrapping "read desired containers: " (on_store AllDesired) ;;
   errs <- on_store (collect (fun ns => "forget desired container " +:+ ns.1)
             (fun ns : string * ContainerSpec => DeleteDesired ns.1)
             (range_map (h_world s) stored) []) ;;
   managed <- attempt (on_host ContainerList) ;;
   match managed with
   | Err e => join_errors (errs ++ ["list managed containers: " +:+ e])%list
   | Ok l =>
       errs <- on_host (collect (fun c => "remove container " +:+ Name c)
                 (fun c => ContainerRemove (ID c) true)
                 (List.filter (fun c => negb (ownedByAnotherServer (Labels c) (d_serverID d))) l) errs) ;;
       join_errors errs
   end) s.

Definition RemoveManagedNetworks : io W unit :=
  nets <- wrapping "list managed networks: " ManagedNetworks ;;
  errs <- collect (fun n => "remove network " +:+ n) NetworkRemove nets [] ;;
  join_errors errs.

Definition RemoveManagedVolumes : io W unit :=
  vols <- wrapping "list managed volumes: " ManagedVolumes ;;
  errs <- collect (fun n => "remove volume " +:+ n) (fun n => VolumeRemove n true) vols [] ;;
  join_errors errs.
End gc.

(** ** Which groups a document claims *)

(** A rollout or recreate op deploys the group, or a stub retains it. *)
Inductive claims (doc : Document) (rid svc : string) : Prop :=
| claims_rollout op rs :
    op ∈ doc_Ops doc -> op_Kind op = KindDeployRollout \/ op_Kind op = KindDeployRecreate ->
    dec_rollout (op_Spec op) = Some rs ->
    cs_ResourceID (rs_Container rs) = rid -> cs_Service (rs_Container rs) = svc ->
    claims doc rid svc
| claims_retained op stub :
    op ∈ doc_Ops doc -> op_Kind op = KindResourceSync ->
    dec_resource_sync (op_Spec op) = Some stub ->
    rss_ResourceID stub = rid -> svc ∈ rss_Retain stub -> claims doc rid svc.

Lemma is_rollout_kind k :
  String.eqb k KindDeployRollout || String.eqb k KindDeployRecreate = true <->
  k = KindDeployRollout \/ k = KindDeployRecreate.
Proof. by rewrite orb_true_iff, !String.eqb_eq. Qed.

Lemma protectedGroups_spec doc key :
  key ∈ protectedGroups doc <->
  exists rid svc, rid <> "" /\ key = rolloutGroupKey rid svc /\ claims doc rid svc.
Proof.
  unfold protectedGroups, rolloutManagedGroups.
  rewrite elem_of_union, !elem_of_list_to_set, !concat_map_elem. split.
  - intros [(op & Hop & Hk)|(op & Hop & Hk)].
    + unfold op_rollout_group in Hk. destruct (_ || _) eqn:E; [|by apply not_elem_of_nil in Hk].
      apply is_rollout_kind in E. destruct (dec_rollout _) as [rs|] eqn:Ed; [|by apply not_elem_of_nil in Hk].
      destruct (String.eqb_spec (cs_ResourceID (rs_Container rs)) ""); [by apply not_elem_of_nil in Hk|].
      apply list_elem_of_singleton in Hk as ->. do 2 eexists. split_and!; [done|done|].
      by eapply claims_rollout.
    + unfold op_retained in Hk. destruct (String.eqb_spec (op_Kind op) KindResourceSync); cbn in Hk;
        [|by apply not_elem_of_nil in Hk].
      destruct (dec_resource_sync _) as [stub|] eqn:Ed; [|by apply not_elem_of_nil in Hk].
      destruct (String.eqb_spec (rss_ResourceID stub) ""); [by apply not_elem_of_nil in Hk|].
      apply list_elem_of_fmap in Hk as (svc & -> & Hs). do 2 eexists. split_and!; [done|done|].
      by eapply claims_retained.
  - intros (rid & svc & Hr & -> & [op rs Hop Hk Hd <- <-|op stub Hop Hk Hd <- Hs]).
    + left. exists op. split; [done|]. unfold op_rollout_group.
      rewrite (proj2 (is_rollout_kind _) Hk), Hd, (proj2 (String.eqb_neq _ _) Hr). left.
    + right. exists op. split; [done|]. unfold op_retained. rewrite Hk, Hd.
      rewrite (proj2 (String.eqb_neq _ _) Hr). cbn. apply list_elem_of_fmap. eauto.
Qed.

(** Ids without a NUL byte make the key unambiguous. *)
Lemma rolloutGroupKey_inj r1 s1 r2 s2 :
  has_char r1 nul = false -> has_char r2 nul = false ->
  rolloutGroupKey r1 s1 = rolloutGroupKey r2 s2 -> r1 = r2 /\ s1 = s2.
Proof.
  unfold rolloutGroupKey. intros H1 H2 E.
  pose proof (proj2 (cut_spec (r1 +:+ String nul s1) nul r1 s1) (conj eq_refl H1)) as C1.
  rewrite E, (proj2 (cut_spec _ nul r2 s2) (conj eq_refl H2)) in C1. by injection C1 as -> ->.
Qed.

Lemma ownedByAnotherServer_spec labels sid :
  ownedByAnotherServer labels sid = true <->
  label labels LabelServerID <> "" /\ sid <> "" /\ label labels LabelServerID <> sid.
Proof. unfold ownedByAnotherServer. rewrite !andb_true_iff, !negb_true_iff, !String.eqb_neq. tauto. Qed.

(** The whole decision for one container, in terms of the document. *)
Lemma gcReap_spec c doc sid :
  gcReap c (desiredNames doc) (protectedGroups doc) sid = true <->
  (Name c ∉ desiredNames doc) /\ ownedByAnotherServer (Labels c) sid = false /\
  ~ (exists rid svc, rid <> "" /\ label (Labels c) LabelResourceID <> "" /\
      rolloutGroupKey (label (Labels c) LabelResourceID) (label (Labels c) LabelService) =
        rolloutGroupKey rid svc /\ claims doc rid svc).
Proof.
  unfold gcReap. case_bool_decide as Hw; [naive_solver|].
  destruct (ownedByAnotherServer _ _); [naive_solver|].
  destruct (String.eqb_spec (label (Labels c) LabelResourceID) "") as [E|E]; cbn [negb andb].
  { split; [|done]. intros _. split_and!; try done. naive_solver. }
  case_bool_decide as Hp; rewrite protectedGroups_spec in Hp.
  - split; [done|]. intros (_ & _ & Hn). destruct Hn. destruct Hp as (rid & svc & ? & ? & ?). eauto 10.
  - split; [|done]. intros _. split_and!; try done. intros (rid & svc & ? & _ & ? & ?). eauto 10.
Qed.

(** ** What a collection does *)

Section traced_gc.
Context {DB W : Type} `{!Bolt DB json, !BoltLaws DB json, !rolloutDocker W, !RangeOrder W, dig : Digest}.
Local Abbreviation world := (W * list event)%type.
Implicit Types (d : Driver world) (s : host DB world).

#[export, program] Instance traced_range : RangeOrder world := { range_map A x m := range_map x.1 m }.
Next Obligation. intros. cbn. apply range_map_perm. Qed.

(** The containers a document leaves orphaned: not named by it, not a peer's,
    and not in a group it claims. *)
Definition orphan (doc : Document) (serverID : string) (c : ContainerState) : Prop :=
  (Name c ∉ desiredNames doc) /\ ownedByAnotherServer (Labels c) serverID = false /\
  ~ (exists rid svc, rid <> "" /\ label (Labels c) LabelResourceID <> "" /\
      rolloutGroupKey (label (Labels c) LabelResourceID) (label (Labels c) LabelService) =
        rolloutGroupKey rid svc /\ claims doc rid svc).

Lemma remove_all_trace (reap : ContainerState -> bool) l (w : W) tr :
  exists w', remove_all reap l (w, tr) =
    (Ok tt, (w', tr ++ map (fun c => Removed (ID c)) (List.filter reap l))%list).
Proof.
  unfold remove_all. revert w tr. induction l as [|c l IH]; intros w tr; cbn [for_each List.filter map].
  { exists w. by rewrite app_nil_r. }
  destruct (reap c); cbn [negb]; [|unfold bind at 1; apply IH].
  destruct (ContainerRemove (ID c) true w) as [r w1] eqn:Er.
  assert (bind (attempt (ContainerRemove (ID c) true)) (fun _ => ret tt) (w, tr) =
    (Ok tt, (w1, tr ++ [Removed (ID c)])%list)) as Hone.
  { unfold bind, attempt. cbn. unfold noting. cbn. by rewrite Er. }
  unfold bind at 1. rewrite Hone. destruct (IH w1 (tr ++ [Removed (ID c)])%list) as [w' ->].
  exists w'. by rewrite <- app_assoc.
Qed.

(** C23: a collection never fails.  It makes one list call and removes exactly
    the orphans of the document among the containers listed, in that order; the
    desired store loses nothing the document names, gains nothing, and (when the
    store works) keeps nothing else. *)
Theorem GC_spec d doc s w m :
  h_world s = (w, []) -> holds (h_store s) m ->
  let '(r, s') := GC d doc s in
  r = Ok tt /\
  (exists answer dead, (h_world s').2 = Listed answer :: map (fun c => Removed (ID c)) dead /\
     forall c, c ∈ dead <-> exists l, answer = Ok l /\ c ∈ l /\ orphan doc (d_serverID d) c) /\
  (exists m', holds (h_store s') m' /\ m' ⊆ m /\
     (forall n, n ∈ desiredNames doc -> m' !! n = m !! n) /\
     (@reliable DB _ -> forall n, n ∉ desiredNames doc -> m' !! n = None)).
Proof.
  intros Hw Hm. unfold GC. destruct (AllDesired (h_store s)) as [stored db1] eqn:Ea.
  rewrite (bind_run _ _ _ _ _ (attempt_run _ _ _ _ (on_store_run _ _ _ _ Ea))).
  apply (AllDesired_holds _ _ _ _ Hm) in Ea as [Hm1 Hst].
  (* the prune *)
  assert (exists db2 m', holds db2 m' /\ m' ⊆ m /\
    (forall n, n ∈ desiredNames doc -> m' !! n = m !! n) /\
    (@reliable DB _ -> forall n, n ∉ desiredNames doc -> m' !! n = None) /\
    (match stored with
     | Err _ => ret tt
     | Ok all => on_store (prune_unwanted (desiredNames doc) (range_map (h_world s) all))
     end) (mkHost (h_limiter s) db1 (h_world s)) = (Ok tt, mkHost (h_limiter s) db2 (h_world s)))
    as (db2 & m' & Hm2 & Hsub & Hkeep & Hgone & E2).
  { destruct stored as [all|e].
    - subst all. unfold on_store, prune_unwanted. cbn [h_store h_limiter h_world].
      pose proof (delete_each_holds (fun ns => negb (bool_decide (ns.1 ∈ desiredNames doc)))
        (range_map (h_world s) m) db1 m Hm1) as Hp.
      destruct (for_each _ _ db1) as [r db2]. destruct Hp as [-> (m' & Hm2 & Hsub & Hkeep & Hgone)].
      exists db2, m'. split_and!; [done|done| | |done].
      + intros n Hn. apply Hkeep. intros x _. cbn. by rewrite bool_decide_true.
      + intros Hr n Hn. destruct (m !! n) as [x|] eqn:Ex.
        * apply (Hgone Hr n x); [|cbn; by rewrite bool_decide_false].
          rewrite range_map_perm. by apply elem_of_map_to_list.
        * destruct (m' !! n) as [z|] eqn:Ez; [|done]. eapply lookup_weaken in Ez; [|exact Hsub]. congruence.
    - exists db1, m. split_and!; try done. intros [_ Hr]. by destruct (Hr _ _ _ Hst). }
  rewrite (bind_run _ _ _ _ _ E2), Hw. destruct (ContainerList w) as [answer w1] eqn:El.
  assert (ContainerList (w, []) = (answer, (w1, [Listed answer]))) as El'
    by (cbn; unfold noting; cbn; by rewrite El).
  rewrite (bind_run _ _ _ _ _ (attempt_run _ _ _ _ (on_host_run _
    (mkHost (h_limiter s) db2 (w, [])) _ _ El'))). cbn [h_limiter h_store h_world].
  destruct answer as [l|e].
  - destruct (remove_all_trace (fun c => gcReap c (desiredNames doc) (protectedGroups doc) (d_serverID d))
      l w1 [Listed (Ok l)]) as [w' E].
    rewrite (on_host_run _ (mkHost (h_limiter s) db2 (w1, [Listed (Ok l)])) _ _ E). cbn. split_and!; [done| |by exists m'].
    do 2 eexists. split; [done|]. intros c. rewrite filter_elem, gcReap_spec. unfold orphan. naive_solver.
  - cbn. split_and!; [done| |by exists m']. exists (Err e), []. split; [done|].
    intros c. split; [by intros ?%not_elem_of_nil|]. by intros (l & ? & _).
Qed.
End traced_gc.

Definition demo_doc : Document :=
  mkDocument 1 "o" "s" [mkOp "op1" KindContainerApply [] (enc_spec (with_name "web" demo_spec))].
Definition demo_host : host (mem_bolt json) (daemon * list event) :=
  mkHost (opLimiter 0) demo_store (demo_daemon, []).

Lemma GC_spec_witness :
  (h_world demo_host = (demo_daemon, []) /\ holds (h_store demo_host) demo_desired) /\
  let '(r, s') := GC (NewDriver None) demo_doc demo_host in
  r = Ok tt /\ exists answer dead, (h_world s').2 = Listed answer :: map (fun c => Removed (ID c)) dead.
Proof.
  assert (H : h_world demo_host = (demo_daemon, []) /\ holds (h_store demo_host) demo_desired)
    by (split; [reflexivity|exact demo_holds]).
  split; [exact H|].
  pose proof (GC_spec (NewDriver None) demo_doc demo_host demo_daemon demo_desired (proj1 H) (proj2 H)) as P.
  destruct (GC (NewDriver None) demo_doc demo_host) as [r s']. destruct P as (Hr & (a & dead & E & _) & _).
  split; [exact Hr|]. exists a, dead. exact E.
Defined.

(** The daemon's "old" is an orphan of the document, "web" is not. *)
Example demo_collected :
  (h_world (GC (NewDriver None) demo_doc demo_host).2).2 =
    [Listed (Ok (dm_containers demo_daemon)); Removed "c2"].
Proof. vm_compute. reflexivity. Qed.
