(* ===== verification/Traefik.v ===== *)
(** * The Traefik ingress proxy

    Models [agent/internal/container/traefik.go]: the proxy container's static
    configuration and create body, the op that keeps it running and attached
    to every managed network, and the reading of its certificate store. *)

From Stdlib Require Import Ascii.
From stdpp Require Import sorting.
From S2P Require Import Prelude GoStrings Json Dsd Bolt Apply Spec Policy Docker Secrets Rollout NeverCut Limiter Store Daemon Driver.

Local Open Scope string_scope.
Local Open Scope io_scope.

Definition traefikImage := "traefik:v3.6.1".
Definition traefikACMEVolume := "sigmahub-traefik-acme".
Definition traefikSpecHashLabel := "sigmahub.traefikSpecHash".

Record TraefikSpec := mkTraefikSpec {
  ts_ServerID : string; ts_CertResolver : string; ts_ChallengeType : string;
  ts_ACMEEmail : string; ts_ACMECADirURL : string;
}.

Definition enc_traefik (s : TraefikSpec) : json := JStruct
  [("serverId", keep (JStr (ts_ServerID s))); ("certResolver", keep (JStr (ts_CertResolver s)));
   ("challengeType", keep (JStr (ts_ChallengeType s))); ("acmeEmail", keep (JStr (ts_ACMEEmail s)));
   ("acmeCaDirUrl", keep (JStr (ts_ACMECADirURL s)))].

Definition dec_traefik : json -> option TraefikSpec := dec_struct (fun fs =>
  s ← dec_str (jget fs "serverId"); r ← dec_str (jget fs "certResolver");
  c ← dec_str (jget fs "challengeType"); e ← dec_str (jget fs "acmeEmail");
  u ← dec_str (jget fs "acmeCaDirUrl"); Some (mkTraefikSpec s r c e u)).

(** The first sixteen hex digits of the SHA-256 of a string. *)
Class StringDigest := digest_string : string -> string.

Section proxy.
Context `{!Digest, !StringDigest}.

Definition traefik_hash (s : TraefikSpec) : string := digest (enc_traefik s).

Definition proxyDriftHash (spec : TraefikSpec) : string :=
  digest_string (traefik_hash spec +:+ "|" +:+ traefikImage).

Definition traefikArgs (spec : TraefikSpec) : list string :=
  let resolver := if String.eqb (ts_CertResolver spec) "" then "le" else ts_CertResolver spec in
  let acme rest := "--certificatesresolvers." +:+ resolver +:+ ".acme." +:+ rest in
  let args :=
    ["--entrypoints.web.address=:80"; "--entrypoints.websecure.address=:443";
     "--entrypoints.web.http.redirections.entrypoint.to=websecure";
     "--entrypoints.web.http.redirections.entrypoint.scheme=https";
     "--providers.docker=true"; "--providers.docker.exposedbydefault=false";
     acme "storage=/acme/acme.json"] in
  let args := if String.eqb (ts_ACMEEmail spec) "" then args
              else (args ++ [acme ("email=" +:+ ts_ACMEEmail spec)])%list in
  let args := if String.eqb (ts_ChallengeType spec) "tls-alpn"
              then (args ++ [acme "tlschallenge=true"])%list
              else (args ++ [acme "httpchallenge=true"; acme "httpchallenge.entrypoint=web"])%list in
  if String.eqb (ts_ACMECADirURL spec) "" then args
  else (args ++ [acme ("caserver=" +:+ ts_ACMECADirURL spec)])%list.

Definition traefik_labels (spec : TraefikSpec) : gmap string string :=
  <["traefik.enable" := "false"]> (<[traefikSpecHashLabel := proxyDriftHash spec]>
    (<[LabelResourceID := "sigmahub-traefik"]> (<[LabelManaged := "true"]> ∅))).

Definition port_80_443 (v : string -> json) : json := JObj [("443/tcp", v "443"); ("80/tcp", v "80")].

Definition traefik_host_config : json := JObj
  [("Binds", enc_strings ["/var/run/docker.sock:/var/run/docker.sock:ro"; traefikACMEVolume +:+ ":/acme:rw"]);
   ("PortBindings", port_80_443 (fun p => JArr [JObj [("HostPort", JStr p)]]));
   ("Privileged", JBool false);
   ("RestartPolicy", JObj [("Name", JStr "always")]);
   ("SecurityOpt", enc_strings securityOpt)].

Definition buildTraefikCreateBody (spec : TraefikSpec) : json := JStruct
  [("Cmd", keep (enc_strings (traefikArgs spec)));
   ("ExposedPorts", keep (port_80_443 (fun _ => JObj [])));
   ("HostConfig", keep traefik_host_config);
   ("Image", keep (JStr traefikImage));
   ("Labels", keep (enc_map (traefik_labels spec)))].

Section op.
Context {W : Type} `{!rolloutDocker W, !dockerObjects W}.

Fixpoint connect_all (nets : list string) : io W unit :=
  match nets with
  | [] => ret tt
  | n :: nets =>
      _ <- wrapping ("connect traefik to " +:+ n +:+ ": ") (NetworkConnect n traefikContainerName) ;;
      connect_all nets
  end.

Definition attachProxyNetworks : io W unit := nets <- ManagedNetworks ;; connect_all nets.

(** [ImagePull]: an anonymous pull. *)
Definition ImagePull (image : string) : io W unit := ImagePullAuth image (mkRegistryAuth "" "" "").

Definition opProxyTraefik (op : Op) : io W unit :=
  spec <- wrapping "decode traefik spec: " (lift (unmarshal (dec_traefik (op_Spec op)))) ;;
  vol <- VolumeInspect traefikACMEVolume ;;
  _ <- match vol with
       | Some _ => ret tt
       | None => wrapping "create acme volume: " (VolumeCreate traefikACMEVolume (<[LabelManaged := "true"]> ∅))
       end ;;
  _ <- wrapping "pull traefik: " (ImagePull traefikImage) ;;
  cur <- ContainerInspect traefikContainerName ;;
  let want := proxyDriftHash spec in
  let recreate :=
    id <- wrapping "create traefik: " (ContainerCreate traefikContainerName (buildTraefikCreateBody spec)) ;;
    _ <- ContainerStart id ;;
    attachProxyNetworks in
  match cur with
  | None => recreate
  | Some c =>
      if String.eqb (label (Labels c) traefikSpecHashLabel) want then
        _ <- (if negb (Running c) then ContainerStart (ID c) else ret tt) ;;
        attachProxyNetworks
      else
        _ <- ContainerStop (ID c) (10 * Second) ;;
        _ <- ContainerRemove (ID c) true ;;
        recreate
  end.
End op.
End proxy.

(** ** Certificate status *)

(** [DomainCertReport]; serial and expiry as read from the leaf. *)
Record DomainCertReport := mkDomainCertReport {
  dc_Domain : string; dc_Status : string; dc_Serial : string; dc_ExpiresAt : option Z;
}.

(** One certificate of the ACME store. *)
Record acmeCert := mkAcmeCert { ac_Main : string; ac_SANs : list string; ac_Certificate : string }.
Definition acmeStore := gmap string (list acmeCert).

Definition dec_domain (fs : list (string * json)) : option (string * list string) :=
  m ← dec_str (jget fs "main"); s ← dec_list dec_elem_str (jget fs "sans"); Some (m, s).
Definition dec_cert : json -> option acmeCert := dec_struct (fun fs =>
  d ← dec_struct_field dec_domain (jget fs "domain"); c ← dec_str (jget fs "certificate");
  Some (mkAcmeCert d.1 d.2 c)).
Definition dec_resolver : json -> option (list acmeCert) := dec_struct (fun fs =>
  dec_list dec_cert (jget fs "Certificates")).
(** A JSON object as a Go map: a later key replaces an earlier one. *)
Definition dec_store (v : json) : option acmeStore :=
  match v with
  | JNull => Some ∅
  | JObj fs => l ← mapM (fun kv => r ← dec_resolver kv.2; Some (kv.1, r)) fs;
               Some (list_to_map (rev l))
  | _ => None
  end.

Section certs.
(** [parseLeaf]'s reading of a base64 PEM chain by [crypto/x509]: the serial
    number in hex and the expiry of the first certificate. *)
Context (x509_leaf : string -> option (string * Z)).

Definition parseLeaf (b64 : string) : string * option Z :=
  match x509_leaf b64 with Some (serial, exp) => (to_upper serial, Some exp) | None => ("", None) end.

(** Normalised, without the empty and the already seen. *)
Fixpoint cert_domains (doms : list string) (serial : string) (expiry : option Z) (seen : gset string)
    (out : list DomainCertReport) : gset string * list DomainCertReport :=
  match doms with
  | [] => (seen, out)
  | d :: doms =>
      let dom := to_lower (trim_space d) in
      if String.eqb dom "" || bool_decide (dom ∈ seen) then cert_domains doms serial expiry seen out
      else cert_domains doms serial expiry ({[dom]} ∪ seen)
             (out ++ [mkDomainCertReport dom "issued" serial expiry])
  end.

Fixpoint store_reports (certs : list acmeCert) (seen : gset string) (out : list DomainCertReport)
    : list DomainCertReport :=
  match certs with
  | [] => out
  | c :: certs =>
      let '(serial, expiry) := parseLeaf (ac_Certificate c) in
      let '(seen, out) := cert_domains (ac_Main c :: ac_SANs c) serial expiry seen out in
      store_reports certs seen out
  end.

Definition dom_le (a b : DomainCertReport) : Prop := str_le (dc_Domain a) (dc_Domain b).
#[local] Instance dom_le_dec a b : Decision (dom_le a b).
Proof. unfold dom_le. apply _. Defined.

(** The reports of a store visited in some order. *)
Definition cert_reports (resolvers : list (string * list acmeCert)) : list DomainCertReport :=
  merge_sort dom_le (store_reports (concat (map snd resolvers)) ∅ []).

(** [os.ReadFile] of a JSON file: absent, unreadable, or what it parses to. *)
Inductive file_json := FileMissing | FileError (e : string) | FileJson (v : option json).
Class AcmeFiles (W : Type) := {
  VolumeMountpoint : string -> io W string;
  read_json_file : string -> W -> file_json * W;
}.

Definition TraefikCertStatus `{AcmeFiles W, RangeOrder W} : io W (list DomainCertReport) :=
  mount <- attempt (VolumeMountpoint traefikACMEVolume) ;;
  match mount with
  | Err _ => ret []
  | Ok mount => fun w =>
      let '(f, w) := read_json_file (join_path mount "acme.json") w in
      match f with
      | FileMissing => (Ok [], w)
      | FileError e => (Err e, w)
      | FileJson v =>
          match v ≫= dec_store with
          | None => (Err ("parse acme.json: " +:+ unmarshal_error), w)
          | Some store => (Ok (cert_reports (range_map w store)), w)
          end
      end
  end.

(** *** What is reported *)

Lemma cert_domains_spec doms serial expiry seen out :
  let '(seen', out') := cert_domains doms serial expiry seen out in
  (forall d, d ∈ map dc_Domain out' <-> d ∈ map dc_Domain out \/
     (d <> "" /\ (d ∉ seen) /\ exists x, x ∈ doms /\ d = to_lower (trim_space x))) /\
  (forall d, d ∈ seen' <-> d ∈ seen \/ (d <> "" /\ exists x, x ∈ doms /\ d = to_lower (trim_space x))) /\
  (NoDup (map dc_Domain out) -> (forall d, d ∈ map dc_Domain out -> d ∈ seen) ->
   NoDup (map dc_Domain out')).
Proof.
  revert seen out. induction doms as [|x doms IH]; intros seen out; cbn [cert_domains].
  { split_and!; [|intros d; split; [tauto|]..|done]; try (intros d; split; [tauto|]);
      intros [?|(? & y & ?%not_elem_of_nil & _)] || intros [?|(? & ? & y & ?%not_elem_of_nil & _)]; done. }
  destruct (String.eqb_spec (to_lower (trim_space x)) "") as [E|E]; cbn [orb].
  { specialize (IH seen out). destruct (cert_domains doms serial expiry seen out) as [seen' out'].
    destruct IH as (H1 & H2 & H3). split_and!; [|intros d|done].
    - intros d. rewrite H1. setoid_rewrite elem_of_cons. naive_solver.
    - rewrite H2. setoid_rewrite elem_of_cons. naive_solver. }
  case_bool_decide as Hs.
  { specialize (IH seen out). destruct (cert_domains doms serial expiry seen out) as [seen' out'].
    destruct IH as (H1 & H2 & H3). split_and!; [|intros d|done].
    - intros d. rewrite H1. setoid_rewrite elem_of_cons. naive_solver.
    - rewrite H2. setoid_rewrite elem_of_cons. naive_solver. }
  specialize (IH ({[to_lower (trim_space x)]} ∪ seen)
    (out ++ [mkDomainCertReport (to_lower (trim_space x)) "issued" serial expiry])%list).
  destruct (cert_domains doms _ _ _ _) as [seen' out']. destruct IH as (H1 & H2 & H3).
  split_and!.
  - intros d. rewrite H1, map_app. cbn [map dc_Domain]. rewrite elem_of_snoc.
    setoid_rewrite elem_of_union. setoid_rewrite elem_of_singleton. setoid_rewrite elem_of_cons.
    destruct (decide (d = to_lower (trim_space x))) as [->|]; naive_solver.
  - intros d. rewrite H2, elem_of_union, elem_of_singleton. setoid_rewrite elem_of_cons. naive_solver.
  - intros Hn Hsub. apply H3; rewrite map_app; cbn [map dc_Domain].
    + apply NoDup_app. split_and!; [done| |apply NoDup_singleton].
      intros d Hd ->%list_elem_of_singleton. by apply Hs, Hsub.
    + intros d [Hd| ->]%elem_of_snoc; [apply elem_of_union_r; auto|set_solver].
Qed.

(** The normalised names of the certificates. *)
Definition names_of (certs : list acmeCert) (d : string) : Prop :=
  d <> "" /\ exists c x, c ∈ certs /\ x ∈ ac_Main c :: ac_SANs c /\ d = to_lower (trim_space x).

Lemma store_reports_spec certs seen out :
  NoDup (map dc_Domain out) -> (forall d, d ∈ seen <-> d ∈ map dc_Domain out) ->
  NoDup (map dc_Domain (store_reports certs seen out)) /\
  forall d, d ∈ map dc_Domain (store_reports certs seen out) <->
    d ∈ map dc_Domain out \/ names_of certs d.
Proof.
  unfold names_of. revert seen out. induction certs as [|c certs IH]; intros seen out Hn Hs; cbn [store_reports].
  { split; [done|]. intros d. split; [tauto|]. by intros [?|(_ & c & x & ?%not_elem_of_nil & _)]. }
  destruct (parseLeaf (ac_Certificate c)) as [serial expiry].
  pose proof (cert_domains_spec (ac_Main c :: ac_SANs c) serial expiry seen out) as H.
  destruct (cert_domains _ _ _ _ _) as [seen' out']. destruct H as (H1 & H2 & H3).
  destruct (IH seen' out') as [Hnd Hel].
  - apply H3; [done|]. intros d. apply Hs.
  - intros d. rewrite H1, H2, Hs. destruct (decide (d ∈ seen)) as [Hd|Hd]; rewrite Hs in Hd; naive_solver.
  - split; [done|]. intros d. rewrite Hel, H1. setoid_rewrite (elem_of_cons certs).
    destruct (decide (d ∈ seen)) as [Hd|Hd]; pose proof Hd as Hd'; rewrite Hs in Hd'; naive_solver.
Qed.

#[local] Instance dom_le_total : Total dom_le.
Proof. intros a b. apply String.leb_total. Qed.

(** The certificate report lists every domain of the store once, normalised
    and in order, and nothing else, whatever order the resolvers are visited in. *)
Theorem cert_reports_spec resolvers :
  let rs := cert_reports resolvers in
  Sorted dom_le rs /\ NoDup (map dc_Domain rs) /\
  (forall d, d ∈ map dc_Domain rs <-> names_of (concat (map snd resolvers)) d).
Proof.
  cbv zeta. unfold cert_reports.
  destruct (store_reports_spec (concat (map snd resolvers)) ∅ []) as [Hn Hel].
  { constructor. }
  { intros d. split; [set_solver|by intros ?%not_elem_of_nil]. }
  assert (P : map dc_Domain (merge_sort dom_le (store_reports (concat (map snd resolvers)) ∅ [])) ≡ₚ
    map dc_Domain (store_reports (concat (map snd resolvers)) ∅ []))
    by (apply Permutation_map, merge_sort_Permutation).
  split_and!.
  - apply (Sorted_merge_sort _).
  - by rewrite P.
  - intros d. rewrite P, Hel. split; [|tauto]. by intros [?%not_elem_of_nil|?].
Qed.
End certs.

(** ** The proxy is left alone when nothing changed *)

Section unchanged.
Context {W : Type} `{!rolloutDocker W, !dockerObjects W, !Digest, !StringDigest}.
Local Abbreviation world := (W * list event)%type.
Implicit Types (P : list event -> Prop).

(** Every container call so far only read. *)
Definition only_read (tr : list event) : Prop := forall e, e ∈ tr -> reading e.

(** The proxy was seen absent, or with another configuration or image. *)
Definition drifted (spec : TraefikSpec) (tr : list event) : Prop :=
  exists cur, Inspected traefikContainerName (Ok cur) ∈ tr /\
    forall c, cur = Some c -> label (Labels c) traefikSpecHashLabel <> proxyDriftHash spec.

Lemma only_read_stable : stable only_read.
Proof. intros tr e Ho He x [Hx| ->]%elem_of_snoc; auto. Qed.

Lemma drifted_mono spec : mono (drifted spec).
Proof. intros tr e (cur & Hi & Hc). exists cur. split; [by apply in_snoc|done]. Qed.

Lemma quiet_connect nets : quiet (W := W) (connect_all nets).
Proof.
  induction nets as [|n nets IH]; cbn [connect_all]; [apply quiet_ret|].
  apply quiet_bind; [apply quiet_wrapping, quiet_on_world|done].
Qed.

Lemma quiet_attach : quiet (W := W) attachProxyNetworks.
Proof. apply quiet_bind; [apply quiet_on_world|apply quiet_connect]. Qed.

(** A recorded call keeps a monotone assertion. *)
Lemma record_mono {A} P (f : res A -> event) (m : io W A) : mono P -> record P (noting f m) (fun _ => P).
Proof. intros HP. apply triple_noting. intros r tr. apply HP. Qed.

Lemma record_decoded {A B} P what (a : A) (k : A -> io world B) Q :
  record P (k a) Q -> record P (bind (wrapping what (lift (Ok a))) k) Q.
Proof. intros Hk. exact Hk. Qed.

(** The proxy container is stopped, removed or created only after it was
    seen absent or carrying another drift hash (configuration and image pin)
    than the op asks for; otherwise it is at most started. *)
Theorem opProxyTraefik_drift op w :
  let '(_, s) := opProxyTraefik op (w, []) in
  only_read s.2 \/ exists spec, dec_traefik (op_Spec op) = Some spec /\ drifted spec s.2.
Proof.
  destruct (dec_traefik (op_Spec op)) as [spec|] eqn:Ed.
  2:{ unfold opProxyTraefik. rewrite Ed. left. by intros e ?%not_elem_of_nil. }
  assert (Hgoal : let '(_, s) := opProxyTraefik op (w, []) in only_read s.2 \/ drifted spec s.2);
    [|destruct (opProxyTraefik op (w, [])) as [r s]; destruct Hgoal; eauto].
  set (Q := fun (r : res unit) tr => only_read tr \/ drifted spec tr).
  assert (Hq : forall m : io world unit, quiet m -> record only_read m Q).
  { intros m Hm. eapply record_weaken; [apply (Hm _ only_read_stable)|done|]. by left. }
  assert (Hstep : forall A (m : io world A) (k : A -> io world unit),
    quiet m -> (forall a, record only_read (k a) Q) -> record only_read (bind m k) Q).
  { intros A m k Hm Hk. apply (record_bind _ _ _ (fun _ => only_read)); [|done].
    eapply record_weaken; [apply (Hm _ only_read_stable)|done|]. intros [a|e] tr; [done|by left]. }
  assert (Hrun : record only_read (opProxyTraefik op) Q).
  2:{ apply (Hrun (w, [])). intros e ?%not_elem_of_nil. done. }
  unfold opProxyTraefik. rewrite Ed. apply record_decoded.
  apply Hstep; [apply quiet_on_world|]. intros vol.
  apply Hstep. { destruct vol; [apply quiet_ret|apply quiet_wrapping, quiet_on_world]. }
  intros _. apply Hstep; [apply quiet_wrapping, quiet_on_world|]. intros _.
  apply (record_bind _ _ _ (fun cur tr => only_read tr /\ Inspected traefikContainerName (Ok cur) ∈ tr)).
  { eapply record_weaken; [apply (record_inspect _ only_read only_read_stable)|done|].
    intros [a|e] tr [? ?]; [done|by left]. }
  intros cur. cbv zeta.
  assert (Hd : forall A (m : io world A) (k : A -> io world unit),
    record (drifted spec) m (fun _ => drifted spec) -> (forall a, record (drifted spec) (k a) Q) ->
    record (drifted spec) (bind m k) Q).
  { intros A m k Hm Hk. apply (record_bind _ _ _ (fun _ => drifted spec)); [|done].
    eapply record_weaken; [exact Hm|done|]. intros [a|e] tr; [done|by right]. }
  pose proof (fun A => @record_mono A (drifted spec)) as Hnote.
  assert (Hre : record (drifted spec)
    (bind (wrapping "create traefik: " (ContainerCreate traefikContainerName (buildTraefikCreateBody spec)))
      (fun id => bind (ContainerStart id) (fun _ => attachProxyNetworks))) Q).
  { apply Hd; [apply record_wrapping, Hnote, drifted_mono|]. intros id.
    apply Hd; [apply Hnote, drifted_mono|]. intros _. eapply record_weaken;
      [apply (quiet_attach (drifted spec)), mono_stable, drifted_mono|done|]. by right. }
  destruct cur as [c|].
  - destruct (String.eqb_spec (label (Labels c) traefikSpecHashLabel) (proxyDriftHash spec)) as [He|Hne].
    + eapply record_weaken; [apply Hstep|by intros tr [? _]|done].
      * destruct (negb (Running c)); [apply quiet_start|apply quiet_ret].
      * intros _. apply Hq, quiet_attach.
    + apply (record_weaken _ (drifted spec) _ _ Q); [|intros tr [_ Hi]; exists (Some c); split; [exact Hi|by intros ? [= <-]]|done].
      apply Hd; [apply Hnote, drifted_mono|]. intros _.
      apply Hd; [apply Hnote, drifted_mono|]. intros _. exact Hre.
  - eapply record_weaken; [exact Hre|intros tr [_ Hi]; by exists None|done].
Qed.
End unchanged.

(** ** The registered kinds

    [(Driver).Register]: every container op kind the agent knows. *)
Definition Driver_Register {DB W} `{!Bolt DB json, !rolloutDocker W, !imageRetainer W, !dockerObjects W,
    !FileSystem W, !Clock W, !Prober W, !RangeOrder W, !Digest, !StringDigest}
    (d : Driver W) (r : Registry (host DB W)) : Registry (host DB W) :=
  let r := Register KindNetworkEnsure (fun _ => opNetworkEnsure) r in
  let r := Register KindVolumeEnsure (fun _ => opVolumeEnsure d) r in
  let r := Register KindImagePull (fun _ => opImagePull d) r in
  let r := Register KindContainerApply (fun _ => opContainerApply d) r in
  let r := Register KindVolumeRemove (fun _ => opVolumeRemove) r in
  let r := Register KindProxyTraefik (fun _ op => on_host (opProxyTraefik op)) r in
  let r := Register KindDeployRollout (fun _ => opRollout d) r in
  Register KindDeployRecreate (fun _ => opRecreate d) r.
