(* ===== verification/DockerApi.v ===== *)
(** * The Docker Engine API client

    Models [agent/internal/container/dockerapi.go]: the requests the agent
    sends over the daemon's socket and what it makes of the answers.  The HTTP
    transport and the text syntax of JSON are interfaces; the client is an
    instance of the daemon interfaces of [Docker.v]. *)

From Stdlib Require Import Ascii SpecFloat.
From stdpp Require Import sorting.
From S2P Require Import Prelude GoStrings Json Spec Docker Limiter Driver.

Local Open Scope string_scope.
Local Open Scope io_scope.

Definition apiVersion := "v1.43".

(** ** The transport *)

Record request := mkRequest {
  rq_Method : string; rq_URL : string; rq_Headers : list (string * string); rq_Body : option json;
}.
Record response := mkResponse { StatusCode : Z; Body : string }.

(** [http.Client.Do] followed by reading the whole body. *)
Class HttpClient (W : Type) := http_do : request -> io W response.

(** [encoding/json] on text: a value, the values of a stream up to its end or
    an error, and the rendering of a value. *)
Class JsonText := {
  json_unmarshal : string -> option json;
  json_stream : string -> list json * option string;
  json_marshal : json -> string;
}.

(** ** Escaping *)

Definition unreserved (b : ascii) : bool :=
  is_lower b || is_upper b || is_digit b || has_char "-_.~" b.

Definition upper_hex (n : nat) : ascii :=
  ascii_of_nat (if (n <? 10)%nat then 48 + n else 55 + n).

Definition escape_byte (b : ascii) : string :=
  let n := nat_of_ascii b in
  String "%"%char (String (upper_hex (n / 16)) (String (upper_hex (n mod 16)) EmptyString)).

Fixpoint escape_with (f : ascii -> string) (s : string) : string :=
  match s with EmptyString => EmptyString | String b s => f b +:+ escape_with f s end.

(** [url.PathEscape] *)
Definition path_byte (b : ascii) : string :=
  if unreserved b || has_char "$&+=:@" b then String b EmptyString else escape_byte b.
Definition PathEscape : string -> string := escape_with path_byte.

(** [url.QueryEscape] *)
Definition query_byte (b : ascii) : string :=
  if Ascii.eqb b " "%char then "+"
  else if unreserved b then String b EmptyString else escape_byte b.
Definition QueryEscape : string -> string := escape_with query_byte.

(** [url.Values.Encode] of values set once each: keys in order. *)
Definition pair_le (a b : string * string) : Prop := str_le a.1 b.1.
#[export] Instance pair_le_dec a b : Decision (pair_le a b).
Proof. unfold pair_le. apply _. Defined.
Definition Encode (q : list (string * string)) : string :=
  join_with "&" (map (fun kv => QueryEscape kv.1 +:+ "=" +:+ QueryEscape kv.2) (merge_sort pair_le q)).

(** [splitImageRef] *)
Definition splitImageRef (image : string) : string * string :=
  if contains image "@" then (image, "")
  else match cut_last image ":"%char with
       | Some (repo, tag) => if contains tag "/" then (image, "latest") else (repo, tag)
       | None => (image, "latest")
       end.

(** ** Errors *)

Inductive api_error :=
| apiError (Status : Z) (Message : string)
| otherError (e : string).

Definition api_error_Error (e : api_error) : string :=
  match e with
  | apiError status msg => "docker api " +:+ dec status +:+ ": " +:+ msg
  | otherError e => e
  end.

Definition isNotFound {A} (r : result api_error A) : bool :=
  match r with Err (apiError 404 _) => true | _ => false end.

(** The status of an API error ([asAPIError]). *)
Definition api_status {A} (r : result api_error A) : option Z :=
  match r with Err (apiError s _) => Some s | _ => None end.

Section client.
Context {W : Type} `{!HttpClient W, !JsonText}.
(** [DockerClient.host]: empty for the unix socket. *)
Variable host : string.

(** [(DockerClient).url] *)
Definition client_url (path : string) : string :=
  if String.eqb host "" then "http://docker/" +:+ apiVersion +:+ path
  else host +:+ "/" +:+ apiVersion +:+ path.

Definition decodeDockerMessage (b : string) : string :=
  match json_unmarshal b ≫= dec_struct (fun fs => dec_str (jget fs "message")) with
  | Some m => if String.eqb m "" then trim_space b else m
  | None => trim_space b
  end.

(** A call whose error is kept typed. *)
Definition api (A : Type) : Type := W -> result api_error A * W.

(** The error of a response outside 200..299, read up to [limit] bytes. *)
Definition response_error (limit : nat) (resp : response) : option api_error :=
  if ((StatusCode resp <? 200) || (299 <? StatusCode resp))%Z
  then Some (apiError (StatusCode resp) (decodeDockerMessage (stake limit (Body resp))))
  else None.

(** Send a request and hand a good response to [k]. *)
Definition send {A} (rq : request) (k : response -> result api_error A) : api A := fun w =>
  match http_do rq w with
  | (Err e, w) => (Err (otherError e), w)
  | (Ok resp, w) =>
      (match response_error 2048 resp with Some e => Err e | None => k resp end, w)
  end.

(** [json.NewDecoder(resp.Body).Decode(out)] *)
Definition decode_body {A} (dec : json -> option A) (resp : response) : result api_error A :=
  match json_stream (Body resp) with
  | (v :: _, _) => match dec v with
                   | Some a => Ok a
                   | None => Err (otherError "json: cannot unmarshal value")
                   end
  | ([], Some e) => Err (otherError e)
  | ([], None) => Err (otherError "EOF")
  end.

Definition json_header : list (string * string) := [("Content-Type", "application/json")].

Definition call_request (meth path : string) (body : option json) : request :=
  mkRequest meth (client_url path) (match body with Some _ => json_header | None => [] end) body.

(** [(DockerClient).do] with and without an [out] *)
Definition do_out {A} (meth path : string) (body : option json) (dec : json -> option A) : api A :=
  send (call_request meth path body) (decode_body dec).
Definition do_ (meth path : string) (body : option json) : api unit :=
  send (call_request meth path body) (fun _ => Ok tt).

(** The caller sees the error through [Error()]. *)
Definition plain {A} (r : result api_error A) : res A :=
  match r with Ok a => Ok a | Err e => Err (api_error_Error e) end.
Definition as_io {A} (m : api A) : io W A := fun w => let '(r, w) := m w in (plain r, w).
(** [err := m(); if handled(err) { return a }; return err] *)
Definition handling {A} (handled : result api_error A -> option A) (m : api A) : io W A := fun w =>
  let '(r, w) := m w in
  (match handled r with Some a => Ok a | None => plain r end, w).

(** An error with one of these statuses is a success. *)
Definition tolerate (statuses : list Z) (r : result api_error unit) : option unit :=
  match api_status r with
  | Some s => if bool_decide (s ∈ statuses) then Some tt else None
  | None => None
  end.

(** [GET x]: found, absent (404), or an error. *)
Definition found {A B} (f : A -> B) (absent : B) (m : api A) : io W B := fun w =>
  let '(r, w) := m w in
  (match r with Ok a => Ok (f a) | Err e => if isNotFound r then Ok absent else Err (api_error_Error e) end, w).

Definition any_struct (v : json) : option unit :=
  match v with JNull | JObj _ => Some tt | _ => None end.

(** *** Daemon *)

Definition Ping : io W string :=
  as_io (do_out "GET" "/version" None (dec_struct (fun fs =>
    v ← dec_str (jget fs "Version"); _ ← dec_str (jget fs "ApiVersion"); Some v))).

(** *** Networks *)

Definition dec_network_inspect : json -> option (string * string) := dec_struct (fun fs =>
  i ← dec_str (jget fs "Id"); n ← dec_str (jget fs "Name"); Some (i, n)).

Definition client_NetworkExists (name : string) : io W bool :=
  found (fun _ => true) false (do_out "GET" ("/networks/" +:+ PathEscape name) None dec_network_inspect).

Definition client_NetworkCreate (name : string) (labels : gmap string string) : io W unit :=
  handling (tolerate [409%Z]) (do_ "POST" "/networks/create"
    (Some (JObj [("CheckDuplicate", JBool true); ("Driver", JStr "bridge");
                 ("Labels", enc_map labels); ("Name", JStr name)]))).

Definition quote_label (s : string) : string := String dquote (s +:+ String dquote "").
Definition managed_filter : string :=
  "{" +:+ quote_label "label" +:+ ":[" +:+ quote_label (LabelManaged +:+ "=true") +:+ "]}".

Definition client_ManagedNetworks : io W (list string) :=
  as_io (do_out "GET" ("/networks?" +:+ Encode [("filters", managed_filter)]) None
    (fun v => nets ← dec_list dec_network_inspect (Some v); Some (map snd nets))).

Definition client_NetworkRemove (name : string) : io W unit :=
  handling (tolerate [404%Z]) (do_ "DELETE" ("/networks/" +:+ PathEscape name) None).

Definition client_NetworkConnect (network container : string) : io W unit :=
  handling (tolerate [403; 409]%Z)
    (do_ "POST" ("/networks/" +:+ PathEscape network +:+ "/connect")
       (Some (JObj [("Container", JStr container)]))).

(** *** Volumes *)

Definition client_ManagedVolumes : io W (list string) :=
  as_io (do_out "GET" ("/volumes?" +:+ Encode [("filters", managed_filter)]) None
    (dec_struct (fun fs => dec_list (dec_struct (fun fs => dec_str (jget fs "Name"))) (jget fs "Volumes")))).

Definition client_VolumeMountpoint (name : string) : io W string :=
  as_io (do_out "GET" ("/volumes/" +:+ PathEscape name) None
    (dec_struct (fun fs => dec_str (jget fs "Mountpoint")))).

Definition client_VolumeInspect (name : string) : io W (option (gmap string string)) :=
  found Some None (do_out "GET" ("/volumes/" +:+ PathEscape name) None
    (dec_struct (fun fs => dec_map (jget fs "Labels")))).

Definition client_VolumeExists (name : string) : io W bool :=
  v <- client_VolumeInspect name ;; ret (match v with Some _ => true | None => false end).

Definition client_VolumeCreate (name : string) (labels : gmap string string) : io W unit :=
  as_io (do_ "POST" "/volumes/create"
    (Some (JObj [("Driver", JStr "local"); ("Labels", enc_map labels); ("Name", JStr name)]))).

Definition forced (force : bool) : string := if force then "?force=true" else "".

Definition client_VolumeRemove (name : string) (force : bool) : io W unit :=
  handling (tolerate [404%Z]) (do_ "DELETE" ("/volumes/" +:+ PathEscape name +:+ forced force) None).

(** *** Images *)

Definition enc_auth (a : RegistryAuth) : json := JStruct
  [("serveraddress", omit_str (ra_Host a)); ("username", omit_str (ra_Username a));
   ("password", omit_str (ra_Password a))].

(** A non-empty "error" in the progress stream fails the call. *)
Fixpoint stream_errors (what : string) (vs : list json) (stop : option string) : result api_error unit :=
  match vs with
  | [] => match stop with None => Ok tt | Some e => Err (otherError e) end
  | v :: vs =>
      match dec_struct (fun fs => dec_str (jget fs "error")) v with
      | None => Err (otherError "json: cannot unmarshal value")
      | Some e => if String.eqb e "" then stream_errors what vs stop
                  else Err (otherError (what +:+ ": " +:+ e))
      end
  end.

Definition client_ImagePullAuth (image : string) (auth : RegistryAuth) : io W unit :=
  let '(fromImage, tag) := splitImageRef image in
  let q := ("fromImage", fromImage) :: (if String.eqb tag "" then [] else [("tag", tag)]) in
  let header := if String.eqb (ra_Username auth) "" && String.eqb (ra_Password auth) "" then ""
                else b64_url (json_marshal (enc_auth auth)) in
  as_io (send (mkRequest "POST" (client_url ("/images/create?" +:+ Encode q)) [("X-Registry-Auth", header)] None)
    (fun resp => let '(vs, stop) := json_stream (Body resp) in stream_errors "image pull" vs stop)).

Definition client_ImageExists (ref : string) : io W bool :=
  found (fun _ => true) false (do_out "GET" ("/images/" +:+ PathEscape ref +:+ "/json") None any_struct).

Definition client_ImageDigest (ref : string) : io W string :=
  as_io (do_out "GET" ("/images/" +:+ PathEscape ref +:+ "/json") None (dec_struct (fun fs =>
    id ← dec_str (jget fs "Id"); ds ← dec_list dec_elem_str (jget fs "RepoDigests");
    Some (match ds with d :: _ => d | [] => id end)))).

Definition dec_image_summary : json -> option ImageSummary := dec_struct (fun fs =>
  i ← dec_str (jget fs "Id"); t ← dec_list dec_elem_str (jget fs "RepoTags");
  c ← dec_int (jget fs "Created"); Some (mkImageSummary i t c)).

(** Newest first; Go leaves the order of equal times open, here they keep theirs. *)
Definition newer (a b : ImageSummary) : Prop := (Created b <= Created a)%Z.
#[export] Instance newer_dec a b : Decision (newer a b).
Proof. unfold newer. apply _. Defined.

Definition client_ImageList (reference : string) : io W (list ImageSummary) :=
  let filters := "{" +:+ quote_label "reference" +:+ ":[" +:+ quote_label reference +:+ "]}" in
  as_io (do_out "GET" ("/images/json?filters=" +:+ QueryEscape filters) None
    (fun v => l ← dec_list dec_image_summary (Some v); Some (merge_sort newer l))).

Definition client_ImageRemove (ref : string) (force : bool) : io W unit :=
  handling (tolerate [404%Z]) (do_ "DELETE" ("/images/" +:+ PathEscape ref +:+ forced force) None).

(** *** Containers *)

Record containerInspect := mkContainerInspect {
  ci_ID : string; ci_Name : string; ci_Running : bool; ci_Pid : Z; ci_Image : string;
  ci_Labels : gmap string string; ci_Networks : gmap string string;   (* name to IPAddress *)
}.

(** A JSON object as a Go map of structs: a later key replaces an earlier one. *)
Definition dec_networks (o : option json) : option (gmap string string) :=
  match o with
  | None | Some JNull => Some ∅
  | Some (JObj fs) =>
      l ← mapM (fun kv => ip ← dec_struct (fun fs => dec_str (jget fs "IPAddress")) kv.2; Some (kv.1, ip)) fs;
      Some (list_to_map (rev l))
  | _ => None
  end.

Definition dec_container_inspect : json -> option containerInspect := dec_struct (fun fs =>
  i ← dec_str (jget fs "Id"); n ← dec_str (jget fs "Name");
  st ← dec_struct_field (fun fs => r ← dec_bool (jget fs "Running"); p ← dec_int (jget fs "Pid"); Some (r, p))
         (jget fs "State");
  cf ← dec_struct_field (fun fs => im ← dec_str (jget fs "Image"); l ← dec_map (jget fs "Labels"); Some (im, l))
         (jget fs "Config");
  nets ← dec_struct_field (fun fs => dec_networks (jget fs "Networks")) (jget fs "NetworkSettings");
  Some (mkContainerInspect i n (fst st) (snd st) (fst cf) (snd cf) nets)).

Fixpoint first_nonempty (l : list string) : string :=
  match l with
  | [] => ""
  | ip :: l => if String.eqb ip "" then first_nonempty l else ip
  end.

Definition firstIP (ci : containerInspect) : string :=
  first_nonempty (map (label (ci_Networks ci)) (sort_strings (map fst (map_to_list (ci_Networks ci))))).

Definition inspect_state (ci : containerInspect) : ContainerState :=
  mkContainerState (ci_ID ci) (trim_prefix (ci_Name ci) "/") (ci_Image ci) (ci_Running ci) (ci_Pid ci)
    (firstIP ci) (ci_Labels ci).

Definition client_ContainerInspect (name : string) : io W (option ContainerState) :=
  found (fun ci => Some (inspect_state ci)) None
    (do_out "GET" ("/containers/" +:+ PathEscape name +:+ "/json") None dec_container_inspect).

Definition dec_container_summary : json -> option ContainerState := dec_struct (fun fs =>
  i ← dec_str (jget fs "Id"); ns ← dec_list dec_elem_str (jget fs "Names");
  im ← dec_str (jget fs "Image"); st ← dec_str (jget fs "State"); l ← dec_map (jget fs "Labels");
  Some (mkContainerState i (match ns with n :: _ => trim_prefix n "/" | [] => "" end) im
          (String.eqb st "running") 0 "" l)).

Definition client_ContainerList : io W (list ContainerState) :=
  as_io (do_out "GET" ("/containers/json?" +:+ Encode [("all", "true"); ("filters", managed_filter)]) None
    (fun v => dec_list dec_container_summary (Some v))).

Definition client_ContainerCreate (name : string) (body : json) : io W string :=
  as_io (do_out "POST" ("/containers/create?name=" +:+ QueryEscape name) (Some body)
    (dec_struct (fun fs => dec_str (jget fs "Id")))).

Definition client_ContainerStart (id : string) : io W unit :=
  as_io (do_ "POST" ("/containers/" +:+ PathEscape id +:+ "/start") None).

Definition client_ContainerStop (id : string) (grace : Z) : io W unit :=
  handling (tolerate [404; 304]%Z)
    (do_ "POST" ("/containers/" +:+ PathEscape id +:+ "/stop?t=" +:+ dec (Z.quot grace Second)) None).

Definition client_ContainerRemove (id : string) (force : bool) : io W unit :=
  handling (tolerate [404%Z]) (do_ "DELETE" ("/containers/" +:+ PathEscape id +:+ forced force) None).
End client.

(** ** Names cannot leave their path segment *)

#[local] Arguments String.append !_ _ / : simpl nomatch.

Definition unhex (c : ascii) : option nat :=
  if is_digit c then Some (nat_of_ascii c - 48)
  else if in_range "A"%char "F"%char c then Some (nat_of_ascii c - 55)
  else None.

(** What the daemon reads back from an escaped path segment. *)
Fixpoint percent_decode (s : string) : option string :=
  match s with
  | EmptyString => Some EmptyString
  | String c s =>
      if Ascii.eqb c "%"%char then
        match s with
        | String h (String l s) =>
            x ← unhex h; y ← unhex l; r ← percent_decode s;
            Some (String (ascii_of_nat (x * 16 + y)) r)
        | _ => None
        end
      else r ← percent_decode s; Some (String c r)
  end.

(** Bytes that do not end a path segment. *)
Definition segment_byte (c : ascii) : bool := negb (has_char "/?#" c).

(** One byte at a time, by cases on the 256 bytes. *)
Lemma path_byte_decodes b rest :
  percent_decode (path_byte b +:+ rest) = (r ← percent_decode rest; Some (String b r)).
Proof.
  destruct b as [[] [] [] [] [] [] [] []];
    match goal with
    | |- context [path_byte ?c] => let v := eval vm_compute in (path_byte c) in change (path_byte c) with v
    end; reflexivity.
Qed.

Lemma path_byte_segment b : sforall segment_byte (path_byte b) = true.
Proof. by destruct b as [[] [] [] [] [] [] [] []]. Qed.

(** Every name and id the client puts in a request path is escaped into
    exactly one path segment, from which the daemon reads the same name back:
    no name can reach another endpoint, another object or a query. *)
Theorem PathEscape_segment s :
  sforall segment_byte (PathEscape s) = true /\ percent_decode (PathEscape s) = Some s.
Proof.
  unfold PathEscape. induction s as [|b s [IH1 IH2]]; cbn [escape_with]; [done|].
  rewrite sforall_app, path_byte_segment, IH1, path_byte_decodes, IH2. done.
Qed.

(** ** Which answers count as success *)

Section outcomes.
Context {W : Type} `{!HttpClient W, !JsonText}.

(** What the answer to [rq] makes of a call that tolerates some statuses. *)
Definition succeeds (rq : request) (tolerated : list Z) (w : W) : bool :=
  match fst (http_do rq w) with
  | Err _ => false
  | Ok resp => ((200 <=? StatusCode resp) && (StatusCode resp <=? 299))%Z ||
               bool_decide (StatusCode resp ∈ tolerated)
  end.

Lemma status_range st :
  ((st <? 200) || (299 <? st))%Z = negb ((200 <=? st) && (st <=? 299))%Z.
Proof. destruct (Z.ltb_spec st 200), (Z.ltb_spec 299 st), (Z.leb_spec 200 st), (Z.leb_spec st 299); first [done|exfalso; lia]. Qed.

Lemma handling_outcome rq tolerated (w : W) :
  is_ok (fst (handling (tolerate tolerated) (send rq (fun _ => Ok tt)) w)) = succeeds rq tolerated w.
Proof.
  unfold handling, send, succeeds. destruct (http_do rq w) as [[resp|e] w']; cbn [fst]; [|done].
  unfold response_error. rewrite status_range.
  destruct ((200 <=? StatusCode resp) && (StatusCode resp <=? 299))%Z; cbn [negb orb]; [done|].
  unfold tolerate. cbn [api_status]. by case_bool_decide.
Qed.

(** The calls the teardown and the retries repeat are idempotent: removing
    what is gone, creating a network that exists, stopping a stopped container
    or connecting a connected one succeeds, a 2xx answer succeeds, and every
    other answer is an error. *)
Theorem idempotent_calls (host id name net : string) (labels : gmap string string) (force : bool) (grace : Z) :
  let rq meth path := mkRequest meth (client_url host path) [] None in
  let post path body := mkRequest "POST" (client_url host path) json_header (Some body) in
  Forall (fun '(call, request, tolerated) =>
            forall w : W, is_ok (fst (call w)) = succeeds request tolerated w)
    [ (client_ContainerRemove host id force,
         rq "DELETE" ("/containers/" +:+ PathEscape id +:+ forced force), [404%Z]);
      (client_ContainerStop host id grace,
         rq "POST" ("/containers/" +:+ PathEscape id +:+ "/stop?t=" +:+ dec (Z.quot grace Second)), [404; 304]%Z);
      (client_NetworkRemove host name, rq "DELETE" ("/networks/" +:+ PathEscape name), [404%Z]);
      (client_VolumeRemove host name force,
         rq "DELETE" ("/volumes/" +:+ PathEscape name +:+ forced force), [404%Z]);
      (client_ImageRemove host name force,
         rq "DELETE" ("/images/" +:+ PathEscape name +:+ forced force), [404%Z]);
      (client_NetworkConnect host net name,
         post ("/networks/" +:+ PathEscape net +:+ "/connect") (JObj [("Container", JStr name)]), [403; 409]%Z);
      (client_NetworkCreate host name labels,
         post "/networks/create" (JObj [("CheckDuplicate", JBool true); ("Driver", JStr "bridge");
           ("Labels", enc_map labels); ("Name", JStr name)]), [409%Z]) ].
Proof. cbv zeta. repeat (apply Forall_cons; split; [intros w; apply handling_outcome|]). apply Forall_nil. done. Qed.

Lemma decode_body_other {A} (dec : json -> option A) resp st m :
  decode_body dec resp <> Err (apiError st m).
Proof. unfold decode_body. repeat case_match; congruence. Qed.

(** An inspect call tells absence from failure: a 404 answer reports the
    container absent, any other error status is an error, and a success is the
    decoded container. *)
Theorem inspect_outcome (host name : string) (w : W) :
  let rq := mkRequest "GET" (client_url host ("/containers/" +:+ PathEscape name +:+ "/json")) [] None in
  fst (client_ContainerInspect host name w) =
    match fst (http_do rq w) with
    | Err e => Err e
    | Ok resp =>
        if ((200 <=? StatusCode resp) && (StatusCode resp <=? 299))%Z then
          match decode_body dec_container_inspect resp with
          | Ok ci => Ok (Some (inspect_state ci))
          | Err e => Err (api_error_Error e)
          end
        else if (StatusCode resp =? 404)%Z then Ok None
        else Err ("docker api " +:+ dec (StatusCode resp) +:+ ": " +:+
                  decodeDockerMessage (stake 2048 (Body resp)))
    end.
Proof.
  cbv zeta. unfold client_ContainerInspect, found, do_out, send, call_request.
  destruct (http_do _ w) as [[resp|e] w']; cbn [fst]; [|done]. unfold response_error.
  rewrite status_range. destruct ((200 <=? StatusCode resp) && (StatusCode resp <=? 299))%Z; cbn [negb].
  - destruct (decode_body dec_container_inspect resp) as [ci|[st m|e]] eqn:E; [done| |done].
    by apply decode_body_other in E.
  - destruct (Z.eqb_spec (StatusCode resp) 404) as [->|Hne]; [done|].
    unfold isNotFound. repeat case_match; congruence || done.
Qed.
End outcomes.
