(* ===== verification/DockerLogs.v ===== *)
(** * Streams of the Docker API client: exec output, logs and statistics

    Models the streaming half of [agent/internal/container/dockerapi.go]: the
    attach framing, the splitting of log streams into lines, exec, the log tail
    and one statistics sample. *)

From Stdlib Require Import Ascii SpecFloat.
From S2P Require Import Prelude GoStrings Json Spec Docker Limiter Driver DockerApi.

Local Open Scope string_scope.
Local Open Scope io_scope.

(** ** The attach framing *)

Definition byte_val (b : ascii) : Z := Z.of_nat (nat_of_ascii b).

(** Four bytes, big-endian. *)
Definition be32_of (a b c d : ascii) : Z :=
  Z.lor (Z.lor (Z.lor (Z.shiftl (byte_val a) 24) (Z.shiftl (byte_val b) 16)) (Z.shiftl (byte_val c) 8)) (byte_val d).

(** The payloads in order, [true] for stderr, and the error that stopped the
    copy: a truncated payload is delivered before its error, a truncated header
    ends the stream. *)
Fixpoint demux (fuel : nat) (s : string) : list (bool * string) * option string :=
  match fuel with
  | O => ([], None)
  | S fuel =>
      match s with
      | String h (String _ (String _ (String _ (String a (String b (String c (String d rest))))))) =>
          let length := be32_of a b c d in
          let is_err := Ascii.eqb h (ascii_of_nat 2) in
          if (Z.of_nat (String.length rest) <? length)%Z then ([(is_err, rest)], Some "EOF")
          else let '(fs, e) := demux fuel (sdrop (Z.to_nat length) rest) in
               ((is_err, stake (Z.to_nat length) rest) :: fs, e)
      | _ => ([], None)
      end
  end.

(** Every frame takes at least eight bytes. *)
Definition demuxDockerStream (s : string) : list (bool * string) * option string :=
  demux (S (String.length s)) s.

(** ** Splitting a stream into lines *)

Definition newline : ascii := ascii_of_nat 10.

(** The complete lines of a buffer and what follows the last newline. *)
Fixpoint split_lines (s : string) : list string * string :=
  match s with
  | EmptyString => ([], "")
  | String b s =>
      let '(ls, r) := split_lines s in
      if Ascii.eqb b newline then ("" :: ls, r)
      else match ls with
           | [] => ([], String b r)
           | l :: ls => (String b l :: ls, r)
           end
  end.

Definition maxLine : nat := 64 * 1024.

(** [logLineSplitter.Write]: the lines emitted and the new buffer. *)
Definition log_write (buf p : string) : list string * string :=
  let '(ls, r) := split_lines (buf +:+ p) in
  if (maxLine <? String.length r)%nat then ((ls ++ [r])%list, "") else (ls, r).

(** [flush] *)
Definition log_flush (buf : string) : list string :=
  if String.eqb buf "" then [] else [buf].

(** The writes of one stream, then the flush. *)
Fixpoint log_writes (buf : string) (ps : list string) : list string :=
  match ps with
  | [] => log_flush buf
  | p :: ps => let '(ls, buf) := log_write buf p in (ls ++ log_writes buf ps)%list
  end.

(** [emit]: drop a leading timestamp. *)
Definition strip_timestamp (is_time : string -> bool) (raw : string) : string :=
  match cut raw " "%char with
  | Some (ts, line) => if negb (String.eqb ts "") && is_time ts then line else raw
  | None => raw
  end.

(** The demultiplexed payloads written to the two splitters; a payload reaches
    its splitter in the pieces the transport delivers. *)
Fixpoint log_frames (chunks : string -> list string) (fs : list (bool * string)) (out err : string)
    : list string * string * string :=
  match fs with
  | [] => ([], out, err)
  | (is_err, payload) :: fs =>
      let '(ls, buf) :=
        fold_left (fun '(acc, buf) p => let '(l, buf) := log_write buf p in ((acc ++ l)%list, buf))
          (chunks payload) ([], if is_err : bool then err else out) in
      let '(ls', out', err') :=
        if is_err then log_frames chunks fs out buf else log_frames chunks fs buf err in
      ((ls ++ ls')%list, out', err')
  end.

Section client.
Context {W : Type} `{!HttpClient W, !JsonText}.
Variable host : string.
(** [time.Parse(time.RFC3339Nano, s)] succeeds; how the reads of a body split. *)
Context (is_time : string -> bool) (chunks : string -> list string).

Definition keep_line (raw : string) : option string :=
  let line := strip_timestamp is_time raw in
  if String.eqb (trim_space line) "" then None else Some line.

Definition last_n (n : nat) (l : list string) : list string := drop (length l - n) l.

Definition client_ContainerLogTail (id : string) (n : Z) : io W (list string) :=
  let n := if (n <=? 0)%Z then 100%Z else n in
  as_io (send (mkRequest "GET" (client_url host ("/containers/" +:+ PathEscape id +:+ "/logs?" +:+
      Encode [("stdout", "true"); ("stderr", "true"); ("tail", dec n)])) [] None)
    (fun resp =>
       let '(fs, e) := demuxDockerStream (stake (Z.to_nat (2 ^ 20)) (Body resp)) in
       let '(ls, out, err) := log_frames chunks fs "" "" in
       let lines := omap keep_line (ls ++ log_flush out ++ log_flush err)%list in
       Ok (match e with
           | Some _ => lines
           | None => if (n <? Z.of_nat (length lines))%Z then last_n (Z.to_nat n) lines else lines
           end))).

(** *** Exec *)

(** [capWriter]: the first [max] bytes. *)
Definition cap_write (max : nat) (ps : list string) : string :=
  stake max (fold_right (fun p acc => p +:+ acc) "" ps).

Definition payloads (is_err : bool) (fs : list (bool * string)) : list string :=
  map snd (List.filter (fun f => Bool.eqb f.1 is_err) fs).

Record exec_result := mkExecResult { ex_ExitCode : Z; ex_Stdout : list string; ex_Stderr : string }.

(** The exit code and the error text of a failed exec travel with its error. *)
Definition containerExec (containerID : string) (cmd env : list string) : W -> (exec_result * option string) * W := fun w =>
  let body := JObj ([("AttachStderr", JBool true); ("AttachStdout", JBool true); ("Cmd", enc_strings cmd)] ++
    (match env with [] => [] | _ => [("Env", enc_strings env)] end) ++ [("Tty", JBool false)])%list in
  let failed e out err := (mkExecResult (-1) out err, Some (api_error_Error e)) in
  match do_out host "POST" ("/containers/" +:+ PathEscape containerID +:+ "/exec") (Some body)
          (dec_struct (fun fs => dec_str (jget fs "Id"))) w with
  | (Err e, w) => (failed e [] "", w)
  | (Ok id, w) =>
      match send (mkRequest "POST" (client_url host ("/exec/" +:+ id +:+ "/start")) json_header
               (Some (JObj [("Detach", JBool false); ("Tty", JBool false)])))
               (fun resp => Ok (demuxDockerStream (Body resp))) w with
      | (Err e, w) => (failed e [] "", w)
      | (Ok (fs, e), w) =>
          let out := payloads false fs in
          let err := cap_write 4096 (payloads true fs) in
          match e with
          | Some e => (failed (otherError ("exec stream: " +:+ e)) out err, w)
          | None =>
              match do_out host "GET" ("/exec/" +:+ id +:+ "/json") None (dec_struct (fun fs =>
                      c ← dec_int (jget fs "ExitCode"); _ ← dec_bool (jget fs "Running"); Some c)) w with
              | (Err e, w) => (failed e out err, w)
              | (Ok code, w) => ((mkExecResult code out err, None), w)
              end
          end
      end
  end.

(** *** Statistics *)

Record stats := mkStats {
  st_total : Z; st_system : Z; st_online : Z; st_pre_total : Z; st_pre_system : Z;
  st_usage : Z; st_inactive : Z;
}.

Definition dec_usage (fs : list (string * json)) : option Z := dec_uint (jget fs "total_usage").
Definition dec_stats : json -> option stats := dec_struct (fun fs =>
  cpu ← dec_struct_field (fun fs => t ← dec_struct_field dec_usage (jget fs "cpu_usage");
          s ← dec_uint (jget fs "system_cpu_usage"); o ← dec_int (jget fs "online_cpus"); Some (t, s, o))
          (jget fs "cpu_stats");
  pre ← dec_struct_field (fun fs => t ← dec_struct_field dec_usage (jget fs "cpu_usage");
          s ← dec_uint (jget fs "system_cpu_usage"); Some (t, s)) (jget fs "precpu_stats");
  mem ← dec_struct_field (fun fs => u ← dec_uint (jget fs "usage");
          i ← dec_struct_field (fun fs => dec_uint (jget fs "inactive_file")) (jget fs "stats"); Some (u, i))
          (jget fs "memory_stats");
  Some (mkStats (fst (fst cpu)) (snd (fst cpu)) (snd cpu) (fst pre) (snd pre) (fst mem) (snd mem))).

Definition cpu_percent (s : stats) : spec_float :=
  let cpuDelta := f64_sub (float_of_Z (st_total s)) (float_of_Z (st_pre_total s)) in
  let sysDelta := f64_sub (float_of_Z (st_system s)) (float_of_Z (st_pre_system s)) in
  let cpus := if (st_online s <=? 0)%Z then 1%Z else st_online s in
  if SFltb (S754_zero false) cpuDelta && SFltb (S754_zero false) sysDelta
  then f64_mul (f64_mul (f64_div cpuDelta sysDelta) (float_of_Z cpus)) (float_of_Z 100)
  else S754_zero false.

Definition mem_bytes (s : stats) : Z :=
  wrap64 (if (st_inactive s <? st_usage s)%Z then st_usage s - st_inactive s else st_usage s).

Definition client_ContainerStatsOnce (id : string) : io W (spec_float * Z) :=
  as_io (do_out host "GET" ("/containers/" +:+ PathEscape id +:+ "/stats?stream=false") None
    (fun v => s ← dec_stats v; Some (cpu_percent s, mem_bytes s))).

(** *** The client implements the daemon interfaces *)

Definition client_docker : rolloutDocker W := {|
  ContainerList := client_ContainerList host;
  ContainerInspect := client_ContainerInspect host;
  ContainerCreate := client_ContainerCreate host;
  ContainerStart := client_ContainerStart host;
  ContainerStop := client_ContainerStop host;
  ContainerRemove := client_ContainerRemove host;
  ContainerLogTail := client_ContainerLogTail;
|}.

Definition client_images : imageRetainer W := {|
  ImageList := client_ImageList host;
  ImageRemove := client_ImageRemove host;
|}.

Definition client_objects : dockerObjects W := {|
  ImagePullAuth := client_ImagePullAuth host;
  NetworkExists := client_NetworkExists host;
  NetworkCreate := client_NetworkCreate host;
  ManagedNetworks := client_ManagedNetworks host;
  NetworkRemove := client_NetworkRemove host;
  NetworkConnect := client_NetworkConnect host;
  VolumeInspect := client_VolumeInspect host;
  VolumeCreate := client_VolumeCreate host;
  VolumeRemove := client_VolumeRemove host;
  ManagedVolumes := client_ManagedVolumes host;
|}.
End client.

(** ** The framing round-trips *)

#[local] Arguments String.append !_ _ / : simpl nomatch.

Definition be_bytes (n : Z) : string :=
  let byte k := ascii_of_nat (Z.to_nat ((n / 2 ^ k) mod 256)) in
  String (byte 24%Z) (String (byte 16%Z) (String (byte 8%Z) (String (byte 0%Z) ""))).

(** A frame as the daemon writes it. *)
Definition frame (f : bool * string) : string :=
  let nul := ascii_of_nat 0 in
  String (ascii_of_nat (if f.1 then 2 else 1)) (String nul (String nul (String nul
    (be_bytes (Z.of_nat (String.length f.2)) +:+ f.2)))).
Definition frames (fs : list (bool * string)) : string := fold_right (fun f acc => frame f +:+ acc) "" fs.

Lemma byte_val_of z : (0 <= z < 256)%Z -> byte_val (ascii_of_nat (Z.to_nat z)) = z.
Proof. intros H. unfold byte_val. rewrite Ascii.nat_ascii_embedding; lia. Qed.

(** Shifted bytes do not overlap. *)
Lemma lor_add_low x y k : (0 <= k)%Z -> (0 <= y < 2 ^ k)%Z -> Z.lor (Z.shiftl x k) y = (x * 2 ^ k + y)%Z.
Proof.
  intros Hk Hy. rewrite Z.shiftl_mul_pow2 by done. symmetry.
  rewrite <- (Z.mod_small y (2 ^ k)) by done. rewrite <- !Z.land_ones by done.
  rewrite Z.add_nocarry_lxor.
  - apply Z.bits_inj'. intros n Hn. rewrite Z.lxor_spec, Z.lor_spec.
    destruct (Z.ltb_spec n k).
    + rewrite Z.mul_pow2_bits_low by done. done.
    + rewrite Z.land_spec, Z.ones_spec_high by lia. rewrite andb_false_r. by destruct (Z.testbit _ _).
  - apply Z.bits_inj'. intros n Hn. rewrite Z.land_spec, Z.bits_0.
    destruct (Z.ltb_spec n k).
    + by rewrite Z.mul_pow2_bits_low by done.
    + rewrite (Z.land_spec y), Z.ones_spec_high by lia. by rewrite !andb_false_r.
Qed.

Lemma be32_be_bytes n : (0 <= n < 2 ^ 32)%Z ->
  match be_bytes n with
  | String a (String b (String c (String d ""))) => be32_of a b c d = n
  | _ => False
  end.
Proof.
  intros H. unfold be_bytes, be32_of.
  assert (Hb : forall k, (0 <= (n / 2 ^ k) mod 256 < 256)%Z) by (intros; apply Z.mod_pos_bound; lia).
  rewrite !byte_val_of by done.
  set (x3 := ((n / 2 ^ 24) mod 256)%Z). set (x2 := ((n / 2 ^ 16) mod 256)%Z).
  set (x1 := ((n / 2 ^ 8) mod 256)%Z). set (x0 := ((n / 2 ^ 0) mod 256)%Z).
  pose proof (Hb 24%Z) as H3. pose proof (Hb 16%Z) as H2. pose proof (Hb 8%Z) as H1. pose proof (Hb 0%Z) as H0.
  fold x3 in H3. fold x2 in H2. fold x1 in H1. fold x0 in H0.
  assert (E32 : Z.lor (Z.shiftl x3 24) (Z.shiftl x2 16) = Z.shiftl (x3 * 2 ^ 8 + x2) 16).
  { rewrite <- (lor_add_low x3 x2 8) by lia. by rewrite Z.shiftl_lor, Z.shiftl_shiftl by lia. }
  rewrite E32.
  assert (E21 : Z.lor (Z.shiftl (x3 * 2 ^ 8 + x2) 16) (Z.shiftl x1 8) =
                Z.shiftl ((x3 * 2 ^ 8 + x2) * 2 ^ 8 + x1) 8).
  { rewrite <- (lor_add_low _ x1 8) by lia. by rewrite Z.shiftl_lor, Z.shiftl_shiftl by lia. }
  rewrite E21, lor_add_low by lia.
  unfold x3, x2, x1, x0. rewrite Z.div_1_r.
  replace (n / 2 ^ 16)%Z with (n / 2 ^ 8 / 2 ^ 8)%Z by (rewrite Z.div_div by lia; done).
  replace (n / 2 ^ 24)%Z with (n / 2 ^ 8 / 2 ^ 8 / 2 ^ 8)%Z by (rewrite !Z.div_div by lia; done).
  assert (n / 2 ^ 8 / 2 ^ 8 / 2 ^ 8 < 256)%Z.
  { rewrite !Z.div_div by lia. apply Z.div_lt_upper_bound; lia. }
  assert (0 <= n / 2 ^ 8 / 2 ^ 8 / 2 ^ 8)%Z by (apply Z.div_pos; [apply Z.div_pos; [apply Z.div_pos|]|]; lia).
  rewrite (Z.mod_small (n / 2 ^ 8 / 2 ^ 8 / 2 ^ 8)) by lia.
  pose proof (Z.div_mod n 256). pose proof (Z.div_mod (n / 2 ^ 8) 256).
  pose proof (Z.div_mod (n / 2 ^ 8 / 2 ^ 8) 256). change (2 ^ 8)%Z with 256%Z in *. lia.
Qed.

Lemma stake_app a b : stake (String.length a) (a +:+ b) = a.
Proof. induction a as [|x a IH]; cbn; [by destruct b|]. by f_equal. Qed.

Lemma demux_frame fuel f rest :
  (Z.of_nat (String.length f.2) < 2 ^ 32)%Z ->
  demux (S fuel) (frame f +:+ rest) = let '(fs, e) := demux fuel rest in (f :: fs, e).
Proof.
  destruct f as [is_err payload]. cbn [fst snd]. intros H. unfold frame. cbn [fst snd].
  pose proof (be32_be_bytes (Z.of_nat (String.length payload))) as Hb.
  specialize (Hb ltac:(lia)).
  destruct (be_bytes _) as [|a [|b [|c [|d [|? ?]]]]]; try done.
  cbn [String.append demux]. rewrite Hb. rewrite length_app_str, Nat2Z.id, stake_app, sdrop_app.
  destruct (Z.ltb_spec (Z.of_nat (String.length payload + String.length rest)) (Z.of_nat (String.length payload)));
    [lia|]. destruct (demux fuel rest) as [fs e]. by destruct is_err.
Qed.

Lemma demux_frames fuel fs :
  (forall f, f ∈ fs -> (Z.of_nat (String.length f.2) < 2 ^ 32)%Z) -> (length fs <= fuel)%nat ->
  demux fuel (frames fs) = (fs, None).
Proof.
  revert fuel. induction fs as [|f fs IH]; intros fuel Hf Hl; [by destruct fuel|].
  destruct fuel as [|fuel]; [cbn in Hl; lia|]. cbn [frames fold_right]. fold (frames fs).
  rewrite demux_frame by (apply Hf; left). rewrite IH; [done| |cbn in Hl; lia].
  intros g Hg. apply Hf. by right.
Qed.

Lemma frames_length fs : (length fs <= String.length (frames fs))%nat.
Proof.
  induction fs as [|f fs IH]; cbn [frames fold_right length]; [lia|]. fold (frames fs).
  rewrite length_app_str. unfold frame. cbn [String.length]. lia.
Qed.

(** The stream decoder inverts the daemon's framing: for any sequence of
    stdout and stderr frames whose lengths fit the 32-bit header, it returns
    exactly those frames, in order, and no error. *)
Theorem demux_roundtrip fs :
  (forall f, f ∈ fs -> (Z.of_nat (String.length f.2) < 2 ^ 32)%Z) ->
  demuxDockerStream (frames fs) = (fs, None).
Proof.
  intros H. apply demux_frames; [done|]. pose proof (frames_length fs). lia.
Qed.

Lemma demux_roundtrip_witness :
  let fs := [(false, "hello"); (true, ""); (false, "x y")] in
  (forall f, f ∈ fs -> (Z.of_nat (String.length f.2) < 2 ^ 32)%Z) /\
  demuxDockerStream (frames fs) = (fs, None).
Proof.
  cbv zeta. assert (H : forall f, f ∈ [(false, "hello"); (true, ""); (false, "x y")] ->
    (Z.of_nat (String.length f.2) < 2 ^ 32)%Z).
  { intros f Hf. rewrite !elem_of_cons in Hf. destruct Hf as [->|[->|[->|?%not_elem_of_nil]]]; done. }
  split; [exact H|exact (demux_roundtrip _ H)].
Defined.

(** ** Line splitting does not depend on the chunking *)

Lemma split_lines_app a b :
  split_lines (a +:+ b) =
    let '(l1, r1) := split_lines a in let '(l2, r2) := split_lines (r1 +:+ b) in ((l1 ++ l2)%list, r2).
Proof.
  induction a as [|x a IH]; cbn [String.append split_lines].
  { destruct (split_lines b). done. }
  rewrite IH. destruct (split_lines a) as [l1 r1].
  destruct (Ascii.eqb x newline) eqn:Ex.
  - by destruct (split_lines (r1 +:+ b)).
  - destruct l1 as [|l l1].
    + cbn [String.append split_lines]. destruct (split_lines (r1 +:+ b)) as [[|l2 ls2] r2]; by rewrite Ex.
    + by destruct (split_lines (r1 +:+ b)).
Qed.

Lemma split_lines_rest s : split_lines (snd (split_lines s)) = ([], snd (split_lines s)).
Proof.
  induction s as [|b s IH]; cbn [split_lines]; [done|].
  destruct (split_lines s) as [ls r]. cbn [snd] in *.
  destruct (Ascii.eqb b newline) eqn:Eb; [done|]. destruct ls as [|l ls]; [|done].
  cbn [snd split_lines]. by rewrite IH, Eb.
Qed.

(** A partial line is part of the line it becomes. *)
Lemma partial_line r q : split_lines r = ([], r) ->
  let '(ls, x) := split_lines (r +:+ q) in
  exists line, head (ls ++ [x])%list = Some line /\ (String.length r <= String.length line)%nat.
Proof.
  induction r as [|b r IH]; cbn [String.append split_lines].
  { intros _. destruct (split_lines q) as [[|l ls] x]; cbn; eexists; split; done || lia. }
  destruct (split_lines r) as [lr rr] eqn:Er. destruct (Ascii.eqb b newline); [done|].
  destruct lr; [|done]. intros [= ->]. specialize (IH eq_refl).
  destruct (split_lines (r +:+ q)) as [[|l ls] x]; cbn in *;
    destruct IH as (line & [= <-] & Hl); eexists; (split; [done|]); cbn; lia.
Qed.

(** The lines of a whole stream, the unfinished last one included. *)
Definition stream_lines (s : string) : list string :=
  let '(ls, r) := split_lines s in (ls ++ log_flush r)%list.

Definition lines_bounded (s : string) : Prop :=
  let '(ls, r) := split_lines s in forall l, l ∈ (ls ++ [r])%list -> (String.length l <= maxLine)%nat.

Lemma log_writes_from buf ps :
  split_lines buf = ([], buf) -> lines_bounded (buf +:+ fold_right String.append "" ps) ->
  log_writes buf ps = stream_lines (buf +:+ fold_right String.append "" ps).
Proof.
  revert buf. induction ps as [|p ps IH]; intros buf Hb Hl; cbn [log_writes fold_right].
  { unfold stream_lines. by rewrite app_nil_r_str, Hb. }
  unfold log_write, stream_lines, lines_bounded in *. cbn [fold_right] in *.
  rewrite <- app_assoc_str in *. rewrite (split_lines_app (buf +:+ p)) in *.
  pose proof (split_lines_rest (buf +:+ p)) as Hr.
  destruct (split_lines (buf +:+ p)) as [ls r]. cbn [snd] in Hr.
  pose proof (partial_line r (fold_right String.append "" ps) Hr) as Hpl.
  specialize (IH r Hr). destruct (split_lines (r +:+ fold_right String.append "" ps)) as [l2 r2].
  destruct Hpl as (line & Hhd & Hlen).
  assert (Hle : (String.length r <= maxLine)%nat).
  { etrans; [exact Hlen|]. apply Hl. rewrite <- app_assoc. apply elem_of_app. right.
    destruct l2; injection Hhd as ->; left. }
  destruct (Nat.ltb_spec maxLine (String.length r)); [lia|].
  rewrite IH, app_assoc; [done|]. intros l Hin. apply Hl. rewrite <- app_assoc.
  apply elem_of_app. by right.
Qed.

(** The log splitter does not depend on how the transport cuts the stream:
    as long as no line exceeds the 64 KiB backstop, the lines handed on are the
    lines of the concatenated stream, each once and in order, the unfinished
    last one included. *)
Theorem log_writes_spec ps :
  lines_bounded (fold_right String.append "" ps) ->
  log_writes "" ps = stream_lines (fold_right String.append "" ps).
Proof. intros H. by apply (log_writes_from "" ps). Qed.

Definition demo_chunks : list string :=
  ["ab"; String newline "c"; ""; "d"; String newline (String newline "e")].

Lemma log_writes_spec_witness :
  lines_bounded (fold_right String.append "" demo_chunks) /\
  log_writes "" demo_chunks = ["ab"; "cd"; ""; "e"].
Proof.
  assert (H : lines_bounded (fold_right String.append "" demo_chunks)).
  { cbv [lines_bounded]. change (split_lines (fold_right String.append "" demo_chunks))
      with (["ab"; "cd"; ""], "e"). cbn [app]. intros l Hl. rewrite !elem_of_cons in Hl.
    destruct Hl as [->|[->|[->|[->|?%not_elem_of_nil]]]]; [..|done]; apply Nat.leb_le; vm_compute; reflexivity. }
  split; [exact H|]. rewrite (log_writes_spec demo_chunks H). vm_compute. reflexivity.
Defined.
