(* ===== verification/Naming.v ===== *)
(** * Names the control plane gives to what it deploys

    Models [cp/internal/dsd/naming.go]: the names of containers, networks,
    volumes, images and Kubernetes objects.  The agent refuses a name its
    policy does not permit ([Policy]) and Kubernetes one that is no RFC 1123
    label, so the theorems are about both sides at once.  [K8sName] ends a name
    that is too long with a digest of it; SHA-256 is written out here. *)

From Stdlib Require Import Ascii.
From S2P Require Import Prelude GoStrings Policy.

Local Open Scope string_scope.
#[local] Arguments String.append !_ _ / : simpl nomatch.

(** ** SHA-256 (FIPS 180-4), on words in [0, 2^32) *)

Definition word32 (x : N) : N := N.land x 4294967295.
Definition add32 (x y : N) : N := word32 (x + y).
Definition rotr (n x : N) : N := N.lor (N.shiftr x n) (word32 (N.shiftl x (32 - n))).

(** Integer cube root, bit by bit from bit [k]. *)
Fixpoint cube_root (k : nat) (r x : N) : N :=
  let r' := (r + 2 ^ N.of_nat k)%N in
  let r := if (r' * r' * r' <=? x)%N then r' else r in
  match k with
  | O => r
  | S k => cube_root k r x
  end.

Definition is_prime (n : nat) : bool :=
  (2 <=? n)%nat && forallb (fun d => negb (n mod d =? 0)%nat) (seq 2 (n - 2)).
Definition primes : list nat := Eval vm_compute in List.filter is_prime (seq 0 312).

(** The first 32 bits of the fractional parts of the cube roots of the first
    64 primes, and of the square roots of the first 8. *)
Definition sha_K : list N := Eval vm_compute in
  map (fun p => word32 (cube_root 36 0 (N.of_nat p * 2 ^ 96))) primes.
Definition sha_H0 : list N := Eval vm_compute in
  map (fun p => word32 (N.sqrt (N.of_nat p * 2 ^ 64))) (take 8 primes).

(** [n] big-endian bytes of a number *)
Fixpoint be_bytes (n : nat) (x : N) : list N :=
  match n with
  | O => []
  | S n => (be_bytes n (x / 256) ++ [x mod 256]%N)%list
  end.

Definition sha_pad (msg : list N) : list N :=
  let l := length msg in
  (msg ++ [128%N] ++ repeat 0%N ((119 - l mod 64) mod 64) ++ be_bytes 8 (8 * N.of_nat l))%list.

Fixpoint be_words (bs : list N) : list N :=
  match bs with
  | a :: b :: c :: d :: bs => (((a * 256 + b) * 256 + c) * 256 + d)%N :: be_words bs
  | _ => []
  end.

(** The message schedule, newest word first. *)
Fixpoint sha_schedule (n : nat) (w : list N) : list N :=
  match n with
  | O => w
  | S n =>
      let at_ i := nth (i - 1) w 0%N in
      let s0 := N.lxor (N.lxor (rotr 7 (at_ 15)) (rotr 18 (at_ 15))) (N.shiftr (at_ 15) 3) in
      let s1 := N.lxor (N.lxor (rotr 17 (at_ 2)) (rotr 19 (at_ 2))) (N.shiftr (at_ 2) 10) in
      sha_schedule n (add32 (add32 s1 (at_ 7)) (add32 s0 (at_ 16)) :: w)
  end.

Definition sha_round (st : list N) (kw : N * N) : list N :=
  match st with
  | [a; b; c; d; e; f; g; h] =>
      let S1 := N.lxor (N.lxor (rotr 6 e) (rotr 11 e)) (rotr 25 e) in
      let ch := N.lxor (N.land e f) (N.land (N.lxor e 4294967295) g) in
      let t1 := add32 (add32 (add32 h S1) ch) (add32 kw.1 kw.2) in
      let S0 := N.lxor (N.lxor (rotr 2 a) (rotr 13 a)) (rotr 22 a) in
      let maj := N.lxor (N.lxor (N.land a b) (N.land a c)) (N.land b c) in
      [add32 t1 (add32 S0 maj); a; b; c; add32 d t1; e; f; g]
  | _ => st
  end.

Definition sha_block (st : list N) (block : list N) : list N :=
  let w := rev (sha_schedule 48 (rev (be_words block))) in
  zip_with add32 st (fold_left sha_round (zip sha_K w) st).

Fixpoint sha_blocks (n : nat) (st : list N) (bs : list N) : list N :=
  match n with
  | O => st
  | S n => sha_blocks n (sha_block st (take 64 bs)) (drop 64 bs)
  end.

Fixpoint string_bytes (s : string) : list N :=
  match s with
  | EmptyString => []
  | String b s => N_of_ascii b :: string_bytes s
  end.

(** [sha256.Sum256] *)
Definition sha256_sum (s : string) : list N :=
  let p := sha_pad (string_bytes s) in
  mbind (be_bytes 4) (sha_blocks (length p / 64) sha_H0 p).

(** [hex.EncodeToString] *)
Fixpoint hex_encode (bs : list N) : string :=
  match bs with
  | [] => ""
  | b :: bs =>
      String (hex_digit (N.to_nat (b / 16 mod 16)))
        (String (hex_digit (N.to_nat (b mod 16))) (hex_encode bs))
  end.

Example sha256_abc :
  hex_encode (sha256_sum "abc") = "ba7816bf8f01cfea414140de5dae2223b00361a396177a9cb410ff61f20015ad".
Proof. vm_compute. reflexivity. Qed.
Example sha256_two_blocks :
  hex_encode (sha256_sum "abcdbcdecdefdefgefghfghighijhijkijkljklmklmnlmnomnopnopq") =
  "248d6a61d20638b8e5c026930c3e6039a33ce45964ff2167f6ecedd419db06c1".
Proof. vm_compute. reflexivity. Qed.

(** ** Runes *)

(** The runes a [range] over a string yields; a byte that starts no valid
    UTF-8 sequence yields U+FFFD and is skipped alone. *)
Definition RuneError : N := 65533.

Definition cont (lo hi : N) (b : ascii) : bool := (lo <=? N_of_ascii b)%N && (N_of_ascii b <=? hi)%N.
Definition low6 (b : ascii) : N := N.land (N_of_ascii b) 63.

Fixpoint runes (s : string) : list N :=
  match s with
  | EmptyString => []
  | String b0 s1 =>
      let x := N_of_ascii b0 in
      if (x <? 128)%N then x :: runes s1
      else if cont 194 223 b0 then
        match s1 with
        | String b1 s2 =>
            if cont 128 191 b1 then (N.land x 31 * 64 + low6 b1)%N :: runes s2 else RuneError :: runes s1
        | EmptyString => [RuneError]
        end
      else if cont 224 239 b0 then
        match s1 with
        | String b1 (String b2 s3) =>
            if cont (if (x =? 224)%N then 160 else 128) (if (x =? 237)%N then 159 else 191) b1 && cont 128 191 b2
            then ((N.land x 15 * 64 + low6 b1) * 64 + low6 b2)%N :: runes s3 else RuneError :: runes s1
        | _ => RuneError :: runes s1
        end
      else if cont 240 244 b0 then
        match s1 with
        | String b1 (String b2 (String b3 s4)) =>
            if cont (if (x =? 240)%N then 144 else 128) (if (x =? 244)%N then 143 else 191) b1 &&
               cont 128 191 b2 && cont 128 191 b3
            then (((N.land x 7 * 64 + low6 b1) * 64 + low6 b2) * 64 + low6 b3)%N :: runes s4
            else RuneError :: runes s1
        | _ => RuneError :: runes s1
        end
      else RuneError :: runes s1
  end.

(** [unicode.ToLower], as far as the ASCII result goes: two letters outside
    ASCII have a lower case inside it, the dotted capital I and the Kelvin
    sign; every other rune outside ASCII stays outside. *)
Definition lower_rune (r : N) : N :=
  if (65 <=? r)%N && (r <=? 90)%N then (r + 32)%N
  else if (r =? 304)%N then 105%N
  else if (r =? 8490)%N then 107%N
  else r.

(** ** Docker names *)

Definition DeployImageTag (resourceID sha : string) : string := "sigmahub/" +:+ resourceID +:+ ":" +:+ sha.

Definition DeployServiceImageTag (resourceID service sha : string) : string :=
  "sigmahub/" +:+ resourceID +:+ "-" +:+ service +:+ ":" +:+ sha.

Definition DeployPin (deploymentID : string) : string :=
  let pin := match cut_last deploymentID "_"%char with Some (_, r) => r | None => deploymentID end in
  if (6 <? String.length pin)%nat then sdrop (String.length pin - 6) pin else pin.

Definition PinnedImageTag (resourceID sha pin : string) : string :=
  if String.eqb pin "" then DeployImageTag resourceID sha
  else DeployImageTag resourceID sha +:+ "-" +:+ pin.

Definition PinnedServiceImageTag (resourceID service sha pin : string) : string :=
  if String.eqb pin "" then DeployServiceImageTag resourceID service sha
  else DeployServiceImageTag resourceID service sha +:+ "-" +:+ pin.

Definition ServiceContainerName (resourceID service : string) : string :=
  "sigmahub-" +:+ resourceID +:+ "-" +:+ service.

Definition TraefikRouterName (resourceID : string) : string := "sigmahub-" +:+ resourceID.

Definition TraefikGenerationRouterName (resourceID generation : string) : string :=
  if String.eqb generation "" then TraefikRouterName resourceID
  else "sigmahub-" +:+ resourceID +:+ "-" +:+ generation.

Definition NetworkName (projectID : string) : string := "sigmahub-" +:+ projectID.
Definition ResourceNetworkName (resourceID : string) : string := "sigmahub-app-" +:+ resourceID.
Definition ContainerName (resourceID : string) : string := "sigmahub-" +:+ resourceID.
Definition VolumeName (resourceID vol : string) : string := "sigmahub-" +:+ resourceID +:+ "-" +:+ vol.

(** ** Kubernetes names *)

Definition k8sNameMax : nat := 63.

(** One rune of the loop: kept when it is a lower-case letter or a digit. *)
Definition k8s_rune (r : N) : ascii :=
  if ((97 <=? r) && (r <=? 122))%N || ((48 <=? r) && (r <=? 57))%N then ascii_of_N r else "-"%char.

Fixpoint k8s_runes (rs : list N) : string :=
  match rs with
  | [] => ""
  | r :: rs => String (k8s_rune r) (k8s_runes rs)
  end.

Definition K8sName (raw : string) : string :=
  let s := trim (is_byte "-"%char) (k8s_runes (map lower_rune (runes raw))) in
  if String.eqb s "" then ""
  else if (String.length s <=? k8sNameMax)%nat then s
  else
    let sum := sha256_sum raw in
    let suffix := "-" +:+ hex_encode (take 4 sum) in
    trim (is_byte "-"%char) (stake (k8sNameMax - String.length suffix) s) +:+ suffix.

Definition K8sWorkloadName (resourceID service : string) : string :=
  if String.eqb service "" then K8sName (ContainerName resourceID)
  else K8sName (ServiceContainerName resourceID service).

Definition K8sNamespace (projectID : string) : string := K8sName (NetworkName projectID).

Definition QualifyImage (repository tag : string) : string :=
  let repository := trim (is_byte "/"%char) (trim_space repository) in
  if String.eqb repository "" then tag
  else repository +:+ "/" +:+ trim_prefix tag "sigmahub/".

Example K8sName_prefixed : K8sName "sigmahub-res_0A1b" = "sigmahub-res-0a1b".
Proof. vm_compute. reflexivity. Qed.
Example DeployPin_tail : DeployPin "dep_0123456789abcdef" = "abcdef" /\ DeployPin "x" = "x".
Proof. split; vm_compute; reflexivity. Qed.
Example K8sName_kelvin : K8sName (String (ascii_of_nat 226) (String (ascii_of_nat 132) (String (ascii_of_nat 170) "/é_"))) = "k".
Proof. vm_compute. reflexivity. Qed.

(** ** What a Kubernetes name looks like *)

Definition label_char (b : ascii) : bool := is_lower b || is_digit b || Ascii.eqb b "-"%char.

(** An RFC 1123 label. *)
Record rfc1123_label (s : string) : Prop := {
  lb_nonempty : s <> "";
  lb_length : (String.length s <= 63)%nat;
  lb_chars : sforall label_char s = true;
  lb_first : forall t, s <> String "-"%char t;
  lb_last : forall t, s <> t +:+ "-";
}.

(** No rune of [raw] is legal. *)
Definition nothing_legal (raw : string) : Prop :=
  forall r, r ∈ runes raw -> k8s_rune (lower_rune r) = "-"%char.

Section trim.
Context (f : ascii -> bool).

Lemma trim_left_suffix s : exists a, s = a +:+ trim_left f s /\ sforall f a = true.
Proof.
  induction s as [|b s (a & E & Ha)]; cbn; [by exists ""|].
  destruct (f b) eqn:Eb; [|by exists ""]. exists (String b a). cbn. by rewrite <- E, Eb, Ha.
Qed.

Lemma trim_right_prefix s : exists z, s = trim_right f s +:+ z /\ sforall f z = true.
Proof.
  induction s as [|b s (z & E & Hz)]; cbn; [by exists ""|].
  destruct (trim_right f s) as [|c t] eqn:Et; cbn in *.
  - subst z. destruct (f b) eqn:Eb; [|by exists s]. exists (String b s). cbn. by rewrite Eb, Hz.
  - exists z. by rewrite <- E.
Qed.

Lemma trim_left_head s c t : trim_left f s = String c t -> f c = false.
Proof.
  induction s as [|b s IH]; cbn; [done|]. destruct (f b) eqn:E; [done|]. by intros [= <- <-].
Qed.

Lemma trim_right_last s t c : trim_right f s = t +:+ String c "" -> f c = false.
Proof.
  revert t. induction s as [|b s IH]; intros t; cbn; [by destruct t|].
  destruct (trim_right f s) as [|d u] eqn:Et.
  - destruct (f b) eqn:Eb; [by destruct t|]. destruct t as [|? t]; cbn; [by intros [= ->]|]. by destruct t.
  - destruct t as [|x t]; cbn; [done|]. intros [= -> E]. exact (IH t E).
Qed.

Lemma trim_right_cons b s : f b = false -> trim_right f (String b s) = String b (trim_right f s).
Proof. intros E. cbn. rewrite E. by destruct (trim_right f s). Qed.

Lemma trim_right_head s c t : trim_right f s = String c t -> exists u, s = String c u.
Proof.
  intros E. destruct (trim_right_prefix s) as (z & Es & _). rewrite E in Es. cbn in Es. eauto.
Qed.

Lemma trim_factor s : exists a z, s = a +:+ trim f s +:+ z /\ sforall f a = true /\ sforall f z = true.
Proof.
  destruct (trim_left_suffix s) as (a & Ea & Ha). destruct (trim_right_prefix (trim_left f s)) as (z & Ez & Hz).
  exists a, z. unfold trim. by rewrite <- Ez, <- Ea.
Qed.

Lemma trim_head s c t : trim f s = String c t -> f c = false.
Proof. intros (u & E)%trim_right_head. by eapply trim_left_head. Qed.

Lemma trim_last s t c : trim f s = t +:+ String c "" -> f c = false.
Proof. apply trim_right_last. Qed.

Lemma trim_length s : (String.length (trim f s) <= String.length s)%nat.
Proof. destruct (trim_factor s) as (a & z & E & _). rewrite E at 2. rewrite !length_app_str. lia. Qed.

Lemma trim_sforall g s : sforall g s = true -> sforall g (trim f s) = true.
Proof.
  destruct (trim_factor s) as (a & z & E & _). rewrite E at 1. rewrite !sforall_app, !andb_true_iff. tauto.
Qed.

Lemma trim_right_keep s : (forall t c, s = t +:+ String c "" -> f c = false) -> trim_right f s = s.
Proof.
  induction s as [|b s IH]; intros H; [done|]. cbn. rewrite IH.
  - destruct s as [|c s]; [|done]. by rewrite (H "" b eq_refl).
  - intros t c ->. by apply (H (String b t) c).
Qed.

Lemma trim_keep s :
  (forall c t, s = String c t -> f c = false) -> (forall t c, s = t +:+ String c "" -> f c = false) -> trim f s = s.
Proof.
  intros Hh Hl. unfold trim. replace (trim_left f s) with s; [by apply trim_right_keep|].
  destruct s as [|b s]; [done|]. cbn. by rewrite (Hh b s eq_refl).
Qed.
End trim.

Lemma str_last s : s = "" \/ exists t c, s = t +:+ String c "".
Proof.
  induction s as [|b s [->|(t & c & ->)]]; [by left|right..]; [by exists "", b|by exists (String b t), c].
Qed.

Lemma app_last_inj s t c d : s +:+ String c "" = t +:+ String d "" -> c = d.
Proof.
  revert t. induction s as [|b s IH]; intros [|e t]; cbn.
  - by intros [= ->].
  - intros [= -> E]. by destruct t.
  - intros [= -> E]. by destruct s.
  - intros [= -> E]. eauto.
Qed.

(** ** The loop of [K8sName] *)

Lemma k8s_rune_label r : label_char (k8s_rune r) = true.
Proof.
  destruct (decide (r < 128)%N) as [H|H].
  - assert (A : forallb (fun n => label_char (k8s_rune (N.of_nat n))) (seq 0 128) = true) by (vm_compute; done).
    rewrite forallb_forall in A. rewrite <- (N2Nat.id r). apply A, in_seq. lia.
  - unfold k8s_rune. destruct (N.leb_spec r 122); [lia|]. destruct (N.leb_spec r 57); [lia|].
    by rewrite !andb_false_r.
Qed.

Lemma k8s_runes_label rs : sforall label_char (k8s_runes rs) = true.
Proof. induction rs as [|r rs IH]; [done|]. cbn. by rewrite k8s_rune_label, IH. Qed.

Lemma k8s_runes_dashes rs :
  sforall (is_byte "-"%char) (k8s_runes rs) = true <-> forall r, r ∈ rs -> k8s_rune r = "-"%char.
Proof.
  induction rs as [|r rs IH]; cbn; [split; [by intros _ r ?%not_elem_of_nil|done]|].
  rewrite andb_true_iff, IH. unfold is_byte at 1. rewrite Ascii.eqb_eq. set_solver.
Qed.

Lemma hex_digit_label n : (n < 16)%nat -> label_char (hex_digit n) = true /\ hex_digit n <> "-"%char.
Proof. intros H. do 16 (destruct n as [|n]; [split; [reflexivity|by vm_compute]|]). lia. Qed.

Lemma hex_encode_label bs : sforall label_char (hex_encode bs) = true.
Proof.
  assert (Hlt : forall x, (N.to_nat (x mod 16) < 16)%nat) by (intros x; pose proof (N.mod_lt x 16); lia).
  induction bs as [|b bs IH]; [done|]. cbn [hex_encode sforall].
  rewrite IH, (proj1 (hex_digit_label _ (Hlt b))), (proj1 (hex_digit_label _ (Hlt (b / 16)%N))). done.
Qed.

Lemma hex_encode_length bs : String.length (hex_encode bs) = (2 * length bs)%nat.
Proof. induction bs as [|b bs IH]; [done|]. cbn [hex_encode String.length length]. rewrite IH. lia. Qed.

Lemma hex_encode_last bs t : hex_encode bs <> t +:+ "-".
Proof.
  assert (Hlt : forall x, (N.to_nat (x mod 16) < 16)%nat) by (intros x; pose proof (N.mod_lt x 16); lia).
  revert t. induction bs as [|b bs IH]; intros t; cbn [hex_encode]; [by destruct t|].
  destruct t as [|x t]; [done|]. destruct t as [|y t]; cbn.
  - intros [= _ E _]. by destruct (hex_digit_label _ (Hlt b)).
  - intros [= _ _ E]. by eapply IH.
Qed.

(** A digest has 32 bytes. *)
Lemma be_bytes_length n x : length (be_bytes n x) = n.
Proof. revert x. induction n as [|n IH]; intros x; [done|]. cbn. rewrite length_app, IH. cbn. lia. Qed.

Lemma sha_round_length st kw : length st = 8%nat -> length (sha_round st kw) = 8%nat.
Proof. do 9 (destruct st as [|? st]; try done). Qed.

Lemma sha_fold_length kws st : length st = 8%nat -> length (fold_left sha_round kws st) = 8%nat.
Proof. revert st. induction kws as [|kw kws IH]; intros st H; [done|]. cbn. by apply IH, sha_round_length. Qed.

Lemma sha_blocks_length n bs st : length st = 8%nat -> length (sha_blocks n st bs) = 8%nat.
Proof.
  revert st bs. induction n as [|n IH]; intros st bs H; [done|]. cbn. apply IH.
  unfold sha_block. rewrite length_zip_with, sha_fold_length by done. by rewrite H.
Qed.

Lemma sha256_length raw : length (sha256_sum raw) = 32%nat.
Proof.
  unfold sha256_sum. pose proof (sha_blocks_length (length (sha_pad (string_bytes raw)) / 64)
    (sha_pad (string_bytes raw)) sha_H0 eq_refl) as H.
  set (ws := sha_blocks _ _ _) in *. do 8 (destruct ws as [|? ws]; [done|]). by destruct ws.
Qed.

(** The suffix of a name that was cut: a dash and eight hexadecimal digits. *)
Definition digest_suffix (raw : string) : string := "-" +:+ hex_encode (take 4 (sha256_sum raw)).

Lemma digest_suffix_length raw : String.length (digest_suffix raw) = 9%nat.
Proof.
  unfold digest_suffix. rewrite length_app_str, hex_encode_length, length_take, sha256_length. done.
Qed.

Lemma digest_suffix_last raw t : digest_suffix raw <> t +:+ "-".
Proof.
  intros E. destruct t as [|c t].
  - pose proof (digest_suffix_length raw) as L. by rewrite E in L.
  - revert E. unfold digest_suffix. pose proof (hex_encode_last (take 4 (sha256_sum raw)) t) as H.
    revert H. generalize (hex_encode (take 4 (sha256_sum raw))). intros h H [= _ E]. by apply H.
Qed.

Lemma suffix_last raw a t : a +:+ digest_suffix raw <> t +:+ "-".
Proof.
  destruct (str_last (digest_suffix raw)) as [E|(u & c & E)].
  - pose proof (digest_suffix_length raw) as L. by rewrite E in L.
  - rewrite E, <- app_assoc_str. intros ->%app_last_inj. by apply digest_suffix_last in E.
Qed.

Lemma hex_label_suffix raw : sforall label_char (digest_suffix raw) = true.
Proof.
  unfold digest_suffix. rewrite sforall_app. apply andb_true_iff. split; [done|apply hex_encode_label].
Qed.

Lemma sforall_stake f n s : sforall f s = true -> sforall f (stake n s) = true.
Proof. rewrite <- (stake_sdrop n s) at 1. rewrite sforall_app, andb_true_iff. tauto. Qed.

(** *** The name *)

Lemma K8sName_unfold raw :
  K8sName raw =
  let s := trim (is_byte "-"%char) (k8s_runes (map lower_rune (runes raw))) in
  if String.eqb s "" then ""
  else if (String.length s <=? 63)%nat then s
  else trim (is_byte "-"%char) (stake 54 s) +:+ digest_suffix raw.
Proof.
  unfold K8sName. fold (digest_suffix raw). by rewrite digest_suffix_length.
Qed.

Lemma trimmed_label s :
  sforall label_char s = true -> let t := trim (is_byte "-"%char) s in
  (String.length t <= 63)%nat -> t <> "" -> rfc1123_label t.
Proof.
  intros Hs t Hl Hne. split; [done|done|by apply trim_sforall|..]; unfold t.
  - intros u E. apply trim_head in E. by vm_compute in E.
  - intros u E. apply trim_last in E. by vm_compute in E.
Qed.

(** A cut name keeps its first character. *)
Lemma trim_stake_head f n c u :
  f c = false -> exists v, trim f (stake (S n) (String c u)) = String c v.
Proof.
  intros Hc. unfold trim. cbn [stake trim_left]. rewrite Hc, trim_right_cons by done. eauto.
Qed.

Lemma K8sName_cases raw :
  (K8sName raw = "" /\ nothing_legal raw) \/ rfc1123_label (K8sName raw).
Proof.
  rewrite K8sName_unfold. set (k := k8s_runes _). cbv zeta.
  assert (Hk : sforall label_char k = true) by apply k8s_runes_label.
  destruct (String.eqb_spec (trim (is_byte "-"%char) k) "") as [E|E].
  - left. split; [done|]. destruct (trim_factor (is_byte "-"%char) k) as (a & z & Ek & Ha & Hz).
    rewrite E in Ek. cbn in Ek. intros r Hr.
    assert (Hd : sforall (is_byte "-"%char) k = true) by (rewrite Ek, sforall_app, Ha, Hz; done).
    apply (proj1 (k8s_runes_dashes _) Hd). apply list_elem_of_fmap_2; done.
  - right. destruct (Nat.leb_spec (String.length (trim (is_byte "-"%char) k)) 63) as [L|L].
    { by apply trimmed_label. }
    destruct (trim (is_byte "-"%char) k) as [|c u] eqn:Et; [done|].
    pose proof (trim_head _ _ _ _ Et) as Hc.
    destruct (trim_stake_head (is_byte "-"%char) 53 c u Hc) as (v & Ev).
    pose proof (trim_length (is_byte "-"%char) (stake 54 (String c u))) as Hlen.
    rewrite length_stake, Ev in Hlen. rewrite Ev. split.
    + done.
    + rewrite length_app_str, digest_suffix_length. lia.
    + rewrite sforall_app. apply andb_true_iff. split; [|apply hex_label_suffix].
      rewrite <- Ev. apply trim_sforall, sforall_stake. rewrite <- Et. by apply trim_sforall.
    + intros t [= -> _]. by vm_compute in Hc.
    + intros t E'. by apply suffix_last in E'.
Qed.

(** On the bytes our identifiers are made of the loop works byte by byte. *)
Definition id_char (b : ascii) : bool := is_lower b || is_digit b || Ascii.eqb b "_"%char.
Definition plain_char (b : ascii) : bool := label_char b || id_char b.
Definition k8s_byte (b : ascii) : ascii := if is_lower b || is_digit b then b else "-"%char.

Lemma plain_byte b : plain_char b = true ->
  (N_of_ascii b <? 128)%N = true /\ k8s_rune (lower_rune (N_of_ascii b)) = k8s_byte b.
Proof. destruct b as [[] [] [] [] [] [] [] []]; vm_compute; done. Qed.

Lemma k8s_plain s : sforall plain_char s = true -> k8s_runes (map lower_rune (runes s)) = smap k8s_byte s.
Proof.
  induction s as [|b s IH]; [done|]. cbn [sforall smap]. intros [Hb Hs]%andb_true_iff.
  destruct (plain_byte b Hb) as [Hlt Hk]. cbn [runes]. rewrite Hlt. cbn [map k8s_runes].
  by rewrite Hk, IH.
Qed.

Lemma label_plain b : label_char b = true -> plain_char b = true.
Proof. unfold plain_char. by intros ->. Qed.
Lemma id_plain b : id_char b = true -> plain_char b = true.
Proof. unfold plain_char. intros ->. apply orb_true_r. Qed.

Lemma label_fixed s : sforall label_char s = true -> smap k8s_byte s = s.
Proof.
  assert (H : forall b, label_char b = true -> k8s_byte b = b)
    by (intros b; destruct b as [[] [] [] [] [] [] [] []]; vm_compute; done).
  induction s as [|b s IH]; [done|]. cbn. intros [? ?]%andb_true_iff. by rewrite H, IH.
Qed.

Lemma K8sName_plain s :
  sforall plain_char s = true -> (String.length s <= 63)%nat ->
  trim (is_byte "-"%char) (smap k8s_byte s) = smap k8s_byte s -> K8sName s = smap k8s_byte s.
Proof.
  intros Hp Hl Ht. rewrite K8sName_unfold, k8s_plain by done. rewrite Ht. cbv zeta.
  destruct (String.eqb_spec (smap k8s_byte s) "") as [E|E]; [done|].
  destruct (Nat.leb_spec (String.length (smap k8s_byte s)) 63) as [?|L]; [done|].
  rewrite length_smap in L. lia.
Qed.

Lemma trim_dash s :
  (forall t, s <> String "-"%char t) -> (forall t, s <> t +:+ "-") -> trim (is_byte "-"%char) s = s.
Proof.
  intros Hh Hl. apply trim_keep; intros.
  - apply not_true_is_false. unfold is_byte. intros ->%Ascii.eqb_eq. by eapply Hh.
  - apply not_true_is_false. unfold is_byte. intros ->%Ascii.eqb_eq. by eapply Hl.
Qed.

Lemma label_K8sName s : rfc1123_label s -> K8sName s = s.
Proof.
  intros [Hne Hl Hc Hh Hz]. rewrite K8sName_plain; rewrite ?(label_fixed s) by done; [done| |done|].
  - by eapply sforall_impl, Hc; intros; apply label_plain.
  - by apply trim_dash.
Qed.

(** For every identifier [K8sName] gives either no name, and then no rune
    of the identifier was legal, or an RFC 1123 label: at most 63 lower-case
    letters, digits and dashes, starting and ending with a letter or a digit.
    A name it gave is not changed by applying it again. *)
Theorem K8sName_spec raw :
  ((K8sName raw = "" /\ nothing_legal raw) \/ rfc1123_label (K8sName raw)) /\
  K8sName (K8sName raw) = K8sName raw.
Proof.
  pose proof (K8sName_cases raw) as H. split; [done|].
  destruct H as [[-> _]|H]; [done|by apply label_K8sName].
Qed.

(** ** The agent accepts the names the control plane gives *)

(** What ids, service names and volume names are made of here. *)
Definition name_char (b : ascii) : bool := id_char b || Ascii.eqb b "-"%char.

(** A name without the bytes [isManagedName] looks for. *)
Lemma name_managed n : sforall name_char n = true -> managed_name ("sigmahub-" +:+ n).
Proof.
  intros Hn. assert (Hno : forall c, name_char c = false -> has_char ("sigmahub-" +:+ n) c = false).
  { intros c Hc. apply not_true_is_false. intros (a & b & E)%has_char_spec.
    assert (Hs : sforall name_char ("sigmahub-" +:+ n) = true) by (rewrite sforall_app, Hn; done).
    rewrite E, sforall_app in Hs. cbn in Hs. rewrite Hc, andb_false_r in Hs. done. }
  split; [by exists n|by apply Hno|by apply Hno|].
  intros a b E. assert (Hd : has_char ("sigmahub-" +:+ n) "."%char = false) by by apply Hno.
  rewrite E, !has_char_app in Hd. cbn in Hd. by rewrite orb_true_r in Hd.
Qed.

(** A commit, a tag or a pin: no colon, no slash. *)
Definition ref_char (b : ascii) : bool := negb (Ascii.eqb b ":"%char || Ascii.eqb b "/"%char).

Lemma ref_no_char s : sforall ref_char s = true -> has_char s ":"%char = false /\ has_char s "/"%char = false.
Proof.
  intros H. split; apply not_true_is_false; intros (a & b & ->)%has_char_spec;
    rewrite sforall_app in H; cbn in H; by rewrite andb_false_r in H.
Qed.

(** The tag of an image: its commit, and its pin. *)
Definition pinned_sha (sha pin : string) : string := if String.eqb pin "" then sha else sha +:+ "-" +:+ pin.

Lemma PinnedImageTag_release r sha pin : PinnedImageTag r sha pin = "sigmahub/" +:+ r +:+ ":" +:+ pinned_sha sha pin.
Proof.
  unfold PinnedImageTag, DeployImageTag, pinned_sha. destruct (String.eqb pin ""); [done|].
  by rewrite !app_assoc_str.
Qed.

Lemma PinnedServiceImageTag_release r svc sha pin :
  PinnedServiceImageTag r svc sha pin = PinnedImageTag (r +:+ "-" +:+ svc) sha pin.
Proof.
  unfold PinnedServiceImageTag, PinnedImageTag, DeployServiceImageTag, DeployImageTag.
  by rewrite !app_assoc_str.
Qed.

(** A release whose tag is a tag. *)
Record shippable (sha pin : string) : Prop := {
  sh_sha : sforall ref_char sha = true;
  sh_pin : sforall ref_char pin = true;
  sh_nonempty : sha <> "";
  sh_latest : pin = "" -> sha <> "latest";
}.

Lemma release_ok sha pin : shippable sha pin ->
  has_char (pinned_sha sha pin) ":"%char = false /\ has_char (pinned_sha sha pin) "/"%char = false /\
  pinned_sha sha pin <> "" /\ pinned_sha sha pin <> "latest".
Proof.
  intros [Hs Hp Hn Hl]. unfold pinned_sha. destruct (String.eqb_spec pin "") as [->|Hpin].
  - destruct (ref_no_char _ Hs). naive_solver.
  - destruct (ref_no_char (sha +:+ "-" +:+ pin)) as [? ?].
    { rewrite !sforall_app, Hs, Hp. done. }
    repeat split; try done.
    + by destruct sha.
    + intros E. assert (has_char "latest" "-"%char = true) by (rewrite <- E, !has_char_app; cbn; apply orb_true_r).
      done.
Qed.

Lemma QualifyImage_tag repository r sha pin :
  exists repo, QualifyImage repository (PinnedImageTag r sha pin) = repo +:+ String ":"%char (pinned_sha sha pin).
Proof.
  rewrite PinnedImageTag_release. unfold QualifyImage. destruct (String.eqb _ "").
  - exists ("sigmahub/" +:+ r). by rewrite app_assoc_str.
  - rewrite trim_prefix_app. exists (trim (is_byte "/"%char) (trim_space repository) +:+ "/" +:+ r).
    by rewrite !app_assoc_str.
Qed.

Lemma image_pinned repository r sha pin : shippable sha pin ->
  pinned (QualifyImage repository (PinnedImageTag r sha pin)).
Proof.
  intros H. destruct (release_ok _ _ H) as (? & ? & ? & ?).
  destruct (QualifyImage_tag repository r sha pin) as (repo & E).
  right. exists repo, (pinned_sha sha pin). done.
Qed.

(** The agent's policy accepts what the control plane names.  For ids,
    service names and volume names made of lower-case letters, digits, dashes
    and underscores the container, network and volume names are managed names,
    and both networks are ones a container may join; and for every repository,
    resource, commit and pin the image of a release is pinned: its reference
    carries a tag that is not [latest]. *)
Theorem names_permitted project r svc vol repository sha pin :
  sforall name_char project = true -> sforall name_char r = true ->
  sforall name_char svc = true -> sforall name_char vol = true -> shippable sha pin ->
  isManagedName (ContainerName r) = true /\
  isManagedName (ServiceContainerName r svc) = true /\
  isManagedName (VolumeName r vol) = true /\
  checkNetwork (NetworkName project) = None /\
  checkNetwork (ResourceNetworkName r) = None /\
  checkImagePinned (QualifyImage repository (PinnedImageTag r sha pin)) = None /\
  checkImagePinned (QualifyImage repository (PinnedServiceImageTag r svc sha pin)) = None.
Proof.
  intros Hp Hr Hs Hv Hrel.
  rewrite !checkNetwork_spec, !checkImagePinned_spec, !isManagedName_spec, PinnedServiceImageTag_release.
  split_and!; [by apply name_managed| | |by right; apply name_managed| |by apply image_pinned..].
  - apply name_managed. by rewrite !sforall_app, Hr, Hs.
  - apply name_managed. by rewrite !sforall_app, Hr, Hv.
  - right. by apply (name_managed ("app-" +:+ r)).
Qed.

Theorem names_permitted_witness :
  checkImagePinned (QualifyImage "registry.example.com/team/"
    (PinnedServiceImageTag "res_0a1b" "web" "5f2c9d1" "9abcde")) = None.
Proof.
  apply (names_permitted "prj_1" "res_0a1b" "web" "data"); [vm_compute; reflexivity..|].
  split; [vm_compute; reflexivity..|discriminate|intros [=]].
Defined.

(** ** No two releases share an image *)

Definition no_dash (s : string) : bool := negb (has_char s "-"%char).

Lemma app_char_inj a b a' b' c :
  has_char a c = false -> has_char a' c = false -> a +:+ String c b = a' +:+ String c b' -> a = a' /\ b = b'.
Proof.
  revert a'. induction a as [|x a IH]; intros [|y a']; cbn; intros Ha Ha' E.
  - by injection E as ->.
  - injection E as -> _. by rewrite Ascii.eqb_refl in Ha'.
  - injection E as -> _. by rewrite Ascii.eqb_refl in Ha.
  - injection E as -> E. apply orb_false_iff in Ha as [_ Ha]. apply orb_false_iff in Ha' as [_ Ha'].
    by destruct (IH _ Ha Ha' E) as [-> ->].
Qed.

Lemma release_inj sha pin sha' pin' :
  no_dash sha = true -> no_dash sha' = true -> pinned_sha sha pin = pinned_sha sha' pin' -> sha = sha' /\ pin = pin'.
Proof.
  unfold no_dash, pinned_sha. intros H%negb_true_iff H'%negb_true_iff.
  destruct (String.eqb_spec pin "") as [->|Hp], (String.eqb_spec pin' "") as [->|Hp']; intros E.
  - done.
  - rewrite E, has_char_app in H. cbn in H. by rewrite orb_true_r in H.
  - rewrite <- E, has_char_app in H'. cbn in H'. by rewrite orb_true_r in H'.
  - by apply (app_char_inj _ _ _ _ "-"%char) in E.
Qed.

(** The service part of an image name, none for a single-container app. *)
Definition service_image (r : string) (svc : option string) (sha pin : string) : string :=
  match svc with
  | None => PinnedImageTag r sha pin
  | Some svc => PinnedServiceImageTag r svc sha pin
  end.

Lemma repo_inj r svc r' svc' :
  no_dash r = true -> no_dash r' = true ->
  (match svc with None => r | Some s => r +:+ "-" +:+ s end) =
  (match svc' with None => r' | Some s => r' +:+ "-" +:+ s end) -> r = r' /\ svc = svc'.
Proof.
  unfold no_dash. intros H%negb_true_iff H'%negb_true_iff.
  destruct svc as [s|], svc' as [s'|]; intros E.
  - apply (app_char_inj _ _ _ _ "-"%char) in E as [-> ->]; done.
  - rewrite <- E, has_char_app in H'. cbn in H'. by rewrite orb_true_r in H'.
  - rewrite E, has_char_app in H. cbn in H. by rewrite orb_true_r in H.
  - done.
Qed.

(** An image reference determines what it holds: with ids and commits
    that contain no dash and service names without a colon, two equal
    references, of single-container apps or of Compose services alike, are of
    the same resource, the same service, the same commit and the same pin. *)
Theorem image_tags_distinct r svc sha pin r' svc' sha' pin' :
  no_dash r = true -> no_dash r' = true -> no_dash sha = true -> no_dash sha' = true ->
  has_char (r +:+ default "" svc) ":"%char = false -> has_char (r' +:+ default "" svc') ":"%char = false ->
  service_image r svc sha pin = service_image r' svc' sha' pin' ->
  r = r' /\ svc = svc' /\ sha = sha' /\ pin = pin'.
Proof.
  intros Hr Hr' Hs Hs' Hc Hc' E.
  assert (F : forall r svc sha pin, service_image r svc sha pin =
    "sigmahub/" +:+ (match svc with None => r | Some s => r +:+ "-" +:+ s end) +:+ String ":"%char (pinned_sha sha pin)).
  { intros ? [?|] ? ?; cbn [service_image]; by rewrite ?PinnedServiceImageTag_release, PinnedImageTag_release. }
  rewrite !F in E. apply app_inj_l in E. apply app_char_inj in E as [Er Et].
  - apply release_inj in Et as [-> ->]; [|done..]. apply repo_inj in Er as [-> ->]; done.
  - rewrite has_char_app in Hc. apply orb_false_iff in Hc as [? ?]. destruct svc; [|done].
    rewrite !has_char_app. cbn in *. by apply orb_false_iff.
  - rewrite has_char_app in Hc'. apply orb_false_iff in Hc' as [? ?]. destruct svc'; [|done].
    rewrite !has_char_app. cbn in *. by apply orb_false_iff.
Qed.

Theorem image_tags_distinct_witness :
  "5f2c9d1" = "5f2c9d1" /\ "9abcde" = "9abcde".
Proof.
  destruct (image_tags_distinct "res_1" (Some "web") "5f2c9d1" "9abcde" "res_1" (Some "web") "5f2c9d1" "9abcde")
    as (_ & _ & H); [vm_compute; reflexivity..|exact H].
Defined.

(** Service names that differ only in the bytes Kubernetes refuses share an
    object. *)
Lemma service_names_collide :
  K8sWorkloadName "res_1" "job_a" = K8sWorkloadName "res_1" "job-a" /\
  PinnedServiceImageTag "res_1" "job_a" "c" "p" <> PinnedServiceImageTag "res_1" "job-a" "c" "p".
Proof. split; vm_compute; [reflexivity|discriminate]. Qed.
