(* ===== verification/CpDb.v ===== *)
(** * The control plane's database

    The PostgreSQL tables the deployment store ([cp/internal/store]) reads and
    writes, as lists of rows, and the few ways it uses them: a statement, a
    query, a transaction.  A statement can fail (a lost connection); a
    transaction whose body fails leaves the tables as they were.  Every
    operation runs as one step at one time [now()], as the advisory locks and
    row locks of the code make them. *)

From Stdlib Require Import SpecFloat.
From S2P Require Import Prelude GoStrings Json.

Local Open Scope string_scope.
Local Open Scope io_scope.

(** ** Rows *)

(** A row of [deployments], split into the columns that are written once, when
    the row is inserted, ... *)
Record release := mkRelease {
  rl_id : string;
  rl_org : string;
  rl_resource : string;
  rl_environment : option string;
  rl_server : option string;
  rl_connection : option string;
  rl_trigger : string;
  rl_git_ref : option string;
  rl_git_sha : option string;
  rl_image_pin : string;
  rl_config_hash : option string;
  rl_service_count : Z;
  rl_rollback_of : option string;
  rl_created_by : string;
  rl_build_server : option string;
  rl_created_at : Z;              (* microseconds *)
}.

(** ... and the columns the deploy pipeline advances. *)
Record deployment := mkDeployment {
  dp_release : release;
  dp_status : string;
  dp_detail : string;
  dp_image_digest : option string;
  dp_build_seconds : option Z;
  dp_duration_seconds : option Z;
  dp_started_at : option Z;
  dp_finished_at : option Z;
  dp_service_status : gmap string string;
  dp_dsd_version : Z;
}.

Definition dp_id (d : deployment) : string := rl_id (dp_release d).
Definition dp_org (d : deployment) : string := rl_org (dp_release d).
Definition dp_resource (d : deployment) : string := rl_resource (dp_release d).
Definition dp_server (d : deployment) : option string := rl_server (dp_release d).
Definition dp_created_at (d : deployment) : Z := rl_created_at (dp_release d).

Record resource_row := mkResource {
  rs_id : string;
  rs_org : string;
  rs_project : string;
  rs_environment : option string;
  rs_server : option string;
  rs_cluster : option string;
  rs_kind : string;
  rs_name : string;
  rs_spec : json;
}.

Record branch_map_row := mkBranchMap {
  bm_id : string;
  bm_connection : string;
  bm_environment : string;
  bm_build_server : option string;
  bm_last_ref : option string;
  bm_last_sha : option string;
}.

Record connection_row := mkConnection {
  gc_id : string;
  gc_org : string;
  gc_project : string;
  gc_provider : string;
  gc_repo : string;
}.

Record request_row := mkRequest {
  rq_id : string;
  rq_org : string;
  rq_connection : string;
  rq_environment : option string;
  rq_kind : string;
  rq_ref : string;
  rq_sha : string;
  rq_status : string;
  rq_deployments_created : Z;
  rq_detail : string;
  rq_created_at : Z;
}.

Record alert_rule := mkAlertRule { ar_org : string; ar_event : string; ar_channel : string }.

(** The columns of [alert_channels] beside its key and its switch; the
    credential is a row of [ciphers]. *)
Record channel_columns := mkChannelColumns {
  ac_org : string;
  ac_kind : string;
  ac_name : string;
  ac_config : json;
  ac_last_ok_at : option Z;
  ac_last_error : string;
  ac_created_by : string;
  ac_created_at : Z;
}.
Definition no_channel_columns : channel_columns := mkChannelColumns "" "" "" (JObj []) None "" "" 0.
Record alert_channel := mkAlertChannel { ac_id : string; ac_enabled : bool; ac_cols : channel_columns }.

(** What the dispatcher writes of a row of [alert_outbox] *)
Record delivery_columns := mkDeliveryColumns {
  dv_status : string;
  dv_attempts : Z;
  dv_next_attempt_at : Z;
  dv_last_error : string;
  dv_sent_at : option Z;
}.
Definition queued_delivery (now : Z) : delivery_columns := mkDeliveryColumns "pending" 0 now "" None.

(** A row of [alert_outbox]: the row that was inserted [n]-th has the [id] [n].
    The rows of a channel that was deleted stay in the list; nothing reads them,
    since no rule names the channel any more and no row of it is returned. *)
Record alert_row := mkAlert {
  al_org : string;
  al_channel : string;
  al_event : string;
  al_dedup_key : string;
  al_title : string;
  al_body : string;
  al_created_at : Z;
  al_delivery : delivery_columns;
}.

Record audit_row := mkAudit { au_org : string; au_actor : string; au_action : string; au_target : string }.
Record log_row := mkLog { lg_deployment : string; lg_stream : string; lg_line : string }.

(** A requirement of a server's type its facts violate. *)
Record FailedRequirement := mkFailed {
  fr_ID : string;
  fr_Fact : string;
  fr_Expected : string;
  fr_Detected : string;
  fr_Reason : string;
}.

(** The columns of [servers] that say what a machine is, is doing and is known
    to be, ... *)
Record server_columns := mkColumns {
  col_type : string;
  col_status : string;
  col_name_auto : bool;
  col_agent_version : string;
  col_facts : gmap string json;
  col_distro : option string;
  col_pubkey : option string;
  col_mesh_ip : option string;
  col_endpoint : option string;
  col_proxy_role : bool;
  col_last_seen : option Z;
  col_incompatible : list FailedRequirement;
  col_decommission : option Z;           (* decommission_started_at *)
  col_purge : bool;                      (* decommission_purge_volumes *)
  col_actor : string;                    (* decommission_actor *)
  col_hardening : option (Z * bool * bool * Z);   (* score, disk_encrypted, ssh_locked, checked_at *)
  col_mesh_sync : option (Z * Z);        (* mesh_synced_at, mesh_peer_count *)
  col_bootstrap_pubkey : option string;
}.

Definition no_columns : server_columns :=
  mkColumns "general" "provisioning" false "" ∅ None None None None false None [] None false "" None None None.

(** ... in a row; [sv_deleted] says that [deleted_at] is not null. *)
Record server_row := mkServer {
  sv_id : string;
  sv_org : string;
  sv_name : string;
  sv_deleted : bool;
  sv_created_at : Z;
  sv_cols : server_columns;
}.

(** The row of a server in [server_dsd]. *)
Record dsd_row := mkDsdRow {
  ds_org : string;
  ds_version : Z;
  ds_doc : json;
  ds_signature : string;
  ds_hash : string;
  ds_applied : Z;
  ds_apply_ok : bool;
  ds_redrive : Z;
  ds_failed_ops : list string;
}.

Record pending_row := mkPendingRow {
  pd_id : string;
  pd_org : string;
  pd_server : string;
  pd_kind : string;
  pd_target : string;
  pd_created_at : Z;
  pd_applied_at : option Z;
}.

(** What the control plane knows of its machines; [resource_status] is the
    [status] column of [resources], which only the agents' reports write. *)
Record fleet := mkFleet {
  servers : list server_row;
  server_dsd : gmap string dsd_row;
  pending_destructive_ops : list pending_row;
  resource_status : gmap string json;
}.

(** A data-encryption key of an organisation, in [org_deks]; only its wrapped
    form is stored. *)
Record dek_row := mkDek {
  dk_id : string;
  dk_org : string;
  dk_wrapped : string;
  dk_wrap_version : Z;
  dk_active : bool;
  dk_retired_at : option Z;
}.

(** The columns a ciphertext table has beside its key and its ciphertext. *)
Inductive cipher_meta : Type :=
| SecretMeta (environment_id : option string) (name : string) (env_var : bool) (created_by : string)
| EngineMeta (engine server_id : string)
| NoMeta.

(** A row of one of the ten tables that hold a ciphertext under an
    organisation's key: [cr_table] names the table, [cr_pk] is the value of its
    primary key and [cr_ids] of the further columns that identify the row;
    [cr_dek] is NULL where the row holds no ciphertext. *)
Record cipher_row := mkCipher {
  cr_table : string;
  cr_pk : string;
  cr_org : string;
  cr_ids : list string;
  cr_ct : string;
  cr_nonce : string;
  cr_dek : option string;
  cr_meta : cipher_meta;
}.

(** A column that custody wraps directly: [git_connections.token_wrapped],
    [servers.bootstrap_key_wrapped] and [cp_secrets.wrapped] (of no
    organisation). *)
Record wrapped_row := mkWrapped {
  wr_table : string;
  wr_key : string;
  wr_org : string;
  wr_value : option string;
}.

Record environment_row := mkEnvironment { en_id : string; en_project : string; en_name : string }.

Record vault := mkVault {
  projects : list (string * string);        (* id, organisation *)
  environments : list environment_row;
  org_deks : list dek_row;
  ciphers : list cipher_row;
  envelopes : list wrapped_row;
}.

Definition no_vault : vault := mkVault [] [] [] [] [].

(** *** Backups *)

(** A row of [backup_policies]; its repository key is a row of [ciphers]. *)
Record policy_row := mkPolicy {
  pol_id : string;
  pol_org : string;
  pol_resource : string;
  pol_schedule : string;
  pol_daily : Z;
  pol_weekly : Z;
  pol_monthly : Z;
  pol_target : option string;
  pol_enabled : bool;
  pol_pitr : bool;
}.

(** A row of [backup_targets]; its secret key is a row of [ciphers]. *)
Record backup_target := mkBackupTarget {
  tgt_id : string;
  tgt_org : string;
  tgt_name : string;
  tgt_endpoint : string;
  tgt_bucket : string;
  tgt_region : string;
  tgt_path_style : bool;
  tgt_access_key : string;
  tgt_created_by : string;
  tgt_created_at : Z;
}.

(** The columns of [backup_runs] that are written once, ... *)
Record run_ident := mkRunIdent {
  ri_id : string;
  ri_org : string;
  ri_resource : string;
  ri_policy : string;
  ri_server : string;
  ri_kind : string;
  ri_restore_resource : option string;
  ri_recovery_target : option Z;
  ri_created_at : Z;
}.

(** ... and those its execution fills in. *)
Record run_row := mkRun {
  run_ident_of : run_ident;
  run_status : string;
  run_snapshot : string;
  run_sha : string;
  run_detail : string;
  run_started_at : option Z;
  run_finished_at : option Z;
}.

Definition run_id (r : run_row) : string := ri_id (run_ident_of r).
Definition run_kind (r : run_row) : string := ri_kind (run_ident_of r).
Definition run_policy (r : run_row) : string := ri_policy (run_ident_of r).
Definition run_created_at (r : run_row) : Z := ri_created_at (run_ident_of r).

(** A row of [backup_repo_key_archive], beside its ciphertext *)
Record archive_row := mkArchive {
  arc_policy : string;
  arc_org : string;
  arc_resource : string;
  arc_resource_name : string;
  arc_archived_at : Z;
}.

(** A row of [db_credentials], beside its ciphertext *)
Record database_row := mkDatabase {
  db_resource : string;
  db_org : string;
  db_server : string;
  db_engine : string;
  db_username : string;
  db_name : string;
  db_port : Z;
}.

(** A row of [wal_archive_status] *)
Record wal_row := mkWal {
  wal_resource : string;
  wal_org : string;
  wal_segment : string;
  wal_shipped_at : option Z;
}.

Record backup_tables := mkBackups {
  backup_policies : list policy_row;
  backup_targets : list backup_target;
  backup_runs : list run_row;
  backup_repo_key_archive : list archive_row;
  db_credentials : list database_row;
  wal_archive_status : list wal_row;
}.

Definition no_backups : backup_tables := mkBackups [] [] [] [] [] [].

(** *** The estate: who may speak, where machines belong, what they cost *)

Record agent_token := mkAgentToken { tok_id : string; tok_server : string; tok_hash : string; tok_revoked_at : option Z }.

Record bootstrap_token := mkBootstrapToken {
  bt_id : string;
  bt_org : string;
  bt_hash : string;
  bt_server : string;
  bt_used_at : option Z;
  bt_expires_at : Z;
}.

Record cluster_row := mkCluster {
  cl_id : string;
  cl_org : string;
  cl_environment : string;
  cl_name : string;
  cl_status : string;
  cl_api_endpoint : string;
  cl_version : string;
  cl_created_by : string;
  cl_created_at : Z;
  cl_updated_at : Z;
}.

(** A row of [org_billing], one for an organisation *)
Record billing_row := mkBilling {
  ob_org : string;
  ob_customer : string;
  ob_subscription : string;
  ob_status : string;
  ob_quantity : Z;
  ob_last_event_at : option Z;
  ob_status_since : Z;
  ob_dunning_last_at : option Z;
  ob_synced_quantity : option Z;
  ob_quantity_synced_at : option Z;
  ob_updated_at : Z;
}.

(** A row of [server_hours], one for a server and an hour *)
Record hour_row := mkHour { sh_org : string; sh_server : string; sh_hour : Z; sh_weight : Z }.

(** A row of [server_metrics]: processor, memory, disk and load *)
Record metric_row := mkMetric { mt_server : string; mt_sample : spec_float * spec_float * spec_float * spec_float; mt_recorded_at : Z }.

(** A row of [domains] *)
Record domain_row := mkDomainRow {
  do_id : string;
  do_org : string;
  do_resource : string;
  do_domain : string;
  do_challenge : string;
  do_cert_status : string;
  do_cert_serial : option string;
  do_cert_expires_at : option Z;
  do_last_error : option string;
  do_created_by : string;
  do_created_at : Z;
  do_updated_at : Z;
}.

Record estate_tables := mkEstate {
  agent_tokens : list agent_token;
  bootstrap_tokens : list bootstrap_token;
  env_servers : list (string * string * string);     (* organisation, environment, server *)
  clusters : list cluster_row;
  org_billing : list billing_row;
  server_hours : list hour_row;
  webhook_deliveries : list string;
  server_metrics : list metric_row;
  domains : list domain_row;
}.

Definition no_estate : estate_tables := mkEstate [] [] [] [] [] [] [] [] [].

(** A row of [cluster_nodes]; a server is a node of one cluster at most. *)
Record node_row := mkNode {
  nd_cluster : string;
  nd_server : string;
  nd_role : string;
  nd_status : string;
  nd_message : string;
  nd_reported_at : option Z;
}.

Record tables := mkTables {
  deployments : list deployment;
  resources : list resource_row;
  git_branch_map : list branch_map_row;
  git_connections : list connection_row;
  deploy_requests : list request_row;
  cluster_nodes : list node_row;
  resource_service_placements : list (string * string);    (* resource, server *)
  alert_rules : list alert_rule;
  alert_channels : list alert_channel;
  alert_outbox : list alert_row;
  cp_audit_log : list audit_row;
  deploy_logs : list log_row;
  machines : fleet;
  vaulted : vault;
  backed_up : backup_tables;
  estate : estate_tables;
}.

Definition set_deployments (f : list deployment -> list deployment) (t : tables) : tables :=
  mkTables (f (deployments t)) (resources t) (git_branch_map t) (git_connections t) (deploy_requests t)
    (cluster_nodes t) (resource_service_placements t) (alert_rules t) (alert_channels t) (alert_outbox t)
    (cp_audit_log t) (deploy_logs t) (machines t) (vaulted t) (backed_up t) (estate t).
Definition set_branch_map (f : list branch_map_row -> list branch_map_row) (t : tables) : tables :=
  mkTables (deployments t) (resources t) (f (git_branch_map t)) (git_connections t) (deploy_requests t)
    (cluster_nodes t) (resource_service_placements t) (alert_rules t) (alert_channels t) (alert_outbox t)
    (cp_audit_log t) (deploy_logs t) (machines t) (vaulted t) (backed_up t) (estate t).
Definition set_requests (f : list request_row -> list request_row) (t : tables) : tables :=
  mkTables (deployments t) (resources t) (git_branch_map t) (git_connections t) (f (deploy_requests t))
    (cluster_nodes t) (resource_service_placements t) (alert_rules t) (alert_channels t) (alert_outbox t)
    (cp_audit_log t) (deploy_logs t) (machines t) (vaulted t) (backed_up t) (estate t).
Definition set_outbox (f : list alert_row -> list alert_row) (t : tables) : tables :=
  mkTables (deployments t) (resources t) (git_branch_map t) (git_connections t) (deploy_requests t)
    (cluster_nodes t) (resource_service_placements t) (alert_rules t) (alert_channels t) (f (alert_outbox t))
    (cp_audit_log t) (deploy_logs t) (machines t) (vaulted t) (backed_up t) (estate t).
Definition set_audit (f : list audit_row -> list audit_row) (t : tables) : tables :=
  mkTables (deployments t) (resources t) (git_branch_map t) (git_connections t) (deploy_requests t)
    (cluster_nodes t) (resource_service_placements t) (alert_rules t) (alert_channels t) (alert_outbox t)
    (f (cp_audit_log t)) (deploy_logs t) (machines t) (vaulted t) (backed_up t) (estate t).
Definition set_logs (f : list log_row -> list log_row) (t : tables) : tables :=
  mkTables (deployments t) (resources t) (git_branch_map t) (git_connections t) (deploy_requests t)
    (cluster_nodes t) (resource_service_placements t) (alert_rules t) (alert_channels t) (alert_outbox t)
    (cp_audit_log t) (f (deploy_logs t)) (machines t) (vaulted t) (backed_up t) (estate t).
Definition set_machines (f : fleet -> fleet) (t : tables) : tables :=
  mkTables (deployments t) (resources t) (git_branch_map t) (git_connections t) (deploy_requests t)
    (cluster_nodes t) (resource_service_placements t) (alert_rules t) (alert_channels t) (alert_outbox t)
    (cp_audit_log t) (deploy_logs t) (f (machines t)) (vaulted t) (backed_up t) (estate t).
Definition set_servers (f : list server_row -> list server_row) : tables -> tables :=
  set_machines (fun m => mkFleet (f (servers m)) (server_dsd m) (pending_destructive_ops m) (resource_status m)).
Definition set_server_dsd (f : gmap string dsd_row -> gmap string dsd_row) : tables -> tables :=
  set_machines (fun m => mkFleet (servers m) (f (server_dsd m)) (pending_destructive_ops m) (resource_status m)).
Definition set_pending (f : list pending_row -> list pending_row) : tables -> tables :=
  set_machines (fun m => mkFleet (servers m) (server_dsd m) (f (pending_destructive_ops m)) (resource_status m)).
Definition set_resource_status (f : gmap string json -> gmap string json) : tables -> tables :=
  set_machines (fun m => mkFleet (servers m) (server_dsd m) (pending_destructive_ops m) (f (resource_status m))).

Definition set_vault (f : vault -> vault) (t : tables) : tables :=
  mkTables (deployments t) (resources t) (git_branch_map t) (git_connections t) (deploy_requests t)
    (cluster_nodes t) (resource_service_placements t) (alert_rules t) (alert_channels t) (alert_outbox t)
    (cp_audit_log t) (deploy_logs t) (machines t) (f (vaulted t)) (backed_up t) (estate t).
Definition set_deks (f : list dek_row -> list dek_row) : tables -> tables :=
  set_vault (fun v => mkVault (projects v) (environments v) (f (org_deks v)) (ciphers v) (envelopes v)).
Definition set_ciphers (f : list cipher_row -> list cipher_row) : tables -> tables :=
  set_vault (fun v => mkVault (projects v) (environments v) (org_deks v) (f (ciphers v)) (envelopes v)).
Definition set_envelopes (f : list wrapped_row -> list wrapped_row) : tables -> tables :=
  set_vault (fun v => mkVault (projects v) (environments v) (org_deks v) (ciphers v) (f (envelopes v))).

Definition set_backups (f : backup_tables -> backup_tables) (t : tables) : tables :=
  mkTables (deployments t) (resources t) (git_branch_map t) (git_connections t) (deploy_requests t)
    (cluster_nodes t) (resource_service_placements t) (alert_rules t) (alert_channels t) (alert_outbox t)
    (cp_audit_log t) (deploy_logs t) (machines t) (vaulted t) (f (backed_up t)) (estate t).
Definition set_policies (f : list policy_row -> list policy_row) : tables -> tables :=
  set_backups (fun b => mkBackups (f (backup_policies b)) (backup_targets b) (backup_runs b) (backup_repo_key_archive b)
    (db_credentials b) (wal_archive_status b)).
Definition set_targets (f : list backup_target -> list backup_target) : tables -> tables :=
  set_backups (fun b => mkBackups (backup_policies b) (f (backup_targets b)) (backup_runs b) (backup_repo_key_archive b)
    (db_credentials b) (wal_archive_status b)).
Definition set_runs (f : list run_row -> list run_row) : tables -> tables :=
  set_backups (fun b => mkBackups (backup_policies b) (backup_targets b) (f (backup_runs b)) (backup_repo_key_archive b)
    (db_credentials b) (wal_archive_status b)).
Definition set_archive (f : list archive_row -> list archive_row) : tables -> tables :=
  set_backups (fun b => mkBackups (backup_policies b) (backup_targets b) (backup_runs b) (f (backup_repo_key_archive b))
    (db_credentials b) (wal_archive_status b)).
Definition set_wal (f : list wal_row -> list wal_row) : tables -> tables :=
  set_backups (fun b => mkBackups (backup_policies b) (backup_targets b) (backup_runs b) (backup_repo_key_archive b)
    (db_credentials b) (f (wal_archive_status b))).

Definition set_nodes (f : list node_row -> list node_row) (t : tables) : tables :=
  mkTables (deployments t) (resources t) (git_branch_map t) (git_connections t) (deploy_requests t)
    (f (cluster_nodes t)) (resource_service_placements t) (alert_rules t) (alert_channels t) (alert_outbox t)
    (cp_audit_log t) (deploy_logs t) (machines t) (vaulted t) (backed_up t) (estate t).
Definition set_placements (f : list (string * string) -> list (string * string)) (t : tables) : tables :=
  mkTables (deployments t) (resources t) (git_branch_map t) (git_connections t) (deploy_requests t)
    (cluster_nodes t) (f (resource_service_placements t)) (alert_rules t) (alert_channels t) (alert_outbox t)
    (cp_audit_log t) (deploy_logs t) (machines t) (vaulted t) (backed_up t) (estate t).
Definition set_resources (f : list resource_row -> list resource_row) (t : tables) : tables :=
  mkTables (deployments t) (f (resources t)) (git_branch_map t) (git_connections t) (deploy_requests t)
    (cluster_nodes t) (resource_service_placements t) (alert_rules t) (alert_channels t) (alert_outbox t)
    (cp_audit_log t) (deploy_logs t) (machines t) (vaulted t) (backed_up t) (estate t).

Definition set_estate (f : estate_tables -> estate_tables) (t : tables) : tables :=
  mkTables (deployments t) (resources t) (git_branch_map t) (git_connections t) (deploy_requests t)
    (cluster_nodes t) (resource_service_placements t) (alert_rules t) (alert_channels t) (alert_outbox t)
    (cp_audit_log t) (deploy_logs t) (machines t) (vaulted t) (backed_up t) (f (estate t)).
Definition set_agent_tokens (f : list agent_token -> list agent_token) : tables -> tables :=
  set_estate (fun e => mkEstate (f (agent_tokens e)) (bootstrap_tokens e) (env_servers e) (clusters e) (org_billing e)
    (server_hours e) (webhook_deliveries e) (server_metrics e) (domains e)).
Definition set_bootstrap (f : list bootstrap_token -> list bootstrap_token) : tables -> tables :=
  set_estate (fun e => mkEstate (agent_tokens e) (f (bootstrap_tokens e)) (env_servers e) (clusters e) (org_billing e)
    (server_hours e) (webhook_deliveries e) (server_metrics e) (domains e)).
Definition set_env_servers (f : list (string * string * string) -> list (string * string * string)) : tables -> tables :=
  set_estate (fun e => mkEstate (agent_tokens e) (bootstrap_tokens e) (f (env_servers e)) (clusters e) (org_billing e)
    (server_hours e) (webhook_deliveries e) (server_metrics e) (domains e)).
Definition set_clusters (f : list cluster_row -> list cluster_row) : tables -> tables :=
  set_estate (fun e => mkEstate (agent_tokens e) (bootstrap_tokens e) (env_servers e) (f (clusters e)) (org_billing e)
    (server_hours e) (webhook_deliveries e) (server_metrics e) (domains e)).
Definition set_billing (f : list billing_row -> list billing_row) : tables -> tables :=
  set_estate (fun e => mkEstate (agent_tokens e) (bootstrap_tokens e) (env_servers e) (clusters e) (f (org_billing e))
    (server_hours e) (webhook_deliveries e) (server_metrics e) (domains e)).
Definition set_hours (f : list hour_row -> list hour_row) : tables -> tables :=
  set_estate (fun e => mkEstate (agent_tokens e) (bootstrap_tokens e) (env_servers e) (clusters e) (org_billing e)
    (f (server_hours e)) (webhook_deliveries e) (server_metrics e) (domains e)).
Definition set_deliveries (f : list string -> list string) : tables -> tables :=
  set_estate (fun e => mkEstate (agent_tokens e) (bootstrap_tokens e) (env_servers e) (clusters e) (org_billing e)
    (server_hours e) (f (webhook_deliveries e)) (server_metrics e) (domains e)).
Definition set_metrics (f : list metric_row -> list metric_row) : tables -> tables :=
  set_estate (fun e => mkEstate (agent_tokens e) (bootstrap_tokens e) (env_servers e) (clusters e) (org_billing e)
    (server_hours e) (webhook_deliveries e) (f (server_metrics e)) (domains e)).
Definition set_domains (f : list domain_row -> list domain_row) : tables -> tables :=
  set_estate (fun e => mkEstate (agent_tokens e) (bootstrap_tokens e) (env_servers e) (clusters e) (org_billing e)
    (server_hours e) (webhook_deliveries e) (server_metrics e) (f (domains e))).

Definition set_rules (f : list alert_rule -> list alert_rule) (t : tables) : tables :=
  mkTables (deployments t) (resources t) (git_branch_map t) (git_connections t) (deploy_requests t)
    (cluster_nodes t) (resource_service_placements t) (f (alert_rules t)) (alert_channels t) (alert_outbox t)
    (cp_audit_log t) (deploy_logs t) (machines t) (vaulted t) (backed_up t) (estate t).
Definition set_channels (f : list alert_channel -> list alert_channel) (t : tables) : tables :=
  mkTables (deployments t) (resources t) (git_branch_map t) (git_connections t) (deploy_requests t)
    (cluster_nodes t) (resource_service_placements t) (alert_rules t) (f (alert_channels t)) (alert_outbox t)
    (cp_audit_log t) (deploy_logs t) (machines t) (vaulted t) (backed_up t) (estate t).

(** ** The running control plane *)

(** An unwrap custody performed: what it did, and for which purpose. *)
Record AuditEvent := mkAuditEvent { ae_Action : string; ae_Purpose : string }.

(** What the process keeps in memory: the unwrapped keys of the store
    ([dekCache]) and custody's trail of unwraps. *)
Record memory := mkMemory {
  dek_cache : gmap string string;
  unwrap_trail : list AuditEvent;
}.

Record cp := mkCp {
  cp_tables : tables;
  cp_now : Z;                    (* the transaction's [now()], microseconds *)
  cp_faults : list bool;         (* which of the next statements fail *)
  cp_rand : nat -> string;       (* what [crypto/rand] yields, in hex *)
  cp_drawn : nat;                (* how much of it was used *)
  cp_memory : memory;
}.

Definition with_tables (t : tables) (d : cp) : cp :=
  mkCp t (cp_now d) (cp_faults d) (cp_rand d) (cp_drawn d) (cp_memory d).

(** What PostgreSQL leaves open: the order of rows that compare equal (a
    constant key leaves the whole order open), and how it spells a [jsonb]. *)
Class Postgres := {
  order_by {A : Type} (key : A -> Z) : list A -> list A;
  order_by_perm {A} (key : A -> Z) l : order_by key l ≡ₚ l;
  order_by_sorted {A} (key : A -> Z) l i j x y : (i <= j)%nat ->
    order_by key l !! i = Some x -> order_by key l !! j = Some y -> (key x <= key y)%Z;
  jsonb_text : json -> string;
}.

(** *** Errors *)

Definition ErrNotFound := "not found".
Definition ErrConflict := "conflict".
Definition ErrDB := "database error".
Definition ErrNoRows := "no rows in result set".
Definition ErrUnique := "duplicate key value violates unique constraint".

(** ** Statements *)

Definition exec {A} (f : Z -> tables -> res (A * tables)) : io cp A := fun d =>
  let d' := mkCp (cp_tables d) (cp_now d) (tl (cp_faults d)) (cp_rand d) (cp_drawn d) (cp_memory d) in
  match cp_faults d with
  | true :: _ => (Err ErrDB, d')
  | _ =>
      match f (cp_now d) (cp_tables d) with
      | Ok (a, t) => (Ok a, with_tables t d')
      | Err e => (Err e, d')
      end
  end.

Definition query {A} (f : Z -> tables -> A) : io cp A := exec (fun now t => Ok (f now t, t)).
Definition update (f : Z -> tables -> tables) : io cp unit := exec (fun now t => Ok (tt, f now t)).

(** [SELECT pg_advisory_xact_lock(...)] *)
Definition advisory_lock (key : string) : io cp unit := query (fun _ _ => tt).

(** [tx.Begin] ... [tx.Commit], with [defer tx.Rollback] *)
Definition transaction {A} (m : io cp A) : io cp A := fun d =>
  match (_ <- query (fun _ _ => tt) ;; a <- m ;; _ <- query (fun _ _ => tt) ;; ret a) d with
  | (Ok a, d') => (Ok a, d')
  | (Err e, d') => (Err e, with_tables (cp_tables d) d')
  end.

(** [newID]: a prefix and sixteen random hex digits *)
Definition newID (prefix : string) : io cp string := fun d =>
  (Ok (prefix +:+ "_" +:+ cp_rand d (cp_drawn d)),
   mkCp (cp_tables d) (cp_now d) (cp_faults d) (cp_rand d) (S (cp_drawn d)) (cp_memory d)).

(** [NULLIF(s, '')] and [deref] *)
Definition nullif (s : string) : option string := if String.eqb s "" then None else Some s.
Definition deref (o : option string) : string := default "" o.

Definition auditTx (orgID actor action target : string) : io cp unit :=
  wrapping "audit: " (update (fun _ => set_audit (fun l => l ++ [mkAudit orgID actor action target])%list)).

(** ** Rows by key *)

Definition dep_by_id (t : tables) (id : string) : option deployment :=
  List.find (fun d => String.eqb (dp_id d) id) (deployments t).
Definition res_by_id (t : tables) (id : string) : option resource_row :=
  List.find (fun r => String.eqb (rs_id r) id) (resources t).
Definition conn_by_id (t : tables) (id : string) : option connection_row :=
  List.find (fun c => String.eqb (gc_id c) id) (git_connections t).

Definition update_dep (id : string) (f : deployment -> deployment) : tables -> tables :=
  set_deployments (map (fun d => if String.eqb (dp_id d) id then f d else d)).

(** ** Reasoning about statements

    [does P m Q I]: from tables in [P], [m] either succeeds with tables in [Q]
    or fails with tables in [I]; [P], [Q] and [I] speak of [now()] and of the
    tables, so a failing statement cannot disturb them. *)

Definition assertion := Z -> tables -> Prop.

Definition hold (P : assertion) (d : cp) : Prop := P (cp_now d) (cp_tables d).

Definition does {A} (P : assertion) (m : io cp A) (Q : A -> assertion) (I : assertion) : Prop :=
  triple (hold P) m (fun r d => match r with Ok a => hold (Q a) d | Err _ => hold I d end).

(** The tables a transaction starts from. *)
Definition from (t0 : tables) (now : Z) : assertion := fun n t => n = now /\ t = t0.
Definition at_time (now : Z) : assertion := fun n _ => n = now.

Section rules.
Context {A B : Type}.
Implicit Types (P I : assertion) (m : io cp A).

Lemma does_run P m (Q : A -> assertion) I d r d' : does P m Q I -> hold P d -> m d = (r, d') ->
  match r with Ok a => hold (Q a) d' | Err _ => hold I d' end.
Proof. intros H HP E. exact (triple_run _ _ _ _ _ _ H HP E). Qed.

Lemma does_weaken P P' m (Q Q' : A -> assertion) I I' :
  does P' m Q' I' -> (forall n t, P n t -> P' n t) -> (forall a n t, Q' a n t -> Q a n t) ->
  (forall n t, I' n t -> I n t) -> does P m Q I.
Proof.
  intros H HP HQ HI. eapply triple_weaken; [exact H|intros d; apply HP|].
  intros [a|e] d; [apply HQ|apply HI].
Qed.

Lemma does_pre P P' m (Q : A -> assertion) I :
  does P' m Q I -> (forall n t, P n t -> P' n t) -> does P m Q I.
Proof. intros H HP d Hd. by apply H, HP. Qed.

Lemma does_ret P (a : A) (Q : A -> assertion) I : (forall n t, P n t -> Q a n t) -> does P (ret a) Q I.
Proof. intros H d. apply H. Qed.

Lemma does_fail P e (Q : A -> assertion) I : (forall n t, P n t -> I n t) -> does P (fail e) Q I.
Proof. intros H d. apply H. Qed.

Lemma does_bind P m (k : A -> io cp B) R Q I :
  does P m R I -> (forall a, does (R a) (k a) Q I) -> does P (bind m k) Q I.
Proof.
  intros Hm Hk. eapply (triple_bind _ _ _ (fun a => hold (R a))); [|exact Hk].
  eapply triple_weaken; [exact Hm|done|]. by intros [a|e] d.
Qed.

Lemma does_exec P (f : Z -> tables -> res (A * tables)) (Q : A -> assertion) I :
  (forall n t, P n t -> I n t) ->
  (forall n t, P n t -> match f n t with Ok (a, t') => Q a n t' | Err _ => I n t end) ->
  does P (exec f) Q I.
Proof.
  intros HI HQ d HP. unfold exec. specialize (HI _ _ HP). specialize (HQ _ _ HP).
  destruct (cp_faults d) as [|[] fs]; [|done|]; destruct (f (cp_now d) (cp_tables d)) as [[a t]|e]; done.
Qed.

Lemma does_query P (f : Z -> tables -> A) I :
  (forall n t, P n t -> I n t) -> does P (query f) (fun a n t => P n t /\ a = f n t) I.
Proof. intros HI. by apply does_exec. Qed.

Lemma does_pure P (phi : Prop) m (Q : A -> assertion) I :
  (phi -> does P m Q I) -> does (fun n t => P n t /\ phi) m Q I.
Proof. intros H d [HP Hphi]. exact (H Hphi d HP). Qed.

Lemma does_newID P p I : does P (newID p) (fun _ => P) I.
Proof. by intros d. Qed.

Lemma does_wrapping P pre m Q I : does P m Q I -> does P (wrapping pre m) Q I.
Proof.
  intros H. eapply triple_wrapping, triple_weaken; [exact H|done|]. by intros [a|e] d.
Qed.

Lemma does_attempt P m (Q : A -> assertion) I I' :
  does P m Q I -> does P (attempt m) (fun r => match r with Ok a => Q a | Err _ => I end) I'.
Proof. intros H. eapply triple_attempt, triple_weaken; [exact H|done|]. by intros [a|e] d. Qed.

End rules.

Lemma does_transaction {A} t0 now (m : io cp A) (Q : A -> assertion) :
  does (from t0 now) m Q (at_time now) -> (forall a n t, Q a n t -> n = now) ->
  does (from t0 now) (transaction m) Q (from t0 now).
Proof.
  intros H HQ.
  assert (Hb : does (from t0 now) (bind (query (fun _ _ => tt)) (fun _ => bind m (fun a =>
    bind (query (fun _ _ => tt)) (fun _ => ret a)))) Q (at_time now)).
  { eapply does_bind; [apply does_query; intros ? ? H'; exact (proj1 H')|]. intros u.
    eapply does_bind; [eapply does_weaken; [exact H|intros ? ? H'; exact (proj1 H')|done|done]|]. intros a.
    eapply does_bind; [apply does_query; intros ? ? ?%HQ; done|]. intros u'.
    apply does_ret. intros ? ? H'. exact (proj1 H'). }
  intros d HP. specialize (Hb d HP). unfold transaction. destruct HP as [Hn Ht].
  match type of Hb with match ?c with (_, _) => _ end => destruct c as [[a|e] d'] end; [done|].
  by split.
Qed.
Lemma does_update P f (Q : unit -> assertion) I :
  (forall n t, P n t -> I n t) -> (forall n t, P n t -> Q tt n (f n t)) -> does P (update f) Q I.
Proof. intros HI HQ. by apply does_exec. Qed.

Lemma does_transaction_at {A} (P : assertion) now (m : io cp A) (Q : A -> assertion) (I : assertion) :
  (forall n t, P n t -> n = now) ->
  (forall t1, P now t1 -> does (from t1 now) m Q (at_time now)) ->
  (forall a n t, Q a n t -> n = now) -> (forall n t, P n t -> I n t) ->
  does P (transaction m) Q I.
Proof.
  intros Hn Hm HQ HI d HP. pose proof (Hn _ _ HP) as En.
  assert (Hd : P now (cp_tables d)) by (rewrite <- En; exact HP).
  pose proof (does_transaction _ _ _ _ (Hm _ Hd) HQ d (conj En eq_refl)) as H.
  destruct (transaction m d) as [[a|e] d']; [done|]. destruct H as [E1 E2].
  unfold hold in *. rewrite E1, E2. rewrite En in HP. by apply HI.
Qed.

(** A failed transaction leaves the tables it found. *)
Lemma does_transaction_any {A} (P : assertion) (m : io cp A) (Q : A -> assertion) (I : assertion) :
  does P m Q (fun _ _ => True) -> (forall n n' t, P n t -> I n' t) -> does P (transaction m) Q I.
Proof.
  intros H HI d HP.
  assert (Hb : does P (_ <- query (fun _ _ => tt) ;; a <- m ;; _ <- query (fun _ _ => tt) ;; ret a) Q (fun _ _ => True)).
  { eapply does_bind; [by apply does_query|]. intros u. eapply does_bind; [eapply does_pre; [exact H|by intros ? ? []]|]. intros a.
    eapply does_bind; [by apply does_query|]. intros u'. apply does_ret. by intros ? ? []. }
  specialize (Hb d HP). unfold transaction. destruct (bind _ _ d) as [[a|e] d']; [exact Hb|]. by eapply HI.
Qed.

(** ** Runs in which no statement fails *)

Definition quiet (d : cp) : Prop := cp_faults d = [].

Lemma with_tables_quiet t d : quiet d -> quiet (with_tables t d).
Proof. done. Qed.

Lemma exec_quiet {A} (f : Z -> tables -> res (A * tables)) d : quiet d ->
  exec f d = match f (cp_now d) (cp_tables d) with Ok (a, t) => (Ok a, with_tables t d) | Err e => (Err e, d) end.
Proof. destruct d as [t n fs r k mem]. unfold quiet. cbn. by intros ->. Qed.

Lemma query_quiet {A} (f : Z -> tables -> A) d : quiet d -> query f d = (Ok (f (cp_now d) (cp_tables d)), d).
Proof. intros H. unfold query. rewrite exec_quiet by done. by destruct d. Qed.

Lemma update_quiet f d : quiet d -> update f d = (Ok tt, with_tables (f (cp_now d) (cp_tables d)) d).
Proof. intros H. unfold update. by rewrite exec_quiet. Qed.

Lemma query_bind {A B} (f : Z -> tables -> A) (k : A -> io cp B) d :
  quiet d -> bind (query f) k d = k (f (cp_now d) (cp_tables d)) d.
Proof. intros H. by erewrite bind_run by by apply query_quiet. Qed.

Lemma update_bind {B} f (k : unit -> io cp B) d :
  quiet d -> bind (update f) k d = k tt (with_tables (f (cp_now d) (cp_tables d)) d).
Proof. intros H. by erewrite bind_run by by apply update_quiet. Qed.

Lemma transaction_ok {A} (m : io cp A) d a d' :
  quiet d -> m d = (Ok a, d') -> quiet d' -> transaction m d = (Ok a, d').
Proof.
  intros H E H'. unfold transaction. rewrite query_bind by done.
  erewrite bind_run by exact E. by rewrite query_bind.
Qed.

Lemma newID_bind {B} p (k : string -> io cp B) d :
  bind (newID p) k d = k (p +:+ "_" +:+ cp_rand d (cp_drawn d))
    (mkCp (cp_tables d) (cp_now d) (cp_faults d) (cp_rand d) (S (cp_drawn d)) (cp_memory d)).
Proof. done. Qed.
