(* ===== verification/Deploy.v ===== *)
(** * Deployments

    Models [cp/internal/store/deployments.go], [CreateHeadDeployment] of
    [cp/internal/store/git.go] and [enqueueAlertTx] of
    [cp/internal/store/alerts_store.go]: the release history and the pipeline
    status of every resource.  Statuses are the strings of the code; an SQL
    condition is a bool function on rows with the columns it reads. *)

From S2P Require Import Prelude GoStrings Json Naming CpDb.

Local Open Scope string_scope.
Local Open Scope io_scope.

(** ** Statuses *)

Definition terminalDeployStatus (s : string) : bool :=
  existsb (String.eqb s) ["success"; "failed"; "superseded"; "rolled_back"].

Definition deployStatusRank (s : string) : Z :=
  if String.eqb s "queued" then 0
  else if String.eqb s "building" then 1
  else if String.eqb s "deploying" then 2
  else if String.eqb s "success" then 3
  else -1.

Definition deployInFlight (status : string) : bool :=
  existsb (String.eqb status) ["queued"; "building"; "deploying"].

Definition in_flight (d : deployment) : bool := deployInFlight (dp_status d).

(** [GREATEST(0, EXTRACT(EPOCH FROM (now() - COALESCE(started_at, created_at)))::int)];
    the cast rounds to the nearest second. *)
Definition elapsed_seconds (now : Z) (d : deployment) : Z :=
  Z.max 0 ((now - default (dp_created_at d) (dp_started_at d) + 500000) / 1000000).

(** ** Superseding *)

(** [(($2 = '' AND server_id IS NULL) OR server_id = NULLIF($2,''))] *)
Definition same_server (serverID : string) (server_id : option string) : bool :=
  match server_id with
  | None => String.eqb serverID ""
  | Some s => negb (String.eqb serverID "") && String.eqb s serverID
  end.

Definition superseded_row (now : Z) (d : deployment) : deployment :=
  mkDeployment (dp_release d) "superseded" (dp_detail d) (dp_image_digest d) (dp_build_seconds d)
    (Some (elapsed_seconds now d)) (dp_started_at d) (Some now) (dp_service_status d) (dp_dsd_version d).

(** The rows a new deployment of the resource on the server replaces. *)
Definition supersedes (orgID serverID resourceID : string) (d : deployment) : bool :=
  String.eqb (dp_org d) orgID && String.eqb (dp_resource d) resourceID &&
  same_server serverID (dp_server d) && in_flight d.

Definition supersedeInFlightTx (orgID serverID resourceID : string) : io cp unit :=
  if String.eqb resourceID "" then ret tt
  else
    let lockKey := if String.eqb serverID "" then "deploy:" +:+ resourceID
                   else "deploy:" +:+ serverID +:+ ":" +:+ resourceID in
    _ <- advisory_lock lockKey ;;
    update (fun now => set_deployments (map (fun d =>
      if supersedes orgID serverID resourceID d then superseded_row now d else d))).

(** ** Alerts *)

Definition AlertDeployFailed := "deploy_failed".

Definition left (s : string) (n : nat) : string :=
  if (n <? String.length s)%nat then stake n s else s.

(** [window] in microseconds; a window that is not positive never ends. *)
Definition alert_due (now window : Z) (dedupKey : string) (rows : list alert_row) (r : alert_rule) : bool :=
  negb (existsb (fun o => String.eqb (al_channel o) (ar_channel r) && String.eqb (al_dedup_key o) dedupKey &&
                          ((window <=? 0)%Z || (now - window <? al_created_at o)%Z)) rows).

Definition enqueueAlertTx `{!Postgres} (orgID event dedupKey : string) (window : Z) (title body : string) : io cp unit :=
  _ <- wrapping "alert dedup lock: " (advisory_lock ("alert:" +:+ orgID +:+ ":" +:+ dedupKey)) ;;
  wrapping "enqueue alert: " (update (fun now t =>
    let due r := String.eqb (ar_org r) orgID && String.eqb (ar_event r) event &&
                 existsb (fun c => String.eqb (ac_id c) (ar_channel r) && ac_enabled c) (alert_channels t) &&
                 alert_due now window dedupKey (alert_outbox t) r in
    let row r := mkAlert (ar_org r) (ar_channel r) event dedupKey title (left body 4000) now (queued_delivery now) in
    set_outbox (fun o => o ++ map row (order_by (fun _ => 0%Z) (List.filter due (alert_rules t))))%list t)).

(** ** Status transitions *)

Record DeploymentStatusUpdate := mkUpdate {
  up_Status : string;
  up_Detail : string;
  up_ImageDigest : string;
  up_BuildSeconds : option Z;
  up_MarkStarted : bool;
  up_MarkFinished : bool;
}.

(** The [UPDATE] of [setDeploymentStatusTx]. *)
Definition updated_row (up : DeploymentStatusUpdate) (now : Z) (d : deployment) : deployment :=
  mkDeployment (dp_release d) (up_Status up)
    (if String.eqb (up_Detail up) "" then dp_detail d else up_Detail up)
    (match nullif (up_ImageDigest up) with Some i => Some i | None => dp_image_digest d end)
    (match up_BuildSeconds up with Some b => Some b | None => dp_build_seconds d end)
    (if up_MarkFinished up then Some (elapsed_seconds now d) else dp_duration_seconds d)
    (if up_MarkStarted up && bool_decide (dp_started_at d = None) then Some now else dp_started_at d)
    (if up_MarkFinished up then Some now else dp_finished_at d)
    (dp_service_status d) (dp_dsd_version d).

(** The title of a failure's alert. *)
Definition deploy_failed_title (resName sha : string) : string :=
  let title := "Deploy of " +:+ resName +:+ " failed" in
  let sha := if (7 <? String.length sha)%nat then stake 7 sha else sha in
  if String.eqb sha "" then title else title +:+ " (" +:+ sha +:+ ")".

Section store.
Context {pg : Postgres}.

Definition setDeploymentStatusTx (deploymentID : string) (up : DeploymentStatusUpdate) : io cp unit :=
  row <- query (fun _ t => dep_by_id t deploymentID) ;;
  match row with
  | None => fail ErrNotFound
  | Some d =>
      if terminalDeployStatus (dp_status d) then fail ErrConflict
      else
        _ <- update (fun now => update_dep deploymentID (updated_row up now)) ;;
        if String.eqb (up_Status up) "failed" then
          joined <- query (fun _ t =>
            d ← dep_by_id t deploymentID; r ← res_by_id t (dp_resource d);
            Some (dp_org d, rs_name r, deref (rl_git_sha (dp_release d)))) ;;
          match joined with
          | None => fail ErrNoRows
          | Some (orgID, resName, sha) =>
              let detail := if String.eqb (up_Detail up) "" then "no failure detail reported" else up_Detail up in
              enqueueAlertTx orgID AlertDeployFailed ("dep:" +:+ deploymentID) 0 (deploy_failed_title resName sha) detail
          end
        else ret tt
  end.

Definition SetDeploymentStatus (deploymentID : string) (up : DeploymentStatusUpdate) : io cp unit :=
  transaction (setDeploymentStatusTx deploymentID up).

(** *** Timeouts *)

Definition timed_out : DeploymentStatusUpdate :=
  mkUpdate "failed" "timed out — the agent stopped reporting progress" "" None false true.

(** In flight, and no sign of life for [timeout] microseconds. *)
Definition stale (now timeout : Z) (d : deployment) : bool :=
  in_flight d && (default (dp_created_at d) (dp_started_at d) <? now - timeout)%Z.

Fixpoint timeout_each (ids : list string) (n : Z) : io cp Z :=
  match ids with
  | [] => ret n
  | id :: ids =>
      r <- attempt (setDeploymentStatusTx id timed_out) ;;
      match r with
      | Ok _ => timeout_each ids (n + 1)
      | Err e => if String.eqb e ErrConflict then timeout_each ids n else fail e
      end
  end.

(** [timeout] in nanoseconds, as a [time.Duration] *)
Definition TimeoutStaleDeployments (timeout : Z) : io cp Z :=
  if (timeout <=? 0)%Z then ret 0%Z
  else transaction (
    ids <- query (fun now t =>
      map dp_id (order_by dp_created_at (List.filter (stale now (timeout / 1000)) (deployments t)))) ;;
    timeout_each ids 0).

(** *** The version that rendered a deployment *)

Definition stamped_row (version : Z) (d : deployment) : deployment :=
  mkDeployment (dp_release d) (dp_status d) (dp_detail d) (dp_image_digest d) (dp_build_seconds d)
    (dp_duration_seconds d) (dp_started_at d) (dp_finished_at d) (dp_service_status d) version.

Definition StampDeploymentDSDVersion (deploymentIDs : list string) (version : Z) : io cp unit :=
  if (length deploymentIDs =? 0)%nat || (version <=? 0)%Z then ret tt
  else update (fun _ => set_deployments (map (fun d =>
    if existsb (String.eqb (dp_id d)) deploymentIDs && (dp_dsd_version d =? 0)%Z && in_flight d
    then stamped_row version d else d))).

(** ** Services of a Compose app *)

Record compose_service := mkService { cps_Name : string; cps_Build : string; cps_Image : string }.

Definition dec_service (fs : list (string * json)) : option compose_service :=
  name ← dec_str (jget fs "name"); build ← dec_str (jget fs "build"); image ← dec_str (jget fs "image");
  Some (mkService name build image).

(** [json.Unmarshal(spec, &s)]: [None] is an error, [Some None] a nil [Compose]. *)
Definition dec_compose (spec : json) : option (option (list compose_service)) :=
  dec_struct (fun fs =>
    match jget fs "compose" with
    | None | Some JNull => Some None
    | Some v => Some <$> dec_struct (fun fs => dec_list (dec_struct dec_service) (jget fs "services")) v
    end) spec.

Definition runnable (svc : compose_service) : bool :=
  negb (String.eqb (cps_Name svc) "") && (negb (String.eqb (cps_Build svc) "") || negb (String.eqb (cps_Image svc) "")).

Definition composeServiceCount (spec : json) : Z :=
  match dec_compose spec with
  | None | Some None => 0
  | Some (Some svcs) => Z.of_nat (length (List.filter runnable svcs))
  end.

Definition resourceServiceCountTx (orgID resourceID : string) : io cp Z :=
  row <- query (fun _ t => res_by_id t resourceID) ;;
  match row with
  | Some r => if String.eqb (rs_org r) orgID then ret (composeServiceCount (rs_spec r)) else fail ErrNotFound
  | None => fail ErrNotFound
  end.

(** [SELECT COALESCE(build_server_id,'') FROM git_branch_map WHERE ... LIMIT 1] *)
Definition mapped_build_server (connID envID : string) (t : tables) : option string :=
  head (map (fun m => deref (bm_build_server m)) (order_by (fun _ => 0%Z) (List.filter (fun m =>
    String.eqb (bm_connection m) connID && String.eqb (bm_environment m) envID) (git_branch_map t)))).

Definition resolveBuildServerTx (srcBuildServer connID envID : string) : io cp string :=
  if negb (String.eqb srcBuildServer "") then ret srcBuildServer
  else if String.eqb connID "" || String.eqb envID "" then ret ""
  else o <- query (fun _ => mapped_build_server connID envID) ;; ret (deref o).

(** ** Creating deployments *)

Definition insert_deployment (rl : Z -> release) (digest : option string) : io cp unit :=
  exec (fun now t =>
    let d := mkDeployment (rl now) "queued" "" digest None None None None ∅ 0 in
    match dep_by_id t (dp_id d) with
    | Some _ => Err ErrUnique
    | None => Ok (tt, set_deployments (fun l => l ++ [d])%list t)
    end).

Record CreateDeploymentInput := mkCreate {
  ci_ResourceID : string; ci_EnvironmentID : string; ci_ServerID : string; ci_ConnectionID : string;
  ci_Trigger : string; ci_GitRef : string; ci_GitSHA : string; ci_ConfigHash : string;
  ci_RollbackOf : string; ci_ImageDigest : string;
}.

(** The creators return the new deployment's id (the rest of the returned
    struct repeats the inserted row). *)
Definition CreateDeployment (orgID : string) (i : CreateDeploymentInput) (actor : string) : io cp string :=
  let trigger := if String.eqb (ci_Trigger i) "" then "manual" else ci_Trigger i in
  transaction (
    row <- query (fun _ t => res_by_id t (ci_ResourceID i)) ;;
    match row with
    | Some r =>
        if negb (String.eqb (rs_org r) orgID) then fail ErrNotFound
        else
          let serverID := if String.eqb (ci_ServerID i) "" then deref (rs_server r) else ci_ServerID i in
          let svcCount := composeServiceCount (rs_spec r) in
          id <- newID "dep" ;;
          let pin := if String.eqb trigger "rollback" then "" else DeployPin id in
          _ <- insert_deployment (mkRelease id orgID (ci_ResourceID i) (nullif (ci_EnvironmentID i)) (nullif serverID)
                 (nullif (ci_ConnectionID i)) trigger (Some (ci_GitRef i)) (Some (ci_GitSHA i)) pin
                 (Some (ci_ConfigHash i)) svcCount (nullif (ci_RollbackOf i)) actor None) (nullif (ci_ImageDigest i)) ;;
          _ <- auditTx orgID actor ("Deploy queued (" +:+ trigger +:+ ")") (ci_ResourceID i) ;;
          ret id
    | None => fail ErrNotFound
    end).

(** [ORDER BY created_at DESC] *)
Definition newest_first : list deployment -> list deployment := order_by (fun d => - dp_created_at d)%Z.

Definition of_resource (orgID resourceID : string) (d : deployment) : bool :=
  String.eqb (dp_org d) orgID && String.eqb (dp_resource d) resourceID.

Definition latest_deployment (orgID resourceID : string) (t : tables) : option deployment :=
  head (newest_first (List.filter (of_resource orgID resourceID) (deployments t))).

Definition rollback_error := "rollback target must be a successful release with a retained image".

(** [pinned] or [legacySingle], of a release that succeeded *)
Definition rollback_eligible (d : deployment) : bool :=
  let pinned := negb (String.eqb (rl_image_pin (dp_release d)) "") in
  let legacySingle := match dp_image_digest d with Some i => negb (String.eqb i "") | None => false end
                      && (rl_service_count (dp_release d) =? 0)%Z in
  String.eqb (dp_status d) "success" && (pinned || legacySingle).

Definition CreateRollback (orgID resourceID targetDeploymentID actor : string) : io cp (string * string) :=
  transaction (
    row <- query (fun _ t => List.find (fun d => of_resource orgID resourceID d && String.eqb (dp_id d) targetDeploymentID)
                               (deployments t)) ;;
    match row with
    | None => fail ErrNotFound
    | Some t =>
        if negb (rollback_eligible t) then fail rollback_error
        else
          let s := dp_release t in
          svcCount <- resourceServiceCountTx orgID resourceID ;;
          id <- newID "dep" ;;
          let serverID := deref (rl_server s) in
          _ <- supersedeInFlightTx orgID serverID resourceID ;;
          buildServer <- resolveBuildServerTx (deref (rl_build_server s)) (deref (rl_connection s)) (deref (rl_environment s)) ;;
          _ <- insert_deployment (mkRelease id orgID resourceID (nullif (deref (rl_environment s))) (nullif serverID)
                 (nullif (deref (rl_connection s))) "rollback" (nullif (deref (rl_git_ref s))) (nullif (deref (rl_git_sha s)))
                 (rl_image_pin s) (nullif (deref (rl_config_hash s))) svcCount (Some targetDeploymentID) actor
                 (nullif buildServer)) (nullif (deref (dp_image_digest t))) ;;
          _ <- auditTx orgID actor ("Rollback queued to " +:+ targetDeploymentID) resourceID ;;
          ret (id, serverID)
    end).

Definition redeploy_error := "nothing to redeploy — connect a repo and push first".

Definition CreateManualRedeploy (orgID resourceID actor : string) : io cp (string * string) :=
  transaction (
    row <- query (fun _ => latest_deployment orgID resourceID) ;;
    match row with
    | None => fail redeploy_error
    | Some t =>
        let s := dp_release t in
        svcCount <- resourceServiceCountTx orgID resourceID ;;
        id <- newID "dep" ;;
        let serverID := deref (rl_server s) in
        _ <- supersedeInFlightTx orgID serverID resourceID ;;
        buildServer <- resolveBuildServerTx (deref (rl_build_server s)) (deref (rl_connection s)) (deref (rl_environment s)) ;;
        _ <- insert_deployment (mkRelease id orgID resourceID (nullif (deref (rl_environment s))) (nullif serverID)
               (nullif (deref (rl_connection s))) "manual" (nullif (deref (rl_git_ref s))) (nullif (deref (rl_git_sha s)))
               (DeployPin id) (nullif (deref (rl_config_hash s))) svcCount None actor (nullif buildServer)) None ;;
        _ <- auditTx orgID actor "Manual redeploy queued" resourceID ;;
        ret (id, serverID)
    end).

(** What a config deployment re-ships: commit, image and pin. *)
Record shipped := mkShipped {
  shp_ref : option string; shp_sha : option string; shp_digest : option string; shp_pin : string }.

Definition shipped_by (d : deployment) : shipped :=
  mkShipped (rl_git_ref (dp_release d)) (rl_git_sha (dp_release d)) (dp_image_digest d) (rl_image_pin (dp_release d)).

Definition latest_success (orgID resourceID : string) (t : tables) : option deployment :=
  head (newest_first (List.filter (fun d => of_resource orgID resourceID d && String.eqb (dp_status d) "success")
                        (deployments t))).

Definition config_shipped (orgID resID depID : string) (t : deployment) : io cp shipped :=
  if String.eqb (dp_status t) "success" then ret (shipped_by t)
  else
    row <- query (fun _ => latest_success orgID resID) ;;
    match row with
    | Some s => ret (shipped_by s)
    | None => ret (mkShipped (rl_git_ref (dp_release t)) (rl_git_sha (dp_release t)) None (DeployPin depID))
    end.

Definition insert_config (orgID resID actor depID buildServer : string) (svcCount : Z) (t : deployment) (x : shipped)
    : io cp unit :=
  let s := dp_release t in
  insert_deployment (mkRelease depID orgID resID (nullif (deref (rl_environment s))) (nullif (deref (rl_server s)))
    (nullif (deref (rl_connection s))) "config" (nullif (deref (shp_ref x))) (nullif (deref (shp_sha x))) (shp_pin x)
    (nullif (deref (rl_config_hash s))) svcCount None actor (nullif buildServer)) (nullif (deref (shp_digest x))).

Fixpoint config_each (orgID : string) (resourceIDs : list string) (actor reason : string) (seen : gmap string string)
    : io cp (gmap string string) :=
  match resourceIDs with
  | [] => ret seen
  | resID :: resourceIDs =>
      row <- query (fun _ => latest_deployment orgID resID) ;;
      match row with
      | None => config_each orgID resourceIDs actor reason seen
      | Some t =>
          if deployInFlight (dp_status t) then config_each orgID resourceIDs actor reason seen
          else
            let s := dp_release t in
            svcCount <- resourceServiceCountTx orgID resID ;;
            depID <- newID "dep" ;;
            x <- config_shipped orgID resID depID t ;;
            buildServer <- resolveBuildServerTx (deref (rl_build_server s)) (deref (rl_connection s)) (deref (rl_environment s)) ;;
            _ <- insert_config orgID resID actor depID buildServer svcCount t x ;;
            _ <- auditTx orgID actor ("Config deploy queued (" +:+ reason +:+ ")") resID ;;
            let sid := deref (rl_server s) in
            config_each orgID resourceIDs actor reason (if String.eqb sid "" then seen else <[sid := orgID]> seen)
      end
  end.

(** The servers to re-render, each with its organisation. *)
Definition CreateConfigDeployments (orgID : string) (resourceIDs : list string) (actor reason : string)
    : io cp (gmap string string) :=
  match resourceIDs with
  | [] => ret ∅
  | _ => transaction (config_each orgID resourceIDs actor reason ∅)
  end.

(** [hex.EncodeToString(sum[:8])] of the spec as the database spells it *)
Definition configHash (spec : json) : string := hex_encode (take 8 (sha256_sum (jsonb_text spec))).

Definition shortSHA (sha : string) : string := if (7 <? String.length sha)%nat then stake 7 sha else sha.

(** [HeadDeployOrigin] *)
Record HeadDeployOrigin := mkOrigin {
  ho_ConnectionID : string; ho_EnvironmentID : string; ho_ServerID : string; ho_Branch : string;
  ho_Ref : string; ho_MapID : string; ho_BuildServerID : string;
}.

(** [UPDATE git_branch_map SET last_ref, last_sha WHERE id = $1 AND COALESCE(last_sha,'') = ''] *)
Definition note_head (mapID ref sha : string) : io cp unit :=
  update (fun _ => set_branch_map (map (fun m =>
    if String.eqb (bm_id m) mapID && String.eqb (deref (bm_last_sha m)) ""
    then mkBranchMap (bm_id m) (bm_connection m) (bm_environment m) (bm_build_server m) (Some ref) (Some sha)
    else m))).

Definition CreateHeadDeployment (orgID resourceID actor : string) (o : HeadDeployOrigin) (sha : string)
    : io cp (string * string) :=
  if String.eqb (trim_space sha) "" then fail "commit sha is required"
  else transaction (
    row <- query (fun _ t => List.find (fun r => String.eqb (rs_org r) orgID && String.eqb (rs_id r) resourceID) (resources t)) ;;
    match row with
    | None => fail ErrNotFound
    | Some r =>
        id <- newID "dep" ;;
        let serverID := ho_ServerID o in
        _ <- supersedeInFlightTx orgID serverID resourceID ;;
        _ <- insert_deployment (mkRelease id orgID resourceID (nullif (ho_EnvironmentID o)) (nullif serverID)
               (nullif (ho_ConnectionID o)) "manual" (nullif (ho_Ref o)) (Some sha) (DeployPin id)
               (nullif (configHash (rs_spec r))) (composeServiceCount (rs_spec r)) None actor
               (nullif (ho_BuildServerID o))) None ;;
        _ <- (if String.eqb (ho_MapID o) "" then ret tt else note_head (ho_MapID o) (ho_Ref o) sha) ;;
        _ <- auditTx orgID actor ("Deploy queued from " +:+ ho_Branch o +:+ " head (" +:+ shortSHA sha +:+ ")") resourceID ;;
        ret (id, serverID)
    end).

(** *** Pushes *)

Definition drainBatchLimit : nat := 200.

Record deploy_request := mkDrainReq {
  dr_id : string; dr_orgID : string; dr_connID : string; dr_envID : string; dr_ref : string; dr_sha : string;
  dr_projectID : string; dr_buildServerID : string;
}.

(** [DrainDeployRequestsQuery] *)
Definition drain_query (t : tables) : list deploy_request :=
  omap (fun q =>
    c ← conn_by_id t (rq_connection q);
    Some (mkDrainReq (rq_id q) (rq_org q) (rq_connection q) (deref (rq_environment q)) (rq_ref q) (rq_sha q)
            (gc_project c)
            (match rq_environment q with
             | Some env => deref (mapped_build_server (rq_connection q) env t)
             | None => "" end)))
    (take drainBatchLimit (order_by rq_created_at (List.filter (fun q =>
      String.eqb (rq_kind q) "deploy" && String.eqb (rq_status q) "queued" &&
      bool_decide (is_Some (conn_by_id t (rq_connection q)))) (deploy_requests t)))).

(** The app resources of a request's environment. *)
Definition target_apps (r : deploy_request) (t : tables) : list resource_row :=
  order_by (fun _ => 0%Z) (List.filter (fun a =>
    String.eqb (rs_org a) (dr_orgID r) && String.eqb (rs_project a) (dr_projectID r) &&
    match rs_environment a with Some e => String.eqb e (dr_envID r) | None => false end &&
    String.eqb (rs_kind a) "app") (resources t)).

Fixpoint drain_apps (r : deploy_request) (apps : list resource_row) (seen : gmap string string)
    : io cp (gmap string string) :=
  match apps with
  | [] => ret seen
  | a :: apps =>
      let serverID := deref (rs_server a) in
      let cfgHash := configHash (rs_spec a) in
      let svcCount := composeServiceCount (rs_spec a) in
      _ <- supersedeInFlightTx (dr_orgID r) serverID (rs_id a) ;;
      depID <- newID "dep" ;;
      _ <- insert_deployment (mkRelease depID (dr_orgID r) (rs_id a) (nullif (dr_envID r)) (nullif serverID)
             (Some (dr_connID r)) "git" (Some (dr_ref r)) (Some (dr_sha r)) (DeployPin depID) (Some cfgHash) svcCount
             None "github-webhook" (nullif (dr_buildServerID r))) None ;;
      let seen := if String.eqb serverID "" then seen else <[serverID := dr_orgID r]> seen in
      drain_apps r apps
        (if negb (String.eqb (dr_buildServerID r) "") && negb (String.eqb (dr_buildServerID r) serverID)
         then <[dr_buildServerID r := dr_orgID r]> seen else seen)
  end.

Definition no_targets_detail :=
  "no app resources in this environment yet — create one and push again, or use Redeploy".

(** [UPDATE deploy_requests SET status, deployments_created, detail WHERE id] *)
Definition mark_request (id status detail : string) (created : Z) : io cp unit :=
  update (fun _ => set_requests (map (fun q =>
    if String.eqb (rq_id q) id
    then mkRequest (rq_id q) (rq_org q) (rq_connection q) (rq_environment q) (rq_kind q) (rq_ref q) (rq_sha q)
           status created detail (rq_created_at q)
    else q))).

Fixpoint drain_each (reqs : list deploy_request) (seen : gmap string string) : io cp (gmap string string) :=
  match reqs with
  | [] => ret seen
  | r :: reqs =>
      apps <- query (fun _ => target_apps r) ;;
      seen <- drain_apps r apps seen ;;
      _ <- (match apps with
            | [] => auditTx (dr_orgID r) "webhook" "Push matched no deployable resources" (dr_ref r)
            | _ => ret tt
            end) ;;
      _ <- (match apps with
            | [] => mark_request (dr_id r) "no_targets" no_targets_detail 0
            | _ => mark_request (dr_id r) "drained" "" (Z.of_nat (length apps))
            end) ;;
      drain_each reqs seen
  end.

Definition DrainDeployRequests : io cp (gmap string string) :=
  transaction (
    reqs <- query (fun _ => drain_query) ;;
    drain_each reqs ∅).

(** ** Reading *)

Definition ListDeployments (orgID resourceID : string) (limit : Z) : io cp (list deployment) :=
  let limit := if (limit <=? 0)%Z || (100 <? limit)%Z then 20%Z else limit in
  query (fun _ t => take (Z.to_nat limit) (newest_first (List.filter (of_resource orgID resourceID) (deployments t)))).

Definition RollbackWindow : Z := 10.

(** The [WHERE] of [RollbackTargets]. *)
Definition rollback_target (d : deployment) : bool :=
  String.eqb (dp_status d) "success" &&
  (negb (String.eqb (rl_image_pin (dp_release d)) "") ||
   (bool_decide (is_Some (dp_image_digest d)) && (rl_service_count (dp_release d) =? 0)%Z)).

Definition RollbackTargets (orgID resourceID : string) (limit : Z) : io cp (list deployment) :=
  let limit := if (limit <=? 0)%Z || (RollbackWindow <? limit)%Z then RollbackWindow else limit in
  query (fun _ t => take (Z.to_nat limit) (newest_first (List.filter (fun d =>
    of_resource orgID resourceID d && rollback_target d) (deployments t)))).

Definition GetDeployment (orgID deploymentID : string) : io cp deployment :=
  row <- query (fun _ t => List.find (fun d => String.eqb (dp_org d) orgID && String.eqb (dp_id d) deploymentID) (deployments t)) ;;
  match row with Some d => ret d | None => fail ErrNotFound end.

(** *** Who renders and who reports *)

Definition places (t : tables) (resourceID serverID : string) : bool :=
  existsb (fun p => String.eqb p.1 resourceID && String.eqb p.2 serverID) (resource_service_placements t).

Definition is_server (o : option string) (serverID : string) : bool :=
  match o with Some s => String.eqb s serverID | None => false end.

(** [deploymentReporterClause], for a deployment and its resource *)
Definition deploymentReporterClause (t : tables) (serverID : string) (d : deployment) (r : resource_row) : bool :=
  is_server (dp_server d) serverID
  || is_server (rl_build_server (dp_release d)) serverID
  || match rs_cluster r with
     | Some c => existsb (fun n => String.eqb (nd_cluster n) c && String.eqb (nd_server n) serverID) (cluster_nodes t)
     | None => false
     end
  || places t (dp_resource d) serverID.

Record DeployTarget := mkTarget {
  dt_deployment : deployment;
  dt_ProjectID : string;
  dt_Provider : string;
  dt_RepoFullName : string;
}.

Definition target_status (d : deployment) : bool :=
  existsb (String.eqb (dp_status d)) ["queued"; "building"; "deploying"; "success"].

(** The three arms of [DeployTargetsForServerQuery]. *)
Definition target_arms (serverID : string) (t : tables) : list deployment :=
  let live := List.filter target_status (deployments t) in
  (List.filter (fun d => is_server (dp_server d) serverID) live ++
   List.filter (fun d => is_server (rl_build_server (dp_release d)) serverID) live ++
   List.filter (fun d => places t (dp_resource d) serverID) live)%list.

(** A row joined with its resource and its connection. *)
Definition target_row (t : tables) (d : deployment) : option DeployTarget :=
  r ← res_by_id t (dp_resource d); conn ← rl_connection (dp_release d); c ← conn_by_id t conn;
  Some (mkTarget d (rs_project r) (gc_provider c) (gc_repo c)).

(** [DISTINCT ON (resource_id) ... ORDER BY resource_id, created_at DESC] keeps
    the newest row of each resource. *)
Definition DeployTargetsForServer (serverID : string) : io cp (gmap string DeployTarget) :=
  query (fun _ t =>
    list_to_map (map (fun x => (dp_resource (dt_deployment x), x))
      (order_by (fun x => - dp_created_at (dt_deployment x))%Z (omap (target_row t) (target_arms serverID t))))).

(** ** Reports *)

(** The in-flight deployment of a resource a server may report on. *)
Definition reportable (serverID resourceID : string) (t : tables) : option deployment :=
  head (newest_first (List.filter (fun d =>
    String.eqb (dp_resource d) resourceID && in_flight d &&
    match res_by_id t (dp_resource d) with
    | Some r => deploymentReporterClause t serverID d r
    | None => false
    end) (deployments t))).

(** A report made from an older document than the one that rendered [d]. *)
Definition stale_report (reportVersion : Z) (d : deployment) : bool :=
  (0 <? reportVersion)%Z && (0 <? dp_dsd_version d)%Z && (reportVersion <? dp_dsd_version d)%Z.

(** [if errors.Is(err, ErrConflict) { return nil }; return err] *)
Definition ignoring_conflict (m : io cp unit) : io cp unit :=
  r <- attempt m ;;
  match r with
  | Ok _ => ret tt
  | Err e => if String.eqb e ErrConflict then ret tt else fail e
  end.

(** The status a phase leads to. *)
Definition phase_target (phase : string) : option string :=
  if String.eqb phase "clone" then Some "building"
  else if String.eqb phase "build" then Some "deploying"
  else if String.eqb phase "rollout" then Some "success"
  else None.

Definition AdvanceDeploymentForResource (serverID resourceID phase : string) (ok : bool) (detail : string)
    (reportVersion : Z) : io cp unit :=
  row <- query (fun _ => reportable serverID resourceID) ;;
  match row with
  | None => ret tt
  | Some d =>
      if stale_report reportVersion d then ret tt
      else if negb ok then
        ignoring_conflict (SetDeploymentStatus (dp_id d) (mkUpdate "failed" detail "" None false true))
      else
        match phase_target phase with
        | None => ret tt
        | Some target =>
            if (deployStatusRank target <=? deployStatusRank (dp_status d))%Z then ret tt
            else
              let done := String.eqb target "success" in
              let gitSHA := deref (rl_git_sha (dp_release d)) in
              let digest := if done && negb (String.eqb gitSHA "")
                            then PinnedImageTag resourceID gitSHA (rl_image_pin (dp_release d)) else "" in
              ignoring_conflict (SetDeploymentStatus (dp_id d) (mkUpdate target "" digest None true done))
        end
  end.

(** [AppendDeployLogs]: one statement, in the order of the lines *)
Definition AppendDeployLogs (serverID deploymentID stream : string) (lines : list string) : io cp unit :=
  match lines with
  | [] => ret tt
  | _ =>
      let stream := if String.eqb stream "" then "build" else stream in
      update (fun _ t =>
        match (d ← dep_by_id t deploymentID; r ← res_by_id t (dp_resource d); Some (d, r)) with
        | Some (d, r) =>
            if deploymentReporterClause t serverID d r
            then set_logs (fun l => l ++ map (mkLog deploymentID stream) lines)%list t
            else t
        | None => t
        end)
  end.

Definition AppendDeployLog (serverID deploymentID stream line : string) : io cp unit :=
  AppendDeployLogs serverID deploymentID stream [line].

Definition FailDeploymentFromPrereqOp (serverID resourceID opID errText : string) (reportVersion : Z) : io cp unit :=
  row <- query (fun _ => reportable serverID resourceID) ;;
  match row with
  | None => ret tt
  | Some d =>
      if stale_report reportVersion d then ret tt
      else
        let detail := if String.eqb errText "" then opID +:+ " failed" else opID +:+ " failed: " +:+ errText in
        _ <- AppendDeployLog serverID (dp_id d) "deploy" detail ;;
        ignoring_conflict (SetDeploymentStatus (dp_id d) (mkUpdate "failed" detail "" None false true))
  end.

(** *** Services *)

Definition with_services (m : gmap string string) (d : deployment) : deployment :=
  mkDeployment (dp_release d) (dp_status d) (dp_detail d) (dp_image_digest d) (dp_build_seconds d)
    (dp_duration_seconds d) (dp_started_at d) (dp_finished_at d) m (dp_dsd_version d).

(** The [UPDATE ... RETURNING service_status], and the [SELECT] when the
    service had succeeded already. *)
Definition record_service (depID service svcStatus : string) : io cp (gmap string string) :=
  o <- exec (fun _ t =>
    match dep_by_id t depID with
    | Some d =>
        if String.eqb (default "" (dp_service_status d !! service)) "success" then Ok (None, t)
        else
          let m := <[service := svcStatus]> (dp_service_status d) in
          Ok (Some m, update_dep depID (with_services m) t)
    | None => Ok (None, t)
    end) ;;
  match o with
  | Some m => ret m
  | None =>
      row <- query (fun _ t => dep_by_id t depID) ;;
      match row with Some d => ret (dp_service_status d) | None => fail ErrNoRows end
  end.

Definition count_status (s : string) (m : gmap string string) : nat :=
  length (List.filter (fun kv => String.eqb kv.2 s) (map_to_list m)).

(** The overall transition the services' statuses call for. *)
Definition roll_up (statuses : gmap string string) (serviceCount : Z) (detail : string) : DeploymentStatusUpdate :=
  if (0 <? count_status "failed" statuses)%nat then mkUpdate "failed" detail "" None false true
  else if (0 <? serviceCount)%Z && (serviceCount <=? Z.of_nat (count_status "success" statuses))%Z
  then mkUpdate "success" "" "" None true true
  else mkUpdate "deploying" "" "" None true false.

Definition service_phase (phase : string) (ok : bool) : option string :=
  if negb ok then Some "failed"
  else if String.eqb phase "build" then Some "deploying"
  else if String.eqb phase "rollout" then Some "success"
  else None.

Definition AdvanceDeploymentService (serverID resourceID service phase : string) (ok : bool) (detail : string)
    (reportVersion : Z) : io cp unit :=
  match service_phase phase ok with
  | None => ret tt
  | Some svcStatus =>
      transaction (
        row <- query (fun _ => reportable serverID resourceID) ;;
        match row with
        | None => ret tt
        | Some d =>
            if stale_report reportVersion d then ret tt
            else
              statuses <- record_service (dp_id d) service svcStatus ;;
              let up := roll_up statuses (rl_service_count (dp_release d)) detail in
              ignoring_conflict (setDeploymentStatusTx (dp_id d) up)
        end)
  end.
End store.
