(* ===== verification/DeployHistory.v ===== *)
(** * The release history

    What every operation of [Deploy] does to the table of deployments: rows are
    appended and never removed, their identity never changes, a row that
    reached a terminal status is frozen, and the rows in flight are the newest
    of their resource and server, so that at most one is in flight.  The table
    is followed statement by statement ([during]); a run of the control plane
    is a sequence of operations ([run]) between which anything else may change. *)

From S2P Require Import Prelude GoStrings Json Naming CpDb Deploy.

Local Open Scope string_scope.
Local Open Scope io_scope.

(** ** Rows over time *)

(** A row has one of the seven statuses. *)
Definition known (d : deployment) : Prop := in_flight d = true \/ terminalDeployStatus (dp_status d) = true.

(** What may happen to one row. *)
Record row_step (d d' : deployment) : Prop := {
  rs_release : dp_release d' = dp_release d;
  rs_frozen : in_flight d = false -> d' = d;
  rs_digest : dp_image_digest d <> Some "" -> dp_image_digest d' <> Some "";
  rs_known : known d -> known d';
  rs_forward : (deployStatusRank (dp_status d) <= deployStatusRank (dp_status d'))%Z
               \/ dp_status d' = "failed" \/ dp_status d' = "superseded";
}.

#[export] Instance row_step_preorder : PreOrder row_step.
Proof.
  split.
  - intros d. split; [done..|]. left. lia.
  - intros d1 d2 d3 [H1 F1 D1 K1 W1] [H2 F2 D2 K2 W2]. split; [congruence| |auto|auto|].
    + intros H. rewrite F2; [auto|]. by rewrite (F1 H).
    + destruct W2 as [W2|W2]; [|by right]. destruct W1 as [W1|[W1|W1]]; [left; lia|..];
        (assert (E : in_flight d2 = false) by (unfold in_flight; rewrite W1; reflexivity); rewrite (F2 E), W1; tauto).
Qed.

Lemma terminal_not_in_flight s : terminalDeployStatus s = true -> deployInFlight s = false.
Proof.
  unfold terminalDeployStatus. intros (x & Hx & ->%String.eqb_eq)%existsb_exists.
  cbn in Hx. by repeat destruct Hx as [<-|Hx].
Qed.

Lemma row_step_in_flight d d' : row_step d d' -> in_flight d' = true -> in_flight d = true.
Proof. intros [_ F _ _ _] H. destruct (in_flight d) eqn:E; [done|]. rewrite F in H by done. congruence. Qed.

(** Where a deployment runs: at most one row in flight for each slot. *)
Definition slot (d : deployment) : string * string * option string := (dp_org d, dp_resource d, dp_server d).

Lemma row_step_slot d d' : row_step d d' -> slot d' = slot d /\ dp_created_at d' = dp_created_at d /\ dp_id d' = dp_id d.
Proof. intros [E _ _ _ _]. unfold slot, dp_org, dp_resource, dp_server, dp_created_at, dp_id. by rewrite E. Qed.

(** ** The table over time *)

(** A row that was just inserted. *)
Record new_row (now : Z) (d : deployment) : Prop := {
  nw_status : dp_status d = "queued";
  nw_created : dp_created_at d = now;
  nw_server : dp_server d <> Some "";
  nw_digest : dp_image_digest d <> Some "";
}.

Definition ids (l : list deployment) : list string := map dp_id l.

(** The table after some statements of a transaction at time [now]: the rows
    there were, each a step further, and the rows inserted since. *)
Definition grows (now : Z) (l l' : list deployment) : Prop :=
  exists l1 l2, l' = (l1 ++ l2)%list /\ Forall2 row_step l l1 /\
    Forall (fun d => dp_created_at d = now) l2.

Lemma Forall2_row_step_refl l : Forall2 row_step l l.
Proof. induction l; constructor; [reflexivity|done]. Qed.

Lemma Forall2_row_step_trans l1 l2 l3 : Forall2 row_step l1 l2 -> Forall2 row_step l2 l3 -> Forall2 row_step l1 l3.
Proof. intros H1 H2. by etransitivity. Qed.

Lemma row_steps_created now l l' :
  Forall2 row_step l l' -> Forall (fun d => dp_created_at d = now) l -> Forall (fun d => dp_created_at d = now) l'.
Proof.
  intros H. induction H as [|d d' l l' Hd H IH]; [done|]. intros [Hc Hl]%Forall_cons.
  constructor; [|auto]. destruct (row_step_slot _ _ Hd) as (_ & -> & _). done.
Qed.

Lemma grows_refl now l : grows now l l.
Proof. exists l, []. rewrite app_nil_r. split_and!; [done|apply Forall2_row_step_refl|constructor]. Qed.

Lemma grows_rows now l l' l'' : grows now l l' -> Forall2 row_step l' l'' -> grows now l l''.
Proof.
  intros (l1 & l2 & -> & H1 & H2) H. apply Forall2_app_inv_l in H as (k1 & k2 & Hk1 & Hk2 & ->).
  exists k1, k2. split_and!; [done|by eapply Forall2_row_step_trans|by eapply row_steps_created].
Qed.

Lemma grows_insert now l l' d : grows now l l' -> dp_created_at d = now -> grows now l (l' ++ [d])%list.
Proof.
  intros (l1 & l2 & -> & H1 & H2) Hd. exists l1, (l2 ++ [d])%list. rewrite app_assoc. split_and!; [done|done|].
  apply Forall_app. split; [done|]. by constructor.
Qed.

(** ** Invariants of the table *)

Record table_ok (l : list deployment) : Prop := {
  tk_ids : NoDup (ids l);
  tk_server : forall d, d ∈ l -> dp_server d <> Some "";
  tk_digest : forall d, d ∈ l -> dp_image_digest d <> Some "";
  tk_status : forall d, d ∈ l -> known d;
}.

(** A row in flight is newer than every other row of its slot. *)
Definition newest_flies (l : list deployment) : Prop :=
  forall i j d d', i <> j -> l !! i = Some d -> l !! j = Some d' ->
    in_flight d = true -> slot d = slot d' -> (dp_created_at d' < dp_created_at d)%Z.

Definition at_most_one_in_flight (l : list deployment) : Prop :=
  forall i j d d', l !! i = Some d -> l !! j = Some d' ->
    in_flight d = true -> in_flight d' = true -> slot d = slot d' -> i = j.

Lemma newest_flies_one l : newest_flies l -> at_most_one_in_flight l.
Proof.
  intros H i j d d' Hi Hj Fi Fj E. destruct (decide (i = j)) as [|N]; [done|].
  pose proof (H _ _ _ _ N Hi Hj Fi E). pose proof (H _ _ _ _ (not_eq_sym N) Hj Hi Fj (eq_sym E)). lia.
Qed.

Lemma row_steps_ids l l' : Forall2 row_step l l' -> ids l' = ids l.
Proof.
  induction 1 as [|d d' l l' Hd H IH]; [done|]. unfold ids in *. cbn. rewrite IH.
  by destruct (row_step_slot _ _ Hd) as (_ & _ & ->).
Qed.

Lemma row_steps_lookup l l' i d' : Forall2 row_step l l' -> l' !! i = Some d' ->
  exists d, l !! i = Some d /\ row_step d d'.
Proof. intros H E. destruct (Forall2_lookup_r _ _ _ _ _ H E) as (d & ? & ?). eauto. Qed.

Lemma row_steps_elem l l' d' : Forall2 row_step l l' -> d' ∈ l' -> exists d, d ∈ l /\ row_step d d'.
Proof.
  intros H (i & E)%list_elem_of_lookup. destruct (row_steps_lookup _ _ _ _ H E) as (d & Ei & ?).
  exists d. split; [|done]. by eapply list_elem_of_lookup_2.
Qed.

Lemma rows_table_ok l l' : Forall2 row_step l l' -> table_ok l -> table_ok l'.
Proof.
  intros H [Hn Hk Hd Hs]. split.
  - by rewrite (row_steps_ids _ _ H).
  - intros d' (d & Hin & Hr)%(row_steps_elem _ _ _ H). destruct (row_step_slot _ _ Hr) as (E & _).
    injection E as _ _ ->. auto.
  - intros d' (d & Hin & Hr)%(row_steps_elem _ _ _ H). apply (rs_digest _ _ Hr). auto.
  - intros d' (d & Hin & Hr)%(row_steps_elem _ _ _ H). apply (rs_known _ _ Hr). auto.
Qed.

Lemma insert_table_ok now l d : new_row now d -> dp_id d ∉ ids l -> table_ok l -> table_ok (l ++ [d])%list.
Proof.
  intros [Hq _ Hs Hi] Hid [Hn Hk Hd Hst]. split.
  - unfold ids. rewrite map_app. apply NoDup_app. split_and!; [done| |apply NoDup_singleton].
    intros x Hx ->%list_elem_of_singleton. done.
  - intros d' [?| ->%list_elem_of_singleton]%elem_of_app; auto.
  - intros d' [?| ->%list_elem_of_singleton]%elem_of_app; auto.
  - intros d' [?| ->%list_elem_of_singleton]%elem_of_app; [auto|]. left. unfold in_flight. by rewrite Hq.
Qed.

Lemma rows_newest_flies l l' : Forall2 row_step l l' -> newest_flies l -> newest_flies l'.
Proof.
  intros H N i j d d' Nij Hi Hj Fi E.
  destruct (row_steps_lookup _ _ _ _ H Hi) as (c & Ci & Sc).
  destruct (row_steps_lookup _ _ _ _ H Hj) as (c' & Cj & Sc').
  destruct (row_step_slot _ _ Sc) as (E1 & T1 & _), (row_step_slot _ _ Sc') as (E2 & T2 & _).
  rewrite T1, T2. eapply N; eauto using row_step_in_flight. congruence.
Qed.

(** No row of the slot is in flight, and all are older than [now]. *)
Definition slot_ready (now : Z) (s : string * string * option string) (l : list deployment) : Prop :=
  forall d, d ∈ l -> slot d = s -> in_flight d = false /\ (dp_created_at d < now)%Z.

Lemma insert_newest_flies now l d :
  newest_flies l -> new_row now d -> slot_ready now (slot d) l -> newest_flies (l ++ [d])%list.
Proof.
  intros N [_ Hc _ _] R i j a b Nij Hi Hj Fa E.
  assert (Hlast : forall k c, (length l <= k)%nat -> ([d] : list deployment) !! (k - length l)%nat = Some c -> c = d /\ k = length l).
  { intros k c Hk Hc'. destruct (k - length l) eqn:Ek; [|done]. injection Hc' as <-. split; [done|lia]. }
  apply lookup_app_Some in Hi as [Hi|[Li Hi]], Hj as [Hj|[Lj Hj]].
  - eauto.
  - destruct (Hlast _ _ Lj Hj) as [-> _]. destruct (R a (list_elem_of_lookup_2 _ _ _ Hi) E). congruence.
  - destruct (Hlast _ _ Li Hi) as [-> _]. rewrite Hc. by destruct (R b (list_elem_of_lookup_2 _ _ _ Hj) (eq_sym E)).
  - destruct (Hlast _ _ Li Hi), (Hlast _ _ Lj Hj). lia.
Qed.

(** ** Inside a transaction

    The tables at some moment of an operation that began with [t0] at [now]. *)
Record during (t0 : tables) (now : Z) (n : Z) (t : tables) : Prop := {
  du_now : n = now;
  du_resources : resources t = resources t0;
  du_grows : grows now (deployments t0) (deployments t);
  du_ok : table_ok (deployments t);
  du_flies : newest_flies (deployments t);
}.

Section during.
Context (t0 : tables) (now : Z).

Lemma during_refl n t : table_ok (deployments t0) -> newest_flies (deployments t0) -> from t0 now n t -> during t0 now n t.
Proof. intros H1 H2 [-> ->]. split; try done. apply grows_refl. Qed.

Lemma during_time n t : during t0 now n t -> at_time now n t.
Proof. apply du_now. Qed.

Lemma during_same n t t' :
  deployments t' = deployments t -> resources t' = resources t -> during t0 now n t -> during t0 now n t'.
Proof. intros E1 E2 [? ? ? ? ?]. split; rewrite ?E1, ?E2; done. Qed.

Lemma during_rows n t t' :
  Forall2 row_step (deployments t) (deployments t') -> resources t' = resources t ->
  during t0 now n t -> during t0 now n t'.
Proof.
  intros H E [Hn Hr Hg Hk Hf]. split; [done|by rewrite E|by eapply grows_rows|by eapply rows_table_ok|].
  by eapply rows_newest_flies.
Qed.

Lemma during_insert n t d :
  new_row now d -> dp_id d ∉ ids (deployments t) -> slot_ready now (slot d) (deployments t) ->
  during t0 now n t -> during t0 now n (set_deployments (fun l => l ++ [d])%list t).
Proof.
  intros Hd Hid Hrd [Hn Hr Hg Hk Hf]. split; [done|done|..]; cbn.
  - apply grows_insert; [done|apply Hd].
  - by eapply insert_table_ok.
  - by eapply insert_newest_flies.
Qed.
End during.

Lemma Forall2_map_steps (f : deployment -> deployment) l :
  (forall d, d ∈ l -> row_step d (f d)) -> Forall2 row_step l (map f l).
Proof.
  induction l as [|d l IH]; intros H; cbn; constructor; [apply H; left|]. apply IH. intros. apply H. by right.
Qed.

Lemma find_id_elem t id d : dep_by_id t id = Some d -> d ∈ deployments t /\ dp_id d = id.
Proof. intros [H E]%List.find_some. split; [by apply list_elem_of_In|by apply String.eqb_eq]. Qed.

Lemma ids_unique l d d' : NoDup (ids l) -> d ∈ l -> d' ∈ l -> dp_id d = dp_id d' -> d = d'.
Proof.
  intros Hn (i & Hi)%list_elem_of_lookup (j & Hj)%list_elem_of_lookup E.
  assert (i = j); [|congruence]. eapply NoDup_lookup; [exact Hn|..]; unfold ids;
    rewrite list_lookup_fmap; [by rewrite Hi|rewrite Hj; cbn; congruence].
Qed.

(** Writing the row found under an id. *)
Lemma update_dep_steps t id f d :
  table_ok (deployments t) -> dep_by_id t id = Some d -> row_step d (f d) ->
  Forall2 row_step (deployments t) (deployments (update_dep id f t)).
Proof.
  intros Hk (Hin & Eid)%find_id_elem Hf. apply Forall2_map_steps. intros e He.
  destruct (String.eqb_spec (dp_id e) id) as [E|E]; [|reflexivity].
  rewrite (ids_unique _ e d (tk_ids _ Hk)); [done..|congruence].
Qed.

(** ** The statements *)

Section store.
Context {pg : Postgres}.

Lemma superseded_step now d : in_flight d = true -> row_step d (superseded_row now d).
Proof. intros Hf. split; [done|intros; congruence|done|by right|by right; right]. Qed.

Definition free (s : string * string * option string) (l : list deployment) : Prop :=
  forall d, d ∈ l -> slot d = s -> in_flight d = false.

Lemma same_server_spec serverID o : o <> Some "" -> same_server serverID o = true <-> o = nullif serverID.
Proof.
  intros Ho. unfold same_server, nullif. destruct o as [s|], (String.eqb_spec serverID ""); cbn; try naive_solver.
  rewrite String.eqb_eq. naive_solver.
Qed.

(** The rows of a transaction's own time are in flight, each in a slot of [busy]. *)
Definition inserted (now : Z) (busy : list (string * string * option string)) (l : list deployment) : Prop :=
  forall d, d ∈ l -> (dp_created_at d < now)%Z \/ (in_flight d = true /\ slot d ∈ busy).

(** The assertion of the bodies that create deployments. *)
Definition creating t0 now busy : assertion := fun n t =>
  during t0 now n t /\ inserted now busy (deployments t).
Definition cleared t0 now busy s : assertion := fun n t =>
  creating t0 now busy n t /\ slot_ready now s (deployments t).

Lemma creating_time t0 now busy n t : creating t0 now busy n t -> at_time now n t.
Proof. intros [H _]. by eapply during_time. Qed.

Lemma does_supersede t0 now busy org srv res :
  res <> "" -> (org, res, nullif srv) ∉ busy ->
  does (creating t0 now busy) (supersedeInFlightTx org srv res)
    (fun _ => cleared t0 now busy (org, res, nullif srv)) (at_time now).
Proof.
  intros Hres Hbusy. unfold supersedeInFlightTx. destruct (String.eqb_spec res ""); [done|].
  eapply does_bind; [apply does_query, creating_time|]. intros u.
  apply does_update; [intros n' t [? _]; by eapply creating_time|].
  intros n' t [[Hd Hins] _].
  assert (Hsup : forall d, d ∈ deployments t -> slot d = (org, res, nullif srv) -> in_flight d = true ->
    supersedes org srv res d = true).
  { intros d Hin [= Ho Hr Hsv] F. unfold supersedes. rewrite Ho, Hr, F, !String.eqb_refl. cbn. rewrite andb_true_r.
    apply same_server_spec; [|done]. by apply (tk_server _ (du_ok _ _ _ _ Hd)). }
  assert (Hslot : forall d, d ∈ deployments t -> supersedes org srv res d = true -> slot d = (org, res, nullif srv)).
  { intros d Hin E. unfold supersedes in E. apply andb_true_iff in E as [E _].
    apply andb_true_iff in E as [E Es]. apply andb_true_iff in E as [Eo%String.eqb_eq Er%String.eqb_eq].
    apply same_server_spec in Es; [|by apply (tk_server _ (du_ok _ _ _ _ Hd))]. unfold slot. congruence. }
  split; [split|].
  - apply (during_rows _ _ _ t); [|done|exact Hd]. apply Forall2_map_steps. intros d Hin.
    destruct (supersedes org srv res d) eqn:E; [|reflexivity]. apply superseded_step.
    unfold supersedes in E. by apply andb_true_iff in E as [_ ?].
  - intros d' (d & -> & Hin)%list_elem_of_fmap. destruct (Hins d Hin) as [?|[? Hb]].
    + left. by destruct (supersedes org srv res d).
    + right. destruct (supersedes org srv res d) eqn:E; [|done]. by rewrite (Hslot d Hin E) in Hb.
  - intros d' (d & -> & Hin)%list_elem_of_fmap Hs.
    destruct (supersedes org srv res d) eqn:E.
    + split; [done|]. destruct (Hins d Hin) as [?|[? Hb]]; [done|]. by rewrite (Hslot d Hin E) in Hb.
    + split.
      * apply not_true_is_false. intros F. by rewrite (Hsup d Hin Hs F) in E.
      * destruct (Hins d Hin) as [?|[? Hb]]; [done|]. by rewrite Hs in Hb.
Qed.

Lemma nullif_server s : nullif s <> Some "".
Proof. unfold nullif. by destruct (String.eqb_spec s ""); [|intros [=]]. Qed.

Lemma dep_by_id_none t id : dep_by_id t id = None -> id ∉ ids (deployments t).
Proof.
  intros H (d & -> & Hin)%list_elem_of_fmap. eapply List.find_none in H; [|by apply list_elem_of_In].
  by rewrite String.eqb_refl in H.
Qed.

Lemma does_insert t0 now busy s (rl : Z -> release) dg :
  (forall n, rl_created_at (rl n) = n) -> (forall n, (rl_org (rl n), rl_resource (rl n), rl_server (rl n)) = s) ->
  s.2 <> Some "" -> dg <> Some "" ->
  does (cleared t0 now busy s) (insert_deployment rl dg) (fun _ => creating t0 now (s :: busy)) (at_time now).
Proof.
  intros Hc Hs Hsv Hdg. apply does_exec; [intros n t [? _]; by eapply creating_time|].
  intros n t [[Hd Hins] Hr]. pose proof (du_now _ _ _ _ Hd) as ->.
  set (d := mkDeployment (rl now) _ _ _ _ _ _ _ _ _). cbv zeta.
  assert (Hslot : slot d = s) by apply Hs.
  assert (Hnew : new_row now d).
  { split; [done|apply Hc| |done]. unfold slot in Hslot. by rewrite <- Hslot in Hsv. }
  destruct (dep_by_id t (dp_id d)) eqn:E; [by eapply creating_time|]. split.
  - apply during_insert; [done|by apply dep_by_id_none|by rewrite Hslot|done].
  - intros e [He| ->%list_elem_of_singleton]%elem_of_app.
    + destruct (Hins e He) as [?|[? ?]]; [by left|right]. split; [done|by right].
    + right. split; [done|]. rewrite Hslot. left.
Qed.

(** Statements that leave deployments and resources alone. *)
Lemma cleared_same t0 now busy s n t t' :
  deployments t' = deployments t -> resources t' = resources t ->
  cleared t0 now busy s n t -> cleared t0 now busy s n t'.
Proof. intros E1 E2 [[? ?] ?]. split; [split|]; rewrite ?E1; [by eapply during_same|done|done]. Qed.

Lemma creating_same t0 now busy n t t' :
  deployments t' = deployments t -> resources t' = resources t ->
  creating t0 now busy n t -> creating t0 now busy n t'.
Proof. intros E1 E2 [? ?]. split; rewrite ?E1; [by eapply during_same|done]. Qed.

Lemma does_audit t0 now busy org actor action target :
  does (creating t0 now busy) (auditTx org actor action target) (fun _ => creating t0 now busy) (at_time now).
Proof.
  apply does_wrapping, does_update; [intros n t; apply creating_time|]. intros n t. by apply creating_same.
Qed.

Lemma does_resolve (P : assertion) now src conn env :
  (forall n t, P n t -> n = now) ->
  does P (resolveBuildServerTx src conn env) (fun _ => P) (at_time now).
Proof.
  intros HP. unfold resolveBuildServerTx.
  destruct (negb _); [by apply does_ret|]. destruct (_ || _); [by apply does_ret|].
  eapply does_bind; [by apply does_query|]. intros o. apply does_ret. by intros n t [? _].
Qed.

Lemma does_service_count (P : assertion) now org res :
  (forall n t, P n t -> n = now) ->
  does P (resourceServiceCountTx org res)
    (fun _ n t => P n t /\ exists r, res_by_id t res = Some r) (at_time now).
Proof.
  intros HP. unfold resourceServiceCountTx. eapply does_bind; [by apply does_query|]. intros [r|].
  - destruct (String.eqb (rs_org r) org); [apply does_ret|apply does_fail].
    + intros n t [? E]. eauto.
    + intros n t [? _]. by eapply HP.
  - apply does_fail. intros n t [? _]. by eapply HP.
Qed.

(** ** The creators *)

(** Tables an operation may start from at [now]: resource ids are not empty
    and the clock has moved on since the last deployment was created. *)
Record ready_db (t0 : tables) (now : Z) : Prop := {
  rd_ok : table_ok (deployments t0);
  rd_flies : newest_flies (deployments t0);
  rd_older : forall d, d ∈ deployments t0 -> (dp_created_at d < now)%Z;
  rd_resources : forall r, r ∈ resources t0 -> rs_id r <> "";
}.

Section creators.
Context (t0 : tables) (now : Z) (Hrd : ready_db t0 now).

Lemma start_creating n t : from t0 now n t -> creating t0 now [] n t.
Proof.
  intros H. split; [apply during_refl; [apply Hrd..|done]|]. destruct H as [_ ->].
  intros d Hd. left. by apply (rd_older _ _ Hrd).
Qed.

Lemma res_nonempty busy n t res r : creating t0 now busy n t -> res_by_id t res = Some r -> res <> "".
Proof.
  intros [Hd _] [Hin <-%String.eqb_eq]%List.find_some. apply (rd_resources _ _ Hrd).
  rewrite <- (du_resources _ _ _ _ Hd). by apply list_elem_of_In.
Qed.

(** Service count, new id, superseding, build server, insert, audit: the end
    that every creator of a single deployment shares. *)
Lemma does_create org res srv src conn env (rl : string -> Z -> Z -> string -> release) dg actor action :
  (forall id c n b, rl_created_at (rl id c n b) = n /\
     (rl_org (rl id c n b), rl_resource (rl id c n b), rl_server (rl id c n b)) = (org, res, nullif srv)) ->
  dg <> Some "" ->
  does (creating t0 now [])
    (svcCount <- resourceServiceCountTx org res ;;
     id <- newID "dep" ;;
     _ <- supersedeInFlightTx org srv res ;;
     buildServer <- resolveBuildServerTx src conn env ;;
     _ <- insert_deployment (fun n => rl id svcCount n buildServer) dg ;;
     _ <- auditTx org actor action res ;;
     ret (id, srv))
    (fun _ => during t0 now) (at_time now).
Proof.
  intros Hrl Hdg. eapply does_bind; [apply does_service_count; intros n t H; by eapply creating_time|]. intros c.
  apply (does_pre _ (fun n t => creating t0 now [] n t /\ res <> "")); [|
    intros n t [H (r & E)]; split; [done|by eapply res_nonempty]].
  apply does_pure. intros Hne.
  eapply does_bind; [apply does_newID|]. intros id.
  eapply does_bind; [apply does_supersede; [done|apply not_elem_of_nil]|]. intros _u.
  eapply does_bind; [apply does_resolve; intros n t [H _]; by eapply creating_time|]. intros b.
  eapply does_bind; [apply does_insert; [intros n; apply Hrl|intros n; apply Hrl|apply nullif_server|done]|]. intros _v.
  eapply does_bind; [apply does_audit|]. intros _w. apply does_ret. by intros n t [? _].
Qed.

Definition during_or_not {A} (m : io cp A) : Prop :=
  does (from t0 now) m (fun _ => during t0 now) (from t0 now).

Lemma creating_transaction {A} (m : io cp A) :
  does (creating t0 now []) m (fun _ => during t0 now) (at_time now) -> during_or_not (transaction m).
Proof.
  intros H. apply (does_transaction t0 now m (fun _ => during t0 now)); [|by intros a n t [? _ _ _ _]].
  eapply does_pre; [exact H|apply start_creating].
Qed.

Lemma creating_fail {A} e busy (Q : A -> assertion) : does (creating t0 now busy) (fail e) Q (at_time now).
Proof. apply does_fail. intros n t. apply creating_time. Qed.

(** A query at the start of a body. *)
Lemma does_look {A B} busy (f : Z -> tables -> A) (k : A -> io cp B) Q :
  (forall a, does (creating t0 now busy) (k a) Q (at_time now)) ->
  does (creating t0 now busy) (bind (query f) k) Q (at_time now).
Proof.
  intros H. eapply does_bind; [apply does_query, creating_time|]. intros a.
  eapply does_pre; [apply H|by intros n t [? _]].
Qed.

Lemma CreateRollback_does org res target actor : during_or_not (CreateRollback org res target actor).
Proof.
  apply creating_transaction, does_look. intros [d|]; [|apply creating_fail].
  destruct (negb _); [apply creating_fail|].
  apply (does_create org res _ _ _ _ (fun id c n b => mkRelease _ _ _ _ _ _ _ _ _ _ _ c _ _ (nullif b) n)).
  - done.
  - apply nullif_server.
Qed.

Lemma CreateManualRedeploy_does org res actor : during_or_not (CreateManualRedeploy org res actor).
Proof.
  apply creating_transaction, does_look. intros [d|]; [|apply creating_fail].
  by apply (does_create org res _ _ _ _ (fun id c n b => mkRelease _ _ _ _ _ _ _ _ _ _ _ c _ _ (nullif b) n)).
Qed.

Lemma CreateHeadDeployment_does org res actor o sha : during_or_not (CreateHeadDeployment org res actor o sha).
Proof.
  unfold CreateHeadDeployment. destruct (String.eqb (trim_space sha) "").
  { apply does_fail. by intros n t H. }
  apply creating_transaction. eapply does_bind; [apply does_query, creating_time|]. intros [r|].
  2:{ apply does_fail. intros n t [H _]. by eapply creating_time. }
  apply (does_pre _ (fun n t => creating t0 now [] n t /\ res <> "")).
  2:{ intros n t [H E]. split; [done|]. symmetry in E. apply List.find_some in E as [Hin E].
      apply andb_true_iff in E as [_ <-%String.eqb_eq]. apply (rd_resources _ _ Hrd).
      destruct H as [Hd _]. rewrite <- (du_resources _ _ _ _ Hd). by apply list_elem_of_In. }
  apply does_pure. intros Hne.
  eapply does_bind; [apply does_newID|]. intros id.
  eapply does_bind; [apply does_supersede; [done|apply not_elem_of_nil]|]. intros _u.
  eapply does_bind; [apply does_insert; [done|done|apply nullif_server|done]|]. intros _v.
  eapply (does_bind _ _ _ (fun _ => creating t0 now [(org, res, nullif (ho_ServerID o))])).
  { destruct (String.eqb (ho_MapID o) ""); [by apply does_ret|].
    apply does_update; [intros n t; apply creating_time|]. intros n t. by apply creating_same. }
  intros _w. eapply does_bind; [apply does_audit|]. intros _x. apply does_ret. by intros n t [? _].
Qed.

(** *** Config deployments *)

Lemma latest_spec org res t d : latest_deployment org res t = Some d ->
  (d ∈ deployments t /\ of_resource org res d = true) /\
  forall e, e ∈ deployments t -> of_resource org res e = true -> (dp_created_at e <= dp_created_at d)%Z.
Proof.
  unfold latest_deployment, newest_first. set (l := List.filter _ _). intros Hh.
  pose proof (order_by_perm (fun d => - dp_created_at d)%Z l) as Hp.
  assert (H0 : order_by (fun d => - dp_created_at d)%Z l !! 0%nat = Some d)
    by (destruct (order_by _ l); [done|by injection Hh as ->]).
  assert (Hl : forall e, e ∈ l <-> e ∈ deployments t /\ of_resource org res e = true)
    by (intros e; unfold l; by rewrite !list_elem_of_In, List.filter_In).
  split.
  - apply Hl. rewrite <- Hp. by eapply list_elem_of_lookup_2.
  - intros e H1 H2. assert (He : e ∈ l) by by apply Hl.
    rewrite <- Hp in He. apply list_elem_of_lookup in He as (j & Hj).
    pose proof (order_by_sorted _ _ _ _ _ _ (Nat.le_0_l j) H0 Hj) as Hs. cbv beta in Hs. lia.
Qed.

Lemma slot_of_resource e d org res : of_resource org res d = true -> slot e = slot d -> of_resource org res e = true.
Proof. unfold of_resource. by intros H [= -> -> _]. Qed.

Lemma latest_ready busy n t org res d :
  creating t0 now busy n t -> latest_deployment org res t = Some d -> in_flight d = false ->
  slot_ready now (slot d) (deployments t).
Proof.
  intros [Hd Hins] ((Hin & Hof) & Hmax)%latest_spec Hf.
  assert (Hnf : forall e, e ∈ deployments t -> slot e = slot d -> in_flight e = false).
  { intros e He Es. apply not_true_is_false. intros F.
    pose proof (Hmax e He (slot_of_resource _ _ _ _ Hof Es)).
    apply list_elem_of_lookup in He as (i & Hi), Hin as (j & Hj).
    assert (i <> j) by congruence.
    pose proof (du_flies _ _ _ _ Hd i j e d ltac:(done) Hi Hj F Es). lia. }
  intros e He Es. split; [auto|]. destruct (Hins e He) as [?|[F _]]; [done|]. by rewrite Hnf in F.
Qed.

Lemma config_shipped_does (P : assertion) org res id d :
  (forall n t, P n t -> n = now) -> does P (config_shipped org res id d) (fun _ => P) (at_time now).
Proof.
  intros HP. unfold config_shipped. destruct (String.eqb _ _); [by apply does_ret|].
  eapply does_bind; [by apply does_query|]. intros [s|]; apply does_ret; by intros n t [? _].
Qed.

Lemma slot_row busy n t d :
  creating t0 now busy n t -> d ∈ deployments t -> (dp_org d, dp_resource d, nullif (deref (dp_server d))) = slot d.
Proof.
  intros [Hd _] Hin. pose proof (tk_server _ (du_ok _ _ _ _ Hd) d Hin) as Hs. unfold slot. f_equal.
  unfold nullif. destruct (dp_server d) as [s|]; [|done]. cbn. by destruct (String.eqb_spec s ""); [subst|].
Qed.

Lemma config_each_does org resources actor reason busy seen :
  does (creating t0 now busy) (config_each org resources actor reason seen) (fun _ => during t0 now) (at_time now).
Proof.
  revert busy seen. induction resources as [|res resources IH]; intros busy seen; cbn [config_each].
  { apply does_ret. by intros n t [? _]. }
  eapply does_bind; [apply does_query, creating_time|]. intros [d|].
  2:{ eapply does_pre; [apply IH|by intros n t [? _]]. }
  destruct (deployInFlight (dp_status d)) eqn:Hf.
  { eapply does_pre; [apply IH|by intros n t [? _]]. }
  set (s := (org, res, nullif (deref (dp_server d)))).
  apply (does_pre _ (cleared t0 now busy s)).
  2:{ intros n t [H E]. symmetry in E. split; [done|]. destruct (latest_spec _ _ _ _ E) as ((Hin & Hof) & _).
      apply andb_true_iff in Hof as [Ho%String.eqb_eq Hr%String.eqb_eq].
      assert (Es : s = slot d) by (rewrite <- (slot_row _ _ _ _ H Hin); unfold s; congruence).
      rewrite Es. by eapply latest_ready. }
  assert (Htime : forall n t, cleared t0 now busy s n t -> n = now) by (intros n t [H _]; by eapply creating_time).
  eapply does_bind; [by apply does_service_count|]. intros c.
  eapply does_bind; [apply does_newID|]. intros id.
  eapply does_bind.
  { apply (does_pre _ (cleared t0 now busy s)); [by apply config_shipped_does|by intros n t [? _]]. }
  intros x. eapply does_bind; [by apply does_resolve|]. intros b.
  eapply does_bind; [apply does_insert; [done|done|apply nullif_server|apply nullif_server]|]. intros _u.
  eapply does_bind; [apply does_audit|]. intros _v. apply IH.
Qed.

Lemma CreateConfigDeployments_does org resources actor reason :
  during_or_not (CreateConfigDeployments org resources actor reason).
Proof.
  destruct resources as [|res resources]; [|apply creating_transaction, config_each_does].
  apply does_ret. intros n t H. by apply start_creating.
Qed.

(** *** Pushes *)

Definition app_slot (r : deploy_request) (a : resource_row) : string * string * option string :=
  (dr_orgID r, rs_id a, nullif (deref (rs_server a))).

(** The slots a batch of requests deploys to, in order. *)
Definition request_slots (t : tables) (reqs : list deploy_request) : list (string * string * option string) :=
  mbind (fun r => map (app_slot r) (target_apps r t)) reqs.

Lemma drain_apps_does r apps busy seen :
  (forall a, a ∈ apps -> rs_id a <> "" /\ app_slot r a ∉ busy) -> NoDup (map (app_slot r) apps) ->
  does (creating t0 now busy) (drain_apps r apps seen)
    (fun _ => creating t0 now (rev (map (app_slot r) apps) ++ busy)) (at_time now).
Proof.
  revert busy seen. induction apps as [|a apps IH]; intros busy seen Ha Hn; cbn [drain_apps map rev].
  { by apply does_ret. }
  destruct (Ha a ltac:(left)) as [Hne Hnb]. apply NoDup_cons in Hn as [Hnin Hn].
  eapply does_bind; [by apply does_supersede|]. intros _u.
  eapply does_bind; [apply does_newID|]. intros id.
  eapply does_bind; [apply does_insert; [done|done|apply nullif_server|done]|]. intros _v.
  rewrite <- app_assoc. apply IH; [|done].
  intros b Hb. destruct (Ha b ltac:(by right)) as [? ?]. split; [done|]. intros [E|?]%elem_of_cons; [|done].
  apply Hnin. unfold app_slot in E |- *. rewrite <- E. by apply (list_elem_of_fmap_2 (app_slot r)).
Qed.

Lemma drain_each_does reqs busy seen :
  (forall s, s ∈ request_slots t0 reqs -> s ∉ busy) -> NoDup (request_slots t0 reqs) ->
  does (creating t0 now busy) (drain_each reqs seen) (fun _ => during t0 now) (at_time now).
Proof.
  revert busy seen. induction reqs as [|r reqs IH]; intros busy seen Hb Hn; cbn [drain_each].
  { apply does_ret. by intros n t [? _]. }
  cbn in Hn. apply NoDup_app in Hn as (Hn1 & Hn2 & Hn3).
  eapply does_bind; [apply does_query, creating_time|]. intros apps.
  apply (does_pre _ (fun n t => creating t0 now busy n t /\ apps = target_apps r t0)).
  2:{ intros n t [H ->]. split; [done|]. destruct H as [Hd _]. unfold target_apps. by rewrite (du_resources _ _ _ _ Hd). }
  apply does_pure. intros ->.
  eapply does_bind; [apply drain_apps_does; [|done]|].
  { intros a Hin. split.
    - apply (rd_resources _ _ Hrd). unfold target_apps in Hin. rewrite order_by_perm in Hin.
      apply list_elem_of_In, List.filter_In in Hin as [Hin _]. by apply list_elem_of_In.
    - apply Hb. cbn. apply elem_of_app. left. by apply (list_elem_of_fmap_2 (app_slot r)). }
  intros seen'. set (busy' := (rev _ ++ busy)%list).
  eapply (does_bind _ _ _ (fun _ => creating t0 now busy')).
  { destruct (target_apps r t0); [apply does_audit|by apply does_ret]. }
  intros _u. eapply (does_bind _ _ _ (fun _ => creating t0 now busy')).
  { destruct (target_apps r t0); (apply does_update; [intros n t; apply creating_time|];
      intros n t; by apply creating_same). }
  intros _v. apply IH; [|done]. intros s Hs [Hin|Hin]%elem_of_app.
  - apply list_elem_of_In, List.in_rev, list_elem_of_In in Hin. by eapply Hn2.
  - eapply Hb; [|exact Hin]. cbn. apply elem_of_app. by right.
Qed.

(** No slot is pushed to twice in the batch that is waiting. *)
Definition calm (t : tables) : Prop := NoDup (request_slots t (drain_query t)).

Lemma DrainDeployRequests_does : calm t0 -> during_or_not DrainDeployRequests.
Proof.
  intros Hc. eapply does_weaken;
    [eapply (does_transaction t0 now _ (fun _ => during t0 now))|done|by intros ? ? ? ?|done].
  - eapply does_bind; [apply does_query; by intros n t [-> _]|]. intros reqs.
    apply (does_pre _ (fun n t => creating t0 now [] n t /\ reqs = drain_query t0)).
    2:{ intros n t [H ->]. split; [by apply start_creating|]. by destruct H as [_ ->]. }
    apply does_pure. intros ->. apply drain_each_does; [|done]. intros s _. apply not_elem_of_nil.
  - by intros a n t [? _ _ _ _].
Qed.
End creators.

(** ** The reports *)

Definition forward (s s' : string) : Prop :=
  (deployStatusRank s <= deployStatusRank s')%Z \/ s' = "failed" \/ s' = "superseded".
Definition known_status (s : string) : Prop := deployInFlight s = true \/ terminalDeployStatus s = true.

Lemma in_flight_rank d : in_flight d = true -> (0 <= deployStatusRank (dp_status d) <= 2)%Z.
Proof.
  unfold in_flight, deployInFlight. intros (x & Hx & ->%String.eqb_eq)%existsb_exists.
  cbn in Hx. repeat destruct Hx as [<-|Hx]; [vm_compute; split; congruence..|done].
Qed.

Lemma updated_step up now d :
  in_flight d = true -> known_status (up_Status up) -> forward (dp_status d) (up_Status up) ->
  row_step d (updated_row up now d).
Proof.
  intros Hf Hk Hw. split; [done|intros; congruence| |by intros|done].
  intros Hd. cbn. destruct (nullif (up_ImageDigest up)) as [i|] eqn:E; [|done].
  rewrite <- E. apply nullif_server.
Qed.

Lemma dep_by_id_elem t d : table_ok (deployments t) -> d ∈ deployments t -> dep_by_id t (dp_id d) = Some d.
Proof.
  intros Hk Hin. destruct (dep_by_id t (dp_id d)) as [e|] eqn:E.
  - apply find_id_elem in E as [He Ei]. f_equal. by apply (ids_unique _ _ _ (tk_ids _ Hk)).
  - apply dep_by_id_none in E. destruct E. by apply (list_elem_of_fmap_2 dp_id).
Qed.

Lemma find_in_flight t id d : table_ok (deployments t) -> dep_by_id t id = Some d ->
  terminalDeployStatus (dp_status d) = false -> in_flight d = true.
Proof. intros Hk [Hin _]%find_id_elem Ht. destruct (tk_status _ Hk d Hin); [done|congruence]. Qed.

Lemma reportable_spec srv res t d : reportable srv res t = Some d ->
  d ∈ deployments t /\ in_flight d = true /\ dp_resource d = res /\
  exists r, res_by_id t res = Some r /\ deploymentReporterClause t srv d r = true.
Proof.
  unfold reportable, newest_first. set (l := List.filter _ _). intros Hh.
  assert (Hin : d ∈ l).
  { rewrite <- (order_by_perm (fun d => - dp_created_at d)%Z l).
    destruct (order_by _ l) as [|e k]; [done|]. injection Hh as ->. left. }
  unfold l in Hin. apply list_elem_of_In, List.filter_In in Hin as [Hin H].
  apply andb_true_iff in H as [H Hr]. apply andb_true_iff in H as [<-%String.eqb_eq Hf].
  split_and!; [by apply list_elem_of_In|done|done|].
  destruct (res_by_id t (dp_resource d)) as [r|]; [eauto|done].
Qed.

Section reports.
Context (t0 : tables) (now : Z) (Hk0 : table_ok (deployments t0)) (Hn0 : newest_flies (deployments t0)).

Abbreviation I := (during t0 now).

Lemma start_during n t : from t0 now n t -> I n t.
Proof. by apply during_refl. Qed.

Lemma enqueue_does org event key window title body :
  does I (enqueueAlertTx org event key window title body) (fun _ => I) I.
Proof.
  eapply does_bind; [apply does_wrapping, does_query; by intros|]. intros u.
  apply does_wrapping, does_update; [by intros n t [? _]|]. intros n t [H _]. by eapply during_same, H.
Qed.

Lemma setDeploymentStatusTx_does id up :
  known_status (up_Status up) ->
  does (fun n t => I n t /\ forall d, dep_by_id t id = Some d -> forward (dp_status d) (up_Status up))
    (setDeploymentStatusTx id up) (fun _ => I) I.
Proof.
  intros Hk. eapply does_bind; [apply does_query; by intros n t [? _]|]. intros [d|].
  2:{ apply does_fail. by intros n t [[? _] _]. }
  destruct (terminalDeployStatus (dp_status d)) eqn:Ht; [apply does_fail; by intros n t [[? _] _]|].
  eapply (does_bind _ _ _ (fun _ => I)).
  - apply does_update; [by intros n t [[? _] _]|]. intros n t [[H Hw] E]. symmetry in E.
    apply (during_rows _ _ _ t); [|done|done].
    pose proof (du_ok _ _ _ _ H) as Hok.
    eapply update_dep_steps; [done|exact E|]. apply updated_step; [by eapply find_in_flight|done|auto].
  - intros u. destruct (String.eqb (up_Status up) "failed"); [|by apply does_ret].
    eapply does_bind; [by apply does_query|]. intros [[[org name] sha]|].
    + eapply does_pre; [apply enqueue_does|by intros n t [? _]].
    + apply does_fail. by intros n t [? _].
Qed.

Lemma failing_does id up : up_Status up = "failed" -> does I (setDeploymentStatusTx id up) (fun _ => I) I.
Proof.
  intros E. eapply does_pre; [apply setDeploymentStatusTx_does|].
  - rewrite E. by right.
  - intros n t H. split; [done|]. rewrite E. by right; left.
Qed.

Lemma timeout_each_does ids n : does I (timeout_each ids n) (fun _ => I) I.
Proof.
  revert n. induction ids as [|id ids IH]; intros n; cbn [timeout_each]; [by apply does_ret|].
  eapply does_bind; [by apply does_attempt, failing_does|]. intros [u|e]; [apply IH|].
  destruct (String.eqb e ErrConflict); [apply IH|by apply does_fail].
Qed.

(** The same with any failure a rollback would undo. *)
Definition keeps {A} (m : io cp A) : Prop := does (from t0 now) m (fun _ => I) I.

Lemma during_or_not_keeps {A} (m : io cp A) : during_or_not t0 now m -> keeps m.
Proof. intros H. eapply does_weaken; [exact H|done|done|]. exact start_during. Qed.

Lemma transaction_keeps {A} (P : assertion) (m : io cp A) :
  (forall n t, P n t -> I n t) -> does P m (fun _ => I) I -> does P (transaction m) (fun _ => I) I.
Proof.
  intros HP H. eapply (does_transaction_at _ now); [intros n t Ht%HP; apply Ht| |intros a n t Ht; apply Ht|done].
  intros t1 H1. eapply does_weaken; [exact H|by intros n t [-> ->]|done|]. apply during_time.
Qed.

Lemma TimeoutStaleDeployments_does timeout : keeps (TimeoutStaleDeployments timeout).
Proof.
  unfold TimeoutStaleDeployments, keeps. destruct (timeout <=? 0)%Z; [apply does_ret; apply start_during|].
  eapply does_pre; [apply (transaction_keeps I); [done|]|apply start_during].
  eapply does_bind; [by apply does_query|]. intros ids'.
  eapply does_pre; [apply timeout_each_does|by intros n t [? _]].
Qed.

Lemma StampDeploymentDSDVersion_does ids' version : keeps (StampDeploymentDSDVersion ids' version).
Proof.
  unfold StampDeploymentDSDVersion, keeps. eapply does_pre; [|apply start_during].
  destruct (_ || _); [by apply does_ret|]. apply does_update; [done|]. intros n t H.
  apply (during_rows _ _ _ t); [|done|done]. apply Forall2_map_steps. intros d _.
  destruct (_ && in_flight d) eqn:E; [|reflexivity]. apply andb_true_iff in E as [_ E].
  split; [done|intros; congruence|done|by intros|left; cbn; lia].
Qed.

Lemma ignoring_conflict_does (P : assertion) m :
  does P m (fun _ => I) I -> does P (ignoring_conflict m) (fun _ => I) I.
Proof.
  intros H. eapply does_bind; [by apply does_attempt|]. intros [u|e]; [by apply does_ret|].
  destruct (String.eqb e ErrConflict); [by apply does_ret|by apply does_fail].
Qed.

(** Setting the status of a row found earlier, when that is a step forward. *)
Lemma set_found_does (P : assertion) d up :
  (forall n t, P n t -> I n t /\ dep_by_id t (dp_id d) = Some d) ->
  known_status (up_Status up) -> forward (dp_status d) (up_Status up) ->
  does P (setDeploymentStatusTx (dp_id d) up) (fun _ => I) I.
Proof.
  intros HP Hk Hw. eapply does_pre; [by apply setDeploymentStatusTx_does|].
  intros n t [H E]%HP. split; [done|]. intros e He. rewrite E in He. by injection He as <-.
Qed.

(** The tables when a reportable row was found. *)
Definition found d : assertion := fun n t => I n t /\ dep_by_id t (dp_id d) = Some d /\ in_flight d = true.

Lemma from_found srv res n t d : from t0 now n t -> Some d = reportable srv res t -> found d n t.
Proof.
  intros H E. symmetry in E. apply reportable_spec in E as (Hin & Hf & _). destruct H as [-> ->].
  split_and!; [by apply start_during|by apply dep_by_id_elem|done].
Qed.

Lemma SetDeploymentStatus_found d up :
  known_status (up_Status up) -> (in_flight d = true -> forward (dp_status d) (up_Status up)) ->
  does (found d) (ignoring_conflict (SetDeploymentStatus (dp_id d) up)) (fun _ => I) I.
Proof.
  intros Hk Hw. apply ignoring_conflict_does, transaction_keeps; [by intros n t [? _]|].
  apply (does_pre _ (fun n t => (I n t /\ dep_by_id t (dp_id d) = Some d) /\ in_flight d = true));
    [|by intros n t (? & ? & ?)].
  apply does_pure. intros Hf. apply set_found_does; auto.
Qed.

Lemma AdvanceDeploymentForResource_does srv res phase ok detail version :
  keeps (AdvanceDeploymentForResource srv res phase ok detail version).
Proof.
  eapply does_bind; [apply does_query, start_during|]. intros [d|].
  2:{ apply does_ret. intros n t [H _]. by apply start_during. }
  eapply does_pre; [|intros n t [H E]; by eapply from_found].
  destruct (stale_report version d); [apply does_ret; by intros n t [? _]|].
  destruct ok; cbn [negb].
  - destruct (phase_target phase) as [target|] eqn:Ep; [|apply does_ret; by intros n t [? _]].
    destruct (Z.leb_spec (deployStatusRank target) (deployStatusRank (dp_status d))) as [?|Hlt];
      [apply does_ret; by intros n t [? _]|].
    apply SetDeploymentStatus_found; cbn [up_Status]; [|left; lia].
    unfold phase_target in Ep. repeat case_match; simplify_eq; [by left|by left|by right].
  - apply SetDeploymentStatus_found; [by right|by right; left].
Qed.

Lemma AppendDeployLogs_does (P : assertion) srv id stream lines :
  (forall n t t', deployments t' = deployments t -> resources t' = resources t -> P n t -> P n t') ->
  does P (AppendDeployLogs srv id stream lines) (fun _ => P) P.
Proof.
  intros HP. destruct lines; [by apply does_ret|]. apply does_update; [done|]. intros n t H.
  destruct (dep_by_id t id ≫= _) as [[d r]|]; [|done].
  destruct (deploymentReporterClause _ _ _ _); [|done]. by eapply HP, H.
Qed.

Lemma found_same d n t t' :
  deployments t' = deployments t -> resources t' = resources t -> found d n t -> found d n t'.
Proof.
  intros E1 E2 (H & E & F). split_and!; [by eapply during_same| |done]. unfold dep_by_id. by rewrite E1.
Qed.

Lemma FailDeploymentFromPrereqOp_does srv res opID err version :
  keeps (FailDeploymentFromPrereqOp srv res opID err version).
Proof.
  eapply does_bind; [apply does_query, start_during|]. intros [d|].
  2:{ apply does_ret. intros n t [H _]. by apply start_during. }
  eapply does_pre; [|intros n t [H E]; by eapply from_found].
  destruct (stale_report version d); [apply does_ret; by intros n t [? _]|].
  eapply (does_bind _ _ _ (fun _ => found d)).
  - eapply does_weaken; [apply (AppendDeployLogs_does (found d)), found_same|done|done|by intros n t [? _]].
  - intros u. apply SetDeploymentStatus_found; [by right|by right; left].
Qed.

Lemma services_step m d : in_flight d = true -> row_step d (with_services m d).
Proof. intros Hf. split; [done|intros; congruence|done|done|left; cbn; lia]. Qed.

(** Recording a service's status leaves the row's own status. *)
Lemma record_service_does d service s :
  does (found d) (record_service (dp_id d) service s)
    (fun _ n t => I n t /\ forall e, dep_by_id t (dp_id d) = Some e -> dp_status e = dp_status d) I.
Proof.
  eapply (does_bind _ _ _ (fun _ n t => I n t /\ forall e, dep_by_id t (dp_id d) = Some e -> dp_status e = dp_status d)).
  - apply does_exec; [by intros n t [? _]|]. intros n t (H & E & Hf). rewrite E.
    assert (Hsame : forall e, dep_by_id t (dp_id d) = Some e -> dp_status e = dp_status d)
      by (intros e He; rewrite E in He; by injection He as <-).
    destruct (String.eqb _ "success"); [done|]. split.
    + apply (during_rows _ _ _ t); [|done|done].
      eapply update_dep_steps; [apply H|exact E|by apply services_step].
    + intros e [He Ei]%find_id_elem. cbn in He. apply list_elem_of_fmap in He as (x & -> & Hx).
      destruct (String.eqb_spec (dp_id x) (dp_id d)) as [Ex|]; [|done]. cbn.
      apply Hsame. by rewrite <- Ex, (dep_by_id_elem t x (du_ok _ _ _ _ H) Hx).
  - intros [m|]; [by apply does_ret|]. eapply does_bind; [apply does_query; by intros n t [? _]|].
    intros [e|]; [apply does_ret|apply does_fail]; by intros n t [[? ?] _].
Qed.

Lemma roll_up_status m c detail : up_Status (roll_up m c detail) ∈ ["failed"; "success"; "deploying"].
Proof. unfold roll_up. repeat case_match; cbn; set_solver. Qed.

Lemma AdvanceDeploymentService_does srv res service phase ok detail version :
  keeps (AdvanceDeploymentService srv res service phase ok detail version).
Proof.
  unfold AdvanceDeploymentService, keeps. destruct (service_phase phase ok) as [s|].
  2:{ apply does_ret, start_during. }
  apply transaction_keeps; [apply start_during|].
  eapply does_bind; [apply does_query, start_during|]. intros [d|].
  2:{ apply does_ret. intros n t [H _]. by apply start_during. }
  eapply does_pre; [|intros n t [H E]; by eapply from_found].
  destruct (stale_report version d); [apply does_ret; by intros n t [? _]|].
  apply (does_pre _ (fun n t => found d n t /\ in_flight d = true)); [|by intros n t (? & ? & ?)].
  apply does_pure. intros Hf.
  eapply does_bind; [apply record_service_does|]. intros m.
  apply ignoring_conflict_does. eapply does_pre; [apply setDeploymentStatusTx_does|].
  - pose proof (roll_up_status m (rl_service_count (dp_release d)) detail) as H.
    repeat (apply elem_of_cons in H as [->|H]); [by right|by right|by left|by apply not_elem_of_nil in H].
  - intros n t [H Hs]. split; [done|]. intros e He. rewrite (Hs e He).
    pose proof (in_flight_rank d Hf) as Hr.
    pose proof (roll_up_status m (rl_service_count (dp_release d)) detail) as Hu.
    repeat (apply elem_of_cons in Hu as [->|Hu]); [by right; left|left|left|by apply not_elem_of_nil in Hu];
      vm_compute (deployStatusRank "success"); vm_compute (deployStatusRank "deploying"); lia.
Qed.
End reports.

(** ** Runs of the control plane *)

(** The operations of the deployment store that some part of the control plane
    calls, with their arguments. *)
Inductive op :=
| OpRollback (org res target actor : string)
| OpRedeploy (org res actor : string)
| OpConfig (org : string) (resources : list string) (actor reason : string)
| OpHead (org res actor : string) (o : HeadDeployOrigin) (sha : string)
| OpDrain
| OpTimeout (timeout : Z)
| OpStamp (ids : list string) (version : Z)
| OpAdvance (srv res phase : string) (ok : bool) (detail : string) (version : Z)
| OpAdvanceService (srv res service phase : string) (ok : bool) (detail : string) (version : Z)
| OpPrereqFailed (srv res opID err : string) (version : Z)
| OpLogs (srv id stream : string) (lines : list string).

Definition discard {A} (m : io cp A) : io cp unit := _ <- m ;; ret tt.

Definition run_op (o : op) : io cp unit :=
  match o with
  | OpRollback org res target actor => discard (CreateRollback org res target actor)
  | OpRedeploy org res actor => discard (CreateManualRedeploy org res actor)
  | OpConfig org resources actor reason => discard (CreateConfigDeployments org resources actor reason)
  | OpHead org res actor h sha => discard (CreateHeadDeployment org res actor h sha)
  | OpDrain => discard DrainDeployRequests
  | OpTimeout timeout => discard (TimeoutStaleDeployments timeout)
  | OpStamp ids version => StampDeploymentDSDVersion ids version
  | OpAdvance srv res phase ok detail version => AdvanceDeploymentForResource srv res phase ok detail version
  | OpAdvanceService srv res service phase ok detail version =>
      AdvanceDeploymentService srv res service phase ok detail version
  | OpPrereqFailed srv res opID err version => FailDeploymentFromPrereqOp srv res opID err version
  | OpLogs srv id stream lines => AppendDeployLogs srv id stream lines
  end.

(** What an operation that creates deployments needs: a clock ahead of every
    row, resources with ids, and no slot pushed to twice in one batch. *)
Definition op_ready (o : op) (t : tables) (now : Z) : Prop :=
  match o with
  | OpRollback _ _ _ _ | OpRedeploy _ _ _ | OpConfig _ _ _ _ | OpHead _ _ _ _ _ | OpDrain =>
      (forall d, d ∈ deployments t -> (dp_created_at d < now)%Z) /\
      (forall r, r ∈ resources t -> rs_id r <> "") /\ (o = OpDrain -> calm t)
  | _ => True
  end.

(** An operation runs, to success or to an error; or anything but the table of
    deployments changes. *)
Inductive history_step : cp -> cp -> Prop :=
| step_op o d r d' :
    op_ready o (cp_tables d) (cp_now d) -> run_op o d = (r, d') -> history_step d d'
| step_world d d' : deployments (cp_tables d') = deployments (cp_tables d) -> history_step d d'.

Lemma discard_keeps t0 now {A} (m : io cp A) :
  keeps t0 now m -> keeps t0 now (discard m).
Proof. intros H. eapply does_bind; [exact H|]. intros a. by apply does_ret. Qed.

Lemma run_op_keeps o t0 now :
  table_ok (deployments t0) -> newest_flies (deployments t0) -> op_ready o t0 now -> keeps t0 now (run_op o).
Proof.
  intros Hk Hn Hop.
  assert (Hc : (forall d, d ∈ deployments t0 -> (dp_created_at d < now)%Z) ->
    (forall r, r ∈ resources t0 -> rs_id r <> "") -> ready_db t0 now) by (intros; by split).
  destruct o; cbn [run_op op_ready] in *; try destruct Hop as (H1 & H2 & H3);
    try apply discard_keeps.
  1-5: apply during_or_not_keeps; [done|done|].
  - by apply CreateRollback_does, Hc.
  - by apply CreateManualRedeploy_does, Hc.
  - by apply CreateConfigDeployments_does, Hc.
  - by apply CreateHeadDeployment_does, Hc.
  - apply DrainDeployRequests_does; auto.
  - by apply TimeoutStaleDeployments_does.
  - by apply StampDeploymentDSDVersion_does.
  - by apply AdvanceDeploymentForResource_does.
  - by apply AdvanceDeploymentService_does.
  - by apply FailDeploymentFromPrereqOp_does.
  - eapply does_pre; [|by apply start_during].
    apply AppendDeployLogs_does. intros n t t'. apply during_same.
Qed.

(** The rows of a table, each a step further, and the later rows. *)
Definition extends (l l' : list deployment) : Prop := exists l1 l2, l' = (l1 ++ l2)%list /\ Forall2 row_step l l1.

#[local] Instance extends_preorder : PreOrder extends.
Proof.
  split.
  - intros l. exists l, []. rewrite app_nil_r. split; [done|apply Forall2_row_step_refl].
  - intros l1 l2 l3 (a & b & -> & H1) (c & e & -> & H2).
    apply Forall2_app_inv_l in H2 as (c1 & c2 & Hc1 & Hc2 & ->).
    exists c1, (c2 ++ e)%list. rewrite app_assoc. split; [done|by etransitivity].
Qed.

Definition db_inv (d : cp) : Prop :=
  table_ok (deployments (cp_tables d)) /\ newest_flies (deployments (cp_tables d)).

Lemma step_inv d d' : history_step d d' -> db_inv d ->
  db_inv d' /\ extends (deployments (cp_tables d)) (deployments (cp_tables d')).
Proof.
  intros [o d1 r d2 Hop E|d1 d2 E] [Hk Hn].
  - pose proof (does_run _ _ _ _ _ _ _ (run_op_keeps o (cp_tables d1) (cp_now d1) Hk Hn Hop) (conj eq_refl eq_refl) E) as H.
    assert (Hd : during (cp_tables d1) (cp_now d1) (cp_now d2) (cp_tables d2)) by by destruct r.
    destruct Hd as [_ _ (l1 & l2 & El & Hl & _) Hk' Hn']. split; [done|]. by exists l1, l2.
  - unfold db_inv. rewrite E. split; [done|reflexivity].
Qed.

Lemma run_inv d d' : rtc history_step d d' -> db_inv d ->
  db_inv d' /\ extends (deployments (cp_tables d)) (deployments (cp_tables d')).
Proof.
  induction 1 as [d|d1 d2 d3 H _ IH]; intros Hi; [split; [done|reflexivity]|].
  destruct (step_inv _ _ H Hi) as [H2 E2]. destruct (IH H2) as [H3 E3]. split; [done|by etransitivity].
Qed.

Lemma empty_inv d : deployments (cp_tables d) = [] -> db_inv d.
Proof.
  unfold db_inv. intros ->. split; [|by intros i j a b _ H].
  split; [constructor|intros a []%not_elem_of_nil..].
Qed.
End store.


(** C3: At most one deployment is in flight for a resource on a server.  From
    an empty table, after any sequence of operations whose creating ones run
    with a clock ahead of the rows and whose batches push to no slot twice,
    two rows in flight with the same organisation, resource and server are
    the same row, and it is newer than every other row of that slot. *)
Theorem one_in_flight {pg : Postgres} d d' i j x y :
  rtc history_step d d' -> deployments (cp_tables d) = [] ->
  deployments (cp_tables d') !! i = Some x -> deployments (cp_tables d') !! j = Some y ->
  in_flight x = true -> slot x = slot y ->
  i = j \/ (in_flight y = false /\ (dp_created_at y < dp_created_at x)%Z).
Proof.
  intros H He Hx Hy Hf Hs. destruct (run_inv _ _ H (empty_inv _ He)) as [[_ Hn] _].
  destruct (decide (i = j)) as [|N]; [by left|]. right.
  split; [|by eapply Hn]. apply not_true_is_false. intros Fy.
  destruct N. by eapply newest_flies_one.
Qed.
