(* ===== verification/DeployPipeline.v ===== *)
(** * The deploy pipeline

    What the operations of [Deploy] achieve when the database answers: reports
    advance a deployment whatever their order, by servers that hold a part of
    it and by no other; a timeout fails exactly the stale deployments; a
    rollback offered to the operator is accepted and ships the image of the
    release it names.  At the end, three schedules in which the code does not
    keep what it promises. *)

From stdpp Require Import sorting.
From S2P Require Import Prelude GoStrings Json Naming CpDb Deploy DeployHistory.

Local Open Scope string_scope.
Local Open Scope io_scope.

(** ** A database *)

Section sorted.
Context {A : Type} (key : A -> Z).

Definition key_le (x y : A) : Prop := (key x <= key y)%Z.
#[local] Instance key_le_dec x y : Decision (key_le x y).
Proof. unfold key_le. apply _. Defined.
#[local] Instance key_le_trans : Transitive key_le.
Proof. intros x y z. unfold key_le. lia. Qed.
#[local] Instance key_le_total : Total key_le.
Proof. intros x y. unfold key_le. lia. Qed.

Definition sort_by (l : list A) : list A := merge_sort key_le l.

Lemma sort_by_perm l : sort_by l ≡ₚ l.
Proof. apply merge_sort_Permutation. Qed.

Lemma sorted_lookup l i j x y : StronglySorted key_le l -> (i <= j)%nat ->
  l !! i = Some x -> l !! j = Some y -> (key x <= key y)%Z.
Proof.
  intros H. revert i j. induction H as [|a l H IH Ha]; intros [|i] [|j] Hij Hi Hj; cbn in *; simplify_eq; try lia.
  - eapply Forall_lookup_1 in Ha; [|exact Hj]. done.
  - eapply (IH i j); [lia|done..].
Qed.

Lemma sort_by_sorted l i j x y : (i <= j)%nat ->
  sort_by l !! i = Some x -> sort_by l !! j = Some y -> (key x <= key y)%Z.
Proof. apply sorted_lookup, StronglySorted_merge_sort; apply _. Qed.
End sorted.

(** A database that keeps rows with equal keys in the order of the table, ... *)
Definition pg_stable : Postgres := {|
  order_by := @sort_by;
  order_by_perm := @sort_by_perm;
  order_by_sorted := @sort_by_sorted;
  jsonb_text _ := "{}";
|}.

(** ... and one that reverses them. *)
Definition rev_by {A} (key : A -> Z) (l : list A) : list A := sort_by key (rev l).
Lemma rev_by_perm {A} (key : A -> Z) l : rev_by key l ≡ₚ l.
Proof. unfold rev_by. by rewrite sort_by_perm, <- Permutation_rev. Qed.
Definition pg_reversed : Postgres := {|
  order_by := @rev_by;
  order_by_perm := @rev_by_perm;
  order_by_sorted A key l := sort_by_sorted key (rev l);
  jsonb_text _ := "{}";
|}.

(** ** Setting a status *)

Section store.
Context {pg : Postgres}.

Definition set_row (id : string) (f : deployment -> deployment) (d : cp) : cp :=
  with_tables (update_dep id f (cp_tables d)) d.

Lemma set_forward_run d id up x :
  quiet d -> dep_by_id (cp_tables d) id = Some x -> terminalDeployStatus (dp_status x) = false ->
  up_Status up <> "failed" ->
  setDeploymentStatusTx id up d = (Ok tt, set_row id (updated_row up (cp_now d)) d).
Proof.
  intros Hq Hx Ht Hup. unfold setDeploymentStatusTx. rewrite query_bind, Hx, Ht, update_bind by done.
  destruct (String.eqb_spec (up_Status up) "failed"); done.
Qed.

Lemma dep_by_id_update t id f x : (forall y, dp_release (f y) = dp_release y) ->
  dep_by_id t id = Some x -> dep_by_id (update_dep id f t) id = Some (f x).
Proof.
  intros Hf. unfold dep_by_id, update_dep. cbn. induction (deployments t) as [|y l IH]; cbn; [done|].
  assert (Hid : dp_id (f y) = dp_id y) by (unfold dp_id; by rewrite Hf).
  destruct (String.eqb_spec (dp_id y) id) as [E|E].
  - rewrite Hid. rewrite E at 1. rewrite String.eqb_refl. by intros [= ->].
  - destruct (String.eqb_spec (dp_id y) id); [done|]. exact IH.
Qed.

Lemma set_failed_run d id up x r :
  quiet d -> dep_by_id (cp_tables d) id = Some x -> terminalDeployStatus (dp_status x) = false ->
  up_Status up = "failed" -> res_by_id (cp_tables d) (dp_resource x) = Some r ->
  exists d', setDeploymentStatusTx id up d = (Ok tt, d') /\ quiet d' /\ cp_now d' = cp_now d /\
    deployments (cp_tables d') = deployments (update_dep id (updated_row up (cp_now d)) (cp_tables d)) /\
    resources (cp_tables d') = resources (cp_tables d).
Proof.
  intros Hq Hx Ht Hup Hr. unfold setDeploymentStatusTx. rewrite query_bind, Hx, Ht, update_bind by done.
  rewrite Hup. change (String.eqb "failed" "failed") with true. cbv iota.
  rewrite query_bind by done. cbn [cp_tables cp_now with_tables].
  rewrite (dep_by_id_update _ _ _ x) by done. cbn [mbind option_bind].
  change (dp_resource (updated_row up (cp_now d) x)) with (dp_resource x).
  change (res_by_id (update_dep _ _ _) (dp_resource x)) with (res_by_id (cp_tables d) (dp_resource x)).
  rewrite Hr. cbn [mbind option_bind].
  unfold enqueueAlertTx, advisory_lock, wrapping.
  erewrite bind_run by (rewrite query_quiet by done; done).
  rewrite update_quiet by done. eexists. split; [done|]. done.
Qed.

(** ** Timeouts *)

Definition timed_out_row (now : Z) (ids' : list string) (d : deployment) : deployment :=
  if bool_decide (dp_id d ∈ ids') then updated_row timed_out now d else d.

Lemma timeout_each_run ids' n d :
  quiet d -> table_ok (deployments (cp_tables d)) -> NoDup ids' ->
  (forall id, id ∈ ids' -> exists x r, dep_by_id (cp_tables d) id = Some x /\ in_flight x = true /\
     res_by_id (cp_tables d) (dp_resource x) = Some r) ->
  exists d', timeout_each ids' n d = (Ok (n + Z.of_nat (length ids'))%Z, d') /\ quiet d' /\
    deployments (cp_tables d') = map (timed_out_row (cp_now d) ids') (deployments (cp_tables d)).
Proof.
  revert n d. induction ids' as [|id ids' IH]; intros n d Hq Hk Hn Hall; cbn [timeout_each].
  - exists d. rewrite Z.add_0_r. split_and!; [done|done|].
    symmetry. rewrite <- (map_id (deployments _)) at 2. apply map_ext. done.
  - apply NoDup_cons in Hn as [Hnin Hn].
    destruct (Hall id ltac:(left)) as (x & r & Hx & Hf & Hr).
    assert (Ht : terminalDeployStatus (dp_status x) = false).
    { apply not_true_is_false. intros T%terminal_not_in_flight. unfold in_flight in Hf. congruence. }
    destruct (set_failed_run d id timed_out x r Hq Hx Ht eq_refl Hr) as (d1 & E1 & Hq1 & Hnow & Hd1 & Hr1).
    erewrite bind_run by (apply attempt_run, E1). cbv iota beta.
    assert (Hrows : Forall2 row_step (deployments (cp_tables d)) (deployments (cp_tables d1))).
    { rewrite Hd1. eapply update_dep_steps; [done|exact Hx|]. apply updated_step; [done|by right|by right; left]. }
    destruct (IH (n + 1)%Z d1 Hq1 (rows_table_ok _ _ Hrows Hk) Hn) as (d2 & E2 & Hq2 & Hd2).
    { intros id' Hin. destruct (Hall id' ltac:(by right)) as (y & s & Hy & Hfy & Hs).
      exists y, s. split_and!; [|done|by unfold res_by_id; rewrite Hr1].
      destruct (find_id_elem _ _ _ Hy) as [Hy1 Hy2].
      assert (Hne : dp_id y <> id) by congruence.
      rewrite <- Hy2. apply dep_by_id_elem; [by eapply rows_table_ok|]. rewrite Hd1. cbn.
      apply list_elem_of_fmap. exists y. by destruct (String.eqb_spec (dp_id y) id). }
    exists d2. split_and!; [|done|].
    + rewrite E2. do 2 f_equal. cbn [length]. lia.
    + rewrite Hd2, Hd1, Hnow. cbn. rewrite map_map. apply map_ext. intros y. unfold timed_out_row.
      destruct (String.eqb_spec (dp_id y) id) as [Ey|Ey].
      * change (dp_id (updated_row timed_out (cp_now d) y)) with (dp_id y).
        rewrite (bool_decide_eq_false_2 (dp_id y ∈ ids')) by congruence.
        by rewrite bool_decide_eq_true_2 by (rewrite Ey; left).
      * erewrite bool_decide_ext; [done|]. set_solver.
Qed.

Definition no_sign_of_life (now timeout : Z) (d : deployment) : Prop :=
  in_flight d = true /\ (default (dp_created_at d) (dp_started_at d) < now - timeout)%Z.

Lemma stale_spec now timeout d : stale now timeout d = true <-> no_sign_of_life now timeout d.
Proof. unfold stale, no_sign_of_life. by rewrite andb_true_iff, Z.ltb_lt. Qed.
End store.

(** [TimeoutStaleDeployments] fails exactly the deployments that are in
    flight and gave no sign of life within the timeout, each with the detail
    and the finish time of a timeout, counts them, and leaves every other row
    as it was. *)
Theorem TimeoutStaleDeployments_spec {pg : Postgres} timeout d :
  quiet d -> table_ok (deployments (cp_tables d)) -> (0 < timeout)%Z ->
  (forall x, x ∈ deployments (cp_tables d) -> is_Some (res_by_id (cp_tables d) (dp_resource x))) ->
  exists n d', TimeoutStaleDeployments timeout d = (Ok n, d') /\
    n = Z.of_nat (length (List.filter (stale (cp_now d) (timeout / 1000)) (deployments (cp_tables d)))) /\
    deployments (cp_tables d') =
      map (fun x => if stale (cp_now d) (timeout / 1000) x then updated_row timed_out (cp_now d) x else x)
        (deployments (cp_tables d)).
Proof.
  intros Hq Hk Ht Hres. unfold TimeoutStaleDeployments. rewrite (proj2 (Z.leb_gt _ _)) by done.
  set (st := stale (cp_now d) (timeout / 1000)). set (l := deployments (cp_tables d)) in *.
  set (ids' := map dp_id (order_by dp_created_at (List.filter st l))).
  assert (Hin : forall x, x ∈ order_by dp_created_at (List.filter st l) <-> x ∈ l /\ st x = true).
  { intros x. by rewrite order_by_perm, !list_elem_of_In, List.filter_In. }
  assert (Hids : forall x, x ∈ l -> dp_id x ∈ ids' <-> st x = true).
  { intros x Hx. unfold ids'. split.
    - intros (y & E & [Hy Hs]%Hin)%list_elem_of_fmap. by rewrite (ids_unique l x y (tk_ids _ Hk)).
    - intros Hs. apply (list_elem_of_fmap_2 dp_id). by apply Hin. }
  assert (Hnd : NoDup ids').
  { unfold ids'. rewrite (order_by_perm dp_created_at). pose proof (tk_ids _ Hk) as Hn. unfold ids in Hn.
    clear -Hn. induction l as [|x l IH]; cbn in *; [constructor|]. apply NoDup_cons in Hn as [Hx Hn].
    destruct (st x); cbn; [|auto]. apply NoDup_cons. split; [|auto].
    intros (y & E & Hy)%list_elem_of_fmap. apply Hx. rewrite E. apply (list_elem_of_fmap_2 dp_id).
    by apply list_elem_of_In, List.filter_In in Hy as [?%list_elem_of_In _]. }
  destruct (timeout_each_run ids' 0 d Hq Hk Hnd) as (d' & E & Hq' & Hd').
  { intros id (x & -> & [Hx Hs]%Hin)%list_elem_of_fmap. destruct (Hres x Hx) as [r Hr].
    exists x, r. split_and!; [by apply dep_by_id_elem|by apply stale_spec in Hs as [? _]|done]. }
  exists (Z.of_nat (length ids')), d'. split_and!.
  - eapply transaction_ok; [done| |done]. rewrite query_bind by done. exact E.
  - unfold ids'. by rewrite length_map, (Permutation_length (order_by_perm _ _)).
  - rewrite Hd'. apply map_ext_in. intros x Hx%list_elem_of_In. unfold timed_out_row.
    destruct (st x) eqn:Es.
    + by rewrite bool_decide_eq_true_2 by by apply Hids.
    + rewrite bool_decide_eq_false_2; [done|]. rewrite Hids by done. congruence.
Qed.

(** ** Reports in any order *)

Section reports.
Context {pg : Postgres}.
Context (srv res : string) (version : Z).

Definition may_report (t : tables) (d : deployment) : bool :=
  String.eqb (dp_resource d) res && in_flight d &&
  match res_by_id t (dp_resource d) with
  | Some r => deploymentReporterClause t srv d r
  | None => false
  end.

(** [d] is the only deployment the server may report on. *)
Definition sole (t : tables) (d : deployment) : Prop := List.filter (may_report t) (deployments t) = [d].

Lemma order_by_one {A} (key : A -> Z) x : order_by key [x] = [x].
Proof. apply Permutation_singleton_r, order_by_perm. Qed.

Lemma sole_reportable t d : sole t d -> reportable srv res t = Some d.
Proof. intros H. unfold reportable, newest_first. fold (may_report t). by rewrite H, order_by_one. Qed.

Lemma none_reportable t : List.filter (may_report t) (deployments t) = [] -> reportable srv res t = None.
Proof.
  intros H. unfold reportable, newest_first. fold (may_report t). rewrite H.
  assert (E : order_by (fun d : deployment => - dp_created_at d)%Z [] = []) by apply Permutation_nil_r, order_by_perm.
  by rewrite E.
Qed.

(** The update of a report that moves the deployment to [target]. *)
Definition advance_update (d : deployment) (target : string) : DeploymentStatusUpdate :=
  let done := String.eqb target "success" in
  let gitSHA := deref (rl_git_sha (dp_release d)) in
  mkUpdate target ""
    (if done && negb (String.eqb gitSHA "") then PinnedImageTag res gitSHA (rl_image_pin (dp_release d)) else "")
    None true done.

(** What one report of a phase that went well does to the tables. *)
Lemma advance_run phase target d x :
  quiet d -> sole (cp_tables d) x -> table_ok (deployments (cp_tables d)) -> stale_report version x = false ->
  phase_target phase = Some target ->
  AdvanceDeploymentForResource srv res phase true "" version d =
    (Ok tt, if (deployStatusRank target <=? deployStatusRank (dp_status x))%Z then d
            else set_row (dp_id x) (updated_row (advance_update x target) (cp_now d)) d).
Proof.
  intros Hq Hs Hk Hst Hp. unfold AdvanceDeploymentForResource.
  rewrite query_bind, (sole_reportable _ _ Hs), Hst by done. cbn [negb]. rewrite Hp.
  destruct (_ <=? _)%Z; [done|]. unfold ignoring_conflict.
  assert (Hx : x ∈ deployments (cp_tables d) /\ in_flight x = true).
  { pose proof (sole_reportable _ _ Hs) as H. by apply reportable_spec in H as (? & ? & _). }
  destruct Hx as [Hin Hf].
  assert (E : SetDeploymentStatus (dp_id x) (advance_update x target) d =
    (Ok tt, set_row (dp_id x) (updated_row (advance_update x target) (cp_now d)) d)).
  { eapply transaction_ok; [done| |done]. apply (set_forward_run _ _ _ x); [done|by apply dep_by_id_elem| |].
    - apply not_true_is_false. intros T%terminal_not_in_flight. unfold in_flight in Hf. congruence.
    - unfold phase_target in Hp. cbn. intros ->. repeat case_match; simplify_eq. }
  by erewrite bind_run by (apply attempt_run, E).
Qed.

Lemma filter_map_rows (P Q : deployment -> bool) (g : deployment -> deployment) l :
  (forall y, y ∈ l -> P (g y) = Q y) -> List.filter P (map g l) = map g (List.filter Q l).
Proof.
  induction l as [|y l IH]; intros H; cbn; [done|]. rewrite H by left.
  destruct (Q y); cbn; rewrite IH; [done| |done|]; intros z Hz; apply H; by right.
Qed.

Lemma filter_all (P Q : deployment -> bool) l :
  (forall y, y ∈ l -> P y = Q y) -> List.filter P l = List.filter Q l.
Proof. intros H. apply List.filter_ext_in. intros y Hy. by apply H, list_elem_of_In. Qed.

Lemma filter_false {A} (l : list A) : List.filter (fun _ => false) l = [].
Proof. by induction l. Qed.

(** Writing the sole row: it is still the sole row, or there is none left. *)
Lemma sole_update t x f :
  table_ok (deployments t) -> sole t x -> (forall y, dp_release (f y) = dp_release y) ->
  List.filter (may_report (update_dep (dp_id x) f t)) (deployments (update_dep (dp_id x) f t)) =
    if in_flight (f x) then [f x] else [].
Proof.
  intros Hk Hs Hf. cbn [update_dep set_deployments deployments].
  set (g := fun d => if String.eqb (dp_id d) (dp_id x) then f d else d).
  assert (Hx : x ∈ deployments t /\ may_report t x = true).
  { assert (H : x ∈ List.filter (may_report t) (deployments t)) by (rewrite Hs; left).
    by apply list_elem_of_In, List.filter_In in H as [?%list_elem_of_In ?]. }
  destruct Hx as [Hx Hmx].
  assert (Hid : forall y, y ∈ deployments t -> dp_id y = dp_id x -> y = x)
    by (intros y Hy; by apply (ids_unique _ _ _ (tk_ids _ Hk))).
  assert (Hgx : g x = f x) by (unfold g; by rewrite String.eqb_refl).
  rewrite (filter_map_rows _ (fun y => may_report t y && (negb (String.eqb (dp_id y) (dp_id x)) || in_flight (f x)))).
  - destruct (in_flight (f x)) eqn:Fx.
    + rewrite (filter_all _ (may_report t)); [rewrite Hs; cbn; by rewrite Hgx|].
      intros y _. by rewrite orb_true_r, andb_true_r.
    + rewrite (filter_all _ (fun _ => false)); [by rewrite filter_false|].
      intros y Hy. rewrite orb_false_r. destruct (may_report t y) eqn:My; [|done]. cbn.
      assert (H : y ∈ List.filter (may_report t) (deployments t))
        by (by apply list_elem_of_In, List.filter_In; rewrite <- list_elem_of_In).
      rewrite Hs in H. apply list_elem_of_singleton in H as ->. by rewrite String.eqb_refl.
  - intros y Hy. unfold g. destruct (String.eqb_spec (dp_id y) (dp_id x)) as [E|E].
    + rewrite (Hid y Hy E), Hmx. unfold may_report in Hmx |- *.
      apply andb_true_iff in Hmx as [Hmx Hr]. apply andb_true_iff in Hmx as [Hmx _].
      assert (Er : dp_resource (f x) = dp_resource x) by (unfold dp_resource; by rewrite Hf).
      rewrite Er, Hmx, !andb_true_l. cbn [negb]. rewrite orb_false_l.
      change (res_by_id (update_dep (dp_id x) f t)) with (res_by_id t).
      destruct (in_flight (f x)); [|done]. rewrite andb_true_l.
      destruct (res_by_id t _) as [r|]; [|done]. unfold deploymentReporterClause, dp_server in *.
      by rewrite Er, Hf.
    + cbn. by rewrite andb_true_r.
Qed.

(** *** A sequence of reports *)

Definition report_all (phases : list string) : io cp unit :=
  for_each phases (fun phase => AdvanceDeploymentForResource srv res phase true "" version).

Definition phase_rank (phase : string) : Z := deployStatusRank (default "" (phase_target phase)).

Lemma advance_update_step d target x :
  in_flight x = true -> (exists phase, phase_target phase = Some target) ->
  (deployStatusRank (dp_status x) < deployStatusRank target)%Z ->
  row_step x (updated_row (advance_update x target) (cp_now d) x).
Proof.
  intros Hf (phase & Hp) Hlt. apply updated_step; [done| |left; cbn; lia].
  unfold phase_target in Hp. cbn. repeat case_match; simplify_eq; [by left|by left|by right].
Qed.

Lemma after_done phases d :
  quiet d -> List.filter (may_report (cp_tables d)) (deployments (cp_tables d)) = [] ->
  report_all phases d = (Ok tt, d).
Proof.
  intros Hq Hn. unfold report_all. induction phases as [|p phases IH]; cbn; [done|].
  erewrite bind_run; [exact IH|]. unfold AdvanceDeploymentForResource.
  by rewrite query_bind, (none_reportable _ Hn) by done.
Qed.

Lemma phase_rank_range phase target : phase_target phase = Some target ->
  phase_rank phase = deployStatusRank target /\ (phase_rank phase <= 3)%Z /\
  (deployInFlight target = false -> target = "success").
Proof.
  unfold phase_rank. intros E. rewrite E. cbn [default]. split; [done|].
  assert (H : target = "building" \/ target = "deploying" \/ target = "success").
  { unfold phase_target in E. repeat case_match; simplify_eq; tauto. }
  destruct H as [->|[->| ->]]; vm_compute; (split; [congruence|done]).
Qed.

Lemma max_le_all (r : Z) l b : (r <= b)%Z -> (forall p, p ∈ l -> phase_rank p <= b)%Z ->
  (fold_right Z.max r (map phase_rank l) <= b)%Z.
Proof.
  intros Hr. induction l as [|p l IH]; cbn; intros H; [done|].
  pose proof (H p ltac:(left)). assert (fold_right Z.max r (map phase_rank l) <= b)%Z by (apply IH; intros; apply H; by right). lia.
Qed.

Lemma fold_max_ge r l : (r <= fold_right Z.max r l)%Z.
Proof. induction l as [|a l IH]; cbn; lia. Qed.

Lemma fold_max_start a r l : fold_right Z.max (Z.max a r) l = Z.max a (fold_right Z.max r l).
Proof. induction l as [|b l IH]; cbn; [done|]. rewrite IH. lia. Qed.

Lemma report_all_run phases d x :
  quiet d -> table_ok (deployments (cp_tables d)) -> sole (cp_tables d) x -> stale_report version x = false ->
  (forall p, p ∈ phases -> is_Some (phase_target p)) ->
  exists d' x', report_all phases d = (Ok tt, d') /\ dep_by_id (cp_tables d') (dp_id x) = Some x' /\
    known x' /\
    deployStatusRank (dp_status x') = fold_right Z.max (deployStatusRank (dp_status x)) (map phase_rank phases).
Proof.
  revert d x. induction phases as [|p phases IH]; intros d x Hq Hk Hs Hst Hp.
  - assert (Hx : x ∈ deployments (cp_tables d) /\ in_flight x = true).
    { pose proof (sole_reportable _ _ Hs) as H. by apply reportable_spec in H as (? & ? & _). }
    destruct Hx. exists d, x. split_and!; [done|by apply dep_by_id_elem|by left|done].
  - destruct (Hp p ltac:(left)) as [target Ht]. destruct (phase_rank_range p target Ht) as (Hrk & Hr3 & Hsucc).
    assert (Hx : x ∈ deployments (cp_tables d) /\ in_flight x = true).
    { pose proof (sole_reportable _ _ Hs) as H. by apply reportable_spec in H as (? & ? & _). }
    destruct Hx as [Hin Hf]. cbn [map fold_right]. rewrite Hrk.
    pose proof (advance_run p target d x Hq Hs Hk Hst Ht) as Hrun.
    pose proof (fold_max_ge (deployStatusRank (dp_status x)) (map phase_rank phases)) as Hge.
    destruct (Z.leb_spec (deployStatusRank target) (deployStatusRank (dp_status x))) as [Hle|Hlt].
    + destruct (IH d x Hq Hk Hs Hst) as (d' & x' & E & H1 & H2 & H3); [intros; apply Hp; by right|].
      exists d', x'. split_and!; [|done|done|lia].
      unfold report_all. cbn [for_each]. erewrite bind_run by exact Hrun. exact E.
    + set (u := advance_update x target) in *. set (x1 := updated_row u (cp_now d) x).
      set (d1 := set_row (dp_id x) (updated_row u (cp_now d)) d) in *.
      pose proof (advance_update_step d target x Hf (ex_intro _ p Ht) Hlt) as Hstep.
      assert (Hx0 : dep_by_id (cp_tables d) (dp_id x) = Some x) by by apply dep_by_id_elem.
      assert (Hk1 : table_ok (deployments (cp_tables d1)))
        by (eapply rows_table_ok, Hk; by eapply update_dep_steps).
      pose proof (sole_update (cp_tables d) x (updated_row u (cp_now d)) Hk Hs (fun _ => eq_refl)) as Hsole.
      assert (Hrun1 : forall d', report_all phases d1 = (Ok tt, d') -> report_all (p :: phases) d = (Ok tt, d')).
      { intros d' E. unfold report_all. cbn [for_each]. erewrite bind_run by exact Hrun. exact E. }
      destruct (in_flight (updated_row u (cp_now d) x)) eqn:F1.
      * destruct (IH d1 x1 Hq Hk1 Hsole Hst) as (d' & x' & E & H1 & H2 & H3); [intros; apply Hp; by right|].
        exists d', x'. split_and!; [by apply Hrun1|done|done|]. rewrite H3.
        change (dp_status x1) with target.
        replace (deployStatusRank target) with (Z.max (deployStatusRank target) (deployStatusRank (dp_status x)))
          at 1 by lia. apply fold_max_start.
      * exists d1, x1. split_and!.
        -- apply Hrun1, after_done; [done|exact Hsole].
        -- by apply (dep_by_id_update (cp_tables d) (dp_id x) (updated_row u (cp_now d)) x).
        -- apply (rs_known _ _ Hstep). by left.
        -- change (dp_status x1) with target. rewrite (Hsucc F1) in *.
           pose proof (in_flight_rank x Hf).
           assert (fold_right Z.max (deployStatusRank (dp_status x)) (map phase_rank phases) <= 3)%Z.
           { apply max_le_all; [lia|]. intros q Hq'. destruct (Hp q ltac:(by right)) as [tq Htq].
             by destruct (phase_rank_range q tq Htq) as (_ & ? & _). }
           change (deployStatusRank "success") with 3%Z. lia.
Qed.
End reports.

Lemma rank_inj x y : known x -> (0 <= deployStatusRank (dp_status x))%Z ->
  deployStatusRank (dp_status x) = deployStatusRank (dp_status y) -> dp_status x = dp_status y.
Proof.
  intros _. unfold deployStatusRank. repeat case_match; intros; try lia;
    repeat match goal with H : String.eqb _ _ = true |- _ => apply String.eqb_eq in H end; congruence.
Qed.

(** C24: Reports may arrive in any order.  However the reports of a deployment
    that went well are ordered (one status post lists clone, build and rollout
    in map order), the deployment the server may report on ends with the same
    status: the furthest of the status it had and the ones the reports lead
    to. *)
Theorem reports_in_any_order {pg : Postgres} srv res version phases phases' d x :
  quiet d -> table_ok (deployments (cp_tables d)) -> sole srv res (cp_tables d) x -> stale_report version x = false ->
  (forall p, p ∈ phases -> p ∈ ["clone"; "build"; "rollout"]) -> phases ≡ₚ phases' ->
  exists d1 d2 x1 x2,
    report_all srv res version phases d = (Ok tt, d1) /\ report_all srv res version phases' d = (Ok tt, d2) /\
    dep_by_id (cp_tables d1) (dp_id x) = Some x1 /\ dep_by_id (cp_tables d2) (dp_id x) = Some x2 /\
    dp_status x1 = dp_status x2 /\
    deployStatusRank (dp_status x1) = fold_right Z.max (deployStatusRank (dp_status x)) (map phase_rank phases).
Proof.
  intros Hq Hk Hs Hst Hp Hperm.
  assert (Hsome : forall p, p ∈ phases -> is_Some (phase_target p)).
  { intros p Hin%Hp. repeat (apply elem_of_cons in Hin as [->|Hin]); [by eexists..|by apply not_elem_of_nil in Hin]. }
  destruct (report_all_run srv res version phases d x Hq Hk Hs Hst Hsome) as (d1 & x1 & E1 & H1 & K1 & R1).
  destruct (report_all_run srv res version phases' d x Hq Hk Hs Hst) as (d2 & x2 & E2 & H2 & K2 & R2).
  { intros p. rewrite <- Hperm. apply Hsome. }
  exists d1, d2, x1, x2. split_and!; try done. apply rank_inj; [done| |].
  - rewrite R1. pose proof (fold_max_ge (deployStatusRank (dp_status x)) (map phase_rank phases)).
    pose proof (sole_reportable _ _ _ _ Hs) as Hr. apply reportable_spec in Hr as (_ & Hf & _).
    pose proof (in_flight_rank x Hf). lia.
  - rewrite R1, R2. clear -Hperm. induction Hperm; cbn; lia.
Qed.

(** ** Rolling back *)

Section rollback.
Context {pg : Postgres}.

Lemma supersede_run org srv res d : quiet d -> res <> "" ->
  supersedeInFlightTx org srv res d =
    (Ok tt, with_tables (set_deployments (map (fun x =>
       if supersedes org srv res x then superseded_row (cp_now d) x else x)) (cp_tables d)) d).
Proof.
  intros Hq Hr. unfold supersedeInFlightTx. destruct (String.eqb_spec res ""); [done|].
  unfold advisory_lock. rewrite query_bind, update_quiet by done. done.
Qed.

Lemma resolve_run src conn env d : quiet d -> exists b, resolveBuildServerTx src conn env d = (Ok b, d).
Proof.
  intros Hq. unfold resolveBuildServerTx. destruct (negb _); [by eexists|]. destruct (_ || _); [by eexists|].
  rewrite query_bind by done. by eexists.
Qed.

Lemma insert_run rl dg d : quiet d -> dep_by_id (cp_tables d) (rl_id (rl (cp_now d))) = None ->
  insert_deployment rl dg d =
    (Ok tt, with_tables (set_deployments (fun l => l ++ [mkDeployment (rl (cp_now d)) "queued" "" dg None None None None ∅ 0])%list
                           (cp_tables d)) d).
Proof. intros Hq Hn. unfold insert_deployment. rewrite exec_quiet by done. cbn. unfold dp_id. cbn. by rewrite Hn. Qed.

Lemma find_resource_row t org res x :
  table_ok (deployments t) -> x ∈ deployments t -> of_resource org res x = true ->
  List.find (fun d => of_resource org res d && String.eqb (dp_id d) (dp_id x)) (deployments t) = Some x.
Proof.
  intros Hk Hx Ho. destruct (List.find _ _) as [y|] eqn:E.
  - apply List.find_some in E as [Hy H]. apply andb_true_iff in H as [_ Hid%String.eqb_eq].
    f_equal. apply (ids_unique _ _ _ (tk_ids _ Hk)); [by apply list_elem_of_In|done|done].
  - eapply List.find_none in E; [|by apply list_elem_of_In]. by rewrite Ho, String.eqb_refl in E.
Qed.

Lemma offered_target org res limit d ts x :
  quiet d -> table_ok (deployments (cp_tables d)) -> RollbackTargets org res limit d = (Ok ts, d) -> x ∈ ts ->
  x ∈ deployments (cp_tables d) /\ of_resource org res x = true /\ rollback_eligible x = true.
Proof.
  intros Hq Hk E Hx. unfold RollbackTargets in E. rewrite query_quiet in E by done. injection E as <-.
  apply elem_of_take in Hx as (i & Hi & _). apply list_elem_of_lookup_2 in Hi.
  unfold newest_first in Hi. rewrite order_by_perm in Hi.
  apply list_elem_of_In, List.filter_In in Hi as [Hin%list_elem_of_In H].
  apply andb_true_iff in H as [Ho Ht]. split_and!; [done|done|].
  unfold rollback_target in Ht. unfold rollback_eligible. apply andb_true_iff in Ht as [-> Ht]. cbn.
  apply orb_true_iff in Ht as [->|Ht]; [done|]. apply andb_true_iff in Ht as [Hd ->].
  apply bool_decide_eq_true in Hd as [i' Hi']. pose proof (tk_digest _ Hk x Hin) as Hne.
  rewrite Hi' in *. destruct (String.eqb_spec i' ""); [by subst|]. by rewrite andb_true_r, orb_true_r.
Qed.

Lemma find_none_fwd {A} (f : A -> bool) l : (forall x, x ∈ l -> f x = false) -> List.find f l = None.
Proof.
  induction l as [|x l IH]; intros H; cbn; [done|]. rewrite H by left. apply IH. intros y Hy. apply H. by right.
Qed.

Lemma find_app_none {A} (f : A -> bool) l k : List.find f l = None -> List.find f (l ++ k) = List.find f k.
Proof. induction l as [|x l IH]; cbn; [done|]. by destruct (f x). Qed.

Lemma deref_nullif o : deref (nullif (deref o)) = deref o.
Proof. unfold nullif. destruct o as [s|]; cbn; [|done]. by destruct (String.eqb_spec s ""); subst. Qed.

Lemma nullif_deref o : o <> Some "" -> nullif (deref o) = o.
Proof. unfold nullif. destruct o as [s|]; cbn; [|done]. destruct (String.eqb_spec s ""); by subst. Qed.
End rollback.

(** What the dashboard offers can be done.  Every release
    [RollbackTargets] lists for a resource is accepted by [CreateRollback]:
    the new deployment is queued as a rollback of it with the same commit,
    pin, digest and server, so it ships the very image of that release, and it
    is the only deployment in flight in its slot. *)
Theorem rollback_targets_accepted {pg : Postgres} org res limit actor d ts x r :
  let id := "dep_" +:+ cp_rand d (cp_drawn d) in
  quiet d -> table_ok (deployments (cp_tables d)) -> res <> "" ->
  RollbackTargets org res limit d = (Ok ts, d) -> x ∈ ts ->
  res_by_id (cp_tables d) res = Some r -> rs_org r = org -> dep_by_id (cp_tables d) id = None ->
  exists d' new, CreateRollback org res (dp_id x) actor d = (Ok (id, deref (dp_server x)), d') /\
    dep_by_id (cp_tables d') id = Some new /\
    dp_status new = "queued" /\ rl_trigger (dp_release new) = "rollback" /\
    rl_rollback_of (dp_release new) = Some (dp_id x) /\ slot new = slot x /\
    rl_image_pin (dp_release new) = rl_image_pin (dp_release x) /\ dp_image_digest new = dp_image_digest x /\
    PinnedImageTag res (deref (rl_git_sha (dp_release new))) (rl_image_pin (dp_release new)) =
      PinnedImageTag res (deref (rl_git_sha (dp_release x))) (rl_image_pin (dp_release x)) /\
    (forall y, y ∈ deployments (cp_tables d') -> slot y = slot x -> in_flight y = true -> y = new).
Proof.
  intros id Hq Hk Hres Hts Hx Hr Horg Hid.
  destruct (offered_target _ _ _ _ _ _ Hq Hk Hts Hx) as (Hin & Hof & Hel).
  pose proof (find_resource_row _ _ _ _ Hk Hin Hof) as Hfind.
  pose proof Hof as Hof'. apply andb_true_iff in Hof' as [Ho%String.eqb_eq Hre%String.eqb_eq].
  set (s := dp_release x). set (srv := deref (rl_server s)).
  set (d1 := mkCp (cp_tables d) (cp_now d) (cp_faults d) (cp_rand d) (S (cp_drawn d)) (cp_memory d)).
  set (old := map (fun y => if supersedes org srv res y then superseded_row (cp_now d) y else y) (deployments (cp_tables d))).
  set (d2 := with_tables (set_deployments (fun _ => old) (cp_tables d)) d1).
  destruct (resolve_run (deref (rl_build_server s)) (deref (rl_connection s)) (deref (rl_environment s)) d2 Hq) as [b Hb].
  set (rl := fun n => mkRelease id org res (nullif (deref (rl_environment s))) (nullif srv)
    (nullif (deref (rl_connection s))) "rollback" (nullif (deref (rl_git_ref s))) (nullif (deref (rl_git_sha s)))
    (rl_image_pin s) (nullif (deref (rl_config_hash s))) (composeServiceCount (rs_spec r)) (Some (dp_id x)) actor (nullif b) n).
  set (new := mkDeployment (rl (cp_now d)) "queued" "" (nullif (deref (dp_image_digest x))) None None None None ∅ 0).
  assert (Hnone : dep_by_id (cp_tables d2) id = None).
  { unfold dep_by_id. apply find_none_fwd. intros y (z & -> & Hz)%list_elem_of_fmap.
    apply not_true_is_false. intros E%String.eqb_eq. apply dep_by_id_none in Hid. apply Hid.
    apply list_elem_of_fmap. exists z. split; [|done]. rewrite <- E. by destruct (supersedes org srv res z). }
  assert (Hsrv : dp_server x <> Some "") by by apply (tk_server _ Hk).
  eexists _, new. split_and!.
  - eapply transaction_ok; [done| |].
    + rewrite query_bind, Hfind by done. cbv beta iota zeta. rewrite Hel. cbn [negb].
      unfold resourceServiceCountTx. erewrite bind_run.
      2:{ rewrite query_bind by done. rewrite Hr, Horg, String.eqb_refl. done. }
      rewrite newID_bind. erewrite bind_run by (apply supersede_run; done).
      erewrite bind_run by exact Hb.
      erewrite bind_run by (apply (insert_run rl); [done|exact Hnone]).
      erewrite bind_run by (unfold auditTx, wrapping; rewrite update_quiet by done; done). done.
    + done.
  - cbn. unfold dep_by_id in *. cbn in *. rewrite find_app_none by exact Hnone. cbn.
    change (dp_id new) with id. by rewrite String.eqb_refl.
  - done.
  - done.
  - done.
  - unfold slot, dp_org, dp_resource, dp_server in *. cbn. fold s in Hsrv, Ho, Hre |- *.
    unfold srv. rewrite nullif_deref by done. by rewrite Ho, Hre.
  - done.
  - cbn. apply nullif_deref. by apply (tk_digest _ Hk).
  - cbn. by rewrite deref_nullif.
  - intros y Hy Hs Hf. cbn in Hy. apply elem_of_app in Hy as [Hy| ->%list_elem_of_singleton]; [|done].
    apply list_elem_of_fmap in Hy as (z & -> & Hz). destruct (supersedes org srv res z) eqn:E; [done|].
    exfalso. apply not_true_iff_false in E. apply E. unfold supersedes. rewrite Hf.
    injection Hs as H1 H2 H3. rewrite H1, H2, H3, Ho, Hre, !String.eqb_refl, andb_true_r. cbn.
    apply same_server_spec; [by rewrite <- H3 in Hsrv; rewrite H3 in Hsrv|]. symmetry. by apply nullif_deref.
Qed.

(** ** Whose deployment it is *)

(** Only the row of one id may differ. *)
Definition touches (id : string) (l l' : list deployment) : Prop :=
  Forall2 (fun x y => y = x \/ dp_id x = id) l l'.

Lemma same_or_refl (P : deployment -> Prop) l : Forall2 (fun x y => y = x \/ P x) l l.
Proof. induction l; constructor; [by left|done]. Qed.

Lemma same_or_impl (P Q : deployment -> Prop) l l' : (forall x, x ∈ l -> P x -> Q x) ->
  Forall2 (fun x y => y = x \/ P x) l l' -> Forall2 (fun x y => y = x \/ Q x) l l'.
Proof.
  intros H H2. induction H2 as [|x y l k Hxy _ IH]; constructor.
  - destruct Hxy; [by left|right]. apply H; [left|done].
  - apply IH. intros z Hz. apply H. by right.
Qed.

Lemma touches_update id l t f : touches id l (deployments t) -> touches id l (deployments (update_dep id f t)).
Proof.
  unfold touches. cbn. induction 1 as [|x y l k H _ IH]; cbn; constructor; [|done].
  destruct (String.eqb_spec (dp_id y) id) as [E|E]; [|done].
  destruct H as [->|H]; [by right|by right].
Qed.

Section scope.
Context {pg : Postgres}.
Context (id : string) (l0 : list deployment) (logs : list log_row) (now : Z).

(** Since the rows [l0] and the log [logs] at time [now], nothing but the row [id] changed. *)
Definition scope : assertion := fun n t => n = now /\ touches id l0 (deployments t) /\ deploy_logs t = logs.

Lemma set_scope up : does scope (setDeploymentStatusTx id up) (fun _ => scope) scope.
Proof.
  eapply does_bind; [by apply does_query|]. intros [x|]; [|apply does_fail; by intros n t [? _]].
  destruct (terminalDeployStatus _); [apply does_fail; by intros n t [? _]|].
  eapply (does_bind _ _ _ (fun _ => scope)).
  - apply does_update; [by intros n t [? _]|]. intros n t [(Hn & Ht & Hl) _]. split_and!; [done| |done].
    by apply touches_update.
  - intros u. destruct (String.eqb _ _); [|by apply does_ret].
    eapply does_bind; [by apply does_query|]. intros [[[org name] sha]|]; [|apply does_fail; by intros n t [? _]].
    eapply does_bind; [apply does_wrapping, does_query; by intros n t [? _]|]. intros v.
    apply does_wrapping, does_update; [by intros n t [[? _] _]|]. by intros n t [[? _] _].
Qed.

Lemma ignoring_scope (m : io cp unit) : does scope m (fun _ => scope) scope ->
  does scope (ignoring_conflict m) (fun _ => scope) scope.
Proof.
  intros H. eapply does_bind; [by apply does_attempt|]. intros [u|e]; [by apply does_ret|].
  destruct (String.eqb e ErrConflict); [by apply does_ret|by apply does_fail].
Qed.

Lemma transaction_scope {A} (m : io cp A) : does scope m (fun _ => scope) scope ->
  does scope (transaction m) (fun _ => scope) scope.
Proof.
  intros H. eapply (does_transaction_at _ now); [by intros n t [? _]| |by intros a n t [? _]|done].
  intros t1 H1. eapply does_weaken; [exact H|by intros n t [-> ->]|done|by intros n t [? _]].
Qed.

Lemma record_scope service s : does scope (record_service id service s) (fun _ => scope) scope.
Proof.
  eapply (does_bind _ _ _ (fun _ => scope)).
  - apply does_exec; [done|]. intros n t (Hn & Ht & Hl). destruct (dep_by_id t id); [|done].
    destruct (String.eqb _ _); [done|]. split_and!; [done| |done]. by apply touches_update.
  - intros [m|]; [by apply does_ret|]. eapply does_bind; [by apply does_query|].
    intros [x|]; [apply does_ret|apply does_fail]; by intros n t [? _].
Qed.
End scope.

(** The operations an agent's report leads to, and the server that sent it. *)
Definition report_by (srv : string) (o : op) : Prop :=
  match o with
  | OpAdvance s _ _ _ _ _ | OpAdvanceService s _ _ _ _ _ _ | OpPrereqFailed s _ _ _ _ | OpLogs s _ _ _ => s = srv
  | _ => False
  end.

(** The server holds a part of the deployment. *)
Definition holds_part (t : tables) (srv : string) (x : deployment) : Prop :=
  exists r, res_by_id t (dp_resource x) = Some r /\ deploymentReporterClause t srv x r = true.

(** What a report by [srv] may have changed in [t0]: rows and log lines of
    deployments it holds a part of. *)
Definition within_scope (t0 : tables) (srv : string) : assertion := fun _ t =>
  Forall2 (fun x y => y = x \/ holds_part t0 srv x) (deployments t0) (deployments t) /\
  forall g, g ∈ deploy_logs t -> g ∈ deploy_logs t0 \/
    exists x, dep_by_id t0 (lg_deployment g) = Some x /\ holds_part t0 srv x.

Lemma within_refl t0 srv n t : deployments t = deployments t0 -> deploy_logs t = deploy_logs t0 -> within_scope t0 srv n t.
Proof.
  intros E1 E2. split; [rewrite E1; apply same_or_refl|intros g Hg; left; congruence].
Qed.

Lemma scope_within {pg : Postgres} t0 srv res x now logs n t :
  table_ok (deployments t0) -> reportable srv res t0 = Some x ->
  (forall g, g ∈ logs -> g ∈ deploy_logs t0 \/ exists y, dep_by_id t0 (lg_deployment g) = Some y /\ holds_part t0 srv y) ->
  scope (dp_id x) (deployments t0) logs now n t -> within_scope t0 srv n t.
Proof.
  intros Hk Hx Hlogs (_ & Ht & Hl). split; [|by rewrite Hl].
  apply reportable_spec in Hx as (Hin & _ & Hres & Hc).
  assert (Hpart : holds_part t0 srv x) by (unfold holds_part; by rewrite Hres).
  eapply same_or_impl, Ht. cbn. intros y Hy E. by rewrite (ids_unique _ y x (tk_ids _ Hk) Hy Hin E).
Qed.

Lemma AppendDeployLogs_within t0 now srv id stream lines :
  does (from t0 now) (AppendDeployLogs srv id stream lines)
    (fun _ n t => n = now /\ deployments t = deployments t0 /\ within_scope t0 srv n t) (within_scope t0 srv).
Proof.
  destruct lines as [|line lines].
  { apply does_ret. intros n t [-> ->]. split_and!; [done|done|by apply within_refl]. }
  apply does_update; [intros n t [-> ->]; by apply within_refl|]. intros n t [-> ->].
  destruct (dep_by_id t0 id) as [x|] eqn:Ex; cbn [mbind option_bind];
    [|split_and!; [done|done|by apply within_refl]].
  destruct (res_by_id t0 (dp_resource x)) as [r|] eqn:Er; cbn [mbind option_bind];
    [|split_and!; [done|done|by apply within_refl]].
  destruct (deploymentReporterClause t0 srv x r) eqn:Ec; [|split_and!; [done|done|by apply within_refl]].
  split_and!; [done|done|]. split; [by apply (within_refl t0 srv now t0)|].
  intros g. cbn [set_logs deploy_logs]. intros [?|Hg]%elem_of_app; [by left|right].
  apply list_elem_of_fmap in Hg as (s & -> & _). cbn. exists x. split; [done|]. by exists r.
Qed.

Section report.
Context {pg : Postgres} (t0 : tables) (now : Z) (Hk : table_ok (deployments t0)).

Lemma start_within srv n t : from t0 now n t -> within_scope t0 srv n t.
Proof. intros [-> ->]. by apply within_refl. Qed.

(** After the deployment a report is about was found: the rest stays in its
    scope. *)
Lemma found_within {A} (P : assertion) srv res x (m : io cp A) logs :
  reportable srv res t0 = Some x ->
  (forall g, g ∈ logs -> g ∈ deploy_logs t0 \/ exists y, dep_by_id t0 (lg_deployment g) = Some y /\ holds_part t0 srv y) ->
  (forall n t, P n t -> n = now /\ deployments t = deployments t0 /\ deploy_logs t = logs) ->
  does (scope (dp_id x) (deployments t0) logs now) m
    (fun _ => scope (dp_id x) (deployments t0) logs now) (scope (dp_id x) (deployments t0) logs now) ->
  does P m (fun _ => within_scope t0 srv) (within_scope t0 srv).
Proof.
  intros Hx Hl HP H. eapply does_weaken; [exact H| |intros a n t; by eapply scope_within|intros n t; by eapply scope_within].
  intros n t (? & E & ?)%HP. split_and!; [done| |done]. rewrite E. apply same_or_refl.
Qed.

(** Looking the deployment up. *)
Lemma look_within {A} srv res (k : option deployment -> io cp A) :
  does (from t0 now) (k (reportable srv res t0)) (fun _ => within_scope t0 srv) (within_scope t0 srv) ->
  does (from t0 now) (bind (query (fun _ => reportable srv res)) k) (fun _ => within_scope t0 srv) (within_scope t0 srv).
Proof.
  intros H. eapply does_bind; [apply does_query, start_within|]. intros row.
  apply (does_pre _ (fun n t => from t0 now n t /\ row = reportable srv res t0)).
  - apply does_pure. by intros ->.
  - intros n t [Hf ->]. split; [done|]. by destruct Hf as [_ ->].
Qed.

Lemma set_status_within srv res x up :
  reportable srv res t0 = Some x ->
  does (from t0 now) (ignoring_conflict (SetDeploymentStatus (dp_id x) up))
    (fun _ => within_scope t0 srv) (within_scope t0 srv).
Proof.
  intros Hx. apply (found_within _ srv res x _ (deploy_logs t0) Hx); [by left|by intros n t [-> ->]|].
  apply ignoring_scope, transaction_scope, set_scope.
Qed.

Lemma ret_within {A} srv (a : A) : does (from t0 now) (ret a) (fun _ => within_scope t0 srv) (within_scope t0 srv).
Proof. apply does_ret, start_within. Qed.

Lemma run_report_within srv o : report_by srv o ->
  does (from t0 now) (run_op o) (fun _ => within_scope t0 srv) (within_scope t0 srv).
Proof.
  intros Ho. destruct o; cbn in Ho; subst; try done; cbn [run_op].
  - apply look_within. destruct (reportable srv res t0) as [x|] eqn:Hx; [|apply ret_within].
    destruct (stale_report _ _); [apply ret_within|]. destruct ok; cbn [negb]; [|by eapply set_status_within].
    destruct (phase_target phase); [|apply ret_within]. destruct (_ <=? _)%Z; [apply ret_within|].
    by eapply set_status_within.
  - unfold AdvanceDeploymentService. destruct (service_phase phase ok) as [s|]; [|apply ret_within].
    eapply does_weaken; [eapply (does_transaction_at (from t0 now) now _ (fun _ n t => n = now /\ within_scope t0 srv n t)
      (within_scope t0 srv))|done|by intros a n t [_ ?]|done].
    + by intros n t [-> _].
    + intros t1 [_ ->]. eapply does_bind; [apply does_query; by intros n t [-> _]|]. intros row.
      apply (does_pre _ (fun n t => from t0 now n t /\ row = reportable srv res t0)).
      2:{ intros n t [Hf ->]. split; [done|]. by destruct Hf as [_ ->]. }
      apply does_pure. intros ->.
      destruct (reportable srv res t0) as [x|] eqn:Hx.
      2:{ apply does_ret. intros n t Hf. split; [apply Hf|by apply start_within]. }
      destruct (stale_report _ _).
      { apply does_ret. intros n t Hf. split; [apply Hf|by apply start_within]. }
      set (Sc := scope (dp_id x) (deployments t0) (deploy_logs t0) now).
      eapply (does_weaken _ Sc _ _ (fun _ => Sc) _ Sc).
      * eapply does_bind; [apply record_scope|]. intros m. apply ignoring_scope, set_scope.
      * intros n t [-> ->]. split_and!; [done|apply same_or_refl|done].
      * intros a n t Hs. split; [by destruct Hs|]. eapply scope_within; [done|exact Hx| |exact Hs]. by left.
      * by intros n t [? _].
    + by intros a n t [? _].
    + apply start_within.
  - apply look_within. destruct (reportable srv res t0) as [x|] eqn:Hx; [|apply ret_within].
    destruct (stale_report _ _); [apply ret_within|]. eapply does_bind; [apply AppendDeployLogs_within|]. intros u.
    intros d0 Hd0. assert (Hlogs := Hd0). destruct Hlogs as (Hn & Hrows & _ & Hl).
    revert d0 Hd0 Hn Hrows Hl. intros d0 _ Hn Hrows Hl.
    assert (Hdoes : does (fun n t => n = now /\ deployments t = deployments t0 /\ deploy_logs t = deploy_logs (cp_tables d0))
      (ignoring_conflict (SetDeploymentStatus (dp_id x) (mkUpdate "failed"
         (if String.eqb err "" then opID +:+ " failed" else opID +:+ " failed: " +:+ err) "" None false true)))
      (fun _ => within_scope t0 srv) (within_scope t0 srv)).
    { apply (found_within _ srv res x _ (deploy_logs (cp_tables d0)) Hx); [exact Hl|done|].
      apply ignoring_scope, transaction_scope, set_scope. }
    exact (Hdoes d0 (conj Hn (conj Hrows eq_refl))).
  - eapply does_weaken; [apply AppendDeployLogs_within|done|by intros a n t (_ & _ & ?)|done].
Qed.
End report.

(** A report changes only what its server holds a part of.  Whatever a
    server reports (a phase, a service, a failed prerequisite, log lines), each
    deployment it changed, and each deployment it appended a log line to, is
    one it is entitled to: its target, its build server, a node of its cluster
    or the host of one of its services. *)
Theorem report_scope {pg : Postgres} srv o d r d' :
  table_ok (deployments (cp_tables d)) -> report_by srv o -> run_op o d = (r, d') ->
  (forall i x y, deployments (cp_tables d) !! i = Some x -> deployments (cp_tables d') !! i = Some y ->
     y = x \/ holds_part (cp_tables d) srv x) /\
  (forall g, g ∈ deploy_logs (cp_tables d') -> g ∈ deploy_logs (cp_tables d) \/
     exists x, dep_by_id (cp_tables d) (lg_deployment g) = Some x /\ holds_part (cp_tables d) srv x).
Proof.
  intros Hk Ho E. set (t0 := cp_tables d) in *.
  assert (H : does (from t0 (cp_now d)) (run_op o) (fun _ => within_scope t0 srv) (within_scope t0 srv))
    by by apply run_report_within.
  pose proof (does_run _ _ _ _ _ _ _ H (conj eq_refl eq_refl) E) as Hw.
  assert (Hd : within_scope t0 srv (cp_now d') (cp_tables d')) by by destruct r.
  destruct Hd as [Hrows Hlogs]. split; [|exact Hlogs].
  intros i x y Hx Hy. exact (Forall2_lookup_lr _ _ _ _ _ _ Hrows Hx Hy).
Qed.

Lemma first_of_map (rows : list DeployTarget) res x :
  (list_to_map (map (fun x => (dp_resource (dt_deployment x), x)) rows) : gmap string DeployTarget) !! res = Some x ->
  exists i, rows !! i = Some x /\ dp_resource (dt_deployment x) = res /\
    forall j y, rows !! j = Some y -> dp_resource (dt_deployment y) = res -> (i <= j)%nat.
Proof.
  induction rows as [|y rows IH]; cbn; [done|]. destruct (decide (dp_resource (dt_deployment y) = res)) as [E|E].
  - rewrite E, lookup_insert_eq. intros [= ->]. exists 0%nat. split_and!; [done|done|lia].
  - rewrite lookup_insert_ne by done. intros (i & Hi & Hr & Hf)%IH. exists (S i). split_and!; [done|done|].
    intros [|j] z Hz Hzr; cbn in Hz; [by simplify_eq|]. specialize (Hf j z Hz Hzr). lia.
Qed.

Lemma target_row_of t y x : target_row t y = Some x -> y = dt_deployment x /\ exists r, res_by_id t (dp_resource (dt_deployment x)) = Some r.
Proof.
  unfold target_row. destruct (res_by_id t (dp_resource y)) as [r|] eqn:Er; [|done]. cbn.
  destruct (rl_connection (dp_release y)) as [c|]; [|done]. cbn. destruct (conn_by_id t c); [|done].
  cbn. intros [= <-]. cbn. eauto.
Qed.

Lemma target_arms_spec srv t y : y ∈ target_arms srv t ->
  y ∈ deployments t /\ forall r, deploymentReporterClause t srv y r = true.
Proof.
  assert (H : forall (P : deployment -> bool), y ∈ List.filter P (List.filter target_status (deployments t)) ->
    y ∈ deployments t /\ P y = true).
  { intros P [[Hy _]%List.filter_In Hp]%list_elem_of_In%List.filter_In. by rewrite list_elem_of_In. }
  unfold target_arms. rewrite !elem_of_app. intros [[Hi Hp]%H|[[Hi Hp]%H|[Hi Hp]%H]]; (split; [done|]);
    intros r; unfold deploymentReporterClause; rewrite Hp, ?orb_true_r; done.
Qed.

Lemma reportable_some {pg : Postgres} srv res t x :
  x ∈ deployments t -> in_flight x = true -> dp_resource x = res ->
  (exists r, res_by_id t res = Some r /\ deploymentReporterClause t srv x r = true) ->
  is_Some (reportable srv res t).
Proof.
  intros Hin Hf <- (r & Hr & Hc). unfold reportable, newest_first. set (l := List.filter _ _).
  assert (Hx : x ∈ l).
  { apply list_elem_of_In, List.filter_In. rewrite <- list_elem_of_In. split; [done|].
    by rewrite String.eqb_refl, Hf, Hr, Hc. }
  rewrite <- (order_by_perm (fun d => - dp_created_at d)%Z l) in Hx.
  destruct (order_by _ l); [by apply not_elem_of_nil in Hx|by eexists].
Qed.

(** Who renders may report.  Every deployment [DeployTargetsForServer]
    renders into a server's document is one that server holds a part of, so
    its reports about it are not dropped: while it is in flight the resource
    has a deployment the server may report on.  It is also the newest of the
    rows of that resource the server is involved in. *)
Theorem rendered_may_report {pg : Postgres} srv res d m d' x :
  DeployTargetsForServer srv d = (Ok m, d') -> m !! res = Some x ->
  dt_deployment x ∈ deployments (cp_tables d) /\ dp_resource (dt_deployment x) = res /\
  holds_part (cp_tables d) srv (dt_deployment x) /\
  (in_flight (dt_deployment x) = true -> is_Some (reportable srv res (cp_tables d))) /\
  (forall y z, y ∈ target_arms srv (cp_tables d) -> target_row (cp_tables d) y = Some z -> dp_resource y = res ->
     (dp_created_at y <= dp_created_at (dt_deployment x))%Z).
Proof.
  unfold DeployTargetsForServer, query. set (t := cp_tables d). intros E Hm.
  set (key := fun x : DeployTarget => (- dp_created_at (dt_deployment x))%Z) in *.
  set (rows := order_by key (omap (target_row t) (target_arms srv t))).
  assert (Em : m = list_to_map (map (fun x => (dp_resource (dt_deployment x), x)) rows)).
  { unfold exec in E. destruct (cp_faults d) as [|[] ?]; [by injection E as <-|done|by injection E as <-]. }
  clear E. subst m. destruct (first_of_map rows res x Hm) as (i & Hi & Hres & Hfirst).
  assert (Hx : x ∈ omap (target_row t) (target_arms srv t))
    by (rewrite <- (order_by_perm key); by eapply list_elem_of_lookup_2).
  apply list_elem_of_omap in Hx as (y & Hy & Ey). pose proof (target_row_of t y x Ey) as (-> & r & Hr).
  destruct (target_arms_spec srv t _ Hy) as (Hin & Hc). specialize (Hc r).
  split_and!; [done|done|by exists r; auto| |].
  - intros Hf. apply reportable_some with (dt_deployment x); [done|done|done|]. exists r. rewrite <- Hres. auto.
  - intros y' z Hy' Hz Hr'. destruct (target_row_of t y' z Hz) as (-> & _).
    assert (Hzr : z ∈ rows).
    { unfold rows. rewrite order_by_perm. apply list_elem_of_omap. by exists (dt_deployment z). }
    apply list_elem_of_lookup in Hzr as (j & Hj).
    assert (i <= j)%nat by (by apply (Hfirst j z)).
    pose proof (order_by_sorted key _ i j x z ltac:(done) Hi Hj) as Hs. unfold key in Hs. lia.
Qed.

(** ** A database to try it on *)

#[local] Existing Instance pg_stable.

Definition demo_req (id sha : string) : request_row :=
  mkRequest id "org" "gc_1" (Some "env_1") "deploy" "refs/heads/main" sha "queued" 0 "" 5.

(** An app on a server, a repository with its branch mapped, one alert rule. *)
Definition demo_tables (reqs : list request_row) : tables :=
  mkTables [] [mkResource "res_1" "org" "prj_1" (Some "env_1") (Some "srv_1") None "app" "web" (JObj [])]
    [mkBranchMap "bm_1" "gc_1" "env_1" None None None] [mkConnection "gc_1" "org" "prj_1" "github" "org/web"] reqs
    [] [] [mkAlertRule "org" "deploy_failed" "ch_1"] [mkAlertChannel "ch_1" true no_channel_columns] [] [] []
    (mkFleet [mkServer "srv_1" "org" "web-1" false 1 no_columns] ∅ [] ∅) no_vault no_backups no_estate.

Definition demo_rand (n : nat) : string := match n with 0%nat => "00" | 1%nat => "01" | _ => "0f" end.

Definition demo_cp (reqs : list request_row) : cp := mkCp (demo_tables reqs) 1000 [] demo_rand 0 (mkMemory ∅ []).

(** The control plane some microseconds later. *)
Definition later (us : Z) (d : cp) : cp := mkCp (cp_tables d) (cp_now d + us) (cp_faults d) (cp_rand d) (cp_drawn d) (cp_memory d).

Definition after (o : op) (d : cp) : cp := (run_op o d).2.

(** One push, drained. *)
Definition pushed : cp := Eval vm_compute in after OpDrain (demo_cp [demo_req "dr_1" "5f2c9d1"]).
Definition built : cp := Eval vm_compute in after (OpAdvance "srv_1" "res_1" "build" true "" 0) pushed.
Definition shipped_cp : cp := Eval vm_compute in after (OpAdvance "srv_1" "res_1" "rollout" true "" 0) built.

Definition statuses (d : cp) : list string := map dp_status (deployments (cp_tables d)).

Example pipeline_demo :
  statuses pushed = ["queued"] /\ statuses built = ["deploying"] /\ statuses shipped_cp = ["success"] /\
  map dp_image_digest (deployments (cp_tables shipped_cp)) = [Some "sigmahub/res_1:5f2c9d1-00"].
Proof. vm_compute. done. Qed.

Lemma pushed_run : rtc history_step (demo_cp [demo_req "dr_1" "5f2c9d1"]) shipped_cp.
Proof.
  eapply rtc_l; [eapply (step_op OpDrain _ (run_op OpDrain (demo_cp [demo_req "dr_1" "5f2c9d1"])).1 pushed)|].
  - split_and!; [intros x []%not_elem_of_nil|intros r ->%list_elem_of_singleton; done|].
    intros _. unfold calm. apply (bool_decide_unpack _). vm_compute. done.
  - vm_compute. done.
  - eapply rtc_l; [eapply (step_op (OpAdvance "srv_1" "res_1" "build" true "" 0) _ (Ok tt) built)|];
      [done|vm_compute; done|].
    apply rtc_once. eapply (step_op (OpAdvance "srv_1" "res_1" "rollout" true "" 0) _ (Ok tt) shipped_cp);
      [done|vm_compute; done].
Qed.

Lemma pushed_inv : db_inv pushed.
Proof.
  eapply (run_inv (demo_cp [demo_req "dr_1" "5f2c9d1"])); [|by apply empty_inv].
  apply rtc_once. eapply (step_op OpDrain _ (run_op OpDrain (demo_cp [demo_req "dr_1" "5f2c9d1"])).1 pushed).
  - split_and!; [intros x []%not_elem_of_nil|intros r ->%list_elem_of_singleton; done|].
    intros _. unfold calm. apply (bool_decide_unpack _). vm_compute. done.
  - vm_compute. done.
Qed.

Definition demo0 : cp := demo_cp [demo_req "dr_1" "5f2c9d1"].
Definition pushed_row : deployment := Eval vm_compute in default (mkDeployment (mkRelease "" "" "" None None None "" None None "" None 0 None "" None 0)
  "" "" None None None None None ∅ 0) (head (deployments (cp_tables pushed))).


Theorem one_in_flight_witness : 0%nat = 0%nat \/ (in_flight pushed_row = false /\ (dp_created_at pushed_row < dp_created_at pushed_row)%Z).
Proof.
  apply (one_in_flight demo0 pushed 0 0 pushed_row pushed_row).
  - apply rtc_once. eapply (step_op OpDrain _ (run_op OpDrain demo0).1 pushed).
    + split; [intros x H; destruct (not_elem_of_nil _ H)|]. split.
      * intros r H. apply list_elem_of_singleton in H. subst r. discriminate.
      * intros _. unfold calm. apply (bool_decide_unpack _). vm_compute. exact I.
    + vm_compute. reflexivity.
  - reflexivity.
  - vm_compute. reflexivity.
  - vm_compute. reflexivity.
  - vm_compute. reflexivity.
  - reflexivity.
Defined.

Lemma pushed_resources x : x ∈ deployments (cp_tables pushed) -> is_Some (res_by_id (cp_tables pushed) (dp_resource x)).
Proof.
  assert (H : forallb (fun x => bool_decide (is_Some (res_by_id (cp_tables pushed) (dp_resource x))))
    (deployments (cp_tables pushed)) = true) by (vm_compute; reflexivity).
  intros Hx%list_elem_of_In. rewrite forallb_forall in H. exact (bool_decide_eq_true_1 _ (H x Hx)).
Qed.

Theorem TimeoutStaleDeployments_witness :
  exists n d', TimeoutStaleDeployments 2000000 (later 5000 pushed) = (Ok n, d') /\ n = 1%Z.
Proof.
  destruct (TimeoutStaleDeployments_spec 2000000 (later 5000 pushed)) as (n & d' & E & En & _).
  - reflexivity.
  - exact (proj1 pushed_inv).
  - reflexivity.
  - exact pushed_resources.
  - exists n, d'. split; [exact E|]. rewrite En. vm_compute. reflexivity.
Defined.

Theorem reports_in_any_order_witness :
  exists d1 d2 x1 x2,
    report_all "srv_1" "res_1" 0 ["clone"; "build"; "rollout"] pushed = (Ok tt, d1) /\
    report_all "srv_1" "res_1" 0 ["rollout"; "build"; "clone"] pushed = (Ok tt, d2) /\
    dep_by_id (cp_tables d1) (dp_id pushed_row) = Some x1 /\ dep_by_id (cp_tables d2) (dp_id pushed_row) = Some x2 /\
    dp_status x1 = dp_status x2.
Proof.
  destruct (reports_in_any_order "srv_1" "res_1" 0 ["clone"; "build"; "rollout"] ["rollout"; "build"; "clone"]
    pushed pushed_row) as (d1 & d2 & x1 & x2 & E1 & E2 & H1 & H2 & H3 & _).
  - reflexivity.
  - exact (proj1 pushed_inv).
  - vm_compute. reflexivity.
  - reflexivity.
  - intros p H. exact H.
  - apply (Permutation_rev ["clone"; "build"; "rollout"]).
  - exists d1, d2, x1, x2. split_and!; assumption.
Defined.

Definition shipped_row : deployment := Eval vm_compute in default pushed_row (head (deployments (cp_tables shipped_cp))).

Lemma shipped_inv : db_inv shipped_cp.
Proof. eapply (run_inv demo0 shipped_cp pushed_run). by apply empty_inv. Qed.

Theorem rollback_targets_accepted_witness :
  exists d' new, CreateRollback "org" "res_1" (dp_id shipped_row) "ops" (later 9 shipped_cp) = (Ok ("dep_01", "srv_1"), d') /\
    rl_rollback_of (dp_release new) = Some (dp_id shipped_row).
Proof.
  destruct (rollback_targets_accepted "org" "res_1" 0 "ops" (later 9 shipped_cp) [shipped_row] shipped_row
    (mkResource "res_1" "org" "prj_1" (Some "env_1") (Some "srv_1") None "app" "web" (JObj [])))
    as (d' & new & E & _ & _ & _ & H & _).
  - reflexivity.
  - exact (proj1 shipped_inv).
  - discriminate.
  - vm_compute. reflexivity.
  - left.
  - vm_compute. reflexivity.
  - reflexivity.
  - vm_compute. reflexivity.
  - exists d', new. split; [exact E|exact H].
Defined.

Definition built_row : deployment := Eval vm_compute in default pushed_row (head (deployments (cp_tables built))).

Theorem report_scope_witness : holds_part (cp_tables pushed) "srv_1" pushed_row.
Proof.
  destruct (report_scope "srv_1" (OpAdvance "srv_1" "res_1" "build" true "" 0) pushed (Ok tt) built) as [H _].
  - exact (proj1 pushed_inv).
  - reflexivity.
  - vm_compute. reflexivity.
  - destruct (H 0%nat pushed_row built_row) as [E|E]; [reflexivity|reflexivity|discriminate E|exact E].
Defined.

Definition pushed_target : DeployTarget := mkTarget pushed_row "prj_1" "github" "org/web".

Theorem rendered_may_report_witness : is_Some (reportable "srv_1" "res_1" (cp_tables pushed)).
Proof.
  apply (rendered_may_report "srv_1" "res_1" pushed {["res_1" := pushed_target]} pushed pushed_target).
  - vm_compute. reflexivity.
  - vm_compute. reflexivity.
  - vm_compute. reflexivity.
Defined.

(** ** Three schedules *)

(** Two pushes to one environment, drained in one pass, get one [created_at].
    A config change may then take the superseded one for the newest, and a
    second deployment of the resource is in flight: [calm] is needed. *)
Lemma double_push :
  statuses (after (OpConfig "org" ["res_1"] "ops" "secret change")
    (later 1 (after OpDrain (demo_cp [demo_req "dr_1" "5f2c9d1"; demo_req "dr_2" "77aa001"]))))
  = ["superseded"; "queued"; "queued"].
Proof. vm_compute. reflexivity. Qed.

(** [AdvanceDeploymentForResource] compares ranks before it opens the
    transaction that sets the status.  A clone report that read [queued] and
    is overtaken by a build report takes the deployment back. *)
Lemma overtaken_report :
  let clone := advance_update "res_1" pushed_row "building" in
  statuses (SetDeploymentStatus (dp_id pushed_row) clone built).2 = ["building"] /\
  statuses built = ["deploying"].
Proof. vm_compute. split; reflexivity. Qed.

(** [CreateConfigDeployments] takes no lock.  A redeploy that commits between
    its look at the newest deployment and its insert leaves two in flight. *)
Lemma config_overtaken :
  let redeployed := after (OpRedeploy "org" "res_1" "ops") (later 9 shipped_cp) in
  statuses (insert_config "org" "res_1" "ops" "dep_ff" "" 0 shipped_row (shipped_by shipped_row) redeployed).2
  = ["success"; "queued"; "queued"].
Proof. vm_compute. reflexivity. Qed.

(** Three schedules break the promise that one deployment is in flight and
    moves only forward: two pushes drained together followed by a config
    change, a clone report overtaken by a build report, and a config change
    overtaken by a redeploy. *)
Theorem broken_schedules :
  length (List.filter in_flight (deployments (cp_tables
    (after (OpConfig "org" ["res_1"] "ops" "secret change")
      (later 1 (after OpDrain (demo_cp [demo_req "dr_1" "5f2c9d1"; demo_req "dr_2" "77aa001"]))))))) = 2%nat /\
  (let clone := advance_update "res_1" pushed_row "building" in
   statuses built = ["deploying"] /\ statuses (SetDeploymentStatus (dp_id pushed_row) clone built).2 = ["building"]) /\
  length (List.filter in_flight (deployments (cp_tables
    (insert_config "org" "res_1" "ops" "dep_ff" "" 0 shipped_row (shipped_by shipped_row)
      (after (OpRedeploy "org" "res_1" "ops") (later 9 shipped_cp))).2))) = 2%nat.
Proof. vm_compute. split_and!; reflexivity. Qed.
