(* ===== verification/Render.v ===== *)
(** * Rendering a resource into container ops

    Models [cp/internal/reconciler/container.go], [database.go], [llm.go],
    [s3.go] and [traefik.go]: the user's spec, the op payloads the control plane
    sends, and the ops of an app that runs a registry image, of a database, of
    an inference endpoint and of an object store.  A resource's [spec] is the
    JSON value its text parses to, as in [Json]; [ok = false] is [None]. *)

From Stdlib Require Import SpecFloat.
From S2P Require Import Prelude GoStrings Json Dsd Spec Naming Engines.

Local Open Scope string_scope.
#[local] Arguments String.append !_ _ / : simpl nomatch.

(** ** Op kinds the agent's container component does not handle *)

Definition KindAgentUpdate := "agent.update".
Definition KindAgentUninstall := "agent.uninstall".
Definition KindHostNftables := "host.nftables".
Definition KindHostSSHD := "host.sshd".
Definition KindHostCIS := "host.cis".
Definition KindGitClone := "git.clone".
Definition KindImageBuild := "image.build".
Definition KindBackupRun := "backup.run".
Definition KindBackupVerify := "backup.verify".
Definition KindBackupRestore := "backup.restore".
Definition KindBackupBase := "backup.base".
Definition KindBackupRestorePITR := "backup.restore-pitr".
Definition KindS3Configure := "s3.configure".
Definition KindK8sNode := "k8s.node".
Definition KindK8sApply := "k8s.apply".
Definition KindK8sRemove := "k8s.remove".

(** ** What the store hands over *)

Record ResourceSpec := mkResourceSpec {
  rr_ResourceID : string;
  rr_ProjectID : string;
  rr_Kind : string;
  rr_Spec : json;
  rr_Ephemeral : bool;
  rr_ClusterID : string;
  rr_PublicHost : string;
}.

Record SecretRefMeta := mkRefMeta { sm_Name : string; sm_EnvVar : bool }.

(** A [Domain], by the columns rendering reads *)
Record Domain := mkDomain { dm_Domain : string; dm_ChallengeType : string }.

Record DBTarget := mkDBTarget {
  db_Engine : string; db_Username : string; db_Database : string;
  db_Port : Z; db_ServerType : string; db_PITR : bool;
}.
Record S3Target := mkS3Target {
  st_Engine : string; st_AccessKey : string; st_Port : Z; st_ServerType : string;
}.
Record LLMTarget := mkLLMTarget {
  lt_Engine : string; lt_Model : string; lt_Port : Z; lt_WeightsToken : bool; lt_ContextTokens : Z;
}.

(** ** The user's spec *)

Record app_port := mkAppPort { ap_Container : Z; ap_Host : Z; ap_Protocol : string }.

Record buildConfigSpec := mkBuildConfig { bc_Method : string; bc_Dockerfile : string; bc_ContextSubdir : string }.

Record composeServiceSpec := mkComposeService {
  cv_Name : string;
  cv_Build : string;
  cv_Dockerfile : string;
  cv_Image : string;
  cv_Ports : list Z;
  cv_Rollout : string;
  cv_DependsOn : list string;
  cv_ServerID : string;
  cv_Env : gmap string string;
}.

Record appResourceSpec := mkApp {
  as_Image : string;
  as_Env : gmap string string;
  as_Ports : list app_port;
  as_Volumes : list VolumeMount;
  as_Command : list string;
  as_User : string;
  as_ReadOnlyRootfs : bool;
  as_Tmpfs : list string;
  as_CPUs : spec_float;
  as_MemoryMB : Z;
  as_Restart : string;
  as_Compose : option (list composeServiceSpec);
  as_Build : option buildConfigSpec;
}.

(** A field of pointer type: absent and null are nil. *)
Definition dec_ptr {A} (d : list (string * json) -> option A) (o : option json) : option (option A) :=
  match o with
  | None | Some JNull => Some None
  | Some v => Some <$> dec_struct d v
  end.

Definition dec_int_elem (v : json) : option Z := dec_int (Some v).

Definition dec_app_port : json -> option app_port := dec_struct (fun fs =>
  c ← dec_int (jget fs "container"); h ← dec_int (jget fs "host"); p ← dec_str (jget fs "protocol");
  Some (mkAppPort c h p)).

Definition dec_build_config (fs : list (string * json)) : option buildConfigSpec :=
  m ← dec_str (jget fs "method"); d ← dec_str (jget fs "dockerfile"); c ← dec_str (jget fs "contextSubdir");
  Some (mkBuildConfig m d c).

Definition dec_compose_service (fs : list (string * json)) : option composeServiceSpec :=
  name ← dec_str (jget fs "name"); build ← dec_str (jget fs "build");
  dockerfile ← dec_str (jget fs "dockerfile"); image ← dec_str (jget fs "image");
  ports ← dec_list dec_int_elem (jget fs "ports"); rollout ← dec_str (jget fs "rollout");
  deps ← dec_list dec_elem_str (jget fs "dependsOn"); server ← dec_str (jget fs "serverId");
  env ← dec_map (jget fs "env");
  Some (mkComposeService name build dockerfile image ports rollout deps server env).

Definition dec_services (fs : list (string * json)) : option (list composeServiceSpec) :=
  dec_list (dec_struct dec_compose_service) (jget fs "services").

(** [json.Unmarshal(rs.Spec, &spec)] *)
Definition dec_app : json -> option appResourceSpec := dec_struct (fun fs =>
  image ← dec_str (jget fs "image"); env ← dec_map (jget fs "env");
  ports ← dec_list dec_app_port (jget fs "ports"); volumes ← dec_list dec_volume (jget fs "volumes");
  command ← dec_list dec_elem_str (jget fs "command"); user ← dec_str (jget fs "user");
  ro ← dec_bool (jget fs "readOnlyRootfs"); tmpfs ← dec_list dec_elem_str (jget fs "tmpfs");
  cpus ← dec_float (jget fs "cpus"); mem ← dec_int (jget fs "memoryMb");
  restart ← dec_str (jget fs "restart"); compose ← dec_ptr dec_services (jget fs "compose");
  build ← dec_ptr dec_build_config (jget fs "build");
  Some (mkApp image env ports volumes command user ro tmpfs cpus mem restart compose build)).

(** ** Op payloads *)

Record containerOpSpec := mkContainerOp {
  co_ResourceID : string;
  co_Service : string;
  co_Name : string;
  co_Image : string;
  co_Network : string;
  co_NetworkAliases : list string;
  co_Env : gmap string string;
  co_Ports : list PortMapping;
  co_Volumes : list VolumeMount;
  co_Command : list string;
  co_User : string;
  co_ReadOnlyRootfs : bool;
  co_Tmpfs : list string;
  co_CPUs : spec_float;
  co_MemoryMB : Z;
  co_Restart : string;
  co_SecretRefs : list SecretRef;
  co_Labels : gmap string string;
  co_GPUs : Z;
  co_ShmSizeMB : Z;
}.

Definition enc_container_op (s : containerOpSpec) : json := JStruct
  [("resourceId", keep (JStr (co_ResourceID s))); ("service", omit_str (co_Service s));
   ("name", keep (JStr (co_Name s))); ("image", keep (JStr (co_Image s)));
   ("network", keep (JStr (co_Network s)));
   ("networkAliases", omit_list JStr (co_NetworkAliases s));
   ("env", omit_map (co_Env s)); ("ports", omit_list enc_port (co_Ports s));
   ("volumes", omit_list enc_volume (co_Volumes s)); ("command", omit_list JStr (co_Command s));
   ("user", omit_str (co_User s)); ("readOnlyRootfs", omit_bool (co_ReadOnlyRootfs s));
   ("tmpfs", omit_list JStr (co_Tmpfs s)); ("cpus", omit_float (co_CPUs s));
   ("memoryMb", omit_int (co_MemoryMB s)); ("restart", omit_str (co_Restart s));
   ("secretRefs", omit_list enc_secret_ref (co_SecretRefs s)); ("labels", omit_map (co_Labels s));
   ("gpus", omit_int (co_GPUs s)); ("shmSizeMb", omit_int (co_ShmSizeMB s))].

(** [json.Marshal] of a [map[string]string] *)
Definition enc_strings (l : list (string * string)) : json := enc_map (list_to_map l).

Definition secretsMountDir := "/run/secrets".

Definition noFloat : spec_float := S754_zero false.

(** ** Router labels *)

Record ACMEConfig := mkACME { ac_Email : string; ac_CADirURL : string }.

Definition traefikCertResolver := "le".

Record blueGreenRouting := mkBlueGreen { bg_Generation : string; bg_Priority : Z }.
Definition noBlueGreen : blueGreenRouting := mkBlueGreen "" 0.

Definition routerEpoch : Z := 1577836800.
Definition routerPriorityBase : Z := 2 ^ 30.

(** [createdAt] in microseconds, [None] for the zero [time.Time] *)
Definition generationRouterPriority (createdAt : option Z) : Z :=
  match createdAt with
  | None => routerPriorityBase
  | Some us =>
      let p := routerPriorityBase - (us / 1000000 - routerEpoch) in
      if p <? 1 then 1 else if routerPriorityBase <? p then routerPriorityBase else p
  end%Z.

Definition host_rule (h : string) : string := "Host(`" +:+ h +:+ "`)".

Definition traefikLabels (resourceID : string) (domains : list Domain) (publicHost : string) (port : Z)
    (bg : blueGreenRouting) : gmap string string :=
  if (length domains =? 0)%nat && String.eqb publicHost "" then ∅
  else
    let hosts := sort_strings (map (fun d => host_rule (dm_Domain d)) domains ++
                   (if String.eqb publicHost "" then [] else [host_rule publicHost]))%list in
    let router := TraefikGenerationRouterName resourceID (bg_Generation bg) in
    let labels := list_to_map [
      ("traefik.enable", "true");
      ("traefik.http.routers." +:+ router +:+ ".rule", join_with " || " hosts);
      ("traefik.http.routers." +:+ router +:+ ".entrypoints", "websecure");
      ("traefik.http.routers." +:+ router +:+ ".tls", "true");
      ("traefik.http.routers." +:+ router +:+ ".tls.certresolver", traefikCertResolver)] in
    let labels := if negb (String.eqb (bg_Generation bg) "") && (0 <? bg_Priority bg)%Z
                  then <["traefik.http.routers." +:+ router +:+ ".priority" := dec (bg_Priority bg)]> labels
                  else labels in
    if (0 <? port)%Z
    then <["traefik.http.routers." +:+ router +:+ ".service" := router]>
           (<["traefik.http.services." +:+ router +:+ ".loadbalancer.server.port" := dec port]> labels)
    else labels.

Definition traefikHealthLabels (svc : string) (h : HealthProbe) : gmap string string :=
  if negb (String.eqb (hp_Type h) "http") || String.eqb (hp_Path h) "" then ∅
  else
    let prefix := "traefik.http.services." +:+ svc +:+ ".loadbalancer.healthcheck." in
    let interval := if (hp_IntervalSec h <=? 0)%Z then 3%Z else hp_IntervalSec h in
    let labels := list_to_map [(prefix +:+ "path", hp_Path h); (prefix +:+ "interval", dec interval +:+ "s")] in
    if (0 <? hp_Port h)%Z then <[prefix +:+ "port" := dec (hp_Port h)]> labels else labels.

(** [for _, d := range domains { if d.ChallengeType != "tls-alpn" ... }] *)
Definition allTLSALPN (domains : list Domain) : bool :=
  forallb (fun d => String.eqb (dm_ChallengeType d) "tls-alpn") domains.

Definition renderTraefikOp (serverID : string) (cfg : ACMEConfig) (domains : list Domain) : Op :=
  let challenge := if negb (length domains =? 0)%nat && allTLSALPN domains then "tls-alpn" else "http" in
  mkOp ("proxy:traefik:" +:+ serverID) KindProxyTraefik []
    (JStruct [("serverId", keep (JStr serverID)); ("certResolver", keep (JStr traefikCertResolver));
              ("challengeType", keep (JStr challenge)); ("acmeEmail", omit_str (ac_Email cfg));
              ("acmeCaDirUrl", omit_str (ac_CADirURL cfg))]).

(** ** Parts the renderers share *)

Definition network_id (rs : ResourceSpec) : string := "net:" +:+ rr_ProjectID rs.
Definition volume_id (resourceID name : string) : string := "vol:" +:+ resourceID +:+ ":" +:+ name.

Definition image_pull (id image : string) : Op := mkOp id KindImagePull [] (enc_strings [("image", image)]).

Definition volume_ensure (resourceID name : string) : Op :=
  mkOp (volume_id resourceID name) KindVolumeEnsure []
    (enc_strings [("name", VolumeName resourceID name); ("resourceId", resourceID)]).

(** [for _, v := range spec.Volumes { if v.Name == "" { continue } ... }] *)
Definition named_volumes (spec : appResourceSpec) : list VolumeMount :=
  List.filter (fun v => negb (String.eqb (vm_Name v) "")) (as_Volumes spec).

Definition mounted (resourceID : string) (v : VolumeMount) : VolumeMount :=
  mkVolumeMount (VolumeName resourceID (vm_Name v)) (vm_MountPath v) (vm_ReadOnly v).

Definition secret_refs (refs : list SecretRefMeta) : list SecretRef :=
  map (fun r => mkSecretRef (sm_Name r) (sm_EnvVar r)) refs.

(** [fileMode] *)
Definition file_mode (refs : list SecretRefMeta) : bool := existsb (fun r => negb (sm_EnvVar r)) refs.

(** The container port of the first declared port, 0 without one *)
Definition primary_port (spec : appResourceSpec) : Z :=
  match as_Ports spec with p :: _ => ap_Container p | [] => 0 end.

Definition routable (rs : ResourceSpec) (domains : list Domain) : bool :=
  negb (length domains =? 0)%nat || negb (String.eqb (rr_PublicHost rs) "").

(** ** An app that runs a registry image *)

Definition app_container (rs : ResourceSpec) (spec : appResourceSpec) (refs : list SecretRefMeta)
    (domains : list Domain) : containerOpSpec := {|
  co_ResourceID := rr_ResourceID rs;
  co_Service := "";
  co_Name := ContainerName (rr_ResourceID rs);
  co_Image := as_Image spec;
  co_Network := NetworkName (rr_ProjectID rs);
  co_NetworkAliases := [];
  co_Env := as_Env spec;
  co_Ports := map (fun p => mkPortMapping (ap_Container p) (ap_Host p) (ap_Protocol p) "") (as_Ports spec);
  co_Volumes := map (mounted (rr_ResourceID rs)) (named_volumes spec);
  co_Command := as_Command spec;
  co_User := as_User spec;
  co_ReadOnlyRootfs := as_ReadOnlyRootfs spec;
  co_Tmpfs := if file_mode refs && negb (existsb (String.eqb secretsMountDir) (as_Tmpfs spec))
              then (as_Tmpfs spec ++ [secretsMountDir])%list else as_Tmpfs spec;
  co_CPUs := as_CPUs spec;
  co_MemoryMB := as_MemoryMB spec;
  co_Restart := as_Restart spec;
  co_SecretRefs := secret_refs refs;
  co_Labels := if routable rs domains
               then traefikLabels (rr_ResourceID rs) domains (rr_PublicHost rs) (primary_port spec) noBlueGreen
               else ∅;
  co_GPUs := 0;
  co_ShmSizeMB := 0;
|}.

Definition renderAppOps (rs : ResourceSpec) (refs : list SecretRefMeta) (domains : list Domain)
    : option (list Op * string) :=
  spec ← dec_app (rr_Spec rs);
  if String.eqb (as_Image spec) "" then None
  else
    let rid := rr_ResourceID rs in
    let imageID := "img:" +:+ rid in
    let vols := map vm_Name (named_volumes spec) in
    Some (([image_pull imageID (as_Image spec)] ++ map (volume_ensure rid) vols ++
           [mkOp ("res:" +:+ rid) KindContainerApply ([network_id rs; imageID] ++ map (volume_id rid) vols)
              (enc_container_op (app_container rs spec refs domains))])%list, network_id rs).

Definition renderVolumeRemoveOp (id target : string) : Op :=
  mkOp ("volrm:" +:+ id) KindVolumeRemove [] (enc_strings [("name", target)]).

(** ** A database *)

Definition env_refs (names : list string) : list SecretRef := map (fun n => mkSecretRef n true) names.

Definition wal_spool := "/var/lib/postgresql/wal-archive".

(** The flags that make postgres archive its segments into the spool. *)
Definition wal_flags : list string :=
  ["-c"; "wal_level=replica"; "-c"; "archive_mode=on"; "-c"; "archive_timeout=300"; "-c";
   "archive_command=test ! -f " +:+ wal_spool +:+ "/%f && cp %p " +:+ wal_spool +:+ "/%f.tmp && mv " +:+
   wal_spool +:+ "/%f.tmp " +:+ wal_spool +:+ "/%f"].

(** What a managed engine's container and its ops have in common. *)
Definition mesh_container (rs : ResourceSpec) (image : string) (env : gmap string string)
    (containerPort port : Z) (meshIP : string) (volumes : list VolumeMount) (command : list string)
    (refs : list SecretRef) (gpus shm : Z) : containerOpSpec :=
  mkContainerOp (rr_ResourceID rs) "" (ContainerName (rr_ResourceID rs)) image (NetworkName (rr_ProjectID rs)) [] env
    [mkPortMapping containerPort port "" meshIP] volumes command "" false [] noFloat 0 "" refs ∅ gpus shm.

Definition engine_ops (rs : ResourceSpec) (image : string) (vols : list string) (cs : containerOpSpec)
    : list Op * string :=
  let rid := rr_ResourceID rs in
  let imageID := "img:" +:+ rid in
  (([image_pull imageID image] ++ map (volume_ensure rid) vols ++
    [mkOp ("res:" +:+ rid) KindContainerApply ([network_id rs; imageID] ++ map (volume_id rid) vols)
       (enc_container_op cs)])%list, network_id rs).

Definition renderDatabaseOps (rs : ResourceSpec) (target : DBTarget) (meshIP : string)
    : option (list Op * string) :=
  def ← DBEngine (rr_Kind rs);
  if String.eqb meshIP "" || (db_Port target =? 0)%Z then None
  else
    let rid := rr_ResourceID rs in
    let wal := db_PITR target && String.eqb (rr_Kind rs) "postgres" in
    let cs := mesh_container rs (de_Image def) (db_PlainEnv def (db_Username target) (db_Database target))
      (de_ContainerPort def) (db_Port target) meshIP
      ([mkVolumeMount (VolumeName rid "data") (de_DataMount def) false] ++
       (if wal then [mkVolumeMount (VolumeName rid "wal") wal_spool false] else []))%list
      (TunedCommand def (db_ServerType target) ++ (if wal then wal_flags else []))%list
      (env_refs (de_SecretEnvNames def)) 0 0 in
    Some (engine_ops rs (de_Image def) (["data"] ++ (if wal then ["wal"] else []))%list cs).

(** ** An inference endpoint *)

Record llmResourceSpec := mkLLMSpec { ll_Engine : string; ll_Model : string; ll_GPUs : Z; ll_Env : gmap string string }.

Definition dec_llm : json -> option llmResourceSpec := dec_struct (fun fs =>
  e ← dec_str (jget fs "engine"); m ← dec_str (jget fs "model"); g ← dec_int (jget fs "gpus");
  v ← dec_map (jget fs "env"); Some (mkLLMSpec e m g v)).

Definition llmShmSizeMB : Z := 8192.

Definition gpuRequest (n : Z) : Z := if (n <=? 0)%Z then -1 else n.

Definition hasSecretRef (refs : list SecretRefMeta) (name : string) : bool :=
  existsb (fun r => String.eqb (sm_Name r) name) refs.

(** The runtime's own credentials, without what cannot or need not be answered *)
Definition runtime_refs (def : LLMEngineDef) (target : LLMTarget) (refs : list SecretRefMeta) : list string :=
  List.filter (fun name => negb (String.eqb name HubTokenSecretName && negb (lt_WeightsToken target)) &&
                           negb (hasSecretRef refs name)) (le_SecretEnvNames def).

Definition renderLLMOps (rs : ResourceSpec) (target : LLMTarget) (meshIP : string) (refs : list SecretRefMeta)
    : option (list Op * string) :=
  if String.eqb meshIP "" || (lt_Port target =? 0)%Z then None
  else
    spec ← dec_llm (rr_Spec rs);
    def ← LLMEngine (if String.eqb (ll_Engine spec) "" then DefaultLLMEngine else ll_Engine spec);
    let cs := mesh_container rs (le_Image def) (ll_Env spec ∪ llm_PlainEnv def (ll_Model spec))
      (le_ContainerPort def) (lt_Port target) meshIP
      [mkVolumeMount (VolumeName (rr_ResourceID rs) "models") (le_ModelCacheMount def) false]
      (llm_Command def (ll_Model spec) (lt_ContextTokens target))
      (env_refs (runtime_refs def target refs) ++ secret_refs refs)%list
      (gpuRequest (ll_GPUs spec)) llmShmSizeMB in
    Some (engine_ops rs (le_Image def) ["models"] cs).

(** ** An object store *)

Definition renderS3Ops (rs : ResourceSpec) (target : S3Target) (meshIP : string) : option (list Op * string) :=
  def ← S3EngineByName (st_Engine target);
  if String.eqb meshIP "" || (st_Port target =? 0)%Z then None
  else
    let cs := mesh_container rs (se_Image def) (s3_PlainEnv def (st_AccessKey target))
      (se_APIPort def) (st_Port target) meshIP
      [mkVolumeMount (VolumeName (rr_ResourceID rs) "data") (se_DataMount def) false]
      (s3_Command def) (env_refs (se_SecretEnvNames def)) 0 0 in
    Some (engine_ops rs (se_Image def) ["data"] cs).
