(* ===== verification/RenderDeploy.v ===== *)
(** * Rendering a git deployment

    Models [cp/internal/reconciler/deploy.go]: the pipeline of an app built from
    a repository (clone, build, rollout), on one server or split between a build
    server and the deploy target, of a single container or of a Compose service
    graph placed over several servers.  [DeployTarget] is what the store's query
    ([Deploy.DeployTargetsForServer]) hands over. *)

From S2P Require Import Prelude GoStrings Json Dsd Spec Naming CpDb Deploy Engines Render.

Local Open Scope string_scope.
#[local] Arguments String.append !_ _ / : simpl nomatch.

(** ** The target of a deployment *)

Record Target := mkTargetOf {
  tg_DeploymentID : string;
  tg_ResourceID : string;
  tg_ProjectID : string;
  tg_ConnectionID : string;
  tg_Provider : string;
  tg_RepoFullName : string;
  tg_Ref : string;
  tg_SHA : string;
  tg_ConfigHash : string;
  tg_ImageDigest : string;
  tg_ImagePin : string;
  tg_Trigger : string;
  tg_Status : string;
  tg_CreatedAt : option Z;
  tg_ServiceStatus : gmap string string;
  tg_ServerID : string;
  tg_BuildServerID : string;
}.

(** The zero value: what a map gives for an absent key. *)
Definition no_target : Target := mkTargetOf "" "" "" "" "" "" "" "" "" "" "" "" "" None ∅ "" "".

(** [rows.Scan] and the NULLs behind it *)
Definition scan_target (x : DeployTarget) : Target :=
  let d := dt_deployment x in
  let r := dp_release d in
  mkTargetOf (rl_id r) (rl_resource r) (dt_ProjectID x) (deref (rl_connection r)) (dt_Provider x) (dt_RepoFullName x)
    (deref (rl_git_ref r)) (deref (rl_git_sha r)) (deref (rl_config_hash r)) (deref (dp_image_digest d))
    (rl_image_pin r) (rl_trigger r) (dp_status d) (Some (dp_created_at d)) (dp_service_status d)
    (deref (rl_server r)) (deref (rl_build_server r)).

Definition manualForce (target : Target) : bool :=
  if negb (String.eqb (tg_Trigger target) "manual") then false
  else existsb (String.eqb (tg_Status target)) ["queued"; "building"; "deploying"].

(** The builder, the Dockerfile and the context *)
Definition buildConfig (b : option buildConfigSpec) : string * string * string :=
  match b with
  | None => ("", "", "")
  | Some b =>
      (if negb (String.eqb (bc_Method b) "") && negb (String.eqb (bc_Method b) "dockerfile")
       then bc_Method b else "", bc_Dockerfile b, bc_ContextSubdir b)
  end.

Record registryRender := mkRegistry { rg_repository : string; rg_host : string }.

Definition crossHostRegistryHost (crossHost : bool) (registry : registryRender) : string :=
  if negb crossHost then "" else rg_host registry.

(** ** Payloads *)

Definition enc_git_clone (rid : string) (t : Target) : json := JStruct
  [("resourceId", keep (JStr rid)); ("provider", keep (JStr (tg_Provider t)));
   ("repoFullName", keep (JStr (tg_RepoFullName t))); ("ref", keep (JStr (tg_Ref t)));
   ("sha", keep (JStr (tg_SHA t))); ("credentialRef", omit_str (tg_DeploymentID t))].

Definition enc_image_pull (image registryHost : string) : json := JStruct
  [("image", keep (JStr image)); ("registryHost", omit_str registryHost)].

Record buildImageOpSpec := mkBuildOp {
  bo_ResourceID : string; bo_SHA : string; bo_DedupKey : string; bo_Dockerfile : string;
  bo_ContextSubdir : string; bo_ImageTag : string; bo_Builder : string; bo_DeploymentID : string;
  bo_Force : bool; bo_PushImage : bool; bo_RegistryHost : string;
}.

Definition enc_build (b : buildImageOpSpec) : json := JStruct
  [("resourceId", keep (JStr (bo_ResourceID b))); ("sha", keep (JStr (bo_SHA b)));
   ("dedupKey", keep (JStr (bo_DedupKey b))); ("dockerfile", omit_str (bo_Dockerfile b));
   ("contextSubdir", omit_str (bo_ContextSubdir b)); ("imageTag", keep (JStr (bo_ImageTag b)));
   ("builder", omit_str (bo_Builder b)); ("deploymentId", omit_str (bo_DeploymentID b));
   ("force", omit_bool (bo_Force b)); ("pushImage", omit_bool (bo_PushImage b));
   ("registryHost", omit_str (bo_RegistryHost b))].

Definition enc_rollout_op (cs : containerOpSpec) (generation : string) (health : HealthProbe) (deploymentID : string) : json :=
  JStruct [("container", keep (enc_container_op cs)); ("generation", keep (JStr generation));
           ("health", keep (enc_probe health)); ("deploymentId", omit_str deploymentID)].

(** ** Generations and retained images *)

Definition imageShortSHA (sha : string) : string := if (8 <? String.length sha)%nat then stake 8 sha else sha.

Definition deployGeneration (sha deploymentID : string) : string :=
  let suffix := DeployPin deploymentID in
  if String.eqb suffix "" then imageShortSHA sha else imageShortSHA sha +:+ "-" +:+ suffix.

Definition reshipsRetainedImage (target : Target) (requirePin : bool) : bool :=
  if negb (String.eqb (tg_Trigger target) "rollback") && negb (String.eqb (tg_Trigger target) "config") then false
  else if requirePin then negb (String.eqb (tg_ImagePin target) "")
  else negb (String.eqb (tg_ImagePin target) "") || negb (String.eqb (tg_ImageDigest target) "").

(** [spec.Compose != nil && len(spec.Compose.Services) > 0] *)
Definition compose_services (spec : appResourceSpec) : option (list composeServiceSpec) :=
  match as_Compose spec with
  | Some (s :: svcs) => Some (s :: svcs)
  | _ => None
  end.

(** [placedOn] *)
Definition placed_on (home : string) (s : composeServiceSpec) : string :=
  if String.eqb (cv_ServerID s) "" then home else cv_ServerID s.

Definition retainedContainerGroups (rs : ResourceSpec) (target : Target) (serverID : string) : list string :=
  if negb (String.eqb (rr_Kind rs) "app") then []
  else match dec_app (rr_Spec rs) with
       | None => []
       | Some spec =>
           match compose_services spec with
           | Some svcs =>
               sort_strings (map cv_Name (List.filter (fun s =>
                 String.eqb (placed_on (tg_ServerID target) s) serverID) svcs))
           | None =>
               let bs := tg_BuildServerID target in
               if negb (String.eqb bs "") && negb (String.eqb bs (tg_ServerID target)) && String.eqb serverID bs
               then [] else [""]
           end
       end.

(** ** Health probes *)

Definition composeServiceHealth (s : composeServiceSpec) : HealthProbe :=
  match cv_Ports s with
  | [] => mkHealthProbe "none" "" 0 3 120
  | p :: _ => mkHealthProbe "tcp" "" p 3 120
  end.

Record detectedHealth := mkDetected { dh_Type : string; dh_Path : string; dh_Port : Z; dh_IntervalSec : Z }.

(** [_ = json.Unmarshal(raw, &wrap)]: a field that does not fit stays zero. *)
Definition dec_detected (raw : json) : detectedHealth :=
  let fs := match jfield raw "healthCheck" with Some (JObj fs) => fs | _ => [] end in
  mkDetected (default "" (dec_str (jget fs "type"))) (default "" (dec_str (jget fs "path")))
    (default 0%Z (dec_int (jget fs "port"))) (default 0%Z (dec_int (jget fs "intervalSec"))).

Definition deployHealth (spec : appResourceSpec) (raw : json) : HealthProbe :=
  let h := dec_detected raw in
  let primary := primary_port spec in
  let out :=
    if String.eqb (dh_Type h) "http" && negb (String.eqb (dh_Path h) "") then
      mkHealthProbe "http" (dh_Path h) (if (0 <? dh_Port h)%Z then dh_Port h else primary) 3 120
    else if String.eqb (dh_Type h) "tcp" && (0 <? dh_Port h)%Z then
      mkHealthProbe "tcp" "" (dh_Port h) 3 120
    else mkHealthProbe "tcp" "" primary 3 120 in
  if String.eqb (hp_Type out) "tcp" && (hp_Port out =? 0)%Z
  then mkHealthProbe "none" (hp_Path out) (hp_Port out) (hp_IntervalSec out) (hp_TimeoutSec out)
  else out.

(** ** Compose service graphs *)

Definition mergeEnv (base override : gmap string string) : gmap string string :=
  if decide (override = ∅) then base else override ∪ base.

Definition gitRolloutRecreate := "recreate".

Definition validComposeServices (l : list composeServiceSpec) : list composeServiceSpec :=
  List.filter (fun s => negb (String.eqb (cv_Name s) "") &&
    (negb (String.eqb (cv_Build s) "") || negb (String.eqb (cv_Image s) ""))) l.

Definition has_ports (s : composeServiceSpec) : bool := match cv_Ports s with [] => false | _ => true end.
Definition builds (s : composeServiceSpec) : bool := negb (String.eqb (cv_Build s) "").
Definition recreates (s : composeServiceSpec) : bool := String.eqb (cv_Rollout s) gitRolloutRecreate.

(** The web-facing service: the first that is built, blue-green and has a port,
    else the first with a port. *)
Definition web_service (services : list composeServiceSpec) : string :=
  match List.find (fun s => has_ports s && builds s && negb (recreates s)) services with
  | Some s => cv_Name s
  | None => match List.find has_ports services with Some s => cv_Name s | None => "" end
  end.

Definition named (n : string) (l : list composeServiceSpec) : bool := existsb (fun s => String.eqb (cv_Name s) n) l.

(** A dependency that must be awaited across documents *)
Definition gates (services local : list composeServiceSpec) (status : gmap string string) (d : string) : bool :=
  if negb (named d services) || named d local then false
  else negb (String.eqb (label status d) "success").

(** The services of this server that may render now. *)
Definition renderable_services (services : list composeServiceSpec) (target : Target) (serverID : string)
    : list composeServiceSpec * list composeServiceSpec :=
  let local := List.filter (fun s => String.eqb (placed_on (tg_ServerID target) s) serverID) services in
  (local, List.filter (fun s => negb (existsb (gates services local (tg_ServiceStatus target)) (cv_DependsOn s))) local).

Section compose.
Context (rs : ResourceSpec) (spec : appResourceSpec) (refs : list SecretRefMeta) (domains : list Domain)
  (target : Target) (webSvc : string) (local : list composeServiceSpec).

Let rid : string := rr_ResourceID rs.
Let networkID : string := "net:res:" +:+ rid.
Let gen : string := deployGeneration (tg_SHA target) (tg_DeploymentID target).
Let reship : bool := reshipsRetainedImage target true.

Definition compose_labels (s : composeServiceSpec) : gmap string string :=
  if String.eqb (cv_Name s) webSvc && routable rs domains then
    traefikHealthLabels (TraefikGenerationRouterName rid gen) (composeServiceHealth s) ∪
    traefikLabels rid domains (rr_PublicHost rs) (match cv_Ports s with p :: _ => p | [] => 0 end)
      (mkBlueGreen gen (generationRouterPriority (tg_CreatedAt target)))
  else ∅.

Definition compose_image (s : composeServiceSpec) : string :=
  if builds s then PinnedServiceImageTag rid (cv_Name s) (tg_SHA target) (tg_ImagePin target) else cv_Image s.

Definition compose_container (s : composeServiceSpec) : containerOpSpec := {|
  co_ResourceID := rid;
  co_Service := cv_Name s;
  co_Name := ServiceContainerName rid (cv_Name s);
  co_Image := compose_image s;
  co_Network := ResourceNetworkName rid;
  co_NetworkAliases := [cv_Name s];
  co_Env := mergeEnv (as_Env spec) (cv_Env s);
  co_Ports := map (fun p => mkPortMapping p 0 "" "") (cv_Ports s);
  co_Volumes := [];
  co_Command := [];
  co_User := "";
  co_ReadOnlyRootfs := false;
  co_Tmpfs := if file_mode refs then [secretsMountDir] else [];
  co_CPUs := noFloat;
  co_MemoryMB := 0;
  co_Restart := as_Restart spec;
  co_SecretRefs := secret_refs refs;
  co_Labels := compose_labels s;
  co_GPUs := 0;
  co_ShmSizeMB := 0;
|}.

Definition service_key (s : composeServiceSpec) : string := rid +:+ ":" +:+ cv_Name s.

Definition compose_build (s : composeServiceSpec) : Op :=
  mkOp ("build:" +:+ service_key s) KindImageBuild ["clone:" +:+ rid]
    (enc_build (mkBuildOp rid (tg_SHA target)
      (tg_ConfigHash target +:+ ":" +:+ cv_Name s +:+ ":" +:+ tg_SHA target) (cv_Dockerfile s) (cv_Build s)
      (compose_image s) "" (tg_DeploymentID target) (manualForce target) false "")).

(** The op that provides the image, when there is one *)
Definition compose_source (s : composeServiceSpec) : list Op :=
  if builds s then if reship then [] else [compose_build s]
  else if negb (String.eqb (cv_Image s) "") then [image_pull ("pull:" +:+ service_key s) (cv_Image s)]
  else [].

Definition compose_service_ops (s : composeServiceSpec) : list Op :=
  (compose_source s ++
   [mkOp ("res:" +:+ service_key s) (if recreates s then KindDeployRecreate else KindDeployRollout)
      ([networkID] ++ map op_ID (compose_source s) ++
       map (fun d => "res:" +:+ rid +:+ ":" +:+ d) (List.filter (fun d => named d local) (cv_DependsOn s)))
      (enc_rollout_op (compose_container s) gen (composeServiceHealth s) (tg_DeploymentID target))])%list.

Definition compose_ops (renderable : list composeServiceSpec) : list Op :=
  ((if negb reship && existsb builds renderable
    then [mkOp ("clone:" +:+ rid) KindGitClone [] (enc_git_clone rid target)] else []) ++
   concat (map compose_service_ops renderable))%list.
End compose.

Definition renderComposeDeployOps (rs : ResourceSpec) (spec : appResourceSpec) (svcs : list composeServiceSpec)
    (refs : list SecretRefMeta) (domains : list Domain) (target : Target) (serverID : string)
    : option (list Op * string) :=
  let services := validComposeServices svcs in
  let '(local, renderable) := renderable_services services target serverID in
  match renderable with
  | [] => None
  | _ => Some (compose_ops rs spec refs domains target (web_service services) local renderable,
               "net:res:" +:+ rr_ResourceID rs)
  end.

(** ** A single container *)

Section deploy.
Context (rs : ResourceSpec) (spec : appResourceSpec) (refs : list SecretRefMeta) (domains : list Domain)
  (target : Target) (serverID : string) (registry : registryRender).

Let rid : string := rr_ResourceID rs.

(** The build and the run happen on different Docker daemons. *)
Definition cross_host : bool :=
  negb (String.eqb (tg_BuildServerID target) "") && negb (String.eqb (tg_BuildServerID target) (tg_ServerID target)).

Definition deploy_image : string :=
  let tag := PinnedImageTag rid (tg_SHA target) (tg_ImagePin target) in
  if cross_host then QualifyImage (rg_repository registry) tag else tag.

Definition deploy_generation : string := deployGeneration (tg_SHA target) (tg_DeploymentID target).
Definition deploy_probe : HealthProbe := deployHealth spec (rr_Spec rs).

Definition deploy_labels : gmap string string :=
  if routable rs domains then
    traefikHealthLabels (TraefikGenerationRouterName rid deploy_generation) deploy_probe ∪
    traefikLabels rid domains (rr_PublicHost rs) (primary_port spec)
      (mkBlueGreen deploy_generation (generationRouterPriority (tg_CreatedAt target)))
  else ∅.

Definition deploy_container : containerOpSpec := {|
  co_ResourceID := rid;
  co_Service := "";
  co_Name := ContainerName rid;
  co_Image := deploy_image;
  co_Network := NetworkName (rr_ProjectID rs);
  co_NetworkAliases := [];
  co_Env := as_Env spec;
  co_Ports := map (fun p => mkPortMapping (ap_Container p) 0 "" "") (as_Ports spec);
  co_Volumes := map (mounted rid) (named_volumes spec);
  co_Command := as_Command spec;
  co_User := as_User spec;
  co_ReadOnlyRootfs := as_ReadOnlyRootfs spec;
  co_Tmpfs := (as_Tmpfs spec ++ if file_mode refs then [secretsMountDir] else [])%list;
  co_CPUs := as_CPUs spec;
  co_MemoryMB := as_MemoryMB spec;
  co_Restart := as_Restart spec;
  co_SecretRefs := secret_refs refs;
  co_Labels := deploy_labels;
  co_GPUs := 0;
  co_ShmSizeMB := 0;
|}.

Definition clone_op : Op := mkOp ("clone:" +:+ rid) KindGitClone [] (enc_git_clone rid target).

Definition build_op : Op :=
  let '(builder, dockerfile, contextSubdir) := buildConfig (as_Build spec) in
  mkOp ("build:" +:+ rid) KindImageBuild ["clone:" +:+ rid]
    (enc_build (mkBuildOp rid (tg_SHA target) (tg_ConfigHash target +:+ ":" +:+ tg_SHA target) dockerfile
      contextSubdir deploy_image builder (tg_DeploymentID target) (manualForce target) cross_host
      (crossHostRegistryHost cross_host registry))).

Definition pull_op : Op :=
  mkOp ("pull:" +:+ rid) KindImagePull [] (enc_image_pull deploy_image (rg_host registry)).

(** The rollout; an app that holds volumes is recreated instead. *)
Definition rollout_op (deps : list string) : Op :=
  mkOp ("res:" +:+ rid)
    (if (0 <? length (named_volumes spec))%nat then KindDeployRecreate else KindDeployRollout)
    ((network_id rs :: map (fun v => volume_id rid (vm_Name v)) (named_volumes spec)) ++ deps)%list
    (enc_rollout_op deploy_container deploy_generation deploy_probe (tg_DeploymentID target)).

Definition volume_ops : list Op := map (fun v => volume_ensure rid (vm_Name v)) (named_volumes spec).

Definition render_single : option (list Op * string) :=
  if cross_host && String.eqb (rg_repository registry) "" then None
  else if reshipsRetainedImage target false then
    if cross_host then
      if String.eqb serverID (tg_BuildServerID target) then None
      else Some ((volume_ops ++ [pull_op; rollout_op [op_ID pull_op]])%list, network_id rs)
    else Some ((volume_ops ++ [rollout_op []])%list, network_id rs)
  else if cross_host then
    if String.eqb serverID (tg_BuildServerID target) then Some ([clone_op; build_op], "")
    else if String.eqb (tg_Status target) "queued" || String.eqb (tg_Status target) "building" then None
    else Some ((volume_ops ++ [pull_op; rollout_op [op_ID pull_op]])%list, network_id rs)
  else Some ((volume_ops ++ [clone_op; build_op; rollout_op [op_ID build_op]])%list, network_id rs).
End deploy.

Definition renderDeployOps (rs : ResourceSpec) (refs : list SecretRefMeta) (domains : list Domain)
    (target : Target) (serverID : string) (registry : registryRender) : option (list Op * string) :=
  spec ← dec_app (rr_Spec rs);
  match compose_services spec with
  | Some svcs => renderComposeDeployOps rs spec svcs refs domains target serverID
  | None => render_single rs spec refs domains target serverID registry
  end.
