(* ===== verification/RenderCluster.v ===== *)
(** * Rendering for a cluster

    Models [cp/internal/reconciler/k8s.go]: the op that joins a node, the
    workloads of a resource that deploys into a cluster (rendered for the
    control-plane node only), and the builds their images come from (rendered
    for the build server).  Kubernetes itself is not modelled. *)

From Stdlib Require Import Ascii.
From S2P Require Import Prelude GoStrings Json Dsd Spec Naming CpDb Deploy Engines Render RenderDeploy.

Local Open Scope string_scope.
#[local] Arguments String.append !_ _ / : simpl nomatch.

Definition NodeRoleControlPlane := "control-plane".

Record ClusterMembership := mkMembership {
  cm_ClusterID : string;
  cm_Name : string;
  cm_Role : string;
  cm_JoinToken : string;
  cm_APIEndpoint : string;
  cm_ControlPlaneMeshIP : string;
}.

(** ** The node *)

Definition enc_node (m : ClusterMembership) (serverURL meshIP : string) : json := JStruct
  [("clusterId", keep (JStr (cm_ClusterID m))); ("name", keep (JStr (cm_Name m)));
   ("role", keep (JStr (cm_Role m))); ("joinToken", keep (JStr (cm_JoinToken m)));
   ("serverUrl", omit_str serverURL); ("advertiseIp", keep (JStr meshIP))].

Definition node_op (m : ClusterMembership) (serverURL meshIP : string) : Op :=
  mkOp ("k8s:node:" +:+ cm_ClusterID m) KindK8sNode [] (enc_node m serverURL meshIP).

Definition renderClusterNodeOp (m : ClusterMembership) (meshIP : string) : option Op :=
  if String.eqb meshIP "" || String.eqb (cm_JoinToken m) "" then None
  else if negb (String.eqb (cm_Role m) NodeRoleControlPlane) then
    if String.eqb (cm_ControlPlaneMeshIP m) "" then None
    else Some (node_op m ("https://" +:+ cm_ControlPlaneMeshIP m +:+ ":6443") meshIP)
  else Some (node_op m "" meshIP).

(** ** Workloads *)

Record k8sApplyOpSpec := mkK8sApply {
  ka_ResourceID : string; ka_Service : string; ka_Name : string; ka_Namespace : string;
  ka_Image : string; ka_Replicas : Z; ka_Ports : list Z; ka_Env : gmap string string;
  ka_SecretRefs : list SecretRef; ka_Hosts : list string; ka_DeploymentID : string;
  ka_RegistryHost : string; ka_Workloads : list string;
}.

Definition enc_k8s_apply (a : k8sApplyOpSpec) : json := JStruct
  [("resourceId", keep (JStr (ka_ResourceID a))); ("service", omit_str (ka_Service a));
   ("name", keep (JStr (ka_Name a))); ("namespace", keep (JStr (ka_Namespace a)));
   ("image", keep (JStr (ka_Image a))); ("replicas", keep (JInt (ka_Replicas a)));
   ("ports", omit_list JInt (ka_Ports a)); ("env", omit_map (ka_Env a));
   ("secretRefs", omit_list enc_secret_ref (ka_SecretRefs a)); ("hosts", omit_list JStr (ka_Hosts a));
   ("deploymentId", omit_str (ka_DeploymentID a)); ("registryHost", omit_str (ka_RegistryHost a));
   ("workloads", omit_list JStr (ka_Workloads a))].

Definition defaultClusterReplicas : Z := 1.

(** Whether the images can be pulled: now, later ([gated]) or never *)
Definition clusterImageReady (target : Target) (repository : string) (reship : bool) : bool * bool :=
  if String.eqb (tg_DeploymentID target) "" then (true, false)
  else if reship then (true, false)
  else if String.eqb repository "" || String.eqb (tg_BuildServerID target) "" then (false, false)
  else if String.eqb (tg_Status target) "queued" || String.eqb (tg_Status target) "building" then (false, true)
  else (true, false).

(** [strings.Split(s, ",")] *)
Fixpoint split_at (c : ascii) (s : string) : list string :=
  match s with
  | EmptyString => [""]
  | String b s =>
      if Ascii.eqb b c then "" :: split_at c s
      else match split_at c s with
           | x :: xs => String b x :: xs
           | [] => [String b ""]
           end
  end.

Definition renderK8sRemoveOp (id target : string) : Op :=
  let names := List.filter (fun n => negb (String.eqb n "")) (map trim_space (split_at ","%char target)) in
  mkOp ("k8srm:" +:+ id) KindK8sRemove []
    (JStruct [("workloads", keep (match names with [] => JNull | _ => JArr (map JStr names) end))]).

Section workload.
Context (rs : ResourceSpec) (spec : appResourceSpec) (refs : list SecretRefMeta) (hosts : list string)
  (target : Target) (namespace : string) (nodeDeps : list string) (repository registryHost : string).

Let rid : string := rr_ResourceID rs.

(** A workload of one service, or of the app itself *)
Definition cluster_image (s : composeServiceSpec) : string :=
  if builds s
  then QualifyImage repository (PinnedServiceImageTag rid (cv_Name s) (tg_SHA target) (tg_ImagePin target))
  else cv_Image s.

(** Services whose own build has reported *)
Definition cluster_renderable (reship : bool) (services : list composeServiceSpec) : list composeServiceSpec :=
  List.filter (fun s => negb (builds s) || reship ||
    existsb (String.eqb (label (tg_ServiceStatus target) (cv_Name s))) ["deploying"; "success"]) services.

Definition cluster_service_op (names : list string) (webSvc : string) (rendering : list composeServiceSpec)
    (s : composeServiceSpec) : option Op :=
  if String.eqb (cluster_image s) "" then None
  else Some (mkOp ("res:" +:+ rid +:+ ":" +:+ cv_Name s) KindK8sApply
    (nodeDeps ++ map (fun d => "res:" +:+ rid +:+ ":" +:+ d)
      (List.filter (fun d => named d rendering && negb (String.eqb d (cv_Name s))) (cv_DependsOn s)))%list
    (enc_k8s_apply (mkK8sApply rid (cv_Name s) (K8sWorkloadName rid (cv_Name s)) namespace (cluster_image s)
      defaultClusterReplicas (cv_Ports s) (mergeEnv (as_Env spec) (cv_Env s)) (secret_refs refs)
      (if String.eqb (cv_Name s) webSvc then hosts else []) (tg_DeploymentID target)
      (if builds s then registryHost else "") names))).

Definition renderClusterComposeOps (svcs : list composeServiceSpec) : option (list Op) :=
  let services := validComposeServices svcs in
  let reship := reshipsRetainedImage target true in
  if (length services =? 0)%nat then None
  else if existsb builds services && negb (clusterImageReady target repository reship).1 then None
  else
    let names := map (fun s => K8sWorkloadName rid (cv_Name s)) services in
    if existsb (String.eqb "") names then None
    else
      let renderable := cluster_renderable reship services in
      match omap (cluster_service_op (sort_strings names) (web_service services) renderable) renderable with
      | [] => None
      | ops => Some ops
      end.
End workload.

Definition renderClusterWorkloadOps (rs : ResourceSpec) (refs : list SecretRefMeta) (domains : list Domain)
    (target : Target) (m : ClusterMembership) (nodeOpID repository registryHost : string) : option (list Op) :=
  if negb (String.eqb (cm_Role m) NodeRoleControlPlane) then None
  else
    spec ← dec_app (rr_Spec rs);
    let rid := rr_ResourceID rs in
    let namespace := K8sNamespace (rr_ProjectID rs) in
    let hosts := map dm_Domain domains in
    let deps := if String.eqb nodeOpID "" then [] else [nodeOpID] in
    if String.eqb namespace "" then None
    else
      match compose_services spec with
      | Some svcs => renderClusterComposeOps rs spec refs hosts target namespace deps repository registryHost svcs
      | None =>
          if negb (clusterImageReady target repository (reshipsRetainedImage target false)).1 then None
          else
            let name := K8sWorkloadName rid "" in
            let deployed := negb (String.eqb (tg_DeploymentID target) "") in
            let image := if deployed
                         then QualifyImage repository (PinnedImageTag rid (tg_SHA target) (tg_ImagePin target))
                         else as_Image spec in
            if String.eqb name "" || String.eqb image "" then None
            else Some [mkOp ("res:" +:+ rid) KindK8sApply deps
              (enc_k8s_apply (mkK8sApply rid "" name namespace image defaultClusterReplicas
                (List.filter (fun p => 0 <? p)%Z (map ap_Container (as_Ports spec))) (as_Env spec)
                (secret_refs refs) hosts (if deployed then tg_DeploymentID target else "")
                (if deployed then registryHost else "") [name]))]
      end.

(** ** Builds for cluster workloads, on the build server *)

Section cluster_builds.
Context (rs : ResourceSpec) (spec : appResourceSpec) (target : Target) (repository : string).

Let rid : string := rr_ResourceID rs.

Definition cluster_build_op (s : composeServiceSpec) : Op :=
  mkOp ("build:" +:+ rid +:+ ":" +:+ cv_Name s) KindImageBuild ["clone:" +:+ rid]
    (enc_build (mkBuildOp rid (tg_SHA target)
      (tg_ConfigHash target +:+ ":" +:+ cv_Name s +:+ ":" +:+ tg_SHA target) (cv_Dockerfile s) (cv_Build s)
      (QualifyImage repository (PinnedServiceImageTag rid (cv_Name s) (tg_SHA target) (tg_ImagePin target)))
      "" (tg_DeploymentID target) (manualForce target) true "")).

Definition cluster_single_build : Op :=
  let '(builder, dockerfile, contextSubdir) := buildConfig (as_Build spec) in
  mkOp ("build:" +:+ rid) KindImageBuild ["clone:" +:+ rid]
    (enc_build (mkBuildOp rid (tg_SHA target) (tg_ConfigHash target +:+ ":" +:+ tg_SHA target) dockerfile
      contextSubdir (QualifyImage repository (PinnedImageTag rid (tg_SHA target) (tg_ImagePin target)))
      builder (tg_DeploymentID target) (manualForce target) true "")).
End cluster_builds.

Definition renderClusterBuildOps (rs : ResourceSpec) (target : Target) (repository : string) : option (list Op) :=
  if String.eqb (tg_DeploymentID target) "" || String.eqb repository "" then None
  else
    spec ← dec_app (rr_Spec rs);
    let isCompose := match compose_services spec with Some _ => true | None => false end in
    if reshipsRetainedImage target isCompose then None
    else
      match compose_services spec with
      | None => Some [clone_op rs target; cluster_single_build rs spec target repository]
      | Some svcs =>
          match List.filter builds (validComposeServices svcs) with
          | [] => None
          | l => Some (clone_op rs target :: map (cluster_build_op rs target repository) l)
          end
      end.
