(* ===== verification/CpDsd.v ===== *)
(** * Signed documents on the control plane

    Models [cp/internal/dsd/dsd.go]: the JSON of a document, its signature and
    the digest by which the reconciler tells whether anything changed.  The
    types and [TopoOrder] are those of the agent ([Dsd]).  [json.Marshal]'s text
    and [crypto/ed25519] are parameters. *)

From S2P Require Import Prelude GoStrings Json Dsd Spec.

Local Open Scope string_scope.

(** ** Documents as JSON *)

Definition enc_op (op : Op) : json := JStruct
  [("id", keep (JStr (op_ID op))); ("kind", keep (JStr (op_Kind op)));
   ("dependsOn", omit_list JStr (op_DependsOn op)); ("spec", keep (op_Spec op))].

Definition enc_document (doc : Document) : json := JStruct
  [("version", keep (JInt (doc_Version doc))); ("orgId", keep (JStr (doc_OrgID doc)));
   ("serverId", keep (JStr (doc_ServerID doc))); ("ops", keep (JArr (map enc_op (doc_Ops doc))))].

(** A [json.RawMessage] takes whatever value stands there. *)
Definition dec_op : json -> option Op := dec_struct (fun fs =>
  id ← dec_str (jget fs "id"); kind ← dec_str (jget fs "kind");
  deps ← dec_list dec_elem_str (jget fs "dependsOn");
  Some (mkOp id kind deps (default JNull (jget fs "spec")))).

Definition dec_document : json -> option Document := dec_struct (fun fs =>
  v ← dec_int (jget fs "version"); org ← dec_str (jget fs "orgId"); srv ← dec_str (jget fs "serverId");
  ops ← dec_list dec_op (jget fs "ops"); Some (mkDocument v org srv ops)).

Lemma dec_enc_op op : dec_op (enc_op op) = Some op.
Proof.
  unfold dec_op, enc_op, JStruct, dec_struct. eval_fields. rewrite !dec_keep_str. cbn [mbind option_bind].
  rewrite (dec_omit_list JStr dec_elem_str) by done. by destruct op.
Qed.

Lemma dec_enc_document doc : in_int64 (doc_Version doc) -> dec_document (enc_document doc) = Some doc.
Proof.
  intros Hv. unfold dec_document, enc_document, JStruct, dec_struct. eval_fields.
  rewrite !dec_keep_str, dec_keep_int by done. cbn [mbind option_bind].
  rewrite (dec_keep_list enc_op dec_op) by (intros; apply dec_enc_op). by destruct doc.
Qed.

(** ** Signatures *)

(** [json.Marshal]'s text and [crypto/ed25519]; a signature of a key verifies
    under its public half. *)
Class Signatures := {
  json_text : json -> string;
  ed25519_sign : string -> string -> string;
  ed25519_verify : string -> string -> string -> bool;
  ed25519_public : string -> string;
  ed25519_sound priv msg : ed25519_verify (ed25519_public priv) msg (ed25519_sign priv msg) = true;
}.

Section sign.
Context {sg : Signatures}.

Definition canonical (doc : Document) : string := json_text (enc_document doc).

Definition Sign (priv : string) (doc : Document) : string := ed25519_sign priv (canonical doc).

Definition cp_Verify (pub : string) (s : Signed) : res unit :=
  if ed25519_verify pub (canonical (sg_Document s)) (sg_Signature s) then Ok tt
  else Err "dsd: signature verification failed".

(** The agent checks with the pinned key what the control plane signed. *)
Lemma agent_verifies (b64_decode : string -> option string) priv pub64 doc :
  b64_decode pub64 = Some (ed25519_public priv) -> String.length (ed25519_public priv) = PublicKeySize ->
  Verify canonical b64_decode ed25519_verify pub64 (mkSigned doc (Sign priv doc)) = Ok tt.
Proof.
  intros Hb Hl. unfold Verify, Sign. rewrite Hb, Hl, Nat.eqb_refl. cbn [negb sg_Document sg_Signature].
  by rewrite ed25519_sound.
Qed.
End sign.

(** [SpecHash] of a document's ops *)
Definition ops_hash `{Digest} (ops : list Op) : string := digest (JArr (map enc_op ops)).
