(* ===== verification/RenderDoc.v ===== *)
(** * Rendering a server's document

    Models the rendering half of [cp/internal/reconciler/reconciler.go] with
    [host.go], [backup.go] and [s3_configure.go]: [renderOps] puts the ops of
    every resource, the host, the proxy, the backups, the object-store requests
    and the confirmed removals into one list. *)

From Stdlib Require Import Ascii.
From S2P Require Import Prelude GoStrings Json Dsd Spec Naming CpDb Deploy Engines Render RenderDeploy RenderCluster CpDsd.

Local Open Scope string_scope.
#[local] Arguments String.append !_ _ / : simpl nomatch.

(** ** What is rendered from *)

Record PortException := mkPortException { pe_Port : Z; pe_Proto : string }.

Record HostHardening := mkHardening {
  hh_MeshIP : string;
  hh_MeshInterface : string;
  hh_ProxyRole : bool;
  hh_KeepPublicSSH : bool;
  hh_CISEnabled : bool;
  hh_ExtraPorts : list PortException;
  hh_AgentVersion : string;
  hh_DesiredAgentVersion : string;
  hh_Decommissioning : bool;
  hh_PurgeVolumes : bool;
}.

Record BackupRunSpec := mkBackupRun {
  br_RunID : string;
  br_Kind : string;
  br_ResourceID : string;
  br_Engine : string;
  br_Database : string;
  br_Username : string;
  br_KeepDaily : Z;
  br_KeepWeekly : Z;
  br_KeepMonthly : Z;
  br_ExpectedSha : string;
  br_SnapshotID : string;
  br_RestoreResourceID : string;
  br_RestoreDatabase : string;
  br_RestoreUsername : string;
  br_RecoveryTargetTime : option Z;    (* seconds since 1970 *)
}.

Record S3OpSpec := mkS3Op {
  so_OpID : string; so_ResourceID : string; so_Engine : string; so_Container : string;
  so_Endpoint : string; so_Action : string; so_Bucket : string; so_AccessKey : string; so_QuotaBytes : Z;
}.

Record PendingDestructiveOp := mkPending { po_ID : string; po_OpKind : string; po_Target : string }.

Record clusterRender := mkCluster {
  cr_member : bool;
  cr_membership : ClusterMembership;
  cr_workloads : list ResourceSpec;
  cr_builds : list ResourceSpec;
}.

(** The arguments of [renderOps] *)
Record RenderInput := mkInput {
  in_serverID : string;
  in_specs : list ResourceSpec;
  in_pending : list PendingDestructiveOp;
  in_secretRefs : gmap string (list SecretRefMeta);
  in_hardening : HostHardening;
  in_domains : gmap string (list Domain);
  in_deployTargets : gmap string Target;
  in_dbTargets : gmap string DBTarget;
  in_s3Targets : gmap string S3Target;
  in_llmTargets : gmap string LLMTarget;
  in_backupRuns : list BackupRunSpec;
  in_s3Ops : list S3OpSpec;
  in_acme : ACMEConfig;
  in_cluster : clusterRender;
  in_registry : registryRender;
  in_publicURL : string;
}.

(** ** The host *)

Definition extra_port (p : PortException) : json :=
  JObj [("port", JInt (pe_Port p)); ("proto", JStr (if String.eqb (pe_Proto p) "udp" then "udp" else "tcp"))].

Definition update_spec (hh : HostHardening) (publicURL : string) : json :=
  let base := trim_right (is_byte "/"%char) publicURL in
  enc_strings (("version", hh_DesiredAgentVersion hh) ::
    (if String.eqb base "" then [] else [("downloadBase", base +:+ "/dl/" +:+ hh_DesiredAgentVersion hh)])).

(** The keys of a [map[string]any] are written in order. *)
Definition renderHostOps (serverID : string) (hh : HostHardening) (publicURL : string) : list Op :=
  ([mkOp ("host:nftables:" +:+ serverID) KindHostNftables []
      (JObj [("allowPublicSSH", JBool (hh_KeepPublicSSH hh));
             ("extraPorts", JArr (map extra_port (hh_ExtraPorts hh)));
             ("meshInterface", JStr (hh_MeshInterface hh)); ("proxyRole", JBool (hh_ProxyRole hh))]);
    mkOp ("host:sshd:" +:+ serverID) KindHostSSHD []
      (JObj [("listenMeshOnly", JBool (negb (hh_KeepPublicSSH hh))); ("meshIp", JStr (hh_MeshIP hh))])] ++
   (if hh_CISEnabled hh
    then [mkOp ("host:cis:" +:+ serverID) KindHostCIS [] (JObj [("level", JInt 1)])] else []) ++
   (if negb (String.eqb (hh_DesiredAgentVersion hh) "") &&
       negb (String.eqb (hh_DesiredAgentVersion hh) (hh_AgentVersion hh))
    then [mkOp ("agent:update:" +:+ serverID +:+ ":" +:+ hh_DesiredAgentVersion hh) KindAgentUpdate []
            (update_spec hh publicURL)] else []))%list.

Definition UninstallOpID (serverID : string) : string := "agent:uninstall:" +:+ serverID.

Definition renderUninstallOps (serverID : string) (hh : HostHardening) : list Op :=
  [mkOp (UninstallOpID serverID) KindAgentUninstall []
     (JObj [("meshInterface", JStr (hh_MeshInterface hh)); ("purgeVolumes", JBool (hh_PurgeVolumes hh));
            ("serverId", JStr serverID)])].

(** ** Backups *)

(** [t.UTC().Format(time.RFC3339)]: the civil date of a day number, counted in
    400-year eras from the first of March. *)
Definition civil (days : Z) : Z * Z * Z :=
  (let z := days + 719468 in
  let era := z / 146097 in
  let doe := z mod 146097 in
  let yoe := (doe - doe / 1460 + doe / 36524 - doe / 146096) / 365 in
  let doy := doe - (365 * yoe + yoe / 4 - yoe / 100) in
  let mp := (5 * doy + 2) / 153 in
  let d := doy - (153 * mp + 2) / 5 + 1 in
  let m := if mp <? 10 then mp + 3 else mp - 9 in
  (yoe + era * 400 + (if m <=? 2 then 1 else 0), m, d))%Z.

Definition rfc3339 (seconds : Z) : string :=
  let '(y, m, d) := civil (seconds / 86400) in
  let s := (seconds mod 86400)%Z in
  dec_pad 4 y +:+ "-" +:+ dec_pad 2 m +:+ "-" +:+ dec_pad 2 d +:+ "T" +:+ dec_pad 2 (s / 3600) +:+ ":" +:+
  dec_pad 2 (s / 60 mod 60) +:+ ":" +:+ dec_pad 2 (s mod 60) +:+ "Z".

Record backupOpSpec := mkBackupOp {
  bk_RunID : string; bk_ResourceID : string; bk_Container : string; bk_Engine : string; bk_Image : string;
  bk_Database : string; bk_Username : string; bk_Keep : Z * Z * Z; bk_ExpectedSha : string;
  bk_SnapshotID : string; bk_TargetContainer : string; bk_TargetDatabase : string; bk_TargetUsername : string;
  bk_RecoveryTargetTime : string;
}.

Definition enc_backup (b : backupOpSpec) : json :=
  let '(daily, weekly, monthly) := bk_Keep b in
  JStruct [("runId", keep (JStr (bk_RunID b))); ("resourceId", keep (JStr (bk_ResourceID b)));
    ("container", keep (JStr (bk_Container b))); ("engine", keep (JStr (bk_Engine b)));
    ("image", keep (JStr (bk_Image b))); ("database", omit_str (bk_Database b));
    ("username", omit_str (bk_Username b)); ("keepDaily", omit_int daily); ("keepWeekly", omit_int weekly);
    ("keepMonthly", omit_int monthly); ("expectedSha", omit_str (bk_ExpectedSha b));
    ("snapshotId", omit_str (bk_SnapshotID b)); ("targetContainer", omit_str (bk_TargetContainer b));
    ("targetDatabase", omit_str (bk_TargetDatabase b)); ("targetUsername", omit_str (bk_TargetUsername b));
    ("recoveryTargetTime", omit_str (bk_RecoveryTargetTime b))].

(** [backupOp]: the last backup run of each resource *)
Definition backup_op_of (runs : list BackupRunSpec) : gmap string string :=
  fold_left (fun m r => if String.eqb (br_Kind r) "backup" then <[br_ResourceID r := "bkr:" +:+ br_RunID r]> m else m)
    runs ∅.

Section backup.
Context (backupOp : gmap string string) (rendered : list string).

(** The container op of a resource, when this document renders it *)
Definition on_container (resourceID : string) : list string :=
  if existsb (String.eqb ("res:" +:+ resourceID)) rendered then ["res:" +:+ resourceID] else [].

Definition backup_payload (r : BackupRunSpec) (def : DBEngineDef) (keeps : Z * Z * Z) (sha snapshot : string)
    (restores : bool) (recovery : string) : json :=
  enc_backup (mkBackupOp (br_RunID r) (br_ResourceID r) (ContainerName (br_ResourceID r)) (br_Engine r)
    (de_Image def) (br_Database r) (br_Username r) keeps sha snapshot
    (if restores then ContainerName (br_RestoreResourceID r) else "")
    (if restores then br_RestoreDatabase r else "") (if restores then br_RestoreUsername r else "") recovery).

Definition backup_op (r : BackupRunSpec) : option Op :=
  def ← DBEngine (br_Engine r);
  let op kind deps spec := Some (mkOp ("bkr:" +:+ br_RunID r) kind deps spec) in
  let keeps := (br_KeepDaily r, br_KeepWeekly r, br_KeepMonthly r) in
  if String.eqb (br_Kind r) "backup" then
    op KindBackupRun (on_container (br_ResourceID r)) (backup_payload r def keeps "" "" false "")
  else if String.eqb (br_Kind r) "basebackup" then
    op KindBackupBase (on_container (br_ResourceID r)) (backup_payload r def keeps "" "" false "")
  else if String.eqb (br_Kind r) "verify" then
    if String.eqb (br_ExpectedSha r) "" then None
    else op KindBackupVerify (match backupOp !! br_ResourceID r with Some dep => [dep] | None => [] end)
           (backup_payload r def (0, 0, 0)%Z (br_ExpectedSha r) "" false "")
  else if String.eqb (br_Kind r) "restore" then
    op KindBackupRestore (on_container (br_RestoreResourceID r))
      (backup_payload r def (0, 0, 0)%Z (br_ExpectedSha r) (br_SnapshotID r) true "")
  else if String.eqb (br_Kind r) "restore-pitr" then
    match br_RecoveryTargetTime r with
    | None => None
    | Some t => op KindBackupRestorePITR (on_container (br_RestoreResourceID r))
                  (backup_payload r def (0, 0, 0)%Z "" "" true (rfc3339 t))
    end
  else None.
End backup.

Definition renderBackupOps (runs : list BackupRunSpec) (rendered : list string) : list Op :=
  omap (backup_op (backup_op_of runs) rendered) runs.

(** ** Object-store requests and confirmed removals *)

Definition enc_s3_configure (o : S3OpSpec) : json := JStruct
  [("opId", keep (JStr (so_OpID o))); ("resourceId", keep (JStr (so_ResourceID o)));
   ("engine", keep (JStr (so_Engine o))); ("container", keep (JStr (so_Container o)));
   ("endpoint", keep (JStr (so_Endpoint o))); ("action", keep (JStr (so_Action o)));
   ("bucket", keep (JStr (so_Bucket o))); ("accessKey", keep (JStr (so_AccessKey o)));
   ("quotaBytes", keep (JInt (so_QuotaBytes o)))].

Definition renderS3ConfigureOps (ops : list S3OpSpec) (rendered : list string) : list Op :=
  map (fun o => mkOp ("s3cfg:" +:+ so_OpID o) KindS3Configure (on_container rendered (so_ResourceID o))
                  (enc_s3_configure o)) ops.

Definition pending_op (p : PendingDestructiveOp) : Op :=
  if String.eqb (po_OpKind p) KindK8sRemove then renderK8sRemoveOp (po_ID p) (po_Target p)
  else renderVolumeRemoveOp (po_ID p) (po_Target p).

(** ** The document *)

Section render.
Context (i : RenderInput).

(** A nil slice for an absent key *)
Definition refs_of (rid : string) : list SecretRefMeta := default [] (in_secretRefs i !! rid).
Definition domains_of (rid : string) : list Domain := default [] (in_domains i !! rid).
Definition target_of (rid : string) : Target := default no_target (in_deployTargets i !! rid).

Definition render_node : option Op :=
  if cr_member (in_cluster i) then renderClusterNodeOp (cr_membership (in_cluster i)) (hh_MeshIP (in_hardening i))
  else None.

Definition render_workload (nodeOpID : string) (rs : ResourceSpec) : list Op :=
  let rid := rr_ResourceID rs in
  default [] (renderClusterWorkloadOps rs (refs_of rid) (domains_of rid) (target_of rid)
    (cr_membership (in_cluster i)) nodeOpID (rg_repository (in_registry i)) (rg_host (in_registry i))).

Definition render_cluster : list Op :=
  ((match render_node with
    | None => []
    | Some op =>
        op :: (if String.eqb (cm_Role (cr_membership (in_cluster i))) NodeRoleControlPlane &&
                  negb (String.eqb (op_ID op) "")
               then concat (map (render_workload (op_ID op)) (cr_workloads (in_cluster i))) else [])
    end) ++
   concat (map (fun rs => default [] (renderClusterBuildOps rs (target_of (rr_ResourceID rs))
     (rg_repository (in_registry i)))) (cr_builds (in_cluster i))))%list.

(** The ops of a resource and the network they stand on, when it renders *)
Definition managed_ops (rs : ResourceSpec) : option (list Op * string) :=
  let rid := rr_ResourceID rs in
  let meshIP := hh_MeshIP (in_hardening i) in
  match (t ← in_dbTargets i !! rid; renderDatabaseOps rs t meshIP) with
  | Some x => Some x
  | None =>
      match (t ← in_llmTargets i !! rid; renderLLMOps rs t meshIP (refs_of rid)) with
      | Some x => Some x
      | None => t ← in_s3Targets i !! rid; renderS3Ops rs t meshIP
      end
  end.

Definition deployed_ops (rs : ResourceSpec) : option (list Op * string) :=
  let rid := rr_ResourceID rs in
  t ← in_deployTargets i !! rid;
  renderDeployOps rs (refs_of rid) (domains_of rid) t (in_serverID i) (in_registry i).

Definition stub_op (rs : ResourceSpec) : Op :=
  let rid := rr_ResourceID rs in
  let retain := match in_deployTargets i !! rid with
                | Some t => retainedContainerGroups rs t (in_serverID i)
                | None => []
                end in
  mkOp ("sync:" +:+ rid) KindResourceSync []
    (JObj ([("kind", JStr (rr_Kind rs)); ("resourceId", JStr rid)] ++
           (match retain with [] => [] | _ => [("retain", JArr (map JStr retain))] end) ++
           [("spec", rr_Spec rs)])%list).

(** The body of the loop over [specs]: ops, and what is added to [networks] *)
Definition render_resource (rs : ResourceSpec) : list Op * list (string * string) :=
  let rid := rr_ResourceID rs in
  let project := NetworkName (rr_ProjectID rs) in
  if negb (String.eqb (rr_ClusterID rs) "") then ([], [])
  else match managed_ops rs with
       | Some (ops, netID) => (ops, [(netID, project)])
       | None =>
           match (if String.eqb (rr_Kind rs) "app" then deployed_ops rs else None) with
           | Some (ops, netID) =>
               (ops, [(netID, if has_prefix netID "net:res:" then ResourceNetworkName rid else project)])
           | None =>
               match (if String.eqb (rr_Kind rs) "app" then renderAppOps rs (refs_of rid) (domains_of rid) else None) with
               | Some (ops, netID) => (ops, [(netID, project)])
               | None => ([stub_op rs], [])
               end
           end
       end.

Definition network_names : gmap string string :=
  fold_left (fun m kv => <[kv.1 := kv.2]> m) (concat (map (fun rs => (render_resource rs).2) (in_specs i))) ∅.

Definition network_op (id : string) : Op :=
  mkOp id KindNetworkEnsure [] (enc_strings [("name", label network_names id)]).

Definition network_ops : list Op := map network_op (sort_strings (map fst (map_to_list network_names))).

Definition resource_ops : list Op :=
  (render_cluster ++ concat (map (fun rs => (render_resource rs).1) (in_specs i)))%list.

Definition proxy_ops : list Op :=
  if hh_ProxyRole (in_hardening i)
  then [renderTraefikOp (in_serverID i) (in_acme i) (concat (map snd (map_to_list (in_domains i))))] else [].

(** The resource graph, the host and the proxy *)
Definition graph_ops : list Op :=
  (network_ops ++ resource_ops ++ renderHostOps (in_serverID i) (in_hardening i) (in_publicURL i) ++ proxy_ops)%list.

Definition renderOps_ops : list Op :=
  if hh_Decommissioning (in_hardening i) then renderUninstallOps (in_serverID i) (in_hardening i)
  else
    let rendered := map op_ID graph_ops in
    (graph_ops ++ renderBackupOps (in_backupRuns i) rendered ++ renderS3ConfigureOps (in_s3Ops i) rendered ++
     map pending_op (in_pending i))%list.
End render.

Definition renderOps `{Digest} (i : RenderInput) : list Op * string :=
  let ops := renderOps_ops i in (ops, ops_hash ops).

Definition registryHost (repository : string) : string :=
  match cut repository "/"%char with
  | Some (String b l, _) => String b l
  | _ => repository
  end.

Example rfc3339_leap : rfc3339 1709210096 = "2024-02-29T12:34:56Z".
Proof. vm_compute. reflexivity. Qed.
