(* ===== verification/RenderOrder.v ===== *)
(** * Every rendered document can be applied

    The control plane renders ops with dependencies ([RenderDoc]); the agent
    orders them ([Dsd.TopoOrder]) and fails what it cannot order.  Here the two
    meet: with a rank on op ids that falls along every dependency, and every
    dependency present, nothing is left unordered.  The one way the renderer
    breaks this - a Compose service that depends on a service of the same server
    which is held back - is the premise [nothing_held], and the last example
    shows what happens without it. *)

From Stdlib Require Import Ascii.
From stdpp Require Import sorting.
From S2P Require Import Prelude GoStrings Json Dsd Spec Naming CpDb Deploy Engines Render RenderDeploy RenderCluster RenderDoc.

Local Open Scope string_scope.
#[local] Arguments String.append !_ _ / : simpl nomatch.

(** ** Ranks *)

(** An op that depends only on ops of lower rank, all of them present *)
Definition grounded (lt : string -> string -> Prop) (ids : list string) (op : Op) : Prop :=
  forall d, d ∈ op_DependsOn op -> d ∈ ids /\ lt d (op_ID op).

Lemma grounded_weaken lt ids ids' op :
  grounded lt ids op -> (forall d, d ∈ ids -> d ∈ ids') -> grounded lt ids' op.
Proof. intros H Hi d [Hd Hl]%H. auto. Qed.

Lemma grounded_resolvable lt ops :
  well_founded lt -> Forall (grounded lt (map op_ID ops)) ops ->
  forall id, id ∈ map op_ID ops -> resolvable (by_id ops) id.
Proof.
  intros Hwf Hg id. induction (Hwf id) as [id _ IH]. intros Hid.
  assert (id ∈ dom (by_id ops)) as [op Hop]%elem_of_dom by (by rewrite by_id_dom, elem_of_list_to_set).
  destruct (by_id_lookup _ _ _ Hop) as [<- Hin]. apply (resolvable_intro _ _ op); [done|].
  rewrite Forall_forall in Hg. intros y [Hy Hl]%(Hg _ Hin). by apply IH.
Qed.

Lemma nothing_unresolved lt ops :
  well_founded lt -> Forall (grounded lt (map op_ID ops)) ops -> (TopoOrder ops).2 = [].
Proof.
  intros Hwf Hg. pose proof (TopoOrder_facts ops) as H. destruct (TopoOrder ops) as [ord un].
  destruct H as (_ & _ & _ & _ & Hu). cbn. destruct un as [|id un]; [done|].
  destruct (proj1 (Hu id)) as [Hid Hn]; [left|]. destruct Hn. by eapply grounded_resolvable.
Qed.

Lemma id_in op ops id : op_ID op = id -> op ∈ ops -> id ∈ map op_ID ops.
Proof. intros <-. apply list_elem_of_fmap_2. Qed.

(** The class of an op: what its id says it does *)
Definition op_class (id : string) : nat :=
  if has_prefix id "build:" then 1
  else if has_prefix id "res:" then 2
  else if has_prefix id "s3cfg:" then 3
  else if has_prefix id "bkr:" then 4
  else 0.

(** The resource and the service of [res:<resource>:<service>] *)
Definition service_of (id : string) : option (string * string) := cut (sdrop 4 id) ":"%char.

Section rank.
(** How deep a service sits in the [depends_on] graph of its resource, and the
    backup runs that other runs of the document may wait for. *)
Context (depth : string -> string -> nat) (awaited : list string).

Definition op_depth (id : string) : nat :=
  if has_prefix id "bkr:" then (if existsb (String.eqb id) awaited then 0 else 1)
  else match service_of id with Some (rid, svc) => depth rid svc | None => 0 end.

Definition op_lt (d id : string) : Prop :=
  op_class d < op_class id \/ (op_class d = op_class id /\ op_depth d < op_depth id).

Lemma op_lt_wf : well_founded op_lt.
Proof.
  assert (H : forall c e id, op_class id = c -> op_depth id = e -> Acc op_lt id).
  { intros c. induction (lt_wf c) as [c _ IHc]. intros e. induction (lt_wf e) as [e _ IHe].
    intros id Hc He. constructor. intros d [Hd|[Hd1 Hd2]].
    - eapply IHc; [|done|done]. lia.
    - eapply IHe; [|congruence|done]. lia. }
  intros id. by eapply H.
Qed.

Lemma op_lt_class d id : op_class d < op_class id -> op_lt d id.
Proof. by left. Qed.
End rank.

Lemma service_of_id rid svc : has_char rid ":"%char = false ->
  service_of ("res:" +:+ rid +:+ ":" +:+ svc) = Some (rid, svc).
Proof.
  intros H. unfold service_of. change (sdrop 4 ("res:" +:+ rid +:+ ":" +:+ svc)) with (rid +:+ ":" +:+ svc).
  apply cut_spec. done.
Qed.

(** ** Resources *)

Ltac ranked := apply op_lt_class; vm_compute; lia.

Section resources.
Context (depth : string -> string -> nat) (awaited : list string).
Local Abbreviation lt := (op_lt depth awaited).

Lemma grounded_leaf ids op : op_DependsOn op = [] -> grounded lt ids op.
Proof. intros E d. rewrite E. by intros ?%not_elem_of_nil. Qed.

Lemma grounded_leaves ids ops : (forall op, op ∈ ops -> op_DependsOn op = []) -> Forall (grounded lt ids) ops.
Proof. intros H. apply Forall_forall. intros op Hop. by apply grounded_leaf, H. Qed.

Lemma volume_ensure_ids rid vols : map op_ID (map (volume_ensure rid) vols) = map (volume_id rid) vols.
Proof. by rewrite map_map. Qed.

(** The ops of a resource stand on each other and on its network. *)
Definition standing (x : list Op * string) : Prop :=
  Forall (grounded lt (x.2 :: map op_ID x.1)) x.1.

Lemma engine_ops_standing rs image vols cs : standing (engine_ops rs image vols cs).
Proof.
  unfold standing, engine_ops. cbv zeta. cbn [fst snd].
  rewrite !Forall_app. split_and!.
  - apply grounded_leaves. by intros op ->%list_elem_of_singleton.
  - apply grounded_leaves. by intros op (v & -> & _)%list_elem_of_fmap.
  - apply Forall_singleton. intros d. cbn [op_DependsOn op_ID]. rewrite elem_of_app, !elem_of_cons, !map_app, volume_ensure_ids.
    intros [[->|[->|[]%not_elem_of_nil]]|Hv].
    + split; [tauto|ranked].
    + split; [right; by left|ranked].
    + split; [rewrite !elem_of_app; tauto|].
      apply list_elem_of_fmap in Hv as (v & -> & _). ranked.
Qed.

Lemma renderAppOps_standing rs refs domains x : renderAppOps rs refs domains = Some x -> standing x.
Proof.
  unfold renderAppOps. destruct (dec_app (rr_Spec rs)) as [spec|]; [|done]. cbn [mbind option_bind].
  destruct (String.eqb (as_Image spec) ""); [done|]. intros [= <-]. apply engine_ops_standing.
Qed.

Lemma managed_ops_standing i rs x : managed_ops i rs = Some x -> standing x.
Proof.
  assert (D : forall t ip y, renderDatabaseOps rs t ip = Some y -> standing y).
  { unfold renderDatabaseOps. intros t ip y. destruct (DBEngine _); [|done]. cbn [mbind option_bind].
    destruct (_ || _); [done|]. intros [= <-]. apply engine_ops_standing. }
  assert (L : forall t ip refs y, renderLLMOps rs t ip refs = Some y -> standing y).
  { unfold renderLLMOps. intros t ip refs y. destruct (_ || _); [done|].
    destruct (dec_llm _); [|done]. cbn [mbind option_bind]. destruct (LLMEngine _); [|done].
    intros [= <-]. apply engine_ops_standing. }
  assert (S : forall t ip y, renderS3Ops rs t ip = Some y -> standing y).
  { unfold renderS3Ops. intros t ip y. destruct (S3EngineByName _); [|done]. cbn [mbind option_bind].
    destruct (_ || _); [done|]. intros [= <-]. apply engine_ops_standing. }
  unfold managed_ops. cbv zeta.
  destruct (in_dbTargets i !! rr_ResourceID rs) as [t|]; cbn [mbind option_bind].
  1: destruct (renderDatabaseOps _ _ _) eqn:E; [intros [= <-]; eauto|].
  all: destruct (in_llmTargets i !! rr_ResourceID rs) as [t1|]; cbn [mbind option_bind].
  1, 3: destruct (renderLLMOps _ _ _ _) eqn:E'; [intros [= <-]; eauto|].
  all: destruct (in_s3Targets i !! rr_ResourceID rs) as [t2|]; cbn [mbind option_bind]; [eauto|done].
Qed.

Lemma rollout_grounded rs spec refs domains target registry ids deps :
  network_id rs ∈ ids ->
  (forall v, v ∈ named_volumes spec -> volume_id (rr_ResourceID rs) (vm_Name v) ∈ ids) ->
  (forall d, d ∈ deps -> d ∈ ids /\ op_class d < 2) ->
  grounded lt ids (rollout_op rs spec refs domains target registry deps).
Proof.
  intros Hn Hv Hd d. cbn [op_DependsOn op_ID rollout_op]. rewrite elem_of_app, elem_of_cons.
  intros [[->|Hd']|Hd'%Hd].
  - split; [done|ranked].
  - apply list_elem_of_fmap in Hd' as (v & -> & Hv'). split; [by apply Hv|ranked].
  - destruct Hd' as [? ?]. split; [done|by apply op_lt_class].
Qed.

Lemma render_single_standing rs spec refs domains target serverID registry x :
  render_single rs spec refs domains target serverID registry = Some x -> standing x.
Proof.
  assert (V : forall ids, Forall (grounded lt ids) (volume_ops rs spec)).
  { intros ids. apply grounded_leaves. by intros op (v & -> & _)%list_elem_of_fmap. }
  assert (HV : forall v, v ∈ named_volumes spec ->
    volume_id (rr_ResourceID rs) (vm_Name v) ∈ map op_ID (volume_ops rs spec)).
  { intros v Hv. unfold volume_ops. rewrite map_map. by apply (list_elem_of_fmap_2 (fun v => volume_id _ (vm_Name v))). }
  assert (B : forall ids, "clone:" +:+ rr_ResourceID rs ∈ ids ->
    grounded lt ids (build_op rs spec target registry)).
  { intros ids Hc d. unfold build_op. destruct (buildConfig _) as [[??]?]. cbn [op_DependsOn op_ID].
    intros ->%list_elem_of_singleton. split; [done|ranked]. }
  assert (Bid : op_ID (build_op rs spec target registry) = "build:" +:+ rr_ResourceID rs).
  { unfold build_op. by destruct (buildConfig _) as [[??]?]. }
  assert (P : forall ops deps, (forall d, d ∈ deps -> d ∈ map op_ID ops /\ op_class d < 2) ->
    (forall ids, (forall d, d ∈ map op_ID ops -> d ∈ ids) -> Forall (grounded lt ids) ops) ->
    standing ((volume_ops rs spec ++ ops ++ [rollout_op rs spec refs domains target registry deps])%list, network_id rs)).
  { intros ops deps Hd Hops. unfold standing. cbn [fst snd]. rewrite !Forall_app. split_and!; [apply V| |].
    - apply Hops. intros d Hin. rewrite !map_app, elem_of_cons, !elem_of_app. tauto.
    - apply Forall_singleton, rollout_grounded.
      + left.
      + intros v Hv%HV. rewrite !map_app, elem_of_cons, !elem_of_app. tauto.
      + intros d [Hin ?]%Hd. split; [|done]. rewrite !map_app, elem_of_cons, !elem_of_app. tauto. }
  assert (Pull : standing ((volume_ops rs spec ++ [pull_op rs target registry;
    rollout_op rs spec refs domains target registry [op_ID (pull_op rs target registry)]])%list, network_id rs)).
  { apply (P [pull_op rs target registry]).
    - intros d ->%list_elem_of_singleton. split; [left|vm_compute; lia].
    - intros ids _. apply grounded_leaves. by intros op ->%list_elem_of_singleton. }
  unfold render_single. destruct (_ && _); [done|]. destruct (reshipsRetainedImage _ _).
  - destruct (cross_host target).
    + destruct (String.eqb _ _); [done|]. by intros [= <-].
    + intros [= <-]. apply (P [] []); [by intros d ?%not_elem_of_nil|]. intros ids _. constructor.
  - destruct (cross_host target).
    + destruct (String.eqb serverID _).
      * intros [= <-]. unfold standing. cbn [fst snd].
        apply Forall_cons_2; [by apply grounded_leaf|]. apply Forall_singleton, B. right. left.
      * destruct (_ || _); [done|]. by intros [= <-].
    + intros [= <-]. apply (P [clone_op rs target; build_op rs spec target registry]).
      * intros d ->%list_elem_of_singleton. rewrite Bid. split; [cbn [map]; rewrite Bid; right; left|vm_compute; lia].
      * intros ids Hids. apply Forall_cons_2; [by apply grounded_leaf|]. apply Forall_singleton, B, Hids. left.
Qed.

(** *** Service graphs *)

(** [depth] falls along the dependencies between the services of a graph. *)
Definition falls (rid : string) (svcs : list composeServiceSpec) : Prop :=
  forall s d, s ∈ svcs -> d ∈ cv_DependsOn s -> named d svcs = true -> depth rid d < depth rid (cv_Name s).

Lemma named_elem d l : named d l = true <-> exists s, s ∈ l /\ cv_Name s = d.
Proof.
  unfold named. rewrite existsb_elem. split; intros (s & Hs & E); exists s; [|by rewrite E, String.eqb_refl].
  by apply String.eqb_eq in E.
Qed.

Lemma res_res_lt rid d svc : has_char rid ":"%char = false -> depth rid d < depth rid svc ->
  lt ("res:" +:+ rid +:+ ":" +:+ d) ("res:" +:+ rid +:+ ":" +:+ svc).
Proof.
  intros Hr Hd. right. split; [done|]. unfold op_depth.
  change (has_prefix ("res:" +:+ rid +:+ ":" +:+ d) "bkr:") with false.
  change (has_prefix ("res:" +:+ rid +:+ ":" +:+ svc) "bkr:") with false.
  by rewrite !service_of_id.
Qed.

Section compose_graph.
Context (rs : ResourceSpec) (spec : appResourceSpec) (refs : list SecretRefMeta) (domains : list Domain)
  (target : Target) (webSvc : string) (local renderable : list composeServiceSpec).
Let rid : string := rr_ResourceID rs.
Let ops : list Op := compose_ops rs spec refs domains target webSvc local renderable.
Let ids : list string := ("net:res:" +:+ rid) :: map op_ID ops.

Lemma service_ops_in s op : s ∈ renderable ->
  op ∈ compose_service_ops rs spec refs domains target webSvc local s -> op ∈ ops.
Proof.
  intros Hs Hop. unfold ops, compose_ops. apply elem_of_app. right.
  apply concat_map_elem. eauto.
Qed.

Lemma source_grounded s op : s ∈ renderable -> op ∈ compose_source rs target s ->
  grounded lt ids op /\ op_ID op ∈ ids /\ op_class (op_ID op) < 2.
Proof.
  intros Hs Hop. split_and!.
  - unfold compose_source in Hop. destruct (builds s) eqn:Eb.
    + destruct (reshipsRetainedImage target true) eqn:Er; [by apply not_elem_of_nil in Hop|].
      apply list_elem_of_singleton in Hop as ->. intros d ->%list_elem_of_singleton. split; [|ranked].
      unfold ids. right. eapply id_in; [|unfold ops, compose_ops; rewrite Er; rewrite (proj2 (existsb_elem _ _)) by eauto; left]. done.
    + destruct (negb _); [|by apply not_elem_of_nil in Hop].
      apply list_elem_of_singleton in Hop as ->. by apply grounded_leaf.
  - unfold ids. right. apply list_elem_of_fmap_2, (service_ops_in s); [done|]. apply elem_of_app. by left.
  - unfold compose_source in Hop. destruct (builds s); [destruct (reshipsRetainedImage _ _)|destruct (negb _)];
      try by apply not_elem_of_nil in Hop.
    all: apply list_elem_of_singleton in Hop as ->; vm_compute; lia.
Qed.

Lemma compose_ops_standing :
  has_char rid ":"%char = false ->
  (forall s d, s ∈ renderable -> d ∈ cv_DependsOn s -> named d local = true ->
     named d renderable = true /\ depth rid d < depth rid (cv_Name s)) ->
  standing (ops, "net:res:" +:+ rid).
Proof.
  intros Hr Hd. unfold standing. cbn [fst snd]. fold ids. apply Forall_forall. intros op Hop.
  unfold ops, compose_ops in Hop. apply elem_of_app in Hop as [Hop|Hop].
  { destruct (_ && _); [|by apply not_elem_of_nil in Hop].
    apply list_elem_of_singleton in Hop as ->. by apply grounded_leaf. }
  apply concat_map_elem in Hop as (s & Hs & Hop).
  apply elem_of_app in Hop as [Hop|Hop]; [by eapply source_grounded|].
  apply list_elem_of_singleton in Hop as ->.
  intros d. cbn [op_DependsOn op_ID]. rewrite !elem_of_app. intros [Hd'|[Hd'|Hd']].
  - apply list_elem_of_singleton in Hd' as ->. split; [left|ranked].
  - apply list_elem_of_fmap in Hd' as (o & -> & Ho). destruct (source_grounded s o Hs Ho) as (_ & ? & ?).
    split; [done|by apply op_lt_class].
  - apply list_elem_of_fmap in Hd' as (n & -> & [Hn Hl]%filter_elem).
    destruct (Hd s n Hs Hn Hl) as [(s' & Hs' & <-)%named_elem Hlt]. split; [|by apply res_res_lt].
    right. eapply id_in; [|apply (service_ops_in s'); [done|apply elem_of_app; right; by left]]. done.
Qed.
End compose_graph.

(** No service that renders depends on one of its server that is held back. *)
Definition nothing_held (svcs : list composeServiceSpec) (target : Target) (serverID : string) : Prop :=
  let '(local, renderable) := renderable_services (validComposeServices svcs) target serverID in
  forall s d, s ∈ renderable -> d ∈ cv_DependsOn s -> named d local = true -> named d renderable = true.

Lemma renderable_valid svcs target serverID :
  let '(local, renderable) := renderable_services svcs target serverID in
  (forall s, s ∈ local -> s ∈ svcs) /\ (forall s, s ∈ renderable -> s ∈ local).
Proof. unfold renderable_services. split; intros s [??]%filter_elem; done. Qed.

Lemma compose_standing rs spec svcs refs domains target serverID x :
  has_char (rr_ResourceID rs) ":"%char = false ->
  falls (rr_ResourceID rs) (validComposeServices svcs) ->
  nothing_held svcs target serverID ->
  renderComposeDeployOps rs spec svcs refs domains target serverID = Some x -> standing x.
Proof.
  intros Hr Hf Hh. unfold renderComposeDeployOps. unfold nothing_held in Hh.
  pose proof (renderable_valid (validComposeServices svcs) target serverID) as Hv.
  destruct (renderable_services _ _ _) as [local renderable]. destruct Hv as [Hl Hrl].
  destruct renderable as [|s0 rest] eqn:E; [done|]. rewrite <- E in *. intros [= <-].
  apply compose_ops_standing; [done|]. intros s d Hs Hd Hn. split; [by eapply Hh|].
  apply Hf; [by apply Hl, Hrl|done|].
  apply named_elem in Hn as (s' & Hs' & <-). apply named_elem. eauto.
Qed.

(** *** Workloads of a cluster *)

Lemma QualifyImage_nonempty repository tag : tag <> "" -> QualifyImage repository tag <> "".
Proof.
  intros H. unfold QualifyImage. destruct (String.eqb_spec (trim (is_byte "/"%char) (trim_space repository)) "") as [E|E]; [done|].
  intros E'. destruct (trim (is_byte "/"%char) (trim_space repository)); [done|discriminate E'].
Qed.

Lemma cluster_image_nonempty rs target repository s svcs :
  s ∈ validComposeServices svcs -> cluster_image rs target repository s <> "".
Proof.
  intros [_ Hs]%filter_elem. unfold cluster_image. fold (builds s) in Hs. destruct (builds s).
  - apply QualifyImage_nonempty. unfold PinnedServiceImageTag, DeployServiceImageTag. by destruct (String.eqb (tg_ImagePin target) _).
  - rewrite andb_true_iff, orb_false_l, !negb_true_iff, !String.eqb_neq in Hs. tauto.
Qed.

Lemma cluster_compose_standing rs spec refs hosts target namespace nodeDeps repository registryHost svcs nodeID ops :
  has_char (rr_ResourceID rs) ":"%char = false ->
  falls (rr_ResourceID rs) (validComposeServices svcs) ->
  (forall d, d ∈ nodeDeps -> d = nodeID) -> op_class nodeID = 0 ->
  renderClusterComposeOps rs spec refs hosts target namespace nodeDeps repository registryHost svcs = Some ops ->
  standing (ops, nodeID).
Proof.
  intros Hr Hf Hnode Hclass. unfold renderClusterComposeOps. cbv zeta.
  destruct (_ =? 0)%nat; [done|]. destruct (_ && _); [done|]. destruct (existsb _ _); [done|].
  set (ren := cluster_renderable _ _ _). set (mk := cluster_service_op _ _ _ _ _ _ _ _ _ _ _ _).
  assert (Hren : forall s, s ∈ ren -> s ∈ validComposeServices svcs) by (intros s [??]%filter_elem; done).
  assert (Hid : forall s op, mk s = Some op -> op_ID op = "res:" +:+ rr_ResourceID rs +:+ ":" +:+ cv_Name s).
  { intros s op. unfold mk, cluster_service_op. destruct (String.eqb _ _); [done|]. by intros [= <-]. }
  assert (Hall : forall s, s ∈ ren -> exists op, mk s = Some op).
  { intros s Hs. unfold mk, cluster_service_op.
    rewrite (proj2 (String.eqb_neq _ _)) by (eapply cluster_image_nonempty, Hren, Hs). by eexists. }
  intros H. assert (ops = omap mk ren) as -> by (destruct (omap mk ren); congruence). clear H.
  unfold standing. cbn [fst snd]. apply Forall_forall. intros op (s & Hs & Hop)%list_elem_of_omap d.
  rewrite (Hid _ _ Hop). unfold mk, cluster_service_op in Hop. destruct (String.eqb _ _); [done|].
  injection Hop as <-. cbn [op_DependsOn]. rewrite elem_of_app. intros [->%Hnode|Hd].
  - split; [left|]. apply op_lt_class. rewrite Hclass. vm_compute. lia.
  - apply list_elem_of_fmap in Hd as (n & -> & [Hn [Hl Hne]%andb_true_iff]%filter_elem).
    apply named_elem in Hl as (s' & Hs' & <-). split.
    + right. destruct (Hall s' Hs') as [op' Hop']. eapply id_in; [by apply Hid|].
      apply list_elem_of_omap. by exists s'.
    + apply res_res_lt; [done|]. apply Hf; [by apply Hren|done|]. apply named_elem. exists s'. auto.
Qed.

Lemma cluster_workload_standing rs refs domains target m nodeID repository registryHost ops :
  has_char (rr_ResourceID rs) ":"%char = false ->
  (forall spec svcs, dec_app (rr_Spec rs) = Some spec -> compose_services spec = Some svcs ->
     falls (rr_ResourceID rs) (validComposeServices svcs)) ->
  op_class nodeID = 0 ->
  renderClusterWorkloadOps rs refs domains target m nodeID repository registryHost = Some ops ->
  standing (ops, nodeID).
Proof.
  intros Hr Hf Hclass. unfold renderClusterWorkloadOps. destruct (negb _); [done|].
  destruct (dec_app (rr_Spec rs)) as [spec|] eqn:Ed; [|done]. cbn [mbind option_bind]. cbv zeta.
  destruct (String.eqb (K8sNamespace _) ""); [done|].
  assert (Hn : forall d, d ∈ (if String.eqb nodeID "" then [] else [nodeID]) -> d = nodeID).
  { intros d. destruct (String.eqb _ _); [by intros ?%not_elem_of_nil|by intros ?%list_elem_of_singleton]. }
  destruct (compose_services spec) as [svcs|] eqn:Ec.
  - apply cluster_compose_standing; eauto.
  - destruct (negb _); [done|]. destruct (_ || _); [done|]. intros [= <-].
    apply Forall_singleton. intros d ->%Hn. split; [left|]. apply op_lt_class. cbn [op_ID]. rewrite Hclass. vm_compute. lia.
Qed.

Lemma cluster_builds_grounded rs target repository ops :
  renderClusterBuildOps rs target repository = Some ops -> Forall (grounded lt (map op_ID ops)) ops.
Proof.
  assert (C : forall l, (forall op, op ∈ l -> op_DependsOn op = ["clone:" +:+ rr_ResourceID rs] /\ op_class (op_ID op) = 1) ->
    Forall (grounded lt (map op_ID (clone_op rs target :: l))) (clone_op rs target :: l)).
  { intros l Hl. apply Forall_cons_2; [by apply grounded_leaf|]. apply Forall_forall.
    intros op [Hd Hc]%Hl d. rewrite Hd. intros ->%list_elem_of_singleton. split; [left|].
    apply op_lt_class. rewrite Hc. vm_compute. lia. }
  unfold renderClusterBuildOps. destruct (_ || _); [done|].
  destruct (dec_app (rr_Spec rs)) as [spec|]; [|done]. cbn [mbind option_bind]. cbv zeta.
  destruct (reshipsRetainedImage _ _); [done|]. destruct (compose_services spec) as [svcs|].
  - destruct (List.filter _ _) as [|s0 l]; [done|]. intros [= <-]. apply C.
    intros op Hop. change (op ∈ map (cluster_build_op rs target repository) (s0 :: l)) in Hop.
    by apply list_elem_of_fmap in Hop as (s & -> & _).
  - intros [= <-]. apply C. intros op ->%list_elem_of_singleton. unfold cluster_single_build.
    by destruct (buildConfig _) as [[??]?].
Qed.

(** *** Host, proxy, backups and the rest *)

Lemma host_leaves serverID hh url op : op ∈ renderHostOps serverID hh url -> op_DependsOn op = [].
Proof.
  unfold renderHostOps. rewrite !elem_of_app, !elem_of_cons.
  intros [[->|[->|H]]|[H|H]]; [done|done|by apply not_elem_of_nil in H|..].
  - destruct (hh_CISEnabled hh); [by apply list_elem_of_singleton in H as ->|by apply not_elem_of_nil in H].
  - destruct (_ && _); [by apply list_elem_of_singleton in H as ->|by apply not_elem_of_nil in H].
Qed.

Lemma on_container_in rendered rid d : d ∈ on_container rendered rid -> d ∈ rendered /\ op_class d = 2.
Proof.
  unfold on_container. destruct (existsb _ rendered) eqn:E; [|by intros ?%not_elem_of_nil].
  intros ->%list_elem_of_singleton. apply existsb_elem in E as (x & Hx & <-%String.eqb_eq). done.
Qed.

Lemma pending_leaf p : op_DependsOn (pending_op p) = [].
Proof. unfold pending_op. by destruct (String.eqb _ _). Qed.
End resources.

Definition is_backup (r : BackupRunSpec) : bool := String.eqb (br_Kind r) "backup".
Definition run_id (r : BackupRunSpec) : string := "bkr:" +:+ br_RunID r.
Definition backup_ids (runs : list BackupRunSpec) : list string := map run_id (List.filter is_backup runs).

Lemma backup_op_of_run runs rid id : backup_op_of runs !! rid = Some id -> id ∈ backup_ids runs.
Proof.
  unfold backup_op_of, backup_ids.
  assert (G : forall l (m : gmap string string),
    (forall k v, m !! k = Some v -> v ∈ map run_id (List.filter is_backup runs)) ->
    (forall r, r ∈ l -> r ∈ runs) ->
    fold_left (fun m r => if is_backup r then <[br_ResourceID r := run_id r]> m else m) l m !! rid = Some id ->
    id ∈ map run_id (List.filter is_backup runs)).
  { induction l as [|r l IH]; intros m Hm Hl; [apply Hm|]. cbn [fold_left]. apply IH.
    - intros k v. destruct (is_backup r) eqn:Eb; [|apply Hm]. intros [[_ <-]|[_ H]]%lookup_insert_Some; [|by eapply Hm].
      apply list_elem_of_fmap_2, filter_elem. split; [apply Hl; left|done].
    - intros r' Hr'. apply Hl. by right. }
  intros H. apply (G runs ∅); [|done|done]. intros k v. by rewrite lookup_empty.
Qed.

Lemma op_depth_run depth awaited r :
  op_depth depth awaited (run_id r) = if existsb (String.eqb (run_id r)) awaited then 0 else 1.
Proof. done. Qed.

Lemma backup_ops_grounded depth runs rendered ids :
  (forall r, r ∈ runs -> is_Some (DBEngine (br_Engine r))) -> NoDup (map br_RunID runs) ->
  (forall d, d ∈ rendered -> d ∈ ids) ->
  (forall d, d ∈ map op_ID (renderBackupOps runs rendered) -> d ∈ ids) ->
  Forall (grounded (op_lt depth (backup_ids runs)) ids) (renderBackupOps runs rendered).
Proof.
  intros He Hnd Hr Hi. apply Forall_forall. intros op (r & Hrin & Hop)%list_elem_of_omap d Hd.
  assert (Hc : forall rid, d ∈ on_container rendered rid -> op_ID op = run_id r ->
    d ∈ ids /\ op_lt depth (backup_ids runs) d (op_ID op)).
  { intros rid [Hin Hc]%on_container_in ->. split; [auto|]. apply op_lt_class. rewrite Hc. vm_compute. lia. }
  unfold backup_op in Hop. destruct (DBEngine (br_Engine r)) as [def|]; [|done]. cbn [mbind option_bind] in Hop.
  repeat match type of Hop with (if ?c then _ else _) = _ => destruct c eqn:? end; try done.
  1, 2, 4: injection Hop as <-; by eapply Hc.
  2: destruct (br_RecoveryTargetTime r); [injection Hop as <-; by eapply Hc|done].
  injection Hop as <-. cbn [op_DependsOn] in Hd.
  match goal with |- _ /\ op_lt _ _ _ ?x => change x with (run_id r) end. clear Hc.
  destruct (backup_op_of runs !! br_ResourceID r) as [id|] eqn:Eb; [|by apply not_elem_of_nil in Hd].
  apply list_elem_of_singleton in Hd as ->. pose proof (backup_op_of_run _ _ _ Eb) as Hid.
  apply list_elem_of_fmap in Hid as (r' & -> & [Hr' Hb]%filter_elem). split.
  - apply Hi. destruct (He r' Hr') as [def' Hdef']. eapply id_in.
    2:{ apply list_elem_of_omap. exists r'. split; [done|]. unfold backup_op. rewrite Hdef'. cbn [mbind option_bind].
        unfold is_backup in Hb. by rewrite Hb. }
    done.
  - right. split; [done|]. rewrite !op_depth_run. rewrite (proj2 (existsb_elem _ (backup_ids runs))).
    2:{ exists (run_id r'). split; [|apply String.eqb_refl]. by apply list_elem_of_fmap_2, filter_elem. }
    destruct (existsb _ _) eqn:Ex; [|lia]. exfalso.
    apply existsb_elem in Ex as (x & Hx & <-%String.eqb_eq).
    apply list_elem_of_fmap in Hx as (r2 & E2 & [Hr2 Hb2]%filter_elem). injection E2 as E2.
    assert (r2 = r) as -> by (by eapply (NoDup_map_inj br_RunID)).
    unfold is_backup in Hb2. by rewrite Hb2 in *.
Qed.

(** ** The document *)

(** What a document needs to be orderable.  Ids hold no colon and runs have
    distinct ids, as the store hands them out; databases that are backed up have
    a known engine; [depends_on] is acyclic, [depth] being the witness; and no
    service waits for one that is held back. *)
Record orderable (i : RenderInput) (depth : string -> string -> nat) : Prop := {
  or_ids : forall rs, rs ∈ in_specs i \/ rs ∈ cr_workloads (in_cluster i) ->
    has_char (rr_ResourceID rs) ":"%char = false;
  or_falls : forall rs spec svcs, rs ∈ in_specs i \/ rs ∈ cr_workloads (in_cluster i) ->
    dec_app (rr_Spec rs) = Some spec -> compose_services spec = Some svcs ->
    falls depth (rr_ResourceID rs) (validComposeServices svcs);
  or_held : forall rs spec svcs t, rs ∈ in_specs i ->
    dec_app (rr_Spec rs) = Some spec -> compose_services spec = Some svcs ->
    in_deployTargets i !! rr_ResourceID rs = Some t -> nothing_held svcs t (in_serverID i);
  or_engines : forall r, r ∈ in_backupRuns i -> is_Some (DBEngine (br_Engine r));
  or_runs : NoDup (map br_RunID (in_backupRuns i));
}.

Section document.
Context (i : RenderInput) (depth : string -> string -> nat) (Hi : orderable i depth).
Local Abbreviation lt := (op_lt depth (backup_ids (in_backupRuns i))).
Local Abbreviation standing' := (standing depth (backup_ids (in_backupRuns i))).

Lemma standing_grounded ops net ids : standing' (ops, net) -> net ∈ ids ->
  (forall d, d ∈ map op_ID ops -> d ∈ ids) -> Forall (grounded lt ids) ops.
Proof.
  intros Hs Hn Ho. eapply Forall_impl; [exact Hs|]. intros op H. eapply grounded_weaken; [exact H|].
  cbn [fst snd]. intros d [->|Hd]%elem_of_cons; auto.
Qed.

(** Every network a resource stands on has its op. *)
Lemma network_in rs net : rs ∈ in_specs i -> net ∈ map fst (render_resource i rs).2 ->
  net ∈ map op_ID (network_ops i).
Proof.
  intros Hrs Hnet.
  assert (G : forall l (m : gmap string string), (net ∈ map fst l \/ is_Some (m !! net)) ->
    is_Some (fold_left (fun m kv => <[kv.1 := kv.2]> m) l m !! net)).
  { induction l as [|[k v] l IH]; intros m H; cbn [fold_left].
    - destruct H as [H|H]; [by apply not_elem_of_nil in H|done].
    - apply IH. cbn [map fst] in H. rewrite elem_of_cons in H. destruct (decide (k = net)) as [->|Hne].
      + right. rewrite lookup_insert_eq. by eexists.
      + destruct H as [[H|H]|H]; [congruence|by left|]. right. by rewrite lookup_insert_ne. }
  destruct (G (concat (map (fun rs => (render_resource i rs).2) (in_specs i))) ∅) as [name Hname].
  - left. apply list_elem_of_fmap in Hnet as (kv & -> & Hkv). apply list_elem_of_fmap_2.
    apply concat_map_elem. eauto.
  - unfold network_ops. rewrite map_map. apply list_elem_of_fmap. exists net. split; [done|].
    unfold sort_strings. rewrite merge_sort_Permutation. apply list_elem_of_fmap. exists (net, name).
    split; [done|]. by apply elem_of_map_to_list.
Qed.

Lemma resource_grounded rs ids : rs ∈ in_specs i ->
  (forall d, d ∈ map op_ID (network_ops i) -> d ∈ ids) ->
  (forall d, d ∈ map op_ID (render_resource i rs).1 -> d ∈ ids) ->
  Forall (grounded lt ids) (render_resource i rs).1.
Proof.
  intros Hrs Hnet Hids.
  assert (S : forall ops net name, render_resource i rs = (ops, [(net, name)]) -> standing' (ops, net) ->
    Forall (grounded lt ids) (render_resource i rs).1).
  { intros ops net name E Hs. rewrite E in *. eapply standing_grounded; [exact Hs| |exact Hids].
    apply Hnet, (network_in rs); [done|]. rewrite E. left. }
  pose proof (or_ids _ _ Hi rs (or_introl Hrs)) as Hr.
  revert S. unfold render_resource. cbv zeta. destruct (negb _); [constructor|].
  destruct (managed_ops i rs) as [[ops net]|] eqn:Em.
  { intros S. eapply S; [done|]. by eapply managed_ops_standing. }
  destruct (if String.eqb (rr_Kind rs) "app" then deployed_ops i rs else None) as [[ops net]|] eqn:Ed.
  { intros S. eapply S; [done|]. destruct (String.eqb _ "app"); [|done]. unfold deployed_ops in Ed.
    destruct (in_deployTargets i !! rr_ResourceID rs) as [t|] eqn:Et; [|done]. cbn [mbind option_bind] in Ed.
    unfold renderDeployOps in Ed. destruct (dec_app (rr_Spec rs)) as [spec|] eqn:Es; [|done].
    cbn [mbind option_bind] in Ed. destruct (compose_services spec) as [svcs|] eqn:Ec.
    - eapply compose_standing; [done|by eapply (or_falls _ _ Hi); eauto|by eapply (or_held _ _ Hi)|exact Ed].
    - by eapply render_single_standing. }
  destruct (if String.eqb (rr_Kind rs) "app" then renderAppOps _ _ _ else None) as [[ops net]|] eqn:Ea.
  { intros S. eapply S; [done|]. destruct (String.eqb _ "app"); [|done]. by eapply renderAppOps_standing. }
  intros _. apply Forall_singleton. by apply grounded_leaf.
Qed.

Lemma cluster_grounded ids : (forall d, d ∈ map op_ID (render_cluster i) -> d ∈ ids) ->
  Forall (grounded lt ids) (render_cluster i).
Proof.
  unfold render_cluster. intros Hids. apply Forall_app. split.
  - destruct (render_node i) as [node|] eqn:En; [|constructor].
    assert (Hleaf : op_DependsOn node = [] /\ op_class (op_ID node) = 0).
    { unfold render_node in En. destruct (cr_member _); [|done]. unfold renderClusterNodeOp in En.
      repeat case_match; try done; by injection En as <-. }
    destruct Hleaf as [Hl Hc]. assert (Hn : op_ID node ∈ ids) by (apply Hids; left).
    apply Forall_cons_2; [by apply grounded_leaf|]. destruct (_ && _); [|constructor].
    apply Forall_forall. intros op (rs & Hrs & Hop)%concat_map_elem. unfold render_workload in *.
    destruct (renderClusterWorkloadOps _ _ _ _ _ _ _ _) as [ops|] eqn:Ew; [|by apply not_elem_of_nil in Hop].
    assert (Hs : standing' (ops, op_ID node)).
    { eapply cluster_workload_standing; [by apply (or_ids _ _ Hi); right| |done|exact Ew].
      intros spec svcs. by apply (or_falls _ _ Hi); right. }
    assert (Hin : forall d, d ∈ map op_ID ops -> d ∈ ids).
    { intros d Hd. apply Hids. apply list_elem_of_fmap in Hd as (o & -> & Ho). apply list_elem_of_fmap_2.
      apply elem_of_app. left. right. apply concat_map_elem. exists rs. by rewrite Ew. }
    pose proof (standing_grounded _ _ _ Hs Hn Hin) as H. rewrite Forall_forall in H. by apply H.
  - apply Forall_forall. intros op (rs & Hrs & Hop)%concat_map_elem.
    destruct (renderClusterBuildOps rs _ _) as [ops|] eqn:Eb; [|by apply not_elem_of_nil in Hop].
    pose proof (cluster_builds_grounded depth (backup_ids (in_backupRuns i)) _ _ _ _ Eb) as H.
    rewrite Forall_forall in H. eapply grounded_weaken; [by apply H|]. intros d Hd. apply Hids.
    apply list_elem_of_fmap in Hd as (o & -> & Ho). apply list_elem_of_fmap_2, elem_of_app. right.
    apply concat_map_elem. exists rs. by rewrite Eb.
Qed.

Lemma resources_grounded ids : (forall d, d ∈ map op_ID (network_ops i) -> d ∈ ids) ->
  (forall d, d ∈ map op_ID (concat (map (fun rs => (render_resource i rs).1) (in_specs i))) -> d ∈ ids) ->
  Forall (grounded lt ids) (concat (map (fun rs => (render_resource i rs).1) (in_specs i))).
Proof.
  intros Hnet Hids. apply Forall_forall. intros op (rs & Hrs & Hop)%concat_map_elem.
  assert (H : Forall (grounded lt ids) (render_resource i rs).1).
  { apply resource_grounded; [done|done|]. intros d Hd. apply Hids.
    apply list_elem_of_fmap in Hd as (o & -> & Ho). apply list_elem_of_fmap_2.
    apply concat_map_elem. eauto. }
  rewrite Forall_forall in H. by apply H.
Qed.

Lemma graph_grounded ids : (forall d, d ∈ map op_ID (graph_ops i) -> d ∈ ids) ->
  Forall (grounded lt ids) (graph_ops i).
Proof.
  unfold graph_ops, resource_ops. rewrite !map_app. intros Hids.
  rewrite !Forall_app. split_and!.
  - apply grounded_leaves. by intros op (n & -> & _)%list_elem_of_fmap.
  - apply cluster_grounded. intros d Hd. apply Hids. rewrite !elem_of_app. tauto.
  - apply resources_grounded; intros d Hd; apply Hids; rewrite !elem_of_app; tauto.
  - apply grounded_leaves. apply host_leaves.
  - apply grounded_leaves. unfold proxy_ops. intros op. destruct (hh_ProxyRole _); [|by intros ?%not_elem_of_nil].
    by intros ->%list_elem_of_singleton.
Qed.

Lemma document_grounded : Forall (grounded lt (map op_ID (renderOps_ops i))) (renderOps_ops i).
Proof.
  unfold renderOps_ops. destruct (hh_Decommissioning _).
  { apply Forall_singleton. by apply grounded_leaf. }
  cbv zeta. set (rendered := map op_ID (graph_ops i)). rewrite !map_app, !Forall_app. split_and!.
  - apply graph_grounded. intros d Hd. rewrite !elem_of_app. tauto.
  - apply backup_ops_grounded; [apply Hi|apply Hi|..]; intros d Hd; rewrite !elem_of_app; tauto.
  - apply Forall_forall. intros op (o & -> & _)%list_elem_of_fmap d [Hd Hc]%on_container_in.
    split; [rewrite !elem_of_app; tauto|]. apply op_lt_class. rewrite Hc. vm_compute. lia.
  - apply grounded_leaves. intros op (p & -> & _)%list_elem_of_fmap. apply pending_leaf.
Qed.
End document.

(** C18: Every document the control plane renders can be applied as a whole: with
    acyclic [depends_on] graphs and no service held back, the agent's ordering
    leaves no op out, and puts every op after all it depends on. *)
Theorem rendered_documents_apply i depth :
  orderable i depth ->
  let '(ordered, unresolved) := TopoOrder (renderOps_ops i) in
  unresolved = [] /\ topological ordered /\
  (forall id, id ∈ map op_ID (renderOps_ops i) <-> id ∈ map op_ID ordered).
Proof.
  intros Hi. pose proof (document_grounded i depth Hi) as Hg. pose proof (op_lt_wf depth (backup_ids (in_backupRuns i))) as Hwf.
  pose proof (nothing_unresolved _ _ Hwf Hg) as Hu. pose proof (grounded_resolvable _ _ Hwf Hg) as Hr.
  pose proof (resolvable_iff (renderOps_ops i)) as Hiff. pose proof (TopoOrder_facts (renderOps_ops i)) as Hf.
  destruct (TopoOrder (renderOps_ops i)) as [ordered unresolved]. cbn [fst snd] in *.
  destruct Hf as (_ & Ht & _ & Ho & _). split_and!; [done..|]. intros id. split.
  - intros Hid%Hr. by apply Hiff.
  - intros (op & -> & [Hop _]%Ho)%list_elem_of_fmap. destruct (by_id_lookup _ _ _ Hop) as [_ Hin].
    by apply list_elem_of_fmap_2.
Qed.

(** ** A server with a database, its backups and two apps *)

Definition demo_service (name server : string) (deps : list string) : json :=
  JObj [("name", JStr name); ("build", JStr name); ("ports", JArr [JInt 8080%Z]);
        ("dependsOn", JArr (map JStr deps)); ("serverId", JStr server)].

(** [web] needs [api], [api] needs [db]; [db] runs where [server] says. *)
Definition demo_graph (server : string) : json :=
  JObj [("compose", JObj [("services", JArr
    [demo_service "web" "" ["api"]; demo_service "api" "" ["db"]; demo_service "db" server []])])].

Definition demo_app (rid : string) (spec : json) : ResourceSpec := mkResourceSpec rid "prj_1" "app" spec false "" "".

Definition demo_target (rid : string) : Target :=
  mkTargetOf ("dep_" +:+ rid) rid "prj_1" "conn_1" "github" "acme/shop" "main" "0123456789abcdef" "cfg" ""
    "abc123" "push" "deploying" (Some 1700000000000000%Z) ∅ "srv_1" "".

Definition demo_hardening : HostHardening :=
  mkHardening "10.8.0.2" "wg0" true false true [mkPortException 8443%Z "tcp"] "v1" "v2" false false.

Definition demo_run (id kind sha : string) : BackupRunSpec :=
  mkBackupRun id kind "res_db" "postgres" "app" "app" 7 4 6 sha "" "" "" "" None.

Definition demo_input (dbServer : string) : RenderInput := {|
  in_serverID := "srv_1";
  in_specs := [mkResourceSpec "res_db" "prj_1" "postgres" (JObj []) false "" "";
               demo_app "res_shop" (demo_graph dbServer);
               demo_app "res_site" (JObj [("image", JStr "nginx:1.27"); ("ports", JArr [JObj [("container", JInt 80%Z)]]);
                 ("volumes", JArr [JObj [("name", JStr "www"); ("mountPath", JStr "/srv")]])])];
  in_pending := [mkPending "pd_1" "volume.remove" "sigmahub-res_old-data"];
  in_secretRefs := {["res_site" := [mkRefMeta "TOKEN" false]]};
  in_hardening := demo_hardening;
  in_domains := {["res_site" := [mkDomain "example.com" "http"]]};
  in_deployTargets := {["res_shop" := demo_target "res_shop"]};
  in_dbTargets := {["res_db" := mkDBTarget "postgres" "app" "app" 15000%Z "database" true]};
  in_s3Targets := ∅;
  in_llmTargets := ∅;
  in_backupRuns := [demo_run "bkr_1" "backup" ""; demo_run "bkr_2" "verify" "cafe"];
  in_s3Ops := [];
  in_acme := mkACME "ops@example.com" "";
  in_cluster := mkCluster false (mkMembership "" "" "" "" "" "") [] [];
  in_registry := mkRegistry "" "";
  in_publicURL := "https://cp.example.com/";
|}.

Definition demo_depth (rid svc : string) : nat :=
  if String.eqb svc "web" then 2 else if String.eqb svc "api" then 1 else 0.

Definition demo_services : option (list composeServiceSpec) :=
  Eval vm_compute in spec ← dec_app (demo_graph ""); compose_services spec.

Lemma demo_services_only rs spec svcs : rs ∈ in_specs (demo_input "") ->
  dec_app (rr_Spec rs) = Some spec -> compose_services spec = Some svcs ->
  rr_ResourceID rs = "res_shop" /\ Some svcs = demo_services.
Proof.
  intros Hrs Hd Hc. cbn in Hrs. rewrite !elem_of_cons in Hrs.
  destruct Hrs as [->|[->|[->|?%not_elem_of_nil]]]; [| | |done].
  - vm_compute in Hd. injection Hd as <-. discriminate Hc.
  - split; [done|]. rewrite <- Hc. vm_compute in Hd. injection Hd as <-. reflexivity.
  - vm_compute in Hd. injection Hd as <-. discriminate Hc.
Qed.

Lemma demo_orderable : orderable (demo_input "") demo_depth.
Proof.
  constructor.
  - cbn. intros rs. rewrite !elem_of_cons. by intros [[->|[->|[->|?%not_elem_of_nil]]]|?%not_elem_of_nil].
  - intros rs spec svcs [Hrs|?%not_elem_of_nil] Hd Hc; [|done].
    destruct (demo_services_only rs spec svcs Hrs Hd Hc) as [-> [= ->]]. intros s d.
    unfold validComposeServices. cbn. rewrite !elem_of_cons.
    intros [->|[->|[->|?%not_elem_of_nil]]]; cbn; rewrite ?elem_of_cons; intros Hn _; try done.
    3: by apply not_elem_of_nil in Hn.
    all: destruct Hn as [->|?%not_elem_of_nil]; [vm_compute; lia|done].
  - intros rs spec svcs t Hrs Hd Hc Ht.
    destruct (demo_services_only rs spec svcs Hrs Hd Hc) as [E [= ->]]. rewrite E in Ht.
    vm_compute in Ht. injection Ht as <-. unfold nothing_held. vm_compute. tauto.
  - cbn. intros r. rewrite !elem_of_cons. intros [->|[->|?%not_elem_of_nil]]; [by eexists..|done].
  - apply (bool_decide_unpack _). by vm_compute.
Qed.

Lemma rendered_documents_apply_witness :
  orderable (demo_input "") demo_depth /\ length (renderOps_ops (demo_input "")) = 24 /\
  let '(ordered, unresolved) := TopoOrder (renderOps_ops (demo_input "")) in
  unresolved = [] /\ topological ordered /\
  (forall id, id ∈ map op_ID (renderOps_ops (demo_input "")) <-> id ∈ map op_ID ordered).
Proof.
  split; [exact demo_orderable|]. split; [vm_compute; reflexivity|].
  exact (rendered_documents_apply (demo_input "") demo_depth demo_orderable).
Defined.

(** With [db] on another server and not yet up, [api] is held back, and [web]
    renders with a dependency on an op the document does not have: the agent
    fails it, and with it the deployment. *)
Example held_back_dangles :
  (TopoOrder (renderOps_ops (demo_input "srv_2"))).2 = ["res:res_shop:web"] /\
  "res:res_shop:api" ∉ map op_ID (renderOps_ops (demo_input "srv_2")).
Proof. split; [vm_compute; reflexivity|apply (bool_decide_unpack _); by vm_compute]. Qed.
