(* ===== verification/RenderPolicy.v ===== *)
(** * Every rendered container passes the agent's policy

    The payloads the control plane encodes ([Render], [RenderDeploy]) are decoded
    by the agent ([Spec]) and put before its policy ([Policy]).  Here the two
    sides meet: what the control plane renders from admissible inputs is decoded
    to the spec it meant, is permitted, and publishes no port but on the mesh -
    registry apps apart, whose host ports the user chose. *)

From Stdlib Require Import SpecFloat.
From S2P Require Import Prelude GoStrings Json Dsd Spec Policy Naming CpDb Deploy Engines Render RenderDeploy RenderCluster RenderDoc RenderOrder.

Local Open Scope string_scope.
#[local] Arguments String.append !_ _ / : simpl nomatch.

(** ** The wire *)

Definition agent_cpus (f : spec_float) : spec_float := match f with S754_zero _ => noFloat | g => g end.

(** The spec the agent reads: what the control plane cannot even express is
    absent, and a CPU share of -0 is written as no share. *)
Definition agent_spec (s : containerOpSpec) : ContainerSpec :=
  mkContainerSpec (co_ResourceID s) (co_Service s) (co_Name s) (co_Image s) (co_Network s) (co_NetworkAliases s)
    (co_Env s) (co_Ports s) (co_Volumes s) (co_Command s) (co_User s) (co_ReadOnlyRootfs s) (co_Tmpfs s)
    (agent_cpus (co_CPUs s)) (co_MemoryMB s) (co_Restart s) (co_SecretRefs s)
    (co_Labels s) (co_GPUs s) (co_ShmSizeMB s) false false false [].

Record wire_ok (s : containerOpSpec) : Prop := {
  wo_ports : forall p, p ∈ co_Ports s -> port_wf p;
  wo_mem : in_int64 (co_MemoryMB s);
  wo_gpus : in_int64 (co_GPUs s);
  wo_shm : in_int64 (co_ShmSizeMB s);
}.

Lemma agent_cpu f : omit_float (agent_cpus f) = omit_float f.
Proof. by destruct f. Qed.

Lemma omit_dropped (fs dropped : fields) : Forall (fun kv => kv.2 = None) dropped -> omit (fs ++ dropped)%list = omit fs.
Proof.
  intros H. induction fs as [|[k [v|]] fs IH]; cbn; [|by rewrite IH|done].
  by induction H as [|[k v] l Hv _ IH]; [|cbn in *; rewrite Hv].
Qed.

Lemma enc_container_op_agent s : enc_container_op s = enc_spec (agent_spec s).
Proof.
  unfold enc_container_op, enc_spec, JStruct. f_equal.
  etransitivity; [symmetry; apply (omit_dropped _
    [("privileged", None); ("hostNetwork", None); ("hostPid", None); ("hostMounts", None)]); by repeat constructor|].
  f_equal. unfold spec_fields. change (cs_CPUs (agent_spec s)) with (agent_cpus (co_CPUs s)). by rewrite agent_cpu.
Qed.

Lemma agent_spec_wf s : wire_ok s -> spec_wf (agent_spec s).
Proof. intros [Hp Hm Hg Hs]. constructor; [done..|]. by destruct s as [? ? ? ? ? ? ? ? ? ? ? ? ? [] ? ? ? ? ? ?]. Qed.

Lemma dec_container_op s : wire_ok s -> dec_spec (enc_container_op s) = Some (agent_spec s).
Proof. intros H. rewrite enc_container_op_agent. by apply dec_spec_enc, agent_spec_wf. Qed.

Lemma dec_rollout_op s gen health dep : wire_ok s -> probe_wf health ->
  dec_rollout (enc_rollout_op s gen health dep) = Some (mkRolloutSpec (agent_spec s) gen health dep).
Proof.
  intros Hs Hh. transitivity (dec_rollout (enc_rollout (mkRolloutSpec (agent_spec s) gen health dep))).
  - unfold enc_rollout_op, enc_rollout. cbn [rs_Container rs_Generation rs_Health rs_DeploymentID].
    by rewrite enc_container_op_agent.
  - apply dec_enc_rollout; [by apply agent_spec_wf|done].
Qed.

(** ** Integers come from JSON *)

Lemma dec_int_in o z : dec_int o = Some z -> in_int64 z.
Proof.
  destruct o as [[]|]; cbn; try done.
  - by intros [= <-].
  - destruct (_ && _)%bool eqn:E; [|done]. intros [= <-]. apply andb_true_iff in E as [E1 E2].
    apply Z.leb_le in E1, E2. done.
  - by intros [= <-].
Qed.

Lemma dec_list_all {A} (d : json -> option A) (P : A -> Prop) o l :
  (forall v x, d v = Some x -> P x) -> dec_list d o = Some l -> forall x, x ∈ l -> P x.
Proof.
  intros Hd H x Hx. destruct o as [[| | | | |vs|]|]; cbn in H; try done.
  1, 3: injection H as <-; by apply not_elem_of_nil in Hx.
  apply mapM_Some_1 in H. apply list_elem_of_lookup in Hx as [n Hn].
  destruct (Forall2_lookup_r _ _ _ _ _ H Hn) as (v & _ & Hv). eauto.
Qed.

(** Split a chain of decoded fields. *)
Ltac decoded H :=
  repeat match type of H with
  | mbind _ ?o = Some _ => destruct o eqn:?; [cbn [mbind option_bind] in H|done]
  end.

Lemma dec_struct_some {A} (d : list (string * json) -> option A) v x :
  dec_struct d v = Some x -> exists fs, d fs = Some x.
Proof. destruct v; cbn; eauto; done. Qed.

Record app_ints (spec : appResourceSpec) : Prop := {
  ai_ports : forall p, p ∈ as_Ports spec -> in_int64 (ap_Container p) /\ in_int64 (ap_Host p);
  ai_mem : in_int64 (as_MemoryMB spec);
  ai_services : forall svcs s p, as_Compose spec = Some svcs -> s ∈ svcs -> p ∈ cv_Ports s -> in_int64 p;
}.

Lemma dec_app_ints v spec : dec_app v = Some spec -> app_ints spec.
Proof.
  unfold dec_app. intros (fs & H)%dec_struct_some. decoded H. injection H as <-. constructor; cbn.
  - eapply dec_list_all; [|eassumption]. intros w [c h p] (fs' & H')%dec_struct_some. decoded H'.
    injection H' as <- <- <-. split; by eapply dec_int_in.
  - by eapply dec_int_in.
  - intros svcs svc p -> Hs Hp.
    match goal with E : dec_ptr dec_services _ = Some (Some svcs) |- _ => rename E into Ec end.
    unfold dec_ptr in Ec. destruct (jget fs "compose") as [w|]; [|done].
    assert (Hd : dec_struct dec_services w = Some svcs).
    { destruct w; try done; by destruct (dec_struct dec_services _) as [x|]; [injection Ec as ->|]. }
    apply dec_struct_some in Hd as (fs1 & Hd). unfold dec_services in Hd.
    revert svc Hs p Hp.
    apply (dec_list_all (dec_struct dec_compose_service) (fun s => forall p, p ∈ cv_Ports s -> in_int64 p) _ _) with (2 := Hd).
    intros w' svc (fs2 & Hsvc)%dec_struct_some.
    unfold dec_compose_service in Hsvc. decoded Hsvc. injection Hsvc as <-. cbn.
    eapply dec_list_all; [|eassumption]. intros ? ?. apply dec_int_in.
Qed.

(** ** Containers *)

(** What the agent makes of an op that creates a container *)
Definition creates_container (op : Op) : bool :=
  existsb (String.eqb (op_Kind op)) [KindContainerApply; KindDeployRollout; KindDeployRecreate].

Definition op_container (op : Op) : option ContainerSpec :=
  if String.eqb (op_Kind op) KindContainerApply then dec_spec (op_Spec op)
  else if creates_container op then rs_Container <$> dec_rollout (op_Spec op)
  else None.

Lemma agent_spec_permitted s :
  (forall v, v ∈ co_Volumes s -> managed_name (vm_Name v)) -> managed_name (co_Network s) -> pinned (co_Image s) ->
  CheckPolicy (agent_spec s) = None.
Proof. intros Hv Hn Hi. apply CheckPolicy_permitted. constructor; try done. by right. Qed.

Lemma volume_managed rid name : sforall name_char rid = true -> sforall name_char name = true ->
  managed_name (VolumeName rid name).
Proof. intros Hr Hn. apply name_managed. by rewrite !sforall_app, Hr, Hn. Qed.

Section containers.
(** [published] says which host ports a container of a resource may publish. *)
Context (published : string -> PortMapping -> Prop).

Record admitted (s : containerOpSpec) : Prop := {
  ad_wire : wire_ok s;
  ad_policy : CheckPolicy (agent_spec s) = None;
  ad_ports : forall p, p ∈ co_Ports s -> pm_Host p <> 0%Z -> published (co_ResourceID s) p;
}.

Definition op_admitted (op : Op) : Prop :=
  creates_container op = true -> exists cs, op_container op = Some cs /\ CheckPolicy cs = None /\
    forall p, p ∈ cs_Ports cs -> pm_Host p <> 0%Z -> published (cs_ResourceID cs) p.

Lemma other_admitted op : creates_container op = false -> op_admitted op.
Proof. intros E E'. by rewrite E in E'. Qed.

Lemma others_admitted ops : (forall op, op ∈ ops -> creates_container op = false) -> Forall op_admitted ops.
Proof. intros H. apply Forall_forall. intros op Hop. by apply other_admitted, H. Qed.

Lemma apply_admitted id deps s : admitted s -> op_admitted (mkOp id KindContainerApply deps (enc_container_op s)).
Proof.
  intros [Hw Hp Hpt] _. exists (agent_spec s). split_and!; [|done|done].
  exact (dec_container_op s Hw).
Qed.

Lemma rollout_admitted id (b : bool) deps s gen health dep : admitted s -> probe_wf health ->
  op_admitted (mkOp id (if b then KindDeployRecreate else KindDeployRollout) deps (enc_rollout_op s gen health dep)).
Proof.
  intros [Hw Hp Hpt] Hh _. exists (agent_spec s). split_and!; [|done|done].
  unfold op_container. cbn [op_Spec op_Kind]. rewrite dec_rollout_op by done. by destruct b.
Qed.
End containers.

Lemma op_admitted_weaken (P Q : string -> PortMapping -> Prop) op :
  op_admitted P op -> (forall rid p, P rid p -> Q rid p) -> op_admitted Q op.
Proof. intros H HPQ (cs & E & Hp & Hpt)%H. exists cs. split_and!; [done..|]. intros p Hin Hh. by apply HPQ, Hpt. Qed.

(** Bound to an address of the mesh *)
Definition on_mesh (ip rid : string) (p : PortMapping) : Prop := pm_HostIP p = ip /\ ip <> "".

Lemma mesh_container_admitted rs image env cp port ip vols cmd refs gpus shm :
  sforall name_char (rr_ResourceID rs) = true -> sforall name_char (rr_ProjectID rs) = true ->
  checkImagePinned image = None -> in_int64 cp -> in_int64 port -> ip <> "" -> in_int64 gpus -> in_int64 shm ->
  (forall v, v ∈ vols -> managed_name (vm_Name v)) ->
  admitted (on_mesh ip) (mesh_container rs image env cp port ip vols cmd refs gpus shm).
Proof.
  intros Hr Hp Hi Hcp Hport Hip Hg Hs Hv. constructor.
  - constructor; cbn; try done. by intros p ->%list_elem_of_singleton.
  - apply agent_spec_permitted; [done|by apply name_managed|by apply checkImagePinned_spec].
  - cbn. by intros p ->%list_elem_of_singleton.
Qed.

Lemma engine_ops_admitted published rs image vols cs :
  admitted published cs -> Forall (op_admitted published) (engine_ops rs image vols cs).1.
Proof.
  intros H. unfold engine_ops. cbv zeta. cbn [fst]. rewrite !Forall_app. split_and!.
  - apply others_admitted. by intros op ->%list_elem_of_singleton.
  - apply others_admitted. by intros op (v & -> & _)%list_elem_of_fmap.
  - by apply Forall_singleton, apply_admitted.
Qed.

(** ** Managed engines *)

Definition port_int64 {A} (port : A -> Z) (m : gmap string A) : Prop := forall rid t, m !! rid = Some t -> in_int64 (port t).

Lemma small_int64 z : (-1 <= z <= 65535)%Z -> in_int64 z.
Proof. intros H. split; unfold int64_min, int64_max; lia. Qed.

Lemma dec_llm_gpus v spec : dec_llm v = Some spec -> in_int64 (gpuRequest (ll_GPUs spec)).
Proof.
  unfold dec_llm. intros (fs & H)%dec_struct_some. decoded H. injection H as <-. cbn. unfold gpuRequest.
  destruct (_ <=? 0)%Z; [by apply small_int64|by eapply dec_int_in].
Qed.

Lemma managed_ops_admitted i rs x :
  sforall name_char (rr_ResourceID rs) = true -> sforall name_char (rr_ProjectID rs) = true ->
  port_int64 db_Port (in_dbTargets i) -> port_int64 lt_Port (in_llmTargets i) -> port_int64 st_Port (in_s3Targets i) ->
  managed_ops i rs = Some x -> Forall (op_admitted (on_mesh (hh_MeshIP (in_hardening i)))) x.1.
Proof.
  intros Hr Hp Pdb Pllm Ps3. set (ip := hh_MeshIP (in_hardening i)).
  assert (V : forall n, sforall name_char n = true -> managed_name (VolumeName (rr_ResourceID rs) n)).
  { intros n. by apply volume_managed. }
  assert (D : forall t y, in_int64 (db_Port t) -> renderDatabaseOps rs t ip = Some y ->
    Forall (op_admitted (on_mesh ip)) y.1).
  { unfold renderDatabaseOps. intros t y Ht. destruct (DBEngine _) as [def|] eqn:Ed; [|done]. cbn [mbind option_bind].
    destruct (String.eqb_spec ip ""); [done|]. destruct (_ || _); [done|]. intros [= <-].
    destruct (DBEngine_ok _ _ Ed) as (_ & _ & Himg & Hcp).
    apply engine_ops_admitted, mesh_container_admitted; try done; try by apply small_int64.
    intros v [->|Hv]%elem_of_cons; [by apply V|].
    destruct (_ && _); [apply list_elem_of_singleton in Hv as ->; by apply V|by apply not_elem_of_nil in Hv]. }
  assert (L : forall t refs y, in_int64 (lt_Port t) -> renderLLMOps rs t ip refs = Some y ->
    Forall (op_admitted (on_mesh ip)) y.1).
  { unfold renderLLMOps. intros t refs y Ht. destruct (String.eqb_spec ip ""); [done|]. destruct (_ || _); [done|].
    destruct (dec_llm _) as [spec|] eqn:Es; [|done]. cbn [mbind option_bind].
    destruct (LLMEngine _) as [def|] eqn:Ed; [|done]. intros [= <-].
    destruct (LLMEngine_ok _ _ Ed) as (_ & Himg & Hcp).
    apply engine_ops_admitted, mesh_container_admitted; try done; try by apply small_int64.
    - by eapply dec_llm_gpus.
    - intros v ->%list_elem_of_singleton. by apply V. }
  assert (S : forall t y, in_int64 (st_Port t) -> renderS3Ops rs t ip = Some y ->
    Forall (op_admitted (on_mesh ip)) y.1).
  { unfold renderS3Ops. intros t y Ht. destruct (S3EngineByName _) as [def|] eqn:Ed; [|done]. cbn [mbind option_bind].
    destruct (String.eqb_spec ip ""); [done|]. destruct (_ || _); [done|]. intros [= <-].
    destruct (S3EngineByName_ok _ _ Ed) as (_ & Himg & Hcp).
    apply engine_ops_admitted, mesh_container_admitted; try done; try by apply small_int64.
    intros v ->%list_elem_of_singleton. by apply V. }
  unfold managed_ops. cbv zeta. fold ip.
  destruct (in_dbTargets i !! rr_ResourceID rs) as [t|] eqn:Edb; cbn [mbind option_bind].
  1: destruct (renderDatabaseOps _ _ _) eqn:E; [intros [= <-]; eapply D; [|exact E]; by eapply Pdb|].
  all: destruct (in_llmTargets i !! rr_ResourceID rs) as [t1|] eqn:Ellm; cbn [mbind option_bind].
  1, 3: destruct (renderLLMOps _ _ _ _) eqn:E'; [intros [= <-]; eapply L; [|exact E']; by eapply Pllm|].
  all: destruct (in_s3Targets i !! rr_ResourceID rs) as [t2|] eqn:Es3; cbn [mbind option_bind]; [|done].
  all: apply S; by eapply Ps3.
Qed.

(** ** Apps *)

(** What the user writes in an app's spec, beyond what decoding checks: the
    volume names are plain and the registry images pinned. *)
Record app_admissible (spec : appResourceSpec) : Prop := {
  aa_volumes : forall v, v ∈ named_volumes spec -> sforall name_char (vm_Name v) = true;
  aa_image : as_Image spec <> "" -> pinned (as_Image spec);
  aa_services : forall svcs s, as_Compose spec = Some svcs -> s ∈ svcs -> cv_Image s <> "" -> pinned (cv_Image s);
}.

(** An app with a registry image chose its host ports. *)
Definition registry_app (rs : ResourceSpec) : Prop :=
  rr_Kind rs = "app" /\ exists spec, dec_app (rr_Spec rs) = Some spec /\ as_Image spec <> "".

Section apps.
Context (rs : ResourceSpec) (spec : appResourceSpec).
Context (Hrid : sforall name_char (rr_ResourceID rs) = true) (Hprj : sforall name_char (rr_ProjectID rs) = true)
  (Hspec : dec_app (rr_Spec rs) = Some spec) (Happ : app_admissible spec).

Lemma mounted_managed v : v ∈ map (mounted (rr_ResourceID rs)) (named_volumes spec) -> managed_name (vm_Name v).
Proof.
  intros (w & -> & Hw)%list_elem_of_fmap. apply volume_managed; [done|]. by apply (aa_volumes _ Happ).
Qed.

Lemma app_container_admitted published refs domains : as_Image spec <> "" ->
  (forall p, published (rr_ResourceID rs) p) -> admitted published (app_container rs spec refs domains).
Proof.
  intros Hi Hpub. destruct (dec_app_ints _ _ Hspec) as [Ip Im _]. constructor.
  - constructor; cbn; [|done|by apply small_int64..]. intros p (q & -> & Hq)%list_elem_of_fmap. by apply Ip.
  - apply agent_spec_permitted; cbn; [apply mounted_managed|by apply name_managed|by apply (aa_image _ Happ)].
  - intros p _ _. apply Hpub.
Qed.

Lemma renderAppOps_admitted published refs domains x : (forall p, published (rr_ResourceID rs) p) ->
  renderAppOps rs refs domains = Some x -> Forall (op_admitted published) x.1.
Proof.
  intros Hpub. unfold renderAppOps. rewrite Hspec. cbn [mbind option_bind].
  destruct (String.eqb_spec (as_Image spec) "") as [|Hi]; [done|]. intros [= <-].
  by apply (engine_ops_admitted published rs (as_Image spec) (map vm_Name (named_volumes spec))), app_container_admitted.
Qed.

Lemma deploy_probe_wf : probe_wf (deployHealth spec (rr_Spec rs)).
Proof.
  assert (Hprim : in_int64 (primary_port spec)).
  { unfold primary_port. destruct (as_Ports spec) as [|p ps] eqn:E; [by apply small_int64|].
    apply (ai_ports _ (dec_app_ints _ _ Hspec) p). rewrite E. left. }
  assert (Hdet : in_int64 (dh_Port (dec_detected (rr_Spec rs)))).
  { unfold dec_detected. cbn. destruct (dec_int _) eqn:E; cbn; [by eapply dec_int_in|by apply small_int64]. }
  unfold deployHealth. cbv zeta.
  repeat match goal with |- context [if ?c then _ else _] => destruct c end;
    constructor; cbn; try done; by apply small_int64.
Qed.

Lemma compose_probe_wf svcs s : as_Compose spec = Some svcs -> s ∈ svcs -> probe_wf (composeServiceHealth s).
Proof.
  intros Hc Hs. unfold composeServiceHealth. destruct (cv_Ports s) as [|p ps] eqn:E;
    constructor; cbn; try (by apply small_int64). eapply (ai_services _ (dec_app_ints _ _ Hspec)); [done|done|].
  rewrite E. left.
Qed.

(** *** Built images *)

Lemma deploy_container_admitted published refs domains target registry :
  shippable (tg_SHA target) (tg_ImagePin target) ->
  admitted published (deploy_container rs spec refs domains target registry).
Proof.
  intros Hs. destruct (dec_app_ints _ _ Hspec) as [Ip Im _]. constructor.
  - constructor; cbn; [|done|by apply small_int64..]. intros p (q & -> & Hq)%list_elem_of_fmap.
    split; cbn; [by apply Ip|by apply small_int64].
  - apply agent_spec_permitted; cbn; [apply mounted_managed|by apply name_managed|].
    unfold deploy_image. destruct (cross_host target); [by apply image_pinned|].
    change (PinnedImageTag (rr_ResourceID rs) (tg_SHA target) (tg_ImagePin target))
      with (QualifyImage "" (PinnedImageTag (rr_ResourceID rs) (tg_SHA target) (tg_ImagePin target))).
    by apply image_pinned.
  - intros p (q & -> & _)%list_elem_of_fmap. done.
Qed.

Lemma render_single_admitted published refs domains target serverID registry x :
  shippable (tg_SHA target) (tg_ImagePin target) ->
  render_single rs spec refs domains target serverID registry = Some x -> Forall (op_admitted published) x.1.
Proof.
  intros Hs.
  assert (R : forall deps, op_admitted published (rollout_op rs spec refs domains target registry deps)).
  { intros deps. apply rollout_admitted; [by apply deploy_container_admitted|apply deploy_probe_wf]. }
  assert (V : Forall (op_admitted published) (volume_ops rs spec)).
  { apply others_admitted. by intros op (v & -> & _)%list_elem_of_fmap. }
  assert (B : op_admitted published (build_op rs spec target registry)).
  { apply other_admitted. unfold build_op. by destruct (buildConfig _) as [[??]?]. }
  assert (C : op_admitted published (clone_op rs target)) by by apply other_admitted.
  assert (P : op_admitted published (pull_op rs target registry)) by by apply other_admitted.
  unfold render_single.
  repeat match goal with |- context [if ?c then _ else _] => destruct c end; intros [= <-]; cbn [fst];
    rewrite ?Forall_app; repeat (apply conj || apply Forall_cons_2 || apply Forall_nil_2); auto.
Qed.

Lemma compose_image_pinned target svcs s : shippable (tg_SHA target) (tg_ImagePin target) ->
  as_Compose spec = Some svcs -> s ∈ validComposeServices svcs -> pinned (compose_image rs target s).
Proof.
  intros Hs Hc [Hin Hv]%filter_elem. unfold compose_image. fold (builds s) in Hv. destruct (builds s).
  - rewrite PinnedServiceImageTag_release.
    change (PinnedImageTag (rr_ResourceID rs +:+ "-" +:+ cv_Name s) (tg_SHA target) (tg_ImagePin target))
      with (QualifyImage "" (PinnedImageTag (rr_ResourceID rs +:+ "-" +:+ cv_Name s) (tg_SHA target) (tg_ImagePin target))).
    by apply image_pinned.
  - eapply (aa_services _ Happ); [done|done|].
    rewrite andb_true_iff, orb_false_l, !negb_true_iff, !String.eqb_neq in Hv. tauto.
Qed.

Lemma compose_container_admitted published refs domains target webSvc svcs s :
  shippable (tg_SHA target) (tg_ImagePin target) -> as_Compose spec = Some svcs -> s ∈ validComposeServices svcs ->
  admitted published (compose_container rs spec refs domains target webSvc s).
Proof.
  intros Hs Hc Hv. pose proof Hv as [Hin _]%filter_elem. constructor.
  - constructor; cbn; try (by apply small_int64). intros p (q & -> & Hq)%list_elem_of_fmap.
    split; cbn; [|by apply small_int64]. by eapply (ai_services _ (dec_app_ints _ _ Hspec)).
  - apply agent_spec_permitted; cbn; [by intros v ?%not_elem_of_nil| |by eapply compose_image_pinned].
    by apply (name_managed ("app-" +:+ rr_ResourceID rs)).
  - intros p (q & -> & _)%list_elem_of_fmap. done.
Qed.

Lemma compose_ops_admitted published refs domains target webSvc local renderable svcs :
  shippable (tg_SHA target) (tg_ImagePin target) -> as_Compose spec = Some svcs ->
  (forall s, s ∈ renderable -> s ∈ validComposeServices svcs) ->
  Forall (op_admitted published) (compose_ops rs spec refs domains target webSvc local renderable).
Proof.
  intros Hs Hc Hr. unfold compose_ops. apply Forall_app. split.
  - apply others_admitted. intros op. destruct (_ && _); [by intros ->%list_elem_of_singleton|by intros ?%not_elem_of_nil].
  - apply Forall_forall. intros op (s & Hin & Hop)%concat_map_elem. unfold compose_service_ops in Hop.
    apply elem_of_app in Hop as [Hop|Hop].
    + apply other_admitted. unfold compose_source in Hop.
      destruct (builds s); [destruct (reshipsRetainedImage _ _)|destruct (negb _)]; try by apply not_elem_of_nil in Hop.
      all: by apply list_elem_of_singleton in Hop as ->.
    + apply list_elem_of_singleton in Hop as ->. pose proof (Hr _ Hin) as Hv.
      apply rollout_admitted; [by eapply compose_container_admitted|].
      eapply compose_probe_wf; [done|]. by apply filter_elem in Hv as [? _].
Qed.

Lemma renderDeployOps_admitted published refs domains target serverID registry x :
  shippable (tg_SHA target) (tg_ImagePin target) ->
  renderDeployOps rs refs domains target serverID registry = Some x -> Forall (op_admitted published) x.1.
Proof.
  intros Hs. unfold renderDeployOps. rewrite Hspec. cbn [mbind option_bind].
  destruct (compose_services spec) as [svcs|] eqn:Ec; [|by apply render_single_admitted].
  assert (Hc : as_Compose spec = Some svcs).
  { unfold compose_services in Ec. destruct (as_Compose spec) as [[|s l]|]; congruence. }
  unfold renderComposeDeployOps. destruct (renderable_services _ _ _) as [local renderable] eqn:Er.
  unfold renderable_services in Er. injection Er as <- <-.
  match goal with |- match ?l with _ => _ end = _ -> _ => destruct l eqn:El end; [done|]. rewrite <- El.
  intros [= <-]. cbn [fst]. eapply compose_ops_admitted; [done..|]. by intros s [[? _]%filter_elem _]%filter_elem.
Qed.
End apps.

(** ** The document *)

(** What the store hands over: plain ids, ports that are integers of the column
    type, commits that can be image tags, and the user's specs as above. *)
Record admissible (i : RenderInput) : Prop := {
  am_ids : forall rs, rs ∈ in_specs i ->
    sforall name_char (rr_ResourceID rs) = true /\ sforall name_char (rr_ProjectID rs) = true;
  am_apps : forall rs spec, rs ∈ in_specs i -> rr_Kind rs = "app" -> dec_app (rr_Spec rs) = Some spec ->
    app_admissible spec;
  am_targets : forall rs t, rs ∈ in_specs i -> in_deployTargets i !! rr_ResourceID rs = Some t ->
    shippable (tg_SHA t) (tg_ImagePin t);
  am_db : port_int64 db_Port (in_dbTargets i);
  am_llm : port_int64 lt_Port (in_llmTargets i);
  am_s3 : port_int64 st_Port (in_s3Targets i);
}.

(** The host ports a document publishes: on the mesh, or of a registry app. *)
Definition published (i : RenderInput) (rid : string) (p : PortMapping) : Prop :=
  on_mesh (hh_MeshIP (in_hardening i)) rid p \/
  exists rs, rs ∈ in_specs i /\ rr_ResourceID rs = rid /\ registry_app rs.

Lemma resource_admitted i rs : admissible i -> rs ∈ in_specs i ->
  Forall (op_admitted (published i)) (render_resource i rs).1.
Proof.
  intros Ha Hrs. destruct (am_ids _ Ha _ Hrs) as [Hr Hp]. unfold render_resource. cbv zeta.
  destruct (negb _); [constructor|].
  destruct (managed_ops i rs) as [[ops net]|] eqn:Em.
  { eapply Forall_impl; [eapply (managed_ops_admitted i rs (ops, net)); try done; apply Ha|].
    intros op Hop. eapply op_admitted_weaken; [exact Hop|]. by left. }
  destruct (String.eqb_spec (rr_Kind rs) "app") as [Hk|Hk].
  2:{ apply others_admitted. by intros op ->%list_elem_of_singleton. }
  destruct (deployed_ops i rs) as [[ops net]|] eqn:Ed.
  { unfold deployed_ops in Ed. destruct (in_deployTargets i !! rr_ResourceID rs) as [t|] eqn:Et; [|done].
    cbn [mbind option_bind] in Ed. pose proof Ed as Ed'. unfold renderDeployOps in Ed'.
    destruct (dec_app (rr_Spec rs)) as [spec|] eqn:Es; [|done].
    eapply (renderDeployOps_admitted rs spec Hr Hp Es (am_apps _ Ha _ _ Hrs Hk Es) _ _ _ t _ _ (ops, net));
      [by eapply am_targets|exact Ed]. }
  destruct (renderAppOps rs _ _) as [[ops net]|] eqn:Ea.
  { pose proof Ea as Ea'. unfold renderAppOps in Ea'. destruct (dec_app (rr_Spec rs)) as [spec|] eqn:Es; [|done].
    cbn [mbind option_bind] in Ea'. destruct (String.eqb_spec (as_Image spec) "") as [|Hi]; [done|].
    eapply (renderAppOps_admitted rs spec Hr Hp Es (am_apps _ Ha _ _ Hrs Hk Es) _ _ _ (ops, net)); [|exact Ea].
    intros p. right. exists rs. split_and!; [done..|]. split; [done|]. eauto. }
  apply others_admitted. by intros op ->%list_elem_of_singleton.
Qed.

Lemma cluster_admitted P i : Forall (op_admitted P) (render_cluster i).
Proof.
  apply others_admitted. intros op. unfold render_cluster. rewrite elem_of_app, concat_map_elem.
  intros [H|(rs & _ & H)].
  - destruct (render_node i) as [node|] eqn:En; [|by apply not_elem_of_nil in H].
    apply elem_of_cons in H as [->|H].
    { unfold render_node, renderClusterNodeOp in En. repeat case_match; try done; by injection En as <-. }
    destruct (_ && _); [|by apply not_elem_of_nil in H]. apply concat_map_elem in H as (rs & _ & H).
    unfold render_workload in H. destruct (renderClusterWorkloadOps _ _ _ _ _ _ _ _) as [ops|] eqn:Ew;
      [|by apply not_elem_of_nil in H].
    unfold renderClusterWorkloadOps in Ew. destruct (negb _); [done|].
    destruct (dec_app _) as [spec|]; [|done]. cbn [mbind option_bind] in Ew. cbv zeta in Ew.
    destruct (String.eqb (K8sNamespace _) ""); [done|]. destruct (compose_services spec) as [svcs|].
    + unfold renderClusterComposeOps in Ew. cbv zeta in Ew.
      destruct (_ =? 0)%nat; [done|]. destruct (_ && _); [done|]. destruct (existsb _ _); [done|].
      match type of Ew with match ?l with _ => _ end = _ => destruct l eqn:El; [done|]; rewrite <- El in Ew end.
      injection Ew as <-. apply list_elem_of_omap in H as (s & _ & Hs).
      unfold cluster_service_op in Hs. destruct (String.eqb (cluster_image _ _ _ _) _); [done|]. by injection Hs as <-.
    + destruct (negb _); [done|]. destruct (_ || _); [done|]. injection Ew as <-.
      by apply list_elem_of_singleton in H as ->.
  - destruct (renderClusterBuildOps rs _ _) as [ops|] eqn:Eb; [|by apply not_elem_of_nil in H].
    unfold renderClusterBuildOps in Eb. destruct (_ || _); [done|].
    destruct (dec_app _) as [spec|]; [|done]. cbn [mbind option_bind] in Eb. cbv zeta in Eb.
    destruct (reshipsRetainedImage _ _); [done|]. destruct (compose_services spec) as [svcs|].
    + match type of Eb with match ?l with _ => _ end = _ => destruct l eqn:El; [done|]; rewrite <- El in Eb end.
      injection Eb as <-. apply elem_of_cons in H as [->|H]; [done|]. by apply list_elem_of_fmap in H as (s' & -> & _).
    + injection Eb as <-. apply elem_of_cons in H as [->|H]; [done|]. apply list_elem_of_singleton in H as ->.
      unfold cluster_single_build. by destruct (buildConfig _) as [[??]?].
Qed.

Lemma host_admitted P serverID hh url : Forall (op_admitted P) (renderHostOps serverID hh url).
Proof.
  apply others_admitted. intros op. unfold renderHostOps. rewrite !elem_of_app, !elem_of_cons.
  intros [[->|[->|H]]|[H|H]]; [done|done|by apply not_elem_of_nil in H|..].
  - destruct (hh_CISEnabled hh); [by apply list_elem_of_singleton in H as ->|by apply not_elem_of_nil in H].
  - destruct (_ && _); [by apply list_elem_of_singleton in H as ->|by apply not_elem_of_nil in H].
Qed.

Lemma backups_admitted P runs rendered : Forall (op_admitted P) (renderBackupOps runs rendered).
Proof.
  apply others_admitted. intros op (r & _ & Hop)%list_elem_of_omap. unfold backup_op in Hop.
  destruct (DBEngine _); [|done]. cbn [mbind option_bind] in Hop.
  repeat match type of Hop with (if ?c then _ else _) = _ => destruct c end; try done; try by injection Hop as <-.
  destruct (br_RecoveryTargetTime r); [by injection Hop as <-|done].
Qed.


Lemma demo_admissible : admissible (demo_input "").
Proof.
  constructor.
  - cbn. intros rs. rewrite !elem_of_cons. by intros [->|[->|[->|?%not_elem_of_nil]]].
  - cbn. intros rs spec. rewrite !elem_of_cons.
    intros [->|[->|[->|?%not_elem_of_nil]]] Hk Hd; [done| | |done]; vm_compute in Hd; injection Hd as <-.
    + constructor; [by intros v ?%not_elem_of_nil|done|]. intros svcs s [= <-]. rewrite !elem_of_cons.
      by intros [->|[->|[->|?%not_elem_of_nil]]].
    + constructor; [|intros _; by apply checkImagePinned_spec|done]. by intros v ->%list_elem_of_singleton.
  - cbn. intros rs t. rewrite !elem_of_cons. intros [->|[->|[->|?%not_elem_of_nil]]] Ht; [done| |done|done].
    vm_compute in Ht. injection Ht as <-. by constructor.
  - intros rid t H. unfold demo_input in H. cbn [in_dbTargets] in H.
    apply lookup_singleton_Some in H as [_ <-]. by apply small_int64.
  - done.
  - done.
Qed.


(** The database of the demonstration, as the agent sees it. *)
Definition demo_db_op : option Op :=
  List.find (fun op => String.eqb (op_ID op) "res:res_db") (renderOps_ops (demo_input "")).

Lemma demo_db_in op : demo_db_op = Some op -> op ∈ renderOps_ops (demo_input "").
Proof. intros [H _]%find_some. by apply list_elem_of_In. Qed.


Example demo_db_ports :
  (op ← demo_db_op; cs ← op_container op; Some (cs_Ports cs)) = Some [mkPortMapping 5432 15000 "" "10.8.0.2"].
Proof. vm_compute. reflexivity. Qed.
