(* ===== verification/RenderKeep.v ===== *)
(** * Rendering does not take down what runs

    The agent collects, before it applies a document, every container the
    document does not name ([Gc]).  So what the control plane renders decides
    what keeps running while a deployment is under way.  Here: a service of an
    app stays when its rollout is rendered, and when the whole app is held back
    (its stub retains it).  The case in between, an app of which some services
    render while another of the same server is held back, is not covered by the
    code: the last example shows the live container being collected. *)

From Stdlib Require Import Ascii.
From S2P Require Import Prelude GoStrings Json Dsd Spec Policy Docker Gc Naming CpDb Deploy Engines Render RenderDeploy RenderCluster RenderDoc RenderOrder RenderPolicy.

Local Open Scope string_scope.
#[local] Arguments String.append !_ _ / : simpl nomatch.

(** ** What protects a container *)

Lemma in_rolled_out ops v org srv op key :
  op ∈ ops -> key ∈ op_rollout_group op -> key ∈ protectedGroups (mkDocument v org srv ops).
Proof.
  intros Hop Hk. unfold protectedGroups, rolloutManagedGroups. cbn [doc_Ops].
  apply elem_of_union_l, elem_of_list_to_set, concat_map_elem. eauto.
Qed.

Lemma in_retained ops v org srv op key :
  op ∈ ops -> key ∈ op_retained op -> key ∈ protectedGroups (mkDocument v org srv ops).
Proof.
  intros Hop Hk. unfold protectedGroups. cbn [doc_Ops].
  apply elem_of_union_r, elem_of_list_to_set, concat_map_elem. eauto.
Qed.

Lemma rollout_group id (b : bool) deps s gen health dep :
  wire_ok s -> probe_wf health -> co_ResourceID s <> "" ->
  rolloutGroupKey (co_ResourceID s) (co_Service s) ∈
    op_rollout_group (mkOp id (if b then KindDeployRecreate else KindDeployRollout) deps (enc_rollout_op s gen health dep)).
Proof.
  intros Hw Hh Hr. unfold op_rollout_group. cbn [op_Kind op_Spec].
  assert (E : String.eqb (if b then KindDeployRecreate else KindDeployRollout) KindDeployRollout ||
    String.eqb (if b then KindDeployRecreate else KindDeployRollout) KindDeployRecreate = true) by by destruct b.
  rewrite E, dec_rollout_op by done. cbn [rs_Container].
  change (cs_ResourceID (agent_spec s)) with (co_ResourceID s).
  rewrite (proj2 (String.eqb_neq _ _) Hr). left.
Qed.

Lemma stub_retains i rs t svc :
  rr_ResourceID rs <> "" -> in_deployTargets i !! rr_ResourceID rs = Some t ->
  svc ∈ retainedContainerGroups rs t (in_serverID i) ->
  rolloutGroupKey (rr_ResourceID rs) svc ∈ op_retained (stub_op i rs).
Proof.
  intros Hr Ht Hs. unfold op_retained, stub_op. cbv zeta. rewrite Ht. cbn [op_Kind op_Spec].
  change (negb (String.eqb KindResourceSync KindResourceSync)) with false. cbv iota.
  destruct (retainedContainerGroups rs t (in_serverID i)) as [|g gs] eqn:E; [by apply not_elem_of_nil in Hs|].
  unfold dec_resource_sync, dec_struct. cbn [app].
  assert (Er : dec_str (jget [("kind", JStr (rr_Kind rs)); ("resourceId", JStr (rr_ResourceID rs));
    ("retain", JArr (map JStr (g :: gs))); ("spec", rr_Spec rs)] "resourceId") = Some (rr_ResourceID rs)) by done.
  assert (El : dec_list dec_elem_str (jget [("kind", JStr (rr_Kind rs)); ("resourceId", JStr (rr_ResourceID rs));
    ("retain", JArr (map JStr (g :: gs))); ("spec", rr_Spec rs)] "retain") = Some (g :: gs)).
  { change (mapM dec_elem_str (map JStr (g :: gs)) = Some (g :: gs)). by apply mapM_enc. }
  rewrite Er. cbn [mbind option_bind]. rewrite El. cbn [mbind option_bind rss_ResourceID rss_Retain].
  rewrite (proj2 (String.eqb_neq _ _) Hr). by apply list_elem_of_fmap_2.
Qed.

(** ** Resources *)

(** The op of the service is rendered, or the whole app is held back. *)
Definition rendered_or_held (i : RenderInput) (rs : ResourceSpec) (t : Target) (svc : string) : Prop :=
  match deployed_ops i rs with
  | None => renderAppOps rs (refs_of i (rr_ResourceID rs)) (domains_of i (rr_ResourceID rs)) = None
  | Some _ =>
      match (spec ← dec_app (rr_Spec rs); compose_services spec) with
      | Some svcs => named svc (renderable_services (validComposeServices svcs) t (in_serverID i)).2 = true
      | None => True
      end
  end.

Lemma resource_op_in i rs op : hh_Decommissioning (in_hardening i) = false ->
  rs ∈ in_specs i -> op ∈ (render_resource i rs).1 -> op ∈ renderOps_ops i.
Proof.
  intros Hd Hrs Hop. unfold renderOps_ops. rewrite Hd. cbv zeta. unfold graph_ops, resource_ops.
  rewrite !elem_of_app. left. right. left. right. apply concat_map_elem. eauto.
Qed.

Lemma render_single_rolls rs spec refs domains t serverID registry x :
  "" ∈ retainedContainerGroups rs t serverID -> dec_app (rr_Spec rs) = Some spec -> compose_services spec = None ->
  render_single rs spec refs domains t serverID registry = Some x ->
  exists deps, rollout_op rs spec refs domains t registry deps ∈ x.1.
Proof.
  intros Hret Hs Hc. unfold retainedContainerGroups in Hret.
  destruct (negb (String.eqb (rr_Kind rs) "app")); [by apply not_elem_of_nil in Hret|].
  rewrite Hs, Hc in Hret. cbv zeta in Hret. fold (cross_host t) in Hret.
  assert (Hb : cross_host t = true -> String.eqb serverID (tg_BuildServerID t) = false).
  { intros E. rewrite E in Hret. by destruct (String.eqb serverID _); [apply not_elem_of_nil in Hret|]. }
  unfold render_single. destruct (cross_host t && String.eqb (rg_repository registry) ""); [done|].
  destruct (reshipsRetainedImage t false), (cross_host t); try rewrite (Hb eq_refl).
  3: destruct (String.eqb (tg_Status t) "queued" || String.eqb (tg_Status t) "building"); [done|].
  all: intros [= <-]; eexists; cbn [fst]; rewrite ?elem_of_app, ?elem_of_cons; eauto 10.
Qed.

(** Some op of the document protects the group. *)
Definition protecting (ops : list Op) (key : string) : Prop :=
  exists op, op ∈ ops /\ (key ∈ op_rollout_group op \/ key ∈ op_retained op).

Lemma protecting_groups ops key v org srv : protecting ops key -> key ∈ protectedGroups (mkDocument v org srv ops).
Proof. intros (op & Hop & [Hk|Hk]); [by eapply in_rolled_out|by eapply in_retained]. Qed.

Section app.
Context (rs : ResourceSpec) (spec : appResourceSpec).
Context (Hrid : sforall name_char (rr_ResourceID rs) = true) (Hprj : sforall name_char (rr_ProjectID rs) = true)
  (Hspec : dec_app (rr_Spec rs) = Some spec) (Happ : app_admissible spec) (Hne : rr_ResourceID rs <> "").

Lemma compose_protects refs domains target webSvc local renderable svcs svc :
  shippable (tg_SHA target) (tg_ImagePin target) -> as_Compose spec = Some svcs ->
  (forall s, s ∈ renderable -> s ∈ validComposeServices svcs) -> named svc renderable = true ->
  protecting (compose_ops rs spec refs domains target webSvc local renderable) (rolloutGroupKey (rr_ResourceID rs) svc).
Proof.
  intros Hs Hc Hv (s & Hin & <-)%named_elem. eexists. split.
  - unfold compose_ops. apply elem_of_app. right. apply concat_map_elem. exists s. split; [done|].
    unfold compose_service_ops. apply elem_of_app. right. left.
  - left. apply (rollout_group _ _ _ (compose_container rs spec refs domains target webSvc s)); [|..|done].
    + apply (ad_wire (fun _ _ => True)). by eapply compose_container_admitted; eauto.
    + eapply compose_probe_wf; [done..|]. by apply Hv, filter_elem in Hin as [? _].
Qed.

Lemma single_protects refs domains target serverID registry x :
  shippable (tg_SHA target) (tg_ImagePin target) -> compose_services spec = None ->
  "" ∈ retainedContainerGroups rs target serverID ->
  render_single rs spec refs domains target serverID registry = Some x ->
  protecting x.1 (rolloutGroupKey (rr_ResourceID rs) "").
Proof.
  intros Hs Hc Hret Hx. destruct (render_single_rolls _ _ _ _ _ _ _ _ Hret Hspec Hc Hx) as [deps Hin].
  exists (rollout_op rs spec refs domains target registry deps). split; [done|]. left.
  apply (rollout_group _ _ _ (deploy_container rs spec refs domains target registry)); [|..|done].
  - apply (ad_wire (fun _ _ => True)). by apply deploy_container_admitted.
  - by apply deploy_probe_wf.
Qed.

Lemma retained_single target serverID svc : compose_services spec = None ->
  svc ∈ retainedContainerGroups rs target serverID -> svc = "".
Proof.
  intros Hc. unfold retainedContainerGroups. rewrite Hspec, Hc. cbv zeta.
  repeat case_match; rewrite ?elem_of_nil, ?list_elem_of_singleton; done.
Qed.

Lemma renderDeployOps_protects refs domains target serverID registry x svc :
  shippable (tg_SHA target) (tg_ImagePin target) ->
  renderDeployOps rs refs domains target serverID registry = Some x ->
  svc ∈ retainedContainerGroups rs target serverID ->
  (forall svcs, compose_services spec = Some svcs ->
    named svc (renderable_services (validComposeServices svcs) target serverID).2 = true) ->
  protecting x.1 (rolloutGroupKey (rr_ResourceID rs) svc).
Proof.
  intros Hs Hx Hret Hn. unfold renderDeployOps in Hx. rewrite Hspec in Hx. cbn [mbind option_bind] in Hx.
  destruct (compose_services spec) as [svcs|] eqn:Ec.
  2:{ pose proof (retained_single _ _ _ Ec Hret) as ->. by eapply single_protects. }
  assert (Hc : as_Compose spec = Some svcs).
  { unfold compose_services in Ec. destruct (as_Compose spec) as [[|s l]|]; congruence. }
  specialize (Hn _ eq_refl). unfold renderComposeDeployOps in Hx.
  pose proof (renderable_valid (validComposeServices svcs) target serverID) as Hv.
  destruct (renderable_services _ _ _) as [local renderable]. destruct Hv as [Hl Hrl]. cbn [snd] in Hn.
  destruct renderable as [|s0 rest] eqn:E; [done|]. rewrite <- E in *. injection Hx as <-. cbn [fst].
  apply (compose_protects _ _ _ _ _ _ svcs); [done..| |done]. by intros s Hin%Hrl%Hl.
Qed.
End app.

Lemma resource_protects i rs t svc :
  admissible i -> rs ∈ in_specs i -> rr_ResourceID rs <> "" -> rr_ClusterID rs = "" -> managed_ops i rs = None ->
  in_deployTargets i !! rr_ResourceID rs = Some t -> svc ∈ retainedContainerGroups rs t (in_serverID i) ->
  rendered_or_held i rs t svc ->
  protecting (render_resource i rs).1 (rolloutGroupKey (rr_ResourceID rs) svc).
Proof.
  intros Ha Hrs Hne Hc Hm Ht Hret Hroh. destruct (am_ids _ Ha _ Hrs) as [Hr Hp].
  assert (Hk : rr_Kind rs = "app").
  { unfold retainedContainerGroups in Hret. destruct (String.eqb_spec (rr_Kind rs) "app"); [done|].
    by apply not_elem_of_nil in Hret. }
  unfold render_resource. cbv zeta. rewrite Hc, Hm, Hk. cbn [String.eqb negb].
  unfold rendered_or_held in Hroh. change (String.eqb "app" "app") with true. cbv iota.
  destruct (deployed_ops i rs) as [[ops net]|] eqn:Ed.
  - unfold deployed_ops in Ed. rewrite Ht in Ed. cbn [mbind option_bind] in Ed.
    destruct (dec_app (rr_Spec rs)) as [spec|] eqn:Es; [|by unfold renderDeployOps in Ed; rewrite Es in Ed].
    apply (renderDeployOps_protects rs spec Hr Hp Es (am_apps _ Ha _ _ Hrs Hk Es) Hne _ _ _ _ _ (ops, net) svc
      (am_targets _ Ha _ _ Hrs Ht) Ed Hret).
    cbn [mbind option_bind] in Hroh. intros svcs Ec. by rewrite Ec in Hroh.
  - rewrite Hroh. exists (stub_op i rs). split; [left|right]. by eapply stub_retains.
Qed.

(** C6: Rendering keeps an app up: as long as a service of the app that is placed
    on this server is rendered, or nothing of the app is, the agent's garbage
    collection leaves the service's containers - of this or of an earlier
    generation - alone. *)
Theorem rendering_keeps_running i rs t svc (c : ContainerState) version org srv :
  admissible i -> hh_Decommissioning (in_hardening i) = false ->
  rs ∈ in_specs i -> rr_ResourceID rs <> "" -> rr_ClusterID rs = "" -> managed_ops i rs = None ->
  in_deployTargets i !! rr_ResourceID rs = Some t -> svc ∈ retainedContainerGroups rs t (in_serverID i) ->
  rendered_or_held i rs t svc ->
  label (Labels c) LabelResourceID = rr_ResourceID rs -> label (Labels c) LabelService = svc ->
  let doc := mkDocument version org srv (renderOps_ops i) in
  gcReap c (desiredNames doc) (protectedGroups doc) (in_serverID i) = false.
Proof.
  intros Ha Hd Hrs Hne Hc Hm Ht Hret Hroh Hlr Hls doc.
  destruct (resource_protects i rs t svc Ha Hrs Hne Hc Hm Ht Hret Hroh) as (op & Hop & Hkey).
  assert (Hpg : rolloutGroupKey (rr_ResourceID rs) svc ∈ protectedGroups doc).
  { apply protecting_groups. exists op. split; [by eapply resource_op_in|done]. }
  unfold gcReap. cbv zeta. destruct (bool_decide _); [done|]. destruct (ownedByAnotherServer _ _); [done|].
  rewrite Hlr, Hls, (proj2 (String.eqb_neq _ _) Hne). by rewrite bool_decide_true.
Qed.

(** ** The shop, while its release is under way *)

Definition running (service : string) : ContainerState :=
  mkContainerState "c1" ("sigmahub-app-res_shop-" +:+ service +:+ "-0") "img" true 42%Z ""
    (<[LabelResourceID := "res_shop"]> (<[LabelService := service]> {[LabelServerID := "srv_1"]})).

Definition shop : ResourceSpec := demo_app "res_shop" (demo_graph "").

(** What the collection of the document rendered for [srv_1] does to the live
    container of a service, [db] being placed on [dbServer]. *)
Definition demo_reaps (dbServer service : string) : bool :=
  let doc := mkDocument 7%Z "org_1" "srv_1" (renderOps_ops (demo_input dbServer)) in
  gcReap (running service) (desiredNames doc) (protectedGroups doc) "srv_1".

Lemma rendering_keeps_running_witness :
  rendered_or_held (demo_input "") shop (demo_target "res_shop") "api" /\ demo_reaps "" "api" = false.
Proof.
  assert (H : rendered_or_held (demo_input "") shop (demo_target "res_shop") "api") by (vm_compute; reflexivity).
  split; [exact H|].
  apply (rendering_keeps_running (demo_input "") shop (demo_target "res_shop") "api" (running "api") 7%Z "org_1" "srv_1"
    demo_admissible); [reflexivity|right; left|discriminate|reflexivity|vm_compute; reflexivity| |  |exact H|reflexivity..].
  - vm_compute. reflexivity.
  - apply (bool_decide_unpack _). vm_compute. reflexivity.
Defined.

(** [db] runs elsewhere and is not up yet: [web] renders, [api] does not, and
    its running container is collected in the middle of the release. *)
Example held_back_is_reaped : demo_reaps "srv_2" "api" = true /\ demo_reaps "srv_2" "web" = false.
Proof. split; vm_compute; reflexivity. Qed.
