(* ===== verification/DsdStore.v ===== *)
(** * Issuing documents and taking their reports

    Models [cp/internal/store/dsd_store.go]: the row of [server_dsd] a server
    has, the version it counts, the bounded re-drive of a document that failed
    to apply, the alert when that budget is spent, the agent's reports, and the
    destructive operations waiting to be applied.  The signing key is an
    argument, as in the code. *)

From Stdlib Require Import Ascii.
From stdpp Require Import sorting.
From S2P Require Import Prelude GoStrings Json Dsd Spec CpDsd Naming CpDb Deploy.

Local Open Scope string_scope.
Local Open Scope io_scope.

Definition maxDSDRedrive : Z := 5.

Definition AlertDSDApplyFailed := "dsd_apply_failed".

Definition ErrForeignKey := "violates foreign key constraint".
Definition ErrUnscheduled := "resource is not scheduled on a server".

Definition server_by_id (t : tables) (id : string) : option server_row :=
  List.find (fun s => String.eqb (sv_id s) id) (servers (machines t)).
Definition dsd_of (t : tables) (serverID : string) : option dsd_row := server_dsd (machines t) !! serverID.

(** ** The row *)

(** [INSERT INTO server_dsd ...]: the defaults of the columns *)
Definition fresh_row (orgID : string) : dsd_row := mkDsdRow orgID 0 (JObj []) "" "" 0 true 0 [].

Definition same_doc (docHash : string) (r : dsd_row) : bool := String.eqb (ds_hash r) docHash && (0 <? ds_version r)%Z.
Definition dsd_converged (r : dsd_row) : bool := ds_apply_ok r || (ds_applied r <? ds_version r)%Z.
Definition budget_spent (r : dsd_row) : bool := (maxDSDRedrive <=? ds_redrive r)%Z.

(** What [StoreDSD] does with a row *)
Inductive verdict := Unchanged | Stuck | Issue.

Definition decide_dsd (docHash : string) (r : dsd_row) : verdict :=
  if same_doc docHash r && dsd_converged r then Unchanged
  else if same_doc docHash r && negb (dsd_converged r) && budget_spent r then Stuck
  else Issue.

Section sign.
Context {pg : Postgres} {sg : Signatures}.

Definition next_document (orgID serverID : string) (ops : list Op) (r : dsd_row) : Document :=
  mkDocument (wrap64 (ds_version r + 1)) orgID serverID ops.

(** The [UPDATE] of [StoreDSD] *)
Definition issued_row (priv orgID serverID docHash : string) (ops : list Op) (r0 r : dsd_row) : dsd_row :=
  let doc := next_document orgID serverID ops r0 in
  mkDsdRow (ds_org r) (doc_Version doc) (enc_document doc) (Sign priv doc) docHash (ds_applied r) true
    (if same_doc docHash r0 then ds_redrive r0 + 1 else 0) [].

(** ** The alert *)

Definition newline : string := String (ascii_of_nat 10) "".

Definition stuck_body (name : string) (version : Z) (failedOps : list string) : string :=
  let detail := match failedOps with [] => "no op ids were reported" | _ => join_with ", " failedOps end in
  name +:+ " has failed to apply desired-state version " +:+ dec version +:+ " " +:+ dec maxDSDRedrive +:+
  " times; the control plane has stopped retrying it. The server is still reachable, so its status will keep reading healthy — but the ops below have not been applied and will not be retried until its configuration changes." +:+
  newline +:+ newline +:+ "Failing ops: " +:+ detail.

Definition stuck_key (serverID : string) (version : Z) : string := "dsdfail:" +:+ serverID +:+ ":" +:+ dec version.

Definition alertApplyStuckTx (orgID serverID : string) (version : Z) (failedOps : list string) : io cp unit :=
  row <- query (fun _ t => server_by_id t serverID) ;;
  let name := match row with Some s => sv_name s | None => serverID end in
  enqueueAlertTx orgID AlertDSDApplyFailed (stuck_key serverID version) 0
    ("Server stopped converging: " +:+ name) (stuck_body name version failedOps).

(** ** Issuing *)

(** [INSERT ... ON CONFLICT DO UPDATE ... RETURNING]: the row, created when the
    server has none yet *)
Definition lock_dsd_row (orgID serverID : string) : io cp dsd_row := exec (fun _ t =>
  match dsd_of t serverID with
  | Some r => Ok (r, t)
  | None =>
      match server_by_id t serverID with
      | Some _ => Ok (fresh_row orgID, set_server_dsd (insert serverID (fresh_row orgID)) t)
      | None => Err ErrForeignKey
      end
  end).

Definition StoreDSD (priv orgID serverID : string) (ops : list Op) (docHash : string) : io cp (option Signed) :=
  transaction (
    r <- wrapping "lock dsd row: " (lock_dsd_row orgID serverID) ;;
    match decide_dsd docHash r with
    | Unchanged => ret None
    | Stuck =>
        _ <- alertApplyStuckTx orgID serverID (ds_version r) (ds_failed_ops r) ;;
        ret None
    | Issue =>
        let doc := next_document orgID serverID ops r in
        _ <- wrapping "update dsd: " (update (fun _ =>
               set_server_dsd (alter (issued_row priv orgID serverID docHash ops r) serverID))) ;;
        _ <- auditTx orgID "reconciler" "DSD issued" (serverID +:+ " v" +:+ dec (doc_Version doc)) ;;
        ret (Some (mkSigned doc (Sign priv doc)))
    end).

Definition GetDSD (serverID : string) : io cp Signed :=
  row <- query (fun _ t => r ← dsd_of t serverID; if (0 <? ds_version r)%Z then Some r else None) ;;
  match row with
  | None => fail ErrNotFound
  | Some r =>
      match dec_document (ds_doc r) with
      | Some doc => ret (mkSigned doc (ds_signature r))
      | None => fail "json: cannot unmarshal"
      end
  end.

Definition CurrentDSDVersion (serverID : string) : io cp Z :=
  query (fun _ t => match dsd_of t serverID with Some r => ds_version r | None => 0%Z end).

(** The [UPDATE] of [ForceReapplyResource] *)
Definition forced_row (orgID : string) (r : dsd_row) : dsd_row :=
  if String.eqb (ds_org r) orgID
  then mkDsdRow (ds_org r) (ds_version r) (ds_doc r) (ds_signature r) "" (ds_applied r) (ds_apply_ok r) 0 (ds_failed_ops r)
  else r.

Definition ForceReapplyResource (orgID resourceID actor : string) : io cp string :=
  transaction (
    row <- query (fun _ t => List.find (fun r => String.eqb (rs_org r) orgID && String.eqb (rs_id r) resourceID) (resources t)) ;;
    match row with
    | None => fail ErrNotFound
    | Some r =>
        let serverID := deref (rs_server r) in
        if String.eqb serverID "" then fail ErrUnscheduled
        else
          _ <- update (fun _ => set_server_dsd (alter (forced_row orgID) serverID)) ;;
          _ <- auditTx orgID actor "Redeploy forced (re-apply)" (rs_name r) ;;
          ret serverID
    end).

(** ** Reports *)

(** The [WHERE] of [ResourceHostedHere] *)
Definition ResourceHostedHere (t : tables) (serverID : string) (r : resource_row) : bool :=
  is_server (rs_server r) serverID
  || match rs_cluster r with
     | Some c => existsb (fun n => String.eqb (nd_cluster n) c && String.eqb (nd_server n) serverID) (cluster_nodes t)
     | None => false
     end
  || places t (rs_id r) serverID.

Definition reported_row (version : Z) (conv : bool) (failedOps : list string) (r : dsd_row) : dsd_row :=
  mkDsdRow (ds_org r) (ds_version r) (ds_doc r) (ds_signature r) (ds_hash r) version conv (ds_redrive r) failedOps.

(** The [UPDATE] of one resource's status *)
Definition report_resource (serverID : string) (kv : string * json) (t : tables) : tables :=
  match res_by_id t kv.1 with
  | Some r => if ResourceHostedHere t serverID r then set_resource_status (insert kv.1 kv.2) t else t
  | None => t
  end.

(** [opStatus] in the order the map is ranged over *)
Definition ApplyDSDStatus (serverID : string) (version : Z) (opStatus : list (string * json)) (conv : bool)
    (failedOps : list string) : io cp bool :=
  transaction (
    row <- query (fun _ t => dsd_of t serverID) ;;
    match row with
    | None => fail ErrNotFound
    | Some r =>
        if (version <? ds_applied r)%Z || (ds_version r <? version)%Z then ret false
        else
          _ <- update (fun _ => set_server_dsd (alter (reported_row version conv (sort_strings failedOps)) serverID)) ;;
          _ <- for_each opStatus (fun kv =>
                 wrapping "update resource status: " (update (fun _ => report_resource serverID kv))) ;;
          ret true
    end).

(** ** Destructive operations *)

(** [ORDER BY created_at, id] *)
Definition pending_le (a b : pending_row) : Prop :=
  (pd_created_at a < pd_created_at b)%Z \/ (pd_created_at a = pd_created_at b /\ String.leb (pd_id a) (pd_id b) = true).

#[export] Instance pending_le_dec a b : Decision (pending_le a b).
Proof. unfold pending_le. apply _. Defined.

Definition still_pending (orgID serverID : string) (p : pending_row) : bool :=
  String.eqb (pd_server p) serverID && String.eqb (pd_org p) orgID && bool_decide (pd_applied_at p = None).

Definition PendingDestructiveOpsForServer (orgID serverID : string) : io cp (list pending_row) :=
  query (fun _ t => merge_sort pending_le
    (List.filter (still_pending orgID serverID) (pending_destructive_ops (machines t)))).

Definition applied_pending (serverID id : string) (now : Z) (p : pending_row) : pending_row :=
  if String.eqb (pd_id p) id && String.eqb (pd_server p) serverID && bool_decide (pd_applied_at p = None)
  then mkPendingRow (pd_id p) (pd_org p) (pd_server p) (pd_kind p) (pd_target p) (pd_created_at p) (Some now)
  else p.

Definition MarkDestructiveOpApplied (serverID id : string) : io cp unit :=
  update (fun now => set_pending (map (applied_pending serverID id now))).

Definition AllServerIDs : io cp (list (string * string)) :=
  query (fun _ t => map (fun s => (sv_id s, sv_org s))
    (order_by sv_created_at (List.filter (fun s => negb (sv_deleted s)) (servers (machines t))))).
End sign.
