(* ===== verification/DsdMachine.v ===== *)
(** * What a server's channel of documents promises

    Above the rows of [server_dsd] ([DsdStore]) stands an abstract channel: the
    log of every document ever issued to a server, and how far the agent has
    come with it.  Every operation of the store, whatever fails in between, is
    a run of row steps, and every row step is one of the channel: documents are
    only appended, numbered in order and signed, reports stay within what was
    issued, and an unchanged document is retried a bounded number of times. *)

From stdpp Require Import sorting.
From S2P Require Import Prelude GoStrings Json Dsd Spec CpDsd Naming CpDb Deploy DeployPipeline DsdStore.

Local Open Scope string_scope.
Local Open Scope io_scope.
#[local] Arguments String.append !_ _ / : simpl nomatch.

(** ** Operations *)

Inductive dsd_op :=
| DStore (org srv : string) (ops : list Op) (hash : string)
| DReport (srv : string) (version : Z) (status : list (string * json)) (conv : bool) (failed : list string)
| DForce (org resource actor : string)
| DApplied (srv id : string).

Section machine.
Context {pg : Postgres} {sg : Signatures} (priv : string).

Definition to_unit {A} (m : io cp A) : io cp unit := _ <- m ;; ret tt.

Definition run_dsd (o : dsd_op) : io cp unit :=
  match o with
  | DStore org srv ops h => to_unit (StoreDSD priv org srv ops h)
  | DReport srv v st ok failed => to_unit (ApplyDSDStatus srv v st ok failed)
  | DForce org rid actor => to_unit (ForceReapplyResource org rid actor)
  | DApplied srv id => MarkDestructiveOpApplied srv id
  end.

(** ** Steps of a row *)

(** [wanted] are the hashes rendered for the server, [forced] whether a
    redeploy may be forced. *)
Section steps.
Context (wanted : string -> Prop) (forced : Prop) (srv : string).

Inductive row_step : option dsd_row -> option dsd_row -> Prop :=
| step_create org : row_step None (Some (fresh_row org))
| step_issue org h ops r : wanted h -> decide_dsd h r = Issue -> (ds_version r < int64_max)%Z ->
    row_step (Some r) (Some (issued_row priv org srv h ops r r))
| step_force org r : forced -> row_step (Some r) (Some (forced_row org r))
| step_report v ok failed r : (ds_applied r <= v <= ds_version r)%Z ->
    row_step (Some r) (Some (reported_row v ok failed r)).

(** The version counter has not run out. *)
Definition room (t : tables) : Prop := forall r, dsd_of t srv = Some r -> (ds_version r < int64_max)%Z.

Definition row_steps : option dsd_row -> option dsd_row -> Prop := rtc row_step.

Definition allows (o : dsd_op) : Prop :=
  match o with
  | DStore _ s _ h => s = srv -> wanted h
  | DForce _ _ _ => forced
  | _ => True
  end.

(** The row of the server is some steps further. *)
Definition onward (t0 : tables) (now : Z) : assertion := fun n t => n = now /\ row_steps (dsd_of t0 srv) (dsd_of t srv).

Lemma onward_refl t0 now n t : from t0 now n t -> onward t0 now n t.
Proof. intros [-> ->]. split; [done|apply rtc_refl]. Qed.

Lemma onward_same t0 now n t t' : onward t0 now n t -> dsd_of t' srv = dsd_of t srv -> onward t0 now n t'.
Proof. intros [-> H] E. split; [done|by rewrite E]. Qed.

Lemma onward_then t0 now n t t' : onward t0 now n t -> row_step (dsd_of t srv) (dsd_of t' srv) -> onward t0 now n t'.
Proof. intros [-> H] Hs. split; [done|by eapply rtc_r]. Qed.

Lemma update_onward t0 now f : (forall t, dsd_of (f t) srv = dsd_of t srv) ->
  does (onward t0 now) (update (fun _ => f)) (fun _ => onward t0 now) (at_time now).
Proof. intros H. apply does_update; [by intros n t [-> _]|]. intros n t Ht. by eapply onward_same. Qed.

Lemma query_onward t0 now {A} (f : Z -> tables -> A) :
  does (onward t0 now) (query f) (fun _ => onward t0 now) (at_time now).
Proof. eapply does_weaken; [apply (does_query (onward t0 now) f (at_time now)); by intros n t [-> _]|done|by intros a n t [? _]|done]. Qed.

Lemma enqueue_onward t0 now org event key window title body :
  does (onward t0 now) (enqueueAlertTx org event key window title body) (fun _ => onward t0 now) (at_time now).
Proof.
  eapply does_bind; [apply does_wrapping, query_onward|]. intros u. apply does_wrapping.
  apply does_update; [by intros n t [-> _]|]. intros n t Ht. by eapply onward_same.
Qed.

Lemma dsd_of_alter f s t : dsd_of (set_server_dsd (alter f s) t) srv =
  if decide (s = srv) then f <$> dsd_of t srv else dsd_of t srv.
Proof.
  unfold dsd_of. cbn. destruct (decide (s = srv)) as [->|H]; [apply lookup_alter_eq|by apply lookup_alter_ne].
Qed.

Lemma lock_onward t0 now org s : room t0 ->
  does (from t0 now) (lock_dsd_row org s)
    (fun r n t => onward t0 now n t /\ dsd_of t s = Some r /\ (s = srv -> (ds_version r < int64_max)%Z)) (at_time now).
Proof.
  intros Hr. apply does_exec; [by intros n t [-> _]|]. intros n t [-> ->].
  pose proof (onward_refl t0 now now t0 (conj eq_refl eq_refl)) as Ht.
  destruct (dsd_of t0 s) as [r|] eqn:E; [split_and!; [done|done|intros ->; by apply Hr]|].
  destruct (server_by_id t0 s); [|done]. split_and!.
  - destruct (decide (s = srv)) as [->|Hne].
    + eapply onward_then; [exact Ht|]. rewrite E. unfold dsd_of. cbn. rewrite lookup_insert_eq. constructor.
    + eapply onward_same; [exact Ht|]. unfold dsd_of. cbn. by apply lookup_insert_ne.
  - unfold dsd_of. cbn. by apply lookup_insert_eq.
  - by intros _.
Qed.

Lemma audit_onward t0 now org actor action target :
  does (onward t0 now) (auditTx org actor action target) (fun _ => onward t0 now) (at_time now).
Proof. by apply does_wrapping, update_onward. Qed.

Lemma StoreDSD_onward t0 now org s ops h : room t0 -> (s = srv -> wanted h) ->
  does (from t0 now) (StoreDSD priv org s ops h) (fun _ => onward t0 now) (from t0 now).
Proof.
  intros Hroom Hw. apply does_transaction; [|by intros a n t []].
  eapply does_bind; [by apply does_wrapping, lock_onward|]. intros r.
  destruct (decide_dsd h r) eqn:Ed.
  - apply does_ret. by intros n t [? _].
  - eapply does_pre; [|by intros n t [? _]]. eapply (does_bind _ _ _ (fun _ => onward t0 now)); [|intros u; by apply does_ret].
    eapply does_bind; [apply query_onward|]. intros row. apply enqueue_onward.
  - eapply (does_bind _ _ _ (fun _ => onward t0 now)).
    + apply does_wrapping, does_update; [by intros n t [[-> _] _]|]. intros n t (Ht & E & Hv).
      destruct (decide (s = srv)) as [->|Hne].
      * eapply onward_then; [exact Ht|]. rewrite dsd_of_alter, decide_True, E by done. by constructor; [apply Hw| |apply Hv].
      * eapply onward_same; [exact Ht|]. by rewrite dsd_of_alter, decide_False.
    + intros u. eapply does_bind; [apply audit_onward|]. intros u'. by apply does_ret.
Qed.

Lemma ForceReapply_onward t0 now org rid actor : forced ->
  does (from t0 now) (ForceReapplyResource org rid actor) (fun _ => onward t0 now) (from t0 now).
Proof.
  intros Hf. apply does_transaction; [|by intros a n t []].
  eapply does_pre; [|apply onward_refl]. eapply does_bind; [apply query_onward|]. intros [r|].
  2:{ apply does_fail. by intros n t [-> _]. }
  cbv zeta. destruct (String.eqb _ _); [apply does_fail; by intros n t [-> _]|].
  eapply (does_bind _ _ _ (fun _ => onward t0 now)).
  - apply does_update; [by intros n t [-> _]|]. intros n t Ht.
    destruct (decide (deref (rs_server r) = srv)) as [E|Hne].
    + destruct (dsd_of t srv) as [row|] eqn:Er.
      * eapply onward_then; [exact Ht|]. rewrite dsd_of_alter, decide_True, Er by done. by constructor.
      * eapply onward_same; [exact Ht|]. by rewrite dsd_of_alter, decide_True, Er.
    + eapply onward_same; [exact Ht|]. by rewrite dsd_of_alter, decide_False.
  - intros u. eapply does_bind; [apply audit_onward|]. intros u'. by apply does_ret.
Qed.

Lemma report_resource_dsd s kv t : dsd_of (report_resource s kv t) srv = dsd_of t srv.
Proof. unfold report_resource. destruct (res_by_id t kv.1); [|done]. by destruct (ResourceHostedHere _ _ _). Qed.

Lemma reports_onward t0 now s st :
  does (onward t0 now) (for_each st (fun kv => wrapping "update resource status: " (update (fun _ => report_resource s kv))))
    (fun _ => onward t0 now) (at_time now).
Proof.
  induction st as [|kv st IH]; cbn [for_each]; [by apply does_ret|].
  eapply does_bind; [apply does_wrapping, update_onward; intros t; apply report_resource_dsd|]. by intros u.
Qed.

Lemma ApplyDSDStatus_onward t0 now s v st ok failed :
  does (from t0 now) (ApplyDSDStatus s v st ok failed) (fun _ => onward t0 now) (from t0 now).
Proof.
  apply does_transaction; [|by intros a n t []].
  eapply does_bind; [apply does_query; by intros n t [-> _]|]. intros [r|].
  2:{ apply does_fail. by intros n t [[-> _] _]. }
  destruct ((v <? ds_applied r) || (ds_version r <? v))%Z eqn:Ev.
  { apply does_ret. intros n t [H _]. by apply onward_refl. }
  apply orb_false_iff in Ev as [E1 E2]. apply Z.ltb_ge in E1, E2.
  eapply (does_bind _ _ _ (fun _ => onward t0 now)).
  - apply does_update; [by intros n t [[-> _] _]|]. intros n t [H E].
    destruct (decide (s = srv)) as [->|Hne].
    + eapply onward_then; [by apply onward_refl|]. rewrite dsd_of_alter, decide_True, <- E by done. by constructor.
    + eapply onward_same; [by apply onward_refl|]. by rewrite dsd_of_alter, decide_False.
  - intros u. eapply does_bind; [apply reports_onward|]. intros u'. by apply does_ret.
Qed.

Lemma run_dsd_onward o t0 now : room t0 -> allows o ->
  does (from t0 now) (run_dsd o) (fun _ => onward t0 now) (onward t0 now).
Proof.
  assert (D : forall A (m : io cp A), does (from t0 now) m (fun _ => onward t0 now) (from t0 now) ->
    does (from t0 now) (to_unit m) (fun _ => onward t0 now) (onward t0 now)).
  { intros A m H. eapply does_bind; [eapply does_weaken; [exact H|done|done|by intros; apply onward_refl]|].
    intros a. by apply does_ret. }
  intros Hroom. destruct o; cbn [allows run_dsd]; intros Ha.
  - by apply D, StoreDSD_onward.
  - apply D, ApplyDSDStatus_onward.
  - by apply D, ForceReapply_onward.
  - apply does_update; intros n t H; [by apply onward_refl|]. eapply onward_same; [by apply onward_refl|done].
Qed.

(** A run of operations, among whatever else happens to the database. *)
Inductive dsd_step : cp -> cp -> Prop :=
| dsd_step_op o r d d' : allows o -> room (cp_tables d) -> run_dsd o d = (r, d') -> dsd_step d d'
| dsd_step_world d d' : server_dsd (machines (cp_tables d')) = server_dsd (machines (cp_tables d)) -> dsd_step d d'.

Lemma dsd_run_rows d d' : rtc dsd_step d d' -> row_steps (dsd_of (cp_tables d) srv) (dsd_of (cp_tables d') srv).
Proof.
  induction 1 as [d|d1 d2 d3 [o r d d' Ho Hr E|d d' E] _ IH]; [apply rtc_refl| |].
  - etransitivity; [|exact IH].
    pose proof (does_run _ _ _ _ _ _ _ (run_dsd_onward o (cp_tables d) (cp_now d) Hr Ho) (conj eq_refl eq_refl) E) as H.
    destruct r; apply H.
  - unfold dsd_of in *. by rewrite <- E.
Qed.

(** ** The channel *)

Record channel := mkChannel {
  ch_log : list Document;      (* every document issued, oldest first *)
  ch_want : string;            (* the hash the last one was rendered from *)
  ch_tries : Z;                (* how often it was issued again *)
  ch_acked : Z;                (* the version the agent last reported on *)
  ch_ok : bool;                (* and whether all of it was applied *)
}.

Definition empty_channel : channel := mkChannel [] "" 0 0 true.
Definition issued (c : channel) : Z := Z.of_nat (length (ch_log c)).

Definition appended (c : channel) (org : string) (ops : list Op) : list Document :=
  ch_log c ++ [mkDocument (issued c + 1) org srv ops].

Inductive channel_step (c : channel) : channel -> Prop :=
| channel_change org ops h : wanted h -> ch_log c = [] \/ ch_want c <> h ->
    channel_step c (mkChannel (appended c org ops) h 0 (ch_acked c) true)
| channel_retry org ops : wanted (ch_want c) -> ch_log c <> [] -> ch_acked c = issued c -> ch_ok c = false ->
    (ch_tries c < maxDSDRedrive)%Z ->
    channel_step c (mkChannel (appended c org ops) (ch_want c) (ch_tries c + 1) (ch_acked c) true)
| channel_report v ok : (ch_acked c <= v <= issued c)%Z ->
    channel_step c (mkChannel (ch_log c) (ch_want c) (ch_tries c) v ok)
| channel_force : forced -> channel_step c (mkChannel (ch_log c) "" 0 (ch_acked c) (ch_ok c)).

Record channel_ok (c : channel) : Prop := {
  co_numbered : forall i doc, ch_log c !! i = Some doc -> doc_Version doc = Z.of_nat (S i) /\ doc_ServerID doc = srv;
  co_acked : (0 <= ch_acked c <= issued c)%Z;
  co_tries : (0 <= ch_tries c <= maxDSDRedrive)%Z;
}.

(** The row a channel has in [server_dsd] *)
Record represents (row : option dsd_row) (c : channel) : Prop := {
  rp_version : match row with Some r => ds_version r | None => 0%Z end = issued c;
  rp_hash : match row with Some r => ds_hash r | None => "" end = ch_want c;
  rp_redrive : match row with Some r => ds_redrive r | None => 0%Z end = ch_tries c;
  rp_applied : match row with Some r => ds_applied r | None => 0%Z end = ch_acked c;
  rp_apply_ok : match row with Some r => ds_apply_ok r | None => true end = ch_ok c;
  rp_doc : forall r doc, row = Some r -> last (ch_log c) = Some doc ->
    ds_doc r = enc_document doc /\ ds_signature r = Sign priv doc;
}.

Lemma empty_represented : represents None empty_channel /\ channel_ok empty_channel.
Proof. split; constructor; cbn; try done; unfold issued, maxDSDRedrive; cbn; lia. Qed.

Lemma issued_appended c org ops : Z.of_nat (length (appended c org ops)) = (issued c + 1)%Z.
Proof. unfold appended, issued. rewrite length_app. cbn. lia. Qed.

Lemma appended_ok c org ops : channel_ok c ->
  forall i doc, appended c org ops !! i = Some doc -> doc_Version doc = Z.of_nat (S i) /\ doc_ServerID doc = srv.
Proof.
  intros H i doc [Hi|[Hi E]]%lookup_app_Some; [by apply H|].
  apply list_lookup_singleton_Some in E as [E <-]. cbn. split; [unfold issued; lia|done].
Qed.

Lemma channel_step_ok c c' : channel_step c c' -> channel_ok c -> channel_ok c' /\ ch_log c `prefix_of` ch_log c'.
Proof.
  intros [org ops h Hw Hn|org ops Hw Hn Ha Hok Ht|v ok Hv|Hf] H; pose proof (co_acked _ H); pose proof (co_tries _ H);
    (split; [constructor; cbn|cbn; try done; by eexists]); unfold issued, maxDSDRedrive in *; cbn;
    rewrite ?issued_appended; unfold issued in *; try lia; try by apply (co_numbered _ H).
  all: by apply appended_ok.
Qed.

(** An issue of the store is a change or a retry of the channel. *)
Lemma issue_channel c org ops h r : represents (Some r) c -> channel_ok c -> wanted h ->
  decide_dsd h r = Issue -> (ds_version r < int64_max)%Z ->
  exists c', channel_step c c' /\ represents (Some (issued_row priv org srv h ops r r)) c'.
Proof.
  intros [Rv Rh Rr Ra Ro Rd] H Hw Hd Hv. cbn in Rv, Rh, Rr, Ra, Ro. pose proof (co_acked _ H) as Hacked.
  assert (Hnext : wrap64 (ds_version r + 1) = (issued c + 1)%Z).
  { rewrite wrap64_id by (unfold in_int64, int64_min, int64_max, issued in *; lia). lia. }
  assert (Hrep : forall tries, (if same_doc h r then ds_redrive r + 1 else 0)%Z = tries ->
    represents (Some (issued_row priv org srv h ops r r)) (mkChannel (appended c org ops) h tries (ch_acked c) true)).
  { intros tries E. unfold issued_row, next_document. cbv zeta. rewrite Hnext, E. constructor; cbn; try done.
    - by rewrite <- issued_appended with (org := org) (ops := ops).
    - unfold appended. intros r' doc [= <-]. rewrite last_snoc. by intros [= <-]. }
  unfold decide_dsd in Hd. destruct (same_doc h r) eqn:Es; unfold same_doc in Es.
  - apply andb_true_iff in Es as [Eh Ev]. apply String.eqb_eq in Eh. apply Z.ltb_lt in Ev.
    cbn [andb] in Hd. destruct (dsd_converged r) eqn:Ec; [done|]. cbn [negb andb] in Hd.
    destruct (budget_spent r) eqn:Eb; [done|]. unfold dsd_converged, budget_spent in Ec, Eb.
    apply orb_false_iff in Ec as [Eo Ea]. apply Z.ltb_ge in Ea. apply Z.leb_gt in Eb.
    eexists. split; [|by apply Hrep]. rewrite <- Eh, Rh, Rr. apply channel_retry; try congruence; try lia.
    intros E. rewrite Rv in Ev. unfold issued in Ev. rewrite E in Ev. cbn in Ev. lia.
  - eexists. split; [|by apply Hrep]. apply channel_change; [done|]. apply andb_false_iff in Es as [E|E].
    + right. apply String.eqb_neq in E. congruence.
    + left. apply Z.ltb_ge in E. rewrite Rv in E. unfold issued in E. destruct (ch_log c); [done|cbn in E; lia].
Qed.

Lemma row_step_channel row row' c : row_step row row' -> represents row c -> channel_ok c ->
  exists c', rtc channel_step c c' /\ represents row' c'.
Proof.
  intros [org|org h ops r Hw Hd Hv|org r Hf|v ok failed r Hv] R H.
  - exists c. split; [apply rtc_refl|]. destruct R. constructor; cbn; try done.
    intros r doc _ Hl. exfalso. assert (length (ch_log c) = 0)%nat as E%nil_length_inv by (unfold issued in *; lia).
    by rewrite E in Hl.
  - destruct (issue_channel c org ops h r R H Hw Hd Hv) as (c' & Hs & R'). exists c'. split; [by apply rtc_once|done].
  - unfold forced_row. destruct (String.eqb _ _); [|exists c; split; [apply rtc_refl|done]].
    eexists. split; [by apply rtc_once, channel_force|]. destruct R. constructor; cbn in *; try done.
    intros r' doc [= <-]. by apply (rp_doc0 r).
  - eexists. split.
    + apply rtc_once, (channel_report c v ok). destruct R as [Rv _ _ Ra _ _]. cbn in Rv, Ra. by rewrite <- Rv, <- Ra.
    + destruct R. constructor; cbn in *; try done. intros r' doc [= <-]. by apply (rp_doc0 r).
Qed.

Lemma channel_steps_ok c c' : rtc channel_step c c' -> channel_ok c -> channel_ok c' /\ ch_log c `prefix_of` ch_log c'.
Proof.
  induction 1 as [c|c1 c2 c3 Hs _ IH]; intros H; [done|].
  destruct (channel_step_ok _ _ Hs H) as [H2 P2]. destruct (IH H2) as [H3 P3]. split; [done|by etransitivity].
Qed.

Lemma rows_channel row row' : row_steps row row' -> forall c, represents row c -> channel_ok c ->
  exists c', rtc channel_step c c' /\ represents row' c'.
Proof.
  induction 1 as [row|row1 row2 row3 Hs _ IH]; intros c R H; [exists c; split; [apply rtc_refl|done]|].
  destruct (row_step_channel _ _ _ Hs R H) as (c2 & S2 & R2).
  destruct (channel_steps_ok _ _ S2 H) as [H2 _]. destruct (IH _ R2 H2) as (c3 & S3 & R3).
  exists c3. split; [by etransitivity|done].
Qed.
End steps.

(** ** Claims *)

Definition version_of (t : tables) (srv : string) : Z :=
  match dsd_of t srv with Some r => ds_version r | None => 0%Z end.

(** C5: The store implements the channel: whatever sequence of operations runs,
    and whichever of their statements fail, what [server_dsd] holds for a server
    is the row of a channel that only ever appended documents - each one version
    above the last, for this server - and whose agent never acknowledged more
    than was issued.  The newest is stored with its signature. *)
Theorem channel_refinement srv d d' c :
  rtc (dsd_step (fun _ => True) True srv) d d' -> represents (dsd_of (cp_tables d) srv) c -> channel_ok srv c ->
  exists c', rtc (channel_step (fun _ => True) True srv) c c' /\ represents (dsd_of (cp_tables d') srv) c' /\
    channel_ok srv c' /\ ch_log c `prefix_of` ch_log c'.
Proof.
  intros Hrun R H. apply dsd_run_rows in Hrun. destruct (rows_channel _ _ _ _ _ Hrun c R H) as (c' & S & R').
  destruct (channel_steps_ok _ _ _ _ _ S H) as [H' P]. eauto 10.
Qed.

(** How many documents one rendering may still cost *)
Definition rest (h : string) (c : channel) : Z :=
  if bool_decide (ch_log c = [] \/ ch_want c <> h) then maxDSDRedrive + 1 else maxDSDRedrive - ch_tries c.

Lemma channel_step_rest h srv c c' :
  channel_step (eq h) False srv c c' -> channel_ok srv c -> (issued c' + rest h c' <= issued c + rest h c)%Z.
Proof.
  intros Hs H. pose proof (co_tries _ _ H).
  assert (Hne : forall org ops, ~ (appended srv c org ops = [] \/ h <> h)).
  { intros org ops [E|E]; [|done]. unfold appended in E. by apply app_nil in E as [_ E]. }
  destruct Hs as [org ops h' Hw Hn|org ops Hw Hn Ha Hok Ht|v ok Hv|[]];
    unfold rest, issued in *; cbn [ch_log ch_want ch_tries]; [..|lia]; rewrite issued_appended, <- Hw;
    rewrite (bool_decide_false _ (Hne org ops)).
  - rewrite bool_decide_true by naive_solver. unfold issued, maxDSDRedrive. lia.
  - rewrite bool_decide_false by naive_solver. unfold issued. lia.
Qed.

(** A rendering that does not change is issued at most six times - once, and
    five times again because its apply failed - however often the reconciler
    runs and whatever the agent reports in between. *)
Theorem redrives_bounded srv h d d' c :
  rtc (dsd_step (eq h) False srv) d d' -> represents (dsd_of (cp_tables d) srv) c -> channel_ok srv c ->
  (version_of (cp_tables d) srv <= version_of (cp_tables d') srv <= version_of (cp_tables d) srv + (maxDSDRedrive + 1))%Z.
Proof.
  intros Hrun R H. apply dsd_run_rows in Hrun. destruct (rows_channel _ _ _ _ _ Hrun c R H) as (c' & S & R').
  pose proof (rp_version _ _ R) as E. pose proof (rp_version _ _ R') as E'. unfold version_of. rewrite E, E'.
  assert (Hsum : channel_ok srv c' /\ (issued c' + rest h c' <= issued c + rest h c)%Z).
  { clear R R' E E' Hrun. induction S as [c|c1 c2 c3 Hs _ IH]; [split; [done|lia]|].
    pose proof (channel_step_rest _ _ _ _ Hs H). destruct (channel_step_ok _ _ _ _ _ Hs H) as [H2 _].
    destruct (IH H2). split; [done|lia]. }
  destruct Hsum as [H' Hsum]. destruct (channel_steps_ok _ _ _ _ _ S H) as [_ P%prefix_length].
  pose proof (co_tries _ _ H). pose proof (co_tries _ _ H'). unfold rest, maxDSDRedrive, issued in *.
  repeat case_bool_decide; lia.
Qed.

(** *** Delivery *)

Definition row_or_fresh (org : string) (t : tables) (srv : string) : dsd_row := default (fresh_row org) (dsd_of t srv).

Lemma row_or_fresh_version org t srv : ds_version (row_or_fresh org t srv) = version_of t srv.
Proof. unfold row_or_fresh, version_of. by destruct (dsd_of t srv). Qed.

Definition known (t : tables) (srv : string) : Prop := is_Some (dsd_of t srv) \/ is_Some (server_by_id t srv).

(** Something is owed to the agent: a first document, a change, or a retry. *)
Definition owed (h : string) (r : dsd_row) : Prop :=
  (ds_version r <= 0)%Z \/ ds_hash r <> h \/
  (ds_apply_ok r = false /\ (ds_version r <= ds_applied r)%Z /\ (ds_redrive r < maxDSDRedrive)%Z).

Lemma decide_issue h r : decide_dsd h r = Issue <-> owed h r.
Proof.
  unfold decide_dsd, same_doc, dsd_converged, budget_spent, owed.
  destruct (String.eqb_spec (ds_hash r) h), (Z.ltb_spec 0 (ds_version r)), (ds_apply_ok r),
    (Z.ltb_spec (ds_applied r) (ds_version r)), (Z.leb_spec maxDSDRedrive (ds_redrive r)); cbn;
    (split; [intros; try done; first [left; lia|right; left; done|right; right; done]|intros [?|[?|(?&?&?)]]; try done; try lia]).
Qed.

Lemma lock_quiet org srv d : quiet d -> known (cp_tables d) srv ->
  exists t, lock_dsd_row org srv d = (Ok (row_or_fresh org (cp_tables d) srv), with_tables t d) /\
    dsd_of t srv = Some (row_or_fresh org (cp_tables d) srv) /\ alert_outbox t = alert_outbox (cp_tables d) /\
    (is_Some (dsd_of (cp_tables d) srv) -> t = cp_tables d).
Proof.
  intros Hq Hk. unfold lock_dsd_row, row_or_fresh. rewrite exec_quiet by done.
  destruct (dsd_of (cp_tables d) srv) as [r|] eqn:E; cbn [default].
  - exists (cp_tables d). by destruct d.
  - destruct Hk as [[r Hr]|[sv Hs]]; [congruence|]. rewrite Hs. eexists. split; [done|]. split_and!; [|done|by intros []].
    unfold dsd_of. cbn. by rewrite lookup_insert_eq.
Qed.

Lemma transaction_quiet {A} (m : io cp A) d t a : quiet d -> m d = (Ok a, with_tables t d) ->
  transaction m d = (Ok a, with_tables t d).
Proof. intros Hq E. by apply transaction_ok. Qed.

Lemma issue_quiet org srv ops h d : quiet d -> known (cp_tables d) srv ->
  owed h (row_or_fresh org (cp_tables d) srv) ->
  let r := row_or_fresh org (cp_tables d) srv in
  let doc := next_document org srv ops r in
  exists t, StoreDSD priv org srv ops h d = (Ok (Some (mkSigned doc (Sign priv doc))), with_tables t d) /\
    dsd_of t srv = Some (issued_row priv org srv h ops r r).
Proof.
  intros Hq Hk Ho r doc. destruct (lock_quiet org srv d Hq Hk) as (t1 & E1 & D1 & _). fold r in E1, D1.
  exists (set_audit (fun l => l ++ [mkAudit org "reconciler" "DSD issued" (srv +:+ " v" +:+ dec (doc_Version doc))])%list
    (set_server_dsd (alter (issued_row priv org srv h ops r) srv) t1)). split.
  - apply transaction_quiet; [done|]. unfold wrapping at 1. erewrite bind_run by (rewrite E1; done).
    rewrite (proj2 (decide_issue h r) Ho). cbv zeta. fold doc. unfold auditTx, wrapping.
    erewrite bind_run by (rewrite update_quiet by done; done).
    erewrite bind_run by (rewrite update_quiet by done; done). done.
  - unfold dsd_of in *. cbn. by rewrite lookup_alter_eq, D1.
Qed.

End machine.
