(* ===== verification/DsdReports.v ===== *)
(** * Reports of the agents and the end of retrying

    What an agent's report may touch, and what happens when the retries of a
    document are spent ([DsdStore]); then the life of one failing document,
    evaluated, and the concrete instances of the claims of [DsdMachine]. *)

From stdpp Require Import sorting.
From S2P Require Import Prelude GoStrings Json Dsd Spec CpDsd Naming CpDb Deploy DeployPipeline DsdStore DsdMachine.

Local Open Scope string_scope.
Local Open Scope io_scope.
#[local] Arguments String.append !_ _ / : simpl nomatch.

(** ** The scope of a report *)

Section reports.
Context (srv : string).

(** Only the row of the server and resources it hosts differ. *)
Record scoped (t0 t : tables) : Prop := {
  sc_dsd : forall s, s <> srv -> dsd_of t s = dsd_of t0 s;
  sc_status : forall rid, resource_status (machines t) !! rid <> resource_status (machines t0) !! rid ->
    exists r, res_by_id t0 rid = Some r /\ ResourceHostedHere t0 srv r = true;
  sc_rest : deployments t = deployments t0 /\ pending_destructive_ops (machines t) = pending_destructive_ops (machines t0);
  sc_hosting : resources t = resources t0 /\ cluster_nodes t = cluster_nodes t0 /\
    resource_service_placements t = resource_service_placements t0;
}.

Lemma scoped_refl t : scoped t t.
Proof. constructor; [done| |done|done]. by intros rid H. Qed.

Lemma scoped_hosted t0 t r : scoped t0 t -> ResourceHostedHere t srv r = ResourceHostedHere t0 srv r.
Proof. intros [_ _ _ (_ & Hc & Hp)]. unfold ResourceHostedHere, places. by rewrite Hc, Hp. Qed.

Lemma report_resource_scoped t0 t kv : scoped t0 t -> scoped t0 (report_resource srv kv t).
Proof.
  intros H. unfold report_resource. destruct (res_by_id t kv.1) as [r|] eqn:Er; [|done].
  destruct (ResourceHostedHere t srv r) eqn:Eh; [|done]. pose proof H as [Hd Hs Hr (Hres & Hh)].
  constructor; [done| |done|done]. intros rid Hne. cbn in Hne.
  destruct (decide (rid = kv.1)) as [->|Hk].
  - exists r. split; [|by rewrite <- (scoped_hosted _ _ _ H)]. unfold res_by_id in *. by rewrite <- Hres.
  - apply Hs. by rewrite lookup_insert_ne in Hne by done.
Qed.

Lemma report_resource_row t kv s : dsd_of (report_resource srv kv t) s = dsd_of t s.
Proof. unfold report_resource. destruct (res_by_id t kv.1); [|done]. by destruct (ResourceHostedHere _ _ _). Qed.

Definition report_in_scope (t0 : tables) (now : Z) (row : dsd_row) : assertion := fun n t =>
  n = now /\ scoped t0 t /\ dsd_of t srv = Some row.

Lemma reports_scoped t0 now row st :
  does (report_in_scope t0 now row)
    (for_each st (fun kv => wrapping "update resource status: " (update (fun _ => report_resource srv kv))))
    (fun _ => report_in_scope t0 now row) (at_time now).
Proof.
  induction st as [|kv st IH]; cbn [for_each]; [by apply does_ret|].
  eapply (does_bind _ _ _ (fun _ => report_in_scope t0 now row)); [|by intros u].
  apply does_wrapping, does_update; [by intros n t [-> _]|]. intros n t (-> & Hs & E).
  split_and!; [done|by apply report_resource_scoped|by rewrite report_resource_row].
Qed.

Lemma ApplyDSDStatus_does v st ok failed t0 now :
  does (from t0 now) (ApplyDSDStatus srv v st ok failed)
    (fun accepted n t => n = now /\ scoped t0 t /\ exists r, dsd_of t0 srv = Some r /\
       if accepted : bool then (ds_applied r <= v <= ds_version r)%Z /\ dsd_of t srv = Some (reported_row v ok (sort_strings failed) r)
       else t = t0 /\ ~ (ds_applied r <= v <= ds_version r)%Z)
    (from t0 now).
Proof.
  apply does_transaction; [|by intros a n t []].
  eapply does_bind; [apply does_query; by intros n t [-> _]|]. intros [r|].
  2:{ apply does_fail. by intros n t [[-> _] _]. }
  destruct ((v <? ds_applied r) || (ds_version r <? v))%Z eqn:Ev.
  { apply does_ret. intros n t [[-> ->] E]. split_and!; [done|apply scoped_refl|]. exists r. split_and!; [done|done|].
    apply orb_true_iff in Ev as [E1|E1]; apply Z.ltb_lt in E1; lia. }
  apply orb_false_iff in Ev as [E1 E2]. apply Z.ltb_ge in E1, E2.
  set (row := reported_row v ok (sort_strings failed) r).
  eapply (does_bind _ _ _ (fun _ n t => report_in_scope t0 now row n t /\ dsd_of t0 srv = Some r)).
  - apply does_update; [by intros n t [[-> _] _]|]. intros n t [[-> ->] E]. split; [|done].
    split_and!; [done| |unfold dsd_of in *; cbn; by rewrite lookup_alter_eq, <- E].
    constructor; [|by intros rid H|done|done]. intros s Hs. unfold dsd_of. cbn. by apply lookup_alter_ne.
  - intros u. apply does_pure. intros E.
    eapply (does_bind _ _ _ (fun _ => report_in_scope t0 now row)); [apply reports_scoped|]. intros u'.
    apply does_ret. intros n t (-> & Hs & Er). split_and!; [done|done|]. exists r. split_and!; [done|lia..|done].
Qed.

(** A report is accepted exactly when its version lies between the last one
    reported and the last one issued; it changes the row of its server, and of
    the resources only the status of those the server hosts.  A report that is
    refused, or that fails half-way, changes nothing. *)
Theorem reports_stay_in_scope v st ok failed d res d' :
  ApplyDSDStatus srv v st ok failed d = (res, d') ->
  let t0 := cp_tables d in let t := cp_tables d' in
  scoped t0 t /\
  match res with
  | Ok true => exists r, dsd_of t0 srv = Some r /\ (ds_applied r <= v <= ds_version r)%Z /\
      dsd_of t srv = Some (reported_row v ok (sort_strings failed) r)
  | Ok false => t = t0 /\ exists r, dsd_of t0 srv = Some r /\ ~ (ds_applied r <= v <= ds_version r)%Z
  | Err _ => t = t0
  end.
Proof.
  intros E. pose proof (does_run _ _ _ _ _ _ _ (ApplyDSDStatus_does v st ok failed (cp_tables d) (cp_now d))
    (conj eq_refl eq_refl) E) as H.
  destruct res as [[]|e]; cbn in H.
  - destruct H as (_ & Hs & r & Hr & Hv & Ed). eauto 10.
  - destruct H as (_ & Hs & r & Hr & Et & Hv). eauto 10.
  - destruct H as [_ ->]. split; [apply scoped_refl|done].
Qed.
End reports.

(** ** The alert of a stuck document *)

Section stuck.
Context {pg : Postgres} {sg : Signatures} (priv : string).

(** The rules by which somebody hears of it *)
Definition listening (t : tables) (orgID event : string) (r : alert_rule) : Prop :=
  r ∈ alert_rules t /\ ar_org r = orgID /\ ar_event r = event /\
  existsb (fun c => String.eqb (ac_id c) (ar_channel r) && ac_enabled c) (alert_channels t) = true.

Definition notified (t : tables) (key : string) (r : alert_rule) : Prop :=
  exists o, o ∈ alert_outbox t /\ al_channel o = ar_channel r /\ al_dedup_key o = key.

Lemma alert_due_notified now t key r : alert_due now 0 key (alert_outbox t) r = false <-> notified t key r.
Proof.
  unfold alert_due, notified. rewrite negb_false_iff, existsb_elem. split; intros (o & Ho & H); exists o.
  - apply andb_true_iff in H as [[Hc Hk]%andb_true_iff _]. apply String.eqb_eq in Hc, Hk. done.
  - destruct H as [-> ->]. by rewrite !String.eqb_refl.
Qed.

Lemma enqueue_quiet orgID event key title body d : quiet d ->
  exists o, enqueueAlertTx orgID event key 0 title body d =
      (Ok tt, with_tables (set_outbox (fun l => l ++ o)%list (cp_tables d)) d) /\
    (forall r, listening (cp_tables d) orgID event r -> notified (set_outbox (fun l => l ++ o)%list (cp_tables d)) key r) /\
    ((forall r, listening (cp_tables d) orgID event r -> notified (cp_tables d) key r) -> o = []).
Proof.
  intros Hq. unfold enqueueAlertTx, wrapping.
  erewrite bind_run by (unfold advisory_lock; rewrite query_quiet by done; done).
  rewrite update_quiet by done. cbv zeta.
  match goal with |- context [map ?row (order_by ?k (List.filter ?due _))] => set (R := row); set (D := due); set (K := k) end.
  assert (HD : forall r, listening (cp_tables d) orgID event r -> notified (cp_tables d) key r \/ D r = true).
  { intros r (_ & <- & <- & He). unfold D. rewrite !String.eqb_refl, He. cbn [andb].
    destruct (alert_due _ _ _ _ r) eqn:Ed; [by right|left]. by apply alert_due_notified in Ed. }
  exists (map R (order_by K (List.filter D (alert_rules (cp_tables d))))). split_and!; [done| |].
  - intros r Hr. destruct (HD r Hr) as [(o & Ho & H)|Hd].
    + exists o. split; [|done]. cbn. apply elem_of_app. by left.
    + exists (R r). split; [|done]. cbn. apply elem_of_app. right. apply list_elem_of_fmap_2.
      rewrite order_by_perm. apply filter_elem. split; [apply Hr|done].
  - intros Hall. assert (List.filter D (alert_rules (cp_tables d)) = []) as ->.
    { apply elem_of_nil_inv. intros r [Hin Hd]%filter_elem. pose proof Hd as Hd'. unfold D in Hd.
      rewrite !andb_true_iff, !String.eqb_eq in Hd. destruct Hd as [[[Ho He] Hc] Hdue].
      pose proof (Hall r ltac:(split_and!; done)) as Hn. by apply (alert_due_notified (cp_now d)) in Hn; rewrite Hn in Hdue. }
    assert (order_by K (@nil alert_rule) = []) as -> by (by apply Permutation_nil_r, order_by_perm). done.
Qed.

Lemma set_outbox_nil t : set_outbox (fun l => l ++ [])%list t = t.
Proof. unfold set_outbox. rewrite app_nil_r. by destruct t. Qed.

Lemma stuck_quiet org srv ops h d r : quiet d -> dsd_of (cp_tables d) srv = Some r -> decide_dsd h r = Stuck ->
  exists o, StoreDSD priv org srv ops h d = (Ok None, with_tables (set_outbox (fun l => l ++ o)%list (cp_tables d)) d) /\
    (forall rule, listening (cp_tables d) org AlertDSDApplyFailed rule ->
       notified (set_outbox (fun l => l ++ o)%list (cp_tables d)) (stuck_key srv (ds_version r)) rule) /\
    ((forall rule, listening (cp_tables d) org AlertDSDApplyFailed rule ->
       notified (cp_tables d) (stuck_key srv (ds_version r)) rule) -> o = []).
Proof.
  intros Hq Er Hd.
  destruct (lock_quiet org srv d Hq ltac:(left; eauto)) as (t1 & E1 & _ & _ & Et). rewrite Et in E1 by eauto.
  unfold row_or_fresh in E1. rewrite Er in E1. change (default (fresh_row org) (Some r)) with r in E1.
  assert (Ew : with_tables (cp_tables d) d = d) by by destruct d. rewrite Ew in E1.
  set (body := stuck_body (match server_by_id (cp_tables d) srv with Some s => sv_name s | None => srv end) (ds_version r) (ds_failed_ops r)).
  set (title := "Server stopped converging: " +:+ (match server_by_id (cp_tables d) srv with Some s => sv_name s | None => srv end)).
  destruct (enqueue_quiet org AlertDSDApplyFailed (stuck_key srv (ds_version r)) title body d Hq) as (o & E & Hn & Ho).
  exists o. split_and!; [|done|done]. apply transaction_quiet; [done|].
  unfold wrapping at 1. erewrite bind_run by (rewrite E1; done). rewrite Hd.
  erewrite bind_run; [done|]. unfold alertApplyStuckTx. rewrite query_bind by done. exact E.
Qed.

(** When the retries of a document are spent, everybody who listens is told,
    and told once: the store issues nothing, leaves one alert per listening
    channel, and every later run leaves the whole database as it is. *)
Theorem stuck_alerts_once org srv ops h d r us :
  quiet d -> dsd_of (cp_tables d) srv = Some r -> decide_dsd h r = Stuck ->
  exists d1, StoreDSD priv org srv ops h d = (Ok None, d1) /\
    server_dsd (machines (cp_tables d1)) = server_dsd (machines (cp_tables d)) /\
    (forall rule, listening (cp_tables d) org AlertDSDApplyFailed rule ->
       notified (cp_tables d1) (stuck_key srv (ds_version r)) rule) /\
    StoreDSD priv org srv ops h (later us d1) = (Ok None, later us d1).
Proof.
  intros Hq Er Hd. destruct (stuck_quiet org srv ops h d r Hq Er Hd) as (o & E & Hn & _).
  eexists. split; [exact E|]. split_and!; [done|done|].
  set (d1 := later us _). assert (Hq1 : quiet d1) by done.
  destruct (stuck_quiet org srv ops h d1 r Hq1 Er Hd) as (o1 & E1 & _ & Ho1).
  rewrite E1, Ho1 by exact Hn. rewrite set_outbox_nil. done.
Qed.
End stuck.

(** ** A server and a document that never applies *)

#[local] Existing Instance pg_stable.

(** Signatures for the demonstration: a message signs itself. *)
#[local] Instance self_signed : Signatures := {|
  json_text _ := "document";
  ed25519_sign _ msg := msg;
  ed25519_verify _ msg sig := String.eqb msg sig;
  ed25519_public _ := "0123456789abcdef0123456789abcdef";
  ed25519_sound _ msg := String.eqb_refl msg;
|}.

Definition demo_fleet : cp :=
  mkCp (mkTables [] [mkResource "res_1" "org" "prj_1" None (Some "srv_1") None "app" "web" (JObj []);
                     mkResource "res_2" "org" "prj_1" None (Some "srv_2") None "app" "api" (JObj [])]
    [] [] [] [] [] [mkAlertRule "org" AlertDSDApplyFailed "ch_1"] [mkAlertChannel "ch_1" true no_channel_columns] [] [] []
    (mkFleet [mkServer "srv_1" "org" "web-1" false 1 no_columns] ∅ [] ∅) no_vault no_backups no_estate) 1000 [] demo_rand 0 (mkMemory ∅ []).

Definition demo_ops : list Op := [mkOp "host:nftables:srv_1" "host.nftables" [] (JObj [])].

(** The reconciler renders the same ops, and the agent fails them. *)
Definition render_demo (d : cp) : cp := (StoreDSD "key" "org" "srv_1" demo_ops "h1" d).2.
Definition fail_demo (d : cp) : cp :=
  (ApplyDSDStatus "srv_1" (version_of (cp_tables d) "srv_1")
     [("res_1", JStr "ok"); ("res_2", JStr "forged")] false ["host:nftables:srv_1"] d).2.

Definition round (d : cp) : cp := fail_demo (render_demo d).

Fixpoint rounds (n : nat) (d : cp) : cp := match n with O => d | S n => rounds n (round d) end.

Definition spent : cp := Eval vm_compute in rounds 6 demo_fleet.

(** Six versions, then one alert, whatever follows; the status of the resource
    of another server stays untouched. *)
Example failing_document :
  map (fun n => version_of (cp_tables (rounds n demo_fleet)) "srv_1") (seq 0 9) = [0; 1; 2; 3; 4; 5; 6; 6; 6]%Z /\
  map (fun n => length (alert_outbox (cp_tables (rounds n demo_fleet)))) (seq 0 9) = [0; 0; 0; 0; 0; 0; 0; 1; 1]%nat /\
  map al_dedup_key (alert_outbox (cp_tables (rounds 8 demo_fleet))) = ["dsdfail:srv_1:6"] /\
  resource_status (machines (cp_tables spent)) !! "res_2" = None.
Proof. vm_compute. split_and!; reflexivity. Qed.

Lemma demo_run (wanted : string -> Prop) (forced : Prop) : wanted "h1" ->
  rtc (dsd_step "key" wanted forced "srv_1") demo_fleet (render_demo demo_fleet).
Proof.
  intros Hw. apply rtc_once. eapply (dsd_step_op _ _ _ _ (DStore "org" "srv_1" demo_ops "h1") (Ok tt)).
  - by intros _.
  - intros r Hr. vm_compute in Hr. discriminate Hr.
  - vm_compute. reflexivity.
Qed.

Lemma channel_refinement_witness :
  exists c, rtc (channel_step (fun _ => True) True "srv_1") empty_channel c /\ ch_log c = [mkDocument 1 "org" "srv_1" demo_ops].
Proof.
  destruct (channel_refinement "key" "srv_1" demo_fleet (render_demo demo_fleet) empty_channel) as (c & S & R & H & P).
  - exact (demo_run (fun _ => True) True I).
  - exact (proj1 (empty_represented "key" "srv_1")).
  - exact (proj2 (empty_represented "key" "srv_1")).
  - exists c. split; [exact S|]. pose proof (rp_version _ _ _ R) as E.
    assert (Ev : version_of (cp_tables (render_demo demo_fleet)) "srv_1" = 1%Z) by (vm_compute; reflexivity).
    unfold version_of in Ev. rewrite Ev in E. unfold issued in E.
    destruct (ch_log c) as [|doc [|]] eqn:El; [cbn in E; lia| |cbn in E; lia].
    assert (Hdsd : exists r, dsd_of (cp_tables (render_demo demo_fleet)) "srv_1" = Some r /\
      ds_doc r = enc_document (mkDocument 1 "org" "srv_1" demo_ops)) by (eexists; vm_compute; split; reflexivity).
    destruct Hdsd as (r & Er & Ed). destruct (rp_doc _ _ _ R r doc Er) as [Hdoc _]; [by rewrite El|].
    f_equal. assert (Hdec : dec_document (enc_document doc) = dec_document (ds_doc r)) by (by rewrite Hdoc).
    rewrite Ed, !dec_enc_document in Hdec; [congruence|unfold in_int64, int64_min, int64_max; cbn; lia|].
    destruct (co_numbered _ _ H 0 doc ltac:(by rewrite El)) as [-> _]. unfold in_int64, int64_min, int64_max; cbn; lia.
Defined.

Lemma redrives_bounded_witness :
  (0 <= version_of (cp_tables (render_demo demo_fleet)) "srv_1" <= 0 + (maxDSDRedrive + 1))%Z.
Proof.
  apply (redrives_bounded "key" "srv_1" "h1" demo_fleet (render_demo demo_fleet) empty_channel).
  - exact (demo_run (eq "h1") False eq_refl).
  - exact (proj1 (empty_represented "key" "srv_1")).
  - exact (proj2 (empty_represented "key" "srv_1")).
Defined.


Lemma reports_stay_in_scope_witness : scoped "srv_1" (cp_tables (render_demo demo_fleet)) (cp_tables (fail_demo (render_demo demo_fleet))).
Proof.
  eapply (reports_stay_in_scope "srv_1" 1 [("res_1", JStr "ok"); ("res_2", JStr "forged")] false ["host:nftables:srv_1"]
    (render_demo demo_fleet) (Ok true) (fail_demo (render_demo demo_fleet))).
  vm_compute. reflexivity.
Defined.

Lemma stuck_alerts_once_witness :
  exists d1, StoreDSD "key" "org" "srv_1" demo_ops "h1" spent = (Ok None, d1) /\
    StoreDSD "key" "org" "srv_1" demo_ops "h1" (later 60000000 d1) = (Ok None, later 60000000 d1).
Proof.
  destruct (dsd_of (cp_tables spent) "srv_1") as [r|] eqn:Er; [|vm_compute in Er; discriminate Er].
  destruct (stuck_alerts_once "key" "org" "srv_1" demo_ops "h1" spent r 60000000) as (d1 & E & _ & _ & E2).
  - reflexivity.
  - exact Er.
  - vm_compute in Er. injection Er as <-. vm_compute. reflexivity.
  - exists d1. split; [exact E|exact E2].
Defined.
