(* ===== verification/Waiters.v ===== *)
(** * Long polls and their wake-ups

    Models [Wait], [notify] and [WakeServer] of
    [cp/internal/reconciler/reconciler.go] and [handleGetDSD] of
    [cp/internal/api/dsd.go], and how they interleave.  A channel is a number;
    closing is its only use, and closing twice panics.  The handler is a state
    machine whose steps are its calls; between any two of them documents are
    committed, waiters woken, other requests served. *)

From S2P Require Import Prelude.

(** ** The waiters of a process *)

Record hub := mkHub {
  waiters : gmap string (list nat);
  closed : gset nat;
  next_ch : nat;
}.

(** [r.waiters[serverID]]: nil for an absent key *)
Definition registered (h : hub) (serverID : string) : list nat := default [] (waiters h !! serverID).

Definition Wait (serverID : string) (h : hub) : nat * hub :=
  (next_ch h, mkHub (<[serverID := (registered h serverID ++ [next_ch h])%list]> (waiters h)) (closed h) (S (next_ch h))).

(** [append(list[:i], list[i+1:]...)] at the first [i] with [list[i] == ch] *)
Fixpoint splice (ch : nat) (l : list nat) : option (list nat) :=
  match l with
  | [] => None
  | c :: l => if c =? ch then Some l else (fun l' => c :: l') <$> splice ch l
  end.

(** The cancel function [Wait] returns *)
Definition cancel (serverID : string) (ch : nat) (h : hub) : hub :=
  match splice ch (registered h serverID) with
  | Some l => mkHub (<[serverID := l]> (waiters h)) (closed h) (next_ch h)
  | None => h
  end.

(** [for _, ch := range list { close(ch) }]; [None] is a panic. *)
Fixpoint close_all (l : list nat) (cl : gset nat) : option (gset nat) :=
  match l with
  | [] => Some cl
  | ch :: l => if bool_decide (ch ∈ cl) then None else close_all l ({[ch]} ∪ cl)
  end.

Definition WakeServer (serverID : string) (h : hub) : option hub :=
  cl ← close_all (registered h serverID) (closed h);
  Some (mkHub (delete serverID (waiters h)) cl (next_ch h)).

(** ** The requests *)

Inductive answer := Served (version : Z) | NoContent | Gone | InternalError.

(** Where [handleGetDSD] stands, with the channel it holds *)
Inductive phase :=
| Subscribing
| Reading (ch : nat)
| Selecting (ch : nat)
| Fetching
| Answered (a : answer).

Record poller := mkPoller { po_server : string; po_after : Z; po_phase : phase }.

Definition at_phase (p : poller) (ph : phase) : poller := mkPoller (po_server p) (po_after p) ph.

Record world := mkWorld {
  w_hub : hub;
  w_version : gmap string Z;      (* [CurrentDSDVersion] *)
  w_pending : list string;        (* committed, [notify] not yet called *)
  w_pollers : gmap nat poller;
}.

Definition version (w : world) (serverID : string) : Z := default 0%Z (w_version w !! serverID).

Definition set_phase (w : world) (i : nat) (p : poller) (ph : phase) (h : hub) : world :=
  mkWorld h (w_version w) (w_pending w) (<[i := at_phase p ph]> (w_pollers w)).

(** The steps of one request: each call of the handler's loop *)
Inductive poll_step (w : world) (i : nat) (p : poller) : world -> Prop :=
| poll_subscribe : po_phase p = Subscribing ->
    let '(ch, h) := Wait (po_server p) (w_hub w) in
    poll_step w i p (set_phase w i p (Reading ch) h)
| poll_read ch : po_phase p = Reading ch ->
    poll_step w i p
      (if (po_after p <? version w (po_server p))%Z
       then set_phase w i p Fetching (cancel (po_server p) ch (w_hub w))
       else set_phase w i p (Selecting ch) (w_hub w))
| poll_read_error ch : po_phase p = Reading ch ->
    poll_step w i p (set_phase w i p (Answered InternalError) (cancel (po_server p) ch (w_hub w)))
| poll_fetch : po_phase p = Fetching ->
    poll_step w i p (set_phase w i p (Answered (Served (version w (po_server p)))) (w_hub w))
| poll_fetch_error : po_phase p = Fetching ->
    poll_step w i p (set_phase w i p (Answered InternalError) (w_hub w))
| poll_woken ch : po_phase p = Selecting ch -> ch ∈ closed (w_hub w) ->
    poll_step w i p (set_phase w i p Subscribing (cancel (po_server p) ch (w_hub w)))
| poll_timeout ch : po_phase p = Selecting ch ->
    poll_step w i p (set_phase w i p (Answered NoContent) (cancel (po_server p) ch (w_hub w)))
| poll_gone ch : po_phase p = Selecting ch ->
    poll_step w i p (set_phase w i p (Answered Gone) (cancel (po_server p) ch (w_hub w))).

(** What happens around it: [StoreDSD] commits a version and [notify] follows
    later; another replica wakes a server over the bus; requests arrive. *)
Inductive step (w : world) : world -> Prop :=
| step_poll i p w' : w_pollers w !! i = Some p -> poll_step w i p w' -> step w w'
| step_arrive i serverID after : w_pollers w !! i = None ->
    step w (mkWorld (w_hub w) (w_version w) (w_pending w) (<[i := mkPoller serverID after Subscribing]> (w_pollers w)))
| step_commit serverID v : (version w serverID < v)%Z ->
    step w (mkWorld (w_hub w) (<[serverID := v]> (w_version w)) (serverID :: w_pending w) (w_pollers w))
| step_notify serverID l1 l2 h : w_pending w = (l1 ++ serverID :: l2)%list -> WakeServer serverID (w_hub w) = Some h ->
    step w (mkWorld h (w_version w) (l1 ++ l2) (w_pollers w))
| step_bus serverID h : WakeServer serverID (w_hub w) = Some h ->
    step w (mkWorld h (w_version w) (w_pending w) (w_pollers w)).

(** A process that has just started *)
Definition started (versions : gmap string Z) : world := mkWorld (mkHub ∅ ∅ 0) versions [] ∅.

Definition reachable (w : world) : Prop := exists versions, rtc step (started versions) w.

(** ** The operations of the hub *)

Lemma splice_none ch l : splice ch l = None <-> ch ∉ l.
Proof.
  induction l as [|c l IH]; cbn; [by split; [intros _ ?%not_elem_of_nil|]|].
  rewrite not_elem_of_cons. destruct (Nat.eqb_spec c ch) as [->|H]; [naive_solver|].
  rewrite fmap_None, IH. naive_solver.
Qed.

Lemma splice_some ch l l' : splice ch l = Some l' -> l ≡ₚ ch :: l'.
Proof.
  revert l'. induction l as [|c l IH]; cbn; [done|]. intros l'.
  destruct (Nat.eqb_spec c ch) as [->|H]; [by intros [= ->]|].
  intros (l1 & E & ->)%fmap_Some. rewrite (IH _ E). apply Permutation_swap.
Qed.

Lemma close_all_some l cl : NoDup l -> (forall ch, ch ∈ l -> ch ∉ cl) -> close_all l cl = Some (list_to_set l ∪ cl).
Proof.
  revert cl. induction l as [|ch l IH]; intros cl Hn Hd; cbn; [f_equal; set_solver|].
  apply NoDup_cons in Hn as [Hch Hn]. rewrite bool_decide_false by (apply Hd; left).
  rewrite IH; [f_equal; set_solver|done|]. intros c Hc. apply not_elem_of_union. split; [set_solver|apply Hd; by right].
Qed.

(** What each operation does to the lists *)
Record hub_ok (h : hub) : Prop := {
  hub_fresh : forall s ch, ch ∈ registered h s -> ch < next_ch h;
  hub_closed : forall ch, ch ∈ closed h -> ch < next_ch h;
  hub_open : forall s ch, ch ∈ registered h s -> ch ∉ closed h;
  hub_nodup : forall s, NoDup (registered h s);
  hub_disjoint : forall s1 s2 ch, ch ∈ registered h s1 -> ch ∈ registered h s2 -> s1 = s2;
}.

Lemma registered_insert h s l cl n s' :
  registered (mkHub (<[s := l]> (waiters h)) cl n) s' = if decide (s = s') then l else registered h s'.
Proof. unfold registered. cbn. destruct (decide (s = s')) as [<-|H]; [by rewrite lookup_insert_eq|by rewrite lookup_insert_ne]. Qed.

Lemma Wait_registered s h s' ch :
  ch ∈ registered (Wait s h).2 s' <-> ch ∈ registered h s' \/ (s' = s /\ ch = next_ch h).
Proof.
  unfold Wait. cbn [snd]. rewrite registered_insert. destruct (decide (s = s')) as [->|H]; [|naive_solver].
  rewrite elem_of_app, list_elem_of_singleton. naive_solver.
Qed.

Lemma Wait_ok s h : hub_ok h -> hub_ok (Wait s h).2.
Proof.
  intros H. constructor.
  - intros s' ch [Hc|[_ ->]]%Wait_registered; cbn; [pose proof (hub_fresh _ H _ _ Hc)|]; lia.
  - intros ch Hc. cbn in *. pose proof (hub_closed _ H _ Hc). lia.
  - intros s' ch [Hc|[_ ->]]%Wait_registered; cbn; [by eapply hub_open|].
    intros Hc%(hub_closed _ H). lia.
  - intros s'. unfold Wait. cbn [snd]. rewrite registered_insert. destruct (decide (s = s')) as [->|]; [|apply H].
    apply NoDup_app. split_and!; [apply H| |apply NoDup_singleton].
    intros ch Hc ->%list_elem_of_singleton. pose proof (hub_fresh _ H _ _ Hc). lia.
  - intros s1 s2 ch [H1|[-> ->]]%Wait_registered [H2|[-> E]]%Wait_registered; [by eapply hub_disjoint| | |done].
    + subst ch. pose proof (hub_fresh _ H _ _ H1). lia.
    + pose proof (hub_fresh _ H _ _ H2). lia.
Qed.

Lemma cancel_registered s ch h s' c : hub_ok h ->
  c ∈ registered (cancel s ch h) s' <-> c ∈ registered h s' /\ ~ (s' = s /\ c = ch).
Proof.
  intros H. unfold cancel. destruct (splice ch (registered h s)) as [l|] eqn:E.
  - rewrite registered_insert. apply splice_some in E. pose proof (hub_nodup _ H s) as Hn. rewrite E in Hn.
    apply NoDup_cons in Hn as [Hn _]. destruct (decide (s = s')) as [<-|Hs]; [|naive_solver].
    rewrite E, elem_of_cons. split; [intros Hc; split; [by right|intros [_ ->]; done]|naive_solver].
  - apply splice_none in E. naive_solver.
Qed.

Lemma cancel_closed s ch h : closed (cancel s ch h) = closed h /\ next_ch (cancel s ch h) = next_ch h.
Proof. unfold cancel. by destruct (splice _ _). Qed.

Lemma cancel_ok s ch h : hub_ok h -> hub_ok (cancel s ch h).
Proof.
  intros H. destruct (cancel_closed s ch h) as [Ec En]. constructor; rewrite ?Ec, ?En.
  - intros s' c [Hc _]%cancel_registered; [by eapply hub_fresh|done].
  - apply H.
  - intros s' c [Hc _]%cancel_registered; [by eapply hub_open|done].
  - intros s'. unfold cancel. destruct (splice ch (registered h s)) as [l|] eqn:E; [|apply H].
    rewrite registered_insert. destruct (decide (s = s')) as [->|]; [|apply H].
    apply splice_some in E. pose proof (hub_nodup _ H s') as Hn. rewrite E in Hn. by apply NoDup_cons in Hn as [_ ?].
  - intros s1 s2 c [H1 _]%cancel_registered [H2 _]%cancel_registered; [by eapply hub_disjoint|done..].
Qed.

Lemma WakeServer_some s h : hub_ok h ->
  WakeServer s h = Some (mkHub (delete s (waiters h)) (list_to_set (registered h s) ∪ closed h) (next_ch h)).
Proof.
  intros H. unfold WakeServer. rewrite close_all_some; [done|apply H|]. intros ch. by apply hub_open.
Qed.

Lemma wake_registered s h cl n s' :
  registered (mkHub (delete s (waiters h)) cl n) s' = if decide (s = s') then [] else registered h s'.
Proof. unfold registered. cbn. destruct (decide (s = s')) as [<-|H]; [by rewrite lookup_delete_eq|by rewrite lookup_delete_ne]. Qed.

Lemma WakeServer_ok s h h' : hub_ok h -> WakeServer s h = Some h' ->
  hub_ok h' /\ next_ch h' = next_ch h /\
  (forall ch, ch ∈ closed h' <-> ch ∈ registered h s \/ ch ∈ closed h) /\
  (forall s' ch, ch ∈ registered h' s' <-> s' <> s /\ ch ∈ registered h s').
Proof.
  intros H. rewrite WakeServer_some by done. intros [= <-].
  assert (Hc : forall ch, ch ∈ (list_to_set (registered h s) ∪ closed h : gset nat) <-> ch ∈ registered h s \/ ch ∈ closed h)
    by (intros ch; set_solver).
  assert (Hr : forall s' ch, ch ∈ registered (mkHub (delete s (waiters h)) (list_to_set (registered h s) ∪ closed h) (next_ch h)) s'
    <-> s' <> s /\ ch ∈ registered h s').
  { intros s' ch. rewrite wake_registered. destruct (decide (s = s')) as [->|Hs]; [|naive_solver].
    split; [by intros ?%not_elem_of_nil|naive_solver]. }
  split_and!; [|done|done|done]. constructor; cbn [closed next_ch].
  - intros s' ch [_ Hin]%Hr. by eapply hub_fresh.
  - intros ch [Hin|Hin]%Hc; [by eapply hub_fresh|by apply hub_closed].
  - intros s' ch [Hs Hin]%Hr [Hin'|Hin']%Hc; [|by eapply (hub_open _ H)].
    apply Hs. by eapply hub_disjoint.
  - intros s'. rewrite wake_registered. destruct (decide _); [constructor|apply H].
  - intros s1 s2 ch [_ H1]%Hr [_ H2]%Hr. by eapply hub_disjoint.
Qed.

(** ** What holds of every reachable state *)

Definition holds (ph : phase) : option nat :=
  match ph with Reading ch | Selecting ch => Some ch | _ => None end.

Definition behind (w : world) (p : poller) : Prop := (po_after p < version w (po_server p))%Z.

Record inv (w : world) : Prop := {
  inv_hub : hub_ok (w_hub w);
  (* a channel in use is closed or still registered, ... *)
  inv_held : forall i p ch, w_pollers w !! i = Some p -> holds (po_phase p) = Some ch ->
    ch < next_ch (w_hub w) /\ (ch ∈ closed (w_hub w) \/ ch ∈ registered (w_hub w) (po_server p));
  (* ... used by one request, ... *)
  inv_own : forall i j p q ch, w_pollers w !! i = Some p -> w_pollers w !! j = Some q ->
    holds (po_phase p) = Some ch -> holds (po_phase q) = Some ch -> i = j;
  (* ... and none is registered without one. *)
  inv_owner : forall s ch, ch ∈ registered (w_hub w) s ->
    exists i p, w_pollers w !! i = Some p /\ po_server p = s /\ holds (po_phase p) = Some ch;
  inv_current : forall i p ch, w_pollers w !! i = Some p -> po_phase p = Selecting ch -> behind w p ->
    ch ∈ closed (w_hub w) \/ po_server p ∈ w_pending w;
}.

Lemma started_inv versions : inv (started versions).
Proof.
  constructor; try by intros; repeat match goal with H : ∅ !! _ = Some _ |- _ => rewrite lookup_empty in H end.
  - constructor; unfold registered; cbn; intros; rewrite ?lookup_empty in *; try done; try constructor;
      by match goal with H : _ ∈ default [] None |- _ => apply not_elem_of_nil in H end.
  - intros s ch. unfold registered. cbn. rewrite lookup_empty. by intros ?%not_elem_of_nil.
Qed.

Lemma lookup_phase (m : gmap nat poller) i p ph j q : <[i := at_phase p ph]> m !! j = Some q ->
  (j = i /\ q = at_phase p ph) \/ (j <> i /\ m !! j = Some q).
Proof. intros [[<- <-]|[? ?]]%lookup_insert_Some; [by left|right; split; [congruence|done]]. Qed.

(** A request gives its channel back. *)
Lemma release_inv w i p ph ch : inv w -> w_pollers w !! i = Some p -> holds (po_phase p) = Some ch -> holds ph = None ->
  inv (set_phase w i p ph (cancel (po_server p) ch (w_hub w))).
Proof.
  intros H Hi Hch Hph. destruct (cancel_closed (po_server p) ch (w_hub w)) as [Ec En].
  pose proof (inv_hub _ H) as Hh. constructor; cbn [set_phase w_hub w_pollers w_pending]; rewrite ?Ec, ?En.
  - by apply cancel_ok.
  - intros j q c [[-> ->]|[Hj Hq]]%lookup_phase Hc; [by cbn in Hc; rewrite Hph in Hc|].
    destruct (inv_held _ H _ _ _ Hq Hc) as [Hn Hr]. split; [done|]. destruct Hr as [Hr|Hr]; [by left|right].
    apply cancel_registered; [done|]. split; [done|]. intros [_ ->]. apply Hj. by eapply inv_own.
  - intros j k q r c [[-> ->]|[Hj Hq]]%lookup_phase [[-> ->]|[Hk Hr]]%lookup_phase Hc Hc'; cbn in *; try congruence.
    by eapply inv_own.
  - intros s c [Hc Hne]%cancel_registered; [|done]. destruct (inv_owner _ H _ _ Hc) as (j & q & Hq & <- & Hqc).
    exists j, q. split_and!; [|done|done]. rewrite lookup_insert_ne; [done|]. intros <-. apply Hne.
    assert (q = p) as -> by congruence. split; congruence.
  - intros j q c [[-> ->]|[Hj Hq]]%lookup_phase Hc Hb; [cbn in Hc; by rewrite Hc in Hph|].
    by eapply inv_current.
Qed.

(** A request goes on with the channel it has, or with none. *)
Lemma keep_inv w i p ph : inv w -> w_pollers w !! i = Some p -> holds ph = holds (po_phase p) ->
  (forall ch, ph = Selecting ch -> ~ behind w p) -> inv (set_phase w i p ph (w_hub w)).
Proof.
  intros H Hi Hph Hcur. constructor; cbn [set_phase w_hub w_pollers w_pending].
  - apply H.
  - intros j q c [[-> ->]|[Hj Hq]]%lookup_phase Hc; [cbn in Hc; rewrite Hph in Hc|].
    + exact (inv_held _ H _ _ _ Hi Hc).
    + exact (inv_held _ H _ _ _ Hq Hc).
  - intros j k q r c [[-> ->]|[Hj Hq]]%lookup_phase [[-> ->]|[Hk Hr]]%lookup_phase Hc Hc'; cbn in *; rewrite ?Hph in *;
      [done| | |]; by eapply inv_own.
  - intros s c Hc. destruct (inv_owner _ H _ _ Hc) as (j & q & Hq & <- & Hqc).
    destruct (decide (i = j)) as [->|Hne].
    + assert (q = p) as -> by congruence. exists j, (at_phase p ph). rewrite lookup_insert_eq. by rewrite <- Hph in Hqc.
    + exists j, q. by rewrite lookup_insert_ne.
  - intros j q c [[-> ->]|[Hj Hq]]%lookup_phase Hc Hb; [|by eapply inv_current]. by destruct (Hcur _ Hc).
Qed.

Lemma subscribe_inv w i p : inv w -> w_pollers w !! i = Some p -> holds (po_phase p) = None ->
  inv (set_phase w i p (Reading (next_ch (w_hub w))) (Wait (po_server p) (w_hub w)).2).
Proof.
  intros H Hi Hph. pose proof (inv_hub _ H) as Hh. constructor; cbn [set_phase w_hub w_pollers w_pending].
  - by apply Wait_ok.
  - intros j q c [[-> ->]|[Hj Hq]]%lookup_phase Hc; cbn in Hc |- *.
    + injection Hc as <-. split; [lia|]. right. apply Wait_registered. by right.
    + destruct (inv_held _ H _ _ _ Hq Hc) as [Hn Hr]. split; [lia|]. destruct Hr as [Hr|Hr]; [by left|right].
      apply Wait_registered. by left.
  - intros j k q r c [[-> ->]|[Hj Hq]]%lookup_phase [[-> ->]|[Hk Hr]]%lookup_phase Hc Hc'; cbn in *; [done| | |].
    + injection Hc as <-. destruct (inv_held _ H _ _ _ Hr Hc'). lia.
    + injection Hc' as <-. destruct (inv_held _ H _ _ _ Hq Hc). lia.
    + by eapply inv_own.
  - intros s c [Hc|[-> ->]]%Wait_registered.
    + destruct (inv_owner _ H _ _ Hc) as (j & q & Hq & <- & Hqc). exists j, q. split_and!; [|done|done].
      rewrite lookup_insert_ne; [done|]. intros <-. assert (q = p) as -> by congruence. congruence.
    + exists i, (at_phase p (Reading (next_ch (w_hub w)))). by rewrite lookup_insert_eq.
  - intros j q c [[-> ->]|[Hj Hq]]%lookup_phase Hc Hb; [done|]. by eapply inv_current.
Qed.

Lemma poll_step_inv w i p w' : inv w -> w_pollers w !! i = Some p -> poll_step w i p w' -> inv w'.
Proof.
  intros H Hi Hs. destruct Hs as [Hp|ch Hp|ch Hp|Hp|Hp|ch Hp Hc|ch Hp|ch Hp].
  - apply subscribe_inv; [done|done|by rewrite Hp].
  - destruct (Z.ltb_spec (po_after p) (version w (po_server p))).
    + apply release_inv; [done|done|by rewrite Hp|done].
    + apply keep_inv; [done|done|by rewrite Hp|]. intros _ _. unfold behind. lia.
  - apply release_inv; [done|done|by rewrite Hp|done].
  - apply keep_inv; [done|done|by rewrite Hp|done].
  - apply keep_inv; [done|done|by rewrite Hp|done].
  - apply release_inv; [done|done|by rewrite Hp|done].
  - apply release_inv; [done|done|by rewrite Hp|done].
  - apply release_inv; [done|done|by rewrite Hp|done].
Qed.

(** A server is woken, and [pending] loses at most its name. *)
Lemma wake_inv w s h pending : inv w -> WakeServer s (w_hub w) = Some h ->
  (forall x, x ∈ w_pending w -> x = s \/ x ∈ pending) ->
  inv (mkWorld h (w_version w) pending (w_pollers w)).
Proof.
  intros H E Hp. destruct (WakeServer_ok _ _ _ (inv_hub _ H) E) as (Hh & En & Hc & Hr).
  constructor; cbn [w_hub w_pollers w_pending].
  - done.
  - intros i p ch Hi Hch. destruct (inv_held _ H _ _ _ Hi Hch) as [Hn Hor]. rewrite En. split; [done|].
    rewrite Hc, Hr. destruct (decide (po_server p = s)) as [<-|]; tauto.
  - intros i j p q ch. apply H.
  - intros s' ch [_ Hin]%Hr. by eapply inv_owner.
  - intros i p ch Hi Hph Hb. rewrite Hc. destruct (inv_current _ H _ _ _ Hi Hph Hb) as [Hcl|Hpe]; [tauto|].
    destruct (Hp _ Hpe) as [<-|]; [|by right]. left.
    destruct (inv_held _ H _ _ ch Hi) as [_ ?]; [by rewrite Hph|tauto].
Qed.

Lemma world_step_inv w w' : inv w -> step w w' -> inv w'.
Proof.
  intros H Hs. destruct Hs as [i p w' Hi Hp|i s after Hi|s v Hv|s l1 l2 h Hp E|s h E].
  - by eapply poll_step_inv.
  - assert (L : forall j q, <[i := mkPoller s after Subscribing]> (w_pollers w) !! j = Some q ->
      po_phase q = Subscribing \/ w_pollers w !! j = Some q).
    { intros j q [[<- <-]|[_ Hq]]%lookup_insert_Some; [by left|by right]. }
    constructor; cbn [w_hub w_pollers w_pending].
    + apply H.
    + intros j q c [Hq|Hq]%L Hc; [by rewrite Hq in Hc|]. by eapply inv_held.
    + intros j k q r c [Hq|Hq]%L [Hr|Hr]%L Hc Hc'; [by rewrite Hq in Hc|by rewrite Hq in Hc|by rewrite Hr in Hc'|].
      by eapply inv_own.
    + intros s' c Hc. destruct (inv_owner _ H _ _ Hc) as (j & q & Hq & Hsc). exists j, q. split; [|done].
      rewrite lookup_insert_ne; [done|]. intros <-. congruence.
    + intros j q c [Hq|Hq]%L Hc Hb; [by rewrite Hq in Hc|]. by eapply inv_current.
  - constructor; cbn [w_hub w_pollers w_pending]; [apply H|apply H|apply H|apply H|].
    intros i p ch Hi Hph Hb. rewrite elem_of_cons. destruct (decide (po_server p = s)) as [|Hne]; [tauto|].
    assert (Hb' : behind w p).
    { unfold behind, version in *. cbn in Hb. by rewrite lookup_insert_ne in Hb. }
    destruct (inv_current _ H _ _ _ Hi Hph Hb'); tauto.
  - eapply wake_inv; [done|done|]. intros x. rewrite Hp, !elem_of_app, elem_of_cons. tauto.
  - eapply wake_inv; [done|done|]. tauto.
Qed.

Lemma reachable_inv w : reachable w -> inv w.
Proof.
  intros [versions Hr]. pose proof (started_inv versions) as H. revert H.
  induction Hr as [w|w1 w2 w3 Hs _ IH]; [done|]. intros H. by eapply IH, world_step_inv.
Qed.

(** ** Claims *)

(** C14: No change is lost between a long poll's look and its wait: in every
    reachable state, a request that waits although a newer document than the one
    it asked for has been committed is about to be notified, or its channel is
    closed already - and then its own next steps serve it that newest document. *)
Theorem no_change_lost w i p ch :
  reachable w -> w_pollers w !! i = Some p -> po_phase p = Selecting ch ->
  (po_after p < version w (po_server p))%Z -> po_server p ∉ w_pending w ->
  ch ∈ closed (w_hub w) /\
  exists w', rtc (fun a b => exists q, w_pollers a !! i = Some q /\ poll_step a i q b) w w' /\
    version w' (po_server p) = version w (po_server p) /\
    w_pollers w' !! i = Some (at_phase p (Answered (Served (version w (po_server p))))).
Proof.
  intros H%reachable_inv Hi Hph Hb Hp.
  assert (Hc : ch ∈ closed (w_hub w)) by (destruct (inv_current _ H _ _ _ Hi Hph Hb); tauto). split; [done|].
  eexists. split; [|split].
  - eapply rtc_l; [exists p; split; [exact Hi|by apply (poll_woken w i p ch)]|].
    eapply rtc_l; [eexists; split; [by apply lookup_insert_eq|by apply poll_subscribe]|].
    eapply rtc_l; [eexists; split; [by apply lookup_insert_eq|by eapply poll_read]|].
    cbn [at_phase po_server po_after]. rewrite (proj2 (Z.ltb_lt _ _)) by exact Hb.
    apply rtc_once. eexists. split; [by apply lookup_insert_eq|by apply poll_fetch].
  - done.
  - cbn [set_phase w_pollers]. by rewrite lookup_insert_eq.
Qed.

(** The registry of waiters is sound: in every reachable state waking a
    server succeeds - no channel is ever closed twice, which would take the
    process down - and a channel is registered only while the request that made
    it is still open, so abandoned polls leave nothing behind. *)
Theorem waking_is_safe w serverID :
  reachable w ->
  is_Some (WakeServer serverID (w_hub w)) /\ NoDup (registered (w_hub w) serverID) /\
  forall ch, ch ∈ registered (w_hub w) serverID ->
    exists i p, w_pollers w !! i = Some p /\ po_server p = serverID /\ (po_phase p = Reading ch \/ po_phase p = Selecting ch).
Proof.
  intros H%reachable_inv. pose proof (inv_hub _ H) as Hh. split_and!.
  - by rewrite WakeServer_some.
  - apply Hh.
  - intros ch Hc. destruct (inv_owner _ H _ _ Hc) as (i & p & Hi & Hs & Hp). exists i, p. split_and!; [done|done|].
    destruct (po_phase p); try done; injection Hp as ->; tauto.
Qed.

(** ** A poll that a change overtakes *)

(** The request subscribes and reads version 3; 4 is committed before it waits,
    and notified. *)
Lemma overtaken : exists w, reachable w /\ w_pollers w !! 7 = Some (mkPoller "srv_1" 3 (Selecting 0)) /\
  version w "srv_1" = 4%Z /\ w_pending w = [].
Proof.
  eexists. split.
  - exists {["srv_1"%string := 3%Z]}.
    eapply rtc_l; [by apply (step_arrive _ 7 "srv_1"%string 3%Z)|].
    eapply rtc_l; [eapply step_poll; [by apply lookup_insert_eq|by apply poll_subscribe]|].
    eapply rtc_l; [eapply step_poll; [by apply lookup_insert_eq|by eapply poll_read]|].
    eapply rtc_l; [by apply (step_commit _ "srv_1"%string 4%Z)|].
    apply rtc_once. eapply (step_notify _ "srv_1"%string [] []); vm_compute; reflexivity.
  - vm_compute. split_and!; reflexivity.
Qed.

Lemma no_change_lost_witness : exists w w',
  rtc (fun a b => exists q, w_pollers a !! 7 = Some q /\ poll_step a 7 q b) w w' /\
  w_pollers w' !! 7 = Some (mkPoller "srv_1" 3 (Answered (Served 4))).
Proof.
  destruct overtaken as (w & Hr & Hp & Hv & Hn).
  destruct (no_change_lost w 7 (mkPoller "srv_1" 3 (Selecting 0)) 0 Hr Hp) as (_ & w' & S & _ & E).
  - reflexivity.
  - cbn [po_after po_server]. rewrite Hv. reflexivity.
  - cbn [po_server]. rewrite Hn. exact (not_elem_of_nil _).
  - exists w, w'. split; [exact S|]. cbn [po_server] in E. rewrite Hv in E. exact E.
Defined.

Lemma waking_is_safe_witness : exists w, reachable w /\ is_Some (WakeServer "srv_1" (w_hub w)).
Proof.
  destruct overtaken as (w & Hr & _). exists w. split; [exact Hr|]. exact (proj1 (waking_is_safe w "srv_1" Hr)).
Defined.
