(* ===== verification/Kms.v ===== *)
(** * Key custody ([cp/internal/kms] and the AES-GCM helpers of the store)

    What the control plane expects of its key custody, as a type class, and the
    file-anchored custody that implements it; the authenticated cipher both it
    and the secrets store use is a parameter with the law they rely on. *)

From S2P Require Import Prelude GoStrings CpDb.
From Stdlib Require Import Ascii.

Local Open Scope string_scope.
Local Open Scope io_scope.

(** ** Randomness and AES-GCM *)

(** [rand.Read] into [n] bytes *)
Definition rand_bytes (n : nat) : io cp string := fun d =>
  (Ok (stake n (cp_rand d (cp_drawn d) +:+ repeat_byte n zero)),
   mkCp (cp_tables d) (cp_now d) (cp_faults d) (cp_rand d) (S (cp_drawn d)) (cp_memory d)).

(** [crypto/cipher]'s GCM over [crypto/aes]: key, nonce, additional data, text *)
Class Aead := {
  aead_Seal : string -> string -> string -> string -> string;
  aead_Open : string -> string -> string -> string -> option string;
  aead_sound key nonce aad pt : aead_Open key nonce aad (aead_Seal key nonce aad pt) = Some pt;
}.

Definition NonceSize : nat := 12.
Definition ErrAuth := "cipher: message authentication failed".

(** [aes.NewCipher] takes keys of 16, 24 or 32 bytes. *)
Definition aes_key_ok (key : string) : bool := existsb (Nat.eqb (String.length key)) [16; 24; 32]%nat.

Section gcm.
Context {ae : Aead}.

Definition gcmSeal (dek aad plaintext : string) : io cp (string * string) :=
  if negb (aes_key_ok dek) then fail "crypto/aes: invalid key size"
  else nonce <- rand_bytes NonceSize ;; ret (nonce, aead_Seal dek nonce aad plaintext).

Definition gcmOpen (dek aad nonce ciphertext : string) : res string :=
  if negb (aes_key_ok dek) then Err "crypto/aes: invalid key size"
  else if negb (Nat.eqb (String.length nonce) NonceSize) then Err "decrypt: invalid nonce length"
  else match aead_Open dek nonce aad ciphertext with Some pt => Ok pt | None => Err ErrAuth end.

End gcm.

(** ** The interface *)

(** What an operation of custody leaves alone. *)
Record custody_frame (d d' : cp) : Prop := {
  frame_tables : cp_tables d' = cp_tables d;
  frame_now : cp_now d' = cp_now d;
  frame_cache : dek_cache (cp_memory d') = dek_cache (cp_memory d);
}.

(** [unseals purpose envelope] is what an unwrap that succeeds yields. *)
Class KeyCustody := {
  Wrap : string -> string -> io cp string;
  Unwrap : string -> string -> io cp string;
  unseals : string -> string -> option string;
  Wrap_spec purpose plain : forall d, let '(r, d') := Wrap purpose plain d in
    custody_frame d d' /\ forall w, r = Ok w -> unseals purpose w = Some plain;
  Unwrap_spec purpose w : forall d, let '(r, d') := Unwrap purpose w d in
    custody_frame d d' /\ forall x, r = Ok x -> unseals purpose w = Some x;
}.

(** ** File-anchored custody *)

Definition auditRingCap : nat := 1024.

Definition appendAudit (ring : list AuditEvent) (ev : AuditEvent) : list AuditEvent :=
  if (auditRingCap <=? length ring)%nat then (drop (length ring - auditRingCap + 1) ring ++ [ev])%list
  else (ring ++ [ev])%list.

Lemma appendAudit_bounded ring ev : (length (appendAudit ring ev) <= auditRingCap)%nat.
Proof.
  assert (1 <= auditRingCap)%nat by (unfold auditRingCap; lia).
  unfold appendAudit. destruct (Nat.leb_spec auditRingCap (length ring)) as [Hl|Hl];
    rewrite length_app, ?length_drop; cbn [length]; lia.
Qed.

(** [sink] persists an event; [AuditUnwrapSink] starts an insert in the
    background and reports no error. *)
Definition AuditUnwrapSink (ev : AuditEvent) : res unit := Ok tt.

Section file.
Context {ae : Aead} (master : string) (sink : AuditEvent -> res unit).

Definition file_Wrap (purpose plaintext : string) : io cp string :=
  nonce <- rand_bytes NonceSize ;;
  ret (nonce +:+ aead_Seal master nonce purpose plaintext).

Definition note_unwrap (ev : AuditEvent) : io cp unit := fun d =>
  (Ok tt, mkCp (cp_tables d) (cp_now d) (cp_faults d) (cp_rand d) (cp_drawn d)
            (mkMemory (dek_cache (cp_memory d)) (appendAudit (unwrap_trail (cp_memory d)) ev))).

(** The envelope under its purpose, or, as it was wrapped before purposes were
    bound, under none. *)
Definition file_unseals (purpose envelope : string) : option string :=
  if (String.length envelope <? NonceSize)%nat then None
  else
    let nonce := stake NonceSize envelope in
    let ct := sdrop NonceSize envelope in
    match aead_Open master nonce purpose ct with
    | Some pt => Some pt
    | None => aead_Open master nonce "" ct
    end.

Definition file_Unwrap (purpose envelope : string) : io cp string :=
  if (String.length envelope <? NonceSize)%nat then fail "kms: ciphertext too short"
  else
    match file_unseals purpose envelope with
    | None => fail ("kms: unwrap failed: " +:+ ErrAuth)
    | Some plaintext =>
        let ev := mkAuditEvent "kms.unwrap" purpose in
        _ <- note_unwrap ev ;;
        _ <- wrapping "kms: audit sink: " (lift (sink ev)) ;;
        ret plaintext
    end.

Lemma length_rand n s : String.length (stake n (s +:+ repeat_byte n zero)) = n.
Proof. rewrite length_stake, length_app_str, length_repeat_byte. lia. Qed.

Lemma stake_app_len n s t : String.length s = n -> stake n (s +:+ t) = s /\ sdrop n (s +:+ t) = t.
Proof.
  intros <-. split; [|apply sdrop_app].
  induction s as [|c s IH]; cbn; [by destruct t|]. f_equal. exact IH.
Qed.

Lemma file_wrap_unseals purpose plain nonce : String.length nonce = NonceSize ->
  file_unseals purpose (nonce +:+ aead_Seal master nonce purpose plain) = Some plain.
Proof.
  intros Hn. unfold file_unseals. rewrite length_app_str, Hn.
  replace (_ <? _)%nat with false by (symmetry; apply Nat.ltb_ge; lia).
  destruct (stake_app_len NonceSize nonce (aead_Seal master nonce purpose plain) Hn) as [-> ->].
  by rewrite aead_sound.
Qed.

(** The file custody keeps the promises of the interface. *)
#[global] Program Instance FileCustody : KeyCustody := {|
  Wrap := file_Wrap; Unwrap := file_Unwrap; unseals := file_unseals |}.
Next Obligation.
  intros purpose plain d. unfold file_Wrap, bind, rand_bytes, ret. split; [by split|].
  pose proof (length_rand NonceSize (cp_rand d (cp_drawn d))) as Hn. revert Hn.
  generalize (stake NonceSize (cp_rand d (cp_drawn d) +:+ repeat_byte NonceSize zero)).
  intros nonce Hn w [= <-]. by apply file_wrap_unseals.
Qed.
Next Obligation.
  intros purpose w d. unfold file_Unwrap, file_unseals. destruct (_ <? _)%nat; [by split|].
  set (o := match aead_Open _ _ purpose _ with Some pt => Some pt | None => _ end).
  destruct o as [pt|]; [|by split]. unfold bind, note_unwrap, wrapping, lift, wrap_err, ret.
  destruct (sink _); (split; [by split|]); [intros x [= <-]|]; done.
Qed.

(** Every unwrap that yields a key leaves an event in the trail. *)
Lemma file_Unwrap_audited purpose w d x d' : file_Unwrap purpose w d = (Ok x, d') ->
  last (unwrap_trail (cp_memory d')) = Some (mkAuditEvent "kms.unwrap" purpose).
Proof.
  unfold file_Unwrap. destruct (_ <? _)%nat; [done|]. destruct (file_unseals _ _) as [pt|]; [|done].
  unfold bind, note_unwrap, wrapping, lift, wrap_err, ret. destruct (sink _); [|done]. intros [= _ <-]. cbn. unfold appendAudit.
  destruct (_ <=? _)%nat; by rewrite last_snoc.
Qed.

End file.
