(* ===== verification/Vault.v ===== *)
(** * The secrets vault ([cp/internal/store/secrets_*.go])

    Envelope encryption of everything a tenant trusts the control plane with:
    a value is sealed under its organisation's data-encryption key (DEK) with
    the identity of its row as additional data, the DEK itself is stored
    wrapped by custody, and both kinds of key rotate. *)

From S2P Require Import Prelude GoStrings Json CpDb Deploy Engines CpDsd DsdStore Kms.
From stdpp Require Import pretty.
From Stdlib Require Import Ascii.

Local Open Scope string_scope.
Local Open Scope io_scope.

Record store_Secret := mkSecret {
  sec_ID : string;
  sec_ProjectID : string;
  sec_EnvironmentID : option string;
  sec_Name : string;
  sec_EnvVar : bool;
  sec_CreatedBy : string;
}.

Record CreateSecretInput := mkCreateSecretInput {
  csi_ProjectID : string;
  csi_EnvironmentID : string;
  csi_Name : string;
  csi_Value : string;
  csi_EnvVar : bool;
}.

Record ResolvedSecret := mkResolvedSecret {
  rsec_Name : string;
  rsec_Value : string;
  rsec_EnvVar : bool;
}.

(** ** What a ciphertext is bound to *)

Definition secretAAD (orgID projectID secretID : string) : string :=
  orgID +:+ "|" +:+ projectID +:+ "|" +:+ secretID.
Definition dbAAD (orgID resourceID : string) : string := orgID +:+ "|db|" +:+ resourceID.
Definition s3AAD (orgID resourceID : string) : string := orgID +:+ "|s3|" +:+ resourceID.
Definition targetAAD (orgID targetID : string) : string := orgID +:+ "|bktarget|" +:+ targetID.
Definition repoKeyAAD (orgID policyID : string) : string := orgID +:+ "|bkrepo|" +:+ policyID.
Definition alertChannelAAD (orgID channelID : string) : string := orgID +:+ "|alch|" +:+ channelID.
Definition hubTokenAAD (orgID resourceID : string) : string := orgID +:+ "|llm|" +:+ resourceID.
Definition gitTokenPurpose (orgID : string) : string := "git_token:" +:+ orgID.
Definition dek_purpose (orgID : string) : string := "org_dek:" +:+ orgID.

Definition id_at (n : nat) (ids : list string) : string := default "" (ids !! n).

Record dekReencTarget := mkTarget {
  tg_table : string;
  tg_aad : string -> list string -> string;
}.

Definition dekReencTargets : list dekReencTarget := [
  mkTarget "secrets" (fun o id => secretAAD o (id_at 1 id) (id_at 0 id));
  mkTarget "db_credentials" (fun o id => dbAAD o (id_at 0 id));
  mkTarget "s3_credentials" (fun o id => s3AAD o (id_at 0 id));
  mkTarget "backup_targets" (fun o id => targetAAD o (id_at 0 id));
  mkTarget "backup_policies" (fun o id => repoKeyAAD o (id_at 0 id));
  mkTarget "backup_repo_key_archive" (fun o id => repoKeyAAD o (id_at 0 id));
  mkTarget "alert_channels" (fun o id => alertChannelAAD o (id_at 0 id));
  mkTarget "s3_buckets" (fun o id => s3AAD o (id_at 1 id));
  mkTarget "pending_s3_ops" (fun o id => s3AAD o (id_at 1 id));
  mkTarget "llm_endpoints" (fun o id => hubTokenAAD o (id_at 0 id))].

(** [json.Unmarshal] into a tree *)
Class JsonReader := { json_parse : string -> option json }.

(** [tx.Begin] ... with an early [return v, nil] that leaves the transaction to
    be rolled back ([None]) *)
Definition transaction_or {A} (v : A) (m : io cp (option A)) : io cp A := fun d =>
  match (_ <- query (fun _ _ => tt) ;; o <- m ;;
         match o with Some a => _ <- query (fun _ _ => tt) ;; ret (Some a) | None => ret None end) d with
  | (Ok (Some a), d') => (Ok a, d')
  | (Ok None, d') => (Ok v, with_tables (cp_tables d) d')
  | (Err e, d') => (Err e, with_tables (cp_tables d) d')
  end.

Section vault.
Context {pg : Postgres} {ae : Aead} {kc : KeyCustody}.

(** ** Data-encryption keys *)

Definition dek_by_id (v : vault) (id : string) : option dek_row :=
  List.find (fun k => String.eqb (dk_id k) id) (org_deks v).

Definition active_in (orgID : string) (k : dek_row) : bool := String.eqb (dk_org k) orgID && dk_active k.

Definition active_dek (v : vault) (orgID : string) : option dek_row :=
  List.find (active_in orgID) (org_deks v).

Definition cached (dekID : string) : io cp (option string) := fun d =>
  (Ok (dek_cache (cp_memory d) !! dekID), d).

Definition cacheDEK (dekID dek : string) : io cp unit := fun d =>
  (Ok tt, mkCp (cp_tables d) (cp_now d) (cp_faults d) (cp_rand d) (cp_drawn d)
            (mkMemory (<[dekID := dek]> (dek_cache (cp_memory d))) (unwrap_trail (cp_memory d)))).

Definition dekPlaintext (dekID : string) : io cp string :=
  c <- cached dekID ;;
  match c with
  | Some dek => ret dek
  | None =>
      row <- query (fun _ t => dek_by_id (vaulted t) dekID) ;;
      match row with
      | None => fail ErrNoRows
      | Some k =>
          dek <- wrapping "unwrap dek: " (Unwrap (dek_purpose (dk_org k)) (dk_wrapped k)) ;;
          if negb (Nat.eqb (String.length dek) 32) then fail "dek: wrong key size"
          else _ <- cacheDEK dekID dek ;; ret dek
      end
  end.

(** The [INSERT], with the primary key and the index that allows one active key
    per organisation *)
Definition insert_dek (k : dek_row) : io cp unit :=
  exec (fun _ t =>
    if existsb (fun x => String.eqb (dk_id x) (dk_id k)) (org_deks (vaulted t))
       || dk_active k && existsb (active_in (dk_org k)) (org_deks (vaulted t))
    then Err ErrUnique
    else Ok (tt, set_deks (fun l => l ++ [k])%list t)).

Definition activeDEKTx (orgID : string) : io cp (string * string) :=
  row <- query (fun _ t => active_dek (vaulted t) orgID) ;;
  match row with
  | None =>
      dek <- rand_bytes 32 ;;
      wrapped <- wrapping "wrap dek: " (Wrap (dek_purpose orgID) dek) ;;
      dekID <- newID "dek" ;;
      _ <- wrapping "insert dek: " (insert_dek (mkDek dekID orgID wrapped 1 true None)) ;;
      _ <- cacheDEK dekID dek ;;
      ret (dekID, dek)
  | Some k => dek <- dekPlaintext (dk_id k) ;; ret (dk_id k, dek)
  end.

(** ** Secrets *)

Definition has_pair (l : list (string * string)) (a b : string) : bool :=
  existsb (fun p => String.eqb p.1 a && String.eqb p.2 b) l.

Definition ErrEnvironment := "environment does not belong to the project".

Definition assertScopeTx (orgID projectID envID : string) : io cp unit :=
  ok <- query (fun _ t => has_pair (projects (vaulted t)) projectID orgID) ;;
  if negb ok then fail ErrNotFound
  else if negb (String.eqb envID "") then
    ok <- query (fun _ t => existsb (fun e => String.eqb (en_id e) envID && String.eqb (en_project e) projectID) (environments (vaulted t))) ;;
    if negb ok then fail ErrEnvironment else ret tt
  else ret tt.

(** A row of [secrets] *)
Definition secret_row (secretID orgID projectID : string) (envID : option string) (name ct nonce dekID : string)
    (env_var : bool) (actor : string) : cipher_row :=
  mkCipher "secrets" secretID orgID [projectID] ct nonce (Some dekID) (SecretMeta envID name env_var actor).

Definition secret_of (c : cipher_row) : store_Secret :=
  match cr_meta c with
  | SecretMeta e n v by_ => mkSecret (cr_pk c) (id_at 0 (cr_ids c)) e n v by_
  | _ => mkSecret (cr_pk c) (id_at 0 (cr_ids c)) None "" false ""
  end.

Definition in_table (tbl : string) (c : cipher_row) : bool := String.eqb (cr_table c) tbl.
Definition row_is (tbl pk : string) (c : cipher_row) : bool := in_table tbl c && String.eqb (cr_pk c) pk.

(** [secrets_env_name_idx] and [secrets_project_name_idx]: names are unique in
    their scope, case aside *)
Definition same_scope (a b : cipher_row) : bool :=
  in_table "secrets" a && in_table "secrets" b &&
  String.eqb (to_lower (sec_Name (secret_of a))) (to_lower (sec_Name (secret_of b))) &&
  match sec_EnvironmentID (secret_of a), sec_EnvironmentID (secret_of b) with
  | Some e, Some e' => String.eqb e e'
  | None, None => String.eqb (sec_ProjectID (secret_of a)) (sec_ProjectID (secret_of b))
  | _, _ => false
  end.

Definition insert_cipher (c : cipher_row) : io cp unit :=
  exec (fun _ t =>
    if existsb (fun x => row_is (cr_table c) (cr_pk c) x || same_scope c x) (ciphers (vaulted t)) then Err ErrUnique
    else Ok (tt, set_ciphers (fun l => l ++ [c])%list t)).

Definition CreateSecret (orgID actor : string) (inp : CreateSecretInput) : io cp store_Secret :=
  transaction
    (_ <- assertScopeTx orgID (csi_ProjectID inp) (csi_EnvironmentID inp) ;;
     dk <- activeDEKTx orgID ;;
     secretID <- newID "sec" ;;
     sealed <- gcmSeal dk.2 (secretAAD orgID (csi_ProjectID inp) secretID) (csi_Value inp) ;;
     r <- attempt (insert_cipher (secret_row secretID orgID (csi_ProjectID inp) (nullif (csi_EnvironmentID inp))
            (csi_Name inp) sealed.2 sealed.1 dk.1 (csi_EnvVar inp) actor)) ;;
     match r with
     | Err e =>
         if String.eqb e ErrUnique
         then fail (ErrConflict +:+ ": a secret named " +:+ quote (csi_Name inp) +:+ " already exists in this scope")
         else fail ("insert secret: " +:+ e)
     | Ok _ =>
         _ <- auditTx orgID actor "Secret created" (csi_Name inp) ;;
         ret (mkSecret secretID (csi_ProjectID inp) (nullif (csi_EnvironmentID inp)) (csi_Name inp)
                (csi_EnvVar inp) actor)
     end).

Definition secret_in (orgID : string) (c : cipher_row) : bool := in_table "secrets" c && String.eqb (cr_org c) orgID.
Definition the_secret (orgID secretID : string) (c : cipher_row) : bool :=
  secret_in orgID c && String.eqb (cr_pk c) secretID.

Definition find_cipher (p : cipher_row -> bool) (t : tables) : option cipher_row :=
  List.find p (ciphers (vaulted t)).

(** [ORDER BY name]: the collation is the database's. *)
Definition ListSecrets (orgID projectID envID : string) : io cp (list store_Secret) :=
  query (fun _ t => map secret_of (order_by (fun _ => 0%Z) (List.filter (fun c =>
    secret_in orgID c && String.eqb (id_at 0 (cr_ids c)) projectID &&
    (String.eqb envID "" || match sec_EnvironmentID (secret_of c) with Some e => String.eqb e envID | None => false end))
    (ciphers (vaulted t))))).

Definition opt_dek (c : cipher_row) : string := deref (cr_dek c).

Definition RevealSecret (orgID secretID actor : string) : io cp string :=
  transaction
    (row <- query (fun _ => find_cipher (the_secret orgID secretID)) ;;
     match row with
     | None => fail ErrNotFound
     | Some c =>
         dek <- dekPlaintext (opt_dek c) ;;
         plaintext <- wrapping "decrypt secret: "
           (lift (gcmOpen dek (secretAAD orgID (id_at 0 (cr_ids c)) secretID) (cr_nonce c) (cr_ct c))) ;;
         _ <- auditTx orgID actor "Secret revealed" (sec_Name (secret_of c)) ;;
         ret plaintext
     end).

Definition resealed (dekID ct nonce : string) (c : cipher_row) : cipher_row :=
  mkCipher (cr_table c) (cr_pk c) (cr_org c) (cr_ids c) ct nonce (Some dekID) (cr_meta c).

Definition update_cipher (p : cipher_row -> bool) (dekID ct nonce : string) : io cp unit :=
  update (fun _ => set_ciphers (map (fun c => if p c then resealed dekID ct nonce c else c))).

Definition UpdateSecretValue (orgID secretID value actor : string) : io cp store_Secret :=
  transaction
    (row <- query (fun _ => find_cipher (the_secret orgID secretID)) ;;
     match row with
     | None => fail ErrNotFound
     | Some c =>
         let sec := secret_of c in
         dk <- activeDEKTx orgID ;;
         sealed <- gcmSeal dk.2 (secretAAD orgID (sec_ProjectID sec) (sec_ID sec)) value ;;
         _ <- wrapping "update secret: " (update_cipher (the_secret orgID secretID) dk.1 sealed.2 sealed.1) ;;
         _ <- auditTx orgID actor "Secret value updated" (sec_Name sec) ;;
         ret sec
     end).

Definition DeleteSecret (orgID secretID actor : string) : io cp store_Secret :=
  transaction
    (row <- exec (fun _ t => Ok (find_cipher (the_secret orgID secretID) t,
       set_ciphers (List.filter (fun c => negb (the_secret orgID secretID c))) t)) ;;
     match row with
     | None => fail ErrNotFound
     | Some c =>
         let sec := secret_of c in
         _ <- auditTx orgID actor "Secret deleted" (sec_Name sec) ;;
         ret sec
     end).

Definition AppResourcesForSecretScope (orgID projectID envID : string) : io cp (list string) :=
  query (fun _ t => map rs_id (List.filter (fun r =>
    String.eqb (rs_org r) orgID && String.eqb (rs_project r) projectID && String.eqb (rs_kind r) "app" &&
    (String.eqb envID "" || match rs_environment r with Some e => String.eqb e envID | None => false end))
    (order_by (fun _ => 0%Z) (resources t)))).

(** ** Rotation of the key-encryption key *)

Definition rewrapped (id wrapped : string) (k : dek_row) : dek_row :=
  if String.eqb (dk_id k) id
  then mkDek (dk_id k) (dk_org k) wrapped (dk_wrap_version k + 1) (dk_active k) (dk_retired_at k)
  else k.

Definition rewrap_dek (orgID : string) (k : dek_row) : io cp unit :=
  plain <- wrapping "unwrap for rewrap: " (Unwrap (dek_purpose orgID) (dk_wrapped k)) ;;
  rew <- wrapping "rewrap: " (Wrap (dek_purpose orgID) plain) ;;
  update (fun _ => set_deks (map (rewrapped (dk_id k) rew))).

Definition set_envelope (tbl key w : string) : tables -> tables :=
  set_envelopes (map (fun r =>
    if String.eqb (wr_table r) tbl && String.eqb (wr_key r) key
    then mkWrapped (wr_table r) (wr_key r) (wr_org r) (Some w) else r)).

Definition rewrap_envelope (tbl purpose : string) (kw : string * string) : io cp unit :=
  plain <- wrapping ("unwrap for rewrap (" +:+ purpose +:+ "): ") (Unwrap purpose kw.2) ;;
  w <- wrapping ("rewrap (" +:+ purpose +:+ "): ") (Wrap purpose plain) ;;
  update (fun _ => set_envelope tbl kw.1 w).

Definition envelopes_of (tbl orgID : string) (t : tables) : list (string * string) :=
  omap (fun r => if String.eqb (wr_table r) tbl && String.eqb (wr_org r) orgID
                 then v ← wr_value r; Some (wr_key r, v) else None) (envelopes (vaulted t)).

Definition rewrapColumnTx (tbl purpose orgID : string) : io cp Z :=
  rs <- query (fun _ => envelopes_of tbl orgID) ;;
  _ <- for_each rs (rewrap_envelope tbl purpose) ;;
  ret (Z.of_nat (length rs)).

Definition fmt_d (z : Z) : string := pretty z.

Definition RotateKEK (orgID actor : string) : io cp Z :=
  transaction
    (deks <- query (fun _ t => List.filter (fun k => String.eqb (dk_org k) orgID) (org_deks (vaulted t))) ;;
     _ <- for_each deks (rewrap_dek orgID) ;;
     gitN <- rewrapColumnTx "git_connections" (gitTokenPurpose orgID) orgID ;;
     srvN <- rewrapColumnTx "servers" ("srv_bootstrap:" +:+ orgID) orgID ;;
     let n := Z.of_nat (length deks) in
     let total := (n + gitN + srvN)%Z in
     _ <- (if (0 <? total)%Z
           then auditTx orgID actor "KEK rotated" (fmt_d n +:+ " DEKs, " +:+ fmt_d gitN +:+ " git tokens, " +:+
                  fmt_d srvN +:+ " bootstrap keys re-wrapped")
           else ret tt) ;;
     ret total).

Definition tokenPepperName := "token_pepper".
Definition dsdSigningKeyName := "dsd_signing_key".
Definition githubAppKeyName := "github_app_private_key".

Definition cp_secret (name : string) (t : tables) : option string :=
  r ← List.find (fun r => String.eqb (wr_table r) "cp_secrets" && String.eqb (wr_key r) name) (envelopes (vaulted t));
  wr_value r.

Fixpoint rewrap_globals (names : list string) (n : Z) : io cp Z :=
  match names with
  | [] => ret n
  | name :: names =>
      w <- query (fun _ => cp_secret name) ;;
      match w with
      | None => rewrap_globals names n
      | Some wrapped =>
          plain <- wrapping ("unwrap " +:+ name +:+ ": ") (Unwrap name wrapped) ;;
          rew <- wrapping ("rewrap " +:+ name +:+ ": ") (Wrap name plain) ;;
          _ <- update (fun _ => set_envelope "cp_secrets" name rew) ;;
          rewrap_globals names (n + 1)
      end
  end.

Definition RotateGlobalKEK (actor : string) : io cp Z :=
  transaction
    (n <- rewrap_globals [tokenPepperName; dsdSigningKeyName; githubAppKeyName] 0 ;;
     _ <- (if (0 <? n)%Z
           then auditTx "*" actor "Global KEK rotated" (fmt_d n +:+ " CP secrets re-wrapped") else ret tt) ;;
     ret n).

(** The token pepper: made and wrapped on the first boot, read back afterwards *)
Definition insert_cp_secret (name wrapped : string) (t : tables) : tables :=
  match cp_secret name t with
  | Some _ => t
  | None => set_envelopes (fun l => l ++ [mkWrapped "cp_secrets" name "" (Some wrapped)])%list t
  end.

Definition LoadTokenPepper : io cp string :=
  w <- query (fun _ => cp_secret tokenPepperName) ;;
  wrapped <-
    match w with
    | Some w => ret w
    | None =>
        pepper <- rand_bytes 32 ;;
        w <- wrapping "wrap token pepper: " (Wrap tokenPepperName pepper) ;;
        _ <- wrapping "insert token pepper: " (update (fun _ => insert_cp_secret tokenPepperName w)) ;;
        w' <- query (fun _ => cp_secret tokenPepperName) ;;
        match w' with Some w' => ret w' | None => fail ErrNoRows end
    end ;;
  wrapping "unwrap token pepper: " (Unwrap tokenPepperName wrapped).

(** ** Rotation of the data-encryption key *)

Definition deactivated (orgID : string) (k : dek_row) : dek_row :=
  if active_in orgID k
  then mkDek (dk_id k) (dk_org k) (dk_wrapped k) (dk_wrap_version k) false (dk_retired_at k) else k.

Definition RotateDEK (orgID actor : string) : io cp string :=
  made <- transaction
    (_ <- activeDEKTx orgID ;;
     _ <- update (fun _ => set_deks (map (deactivated orgID))) ;;
     dek <- rand_bytes 32 ;;
     wrapped <- Wrap (dek_purpose orgID) dek ;;
     dekID <- newID "dek" ;;
     _ <- insert_dek (mkDek dekID orgID wrapped 1 true None) ;;
     _ <- auditTx orgID actor "DEK rotation started" dekID ;;
     ret (dekID, dek)) ;;
  _ <- cacheDEK made.1 made.2 ;;
  ret made.1.

(** The rows of one table that are not yet on the active key *)
Definition stale_row_of (tbl orgID activeID : string) (c : cipher_row) : bool :=
  in_table tbl c && String.eqb (cr_org c) orgID &&
  match cr_dek c with Some id => negb (String.eqb id activeID) | None => false end.

Definition reencrypt_row (orgID activeID activeDEK : string) (t : dekReencTarget) (c : cipher_row) : io cp unit :=
  oldDEK <- dekPlaintext (opt_dek c) ;;
  let aad := tg_aad t orgID (cr_pk c :: cr_ids c) in
  plain <- wrapping ("re-encrypt " +:+ tg_table t +:+ " " +:+ cr_pk c +:+ ": ")
    (lift (gcmOpen oldDEK aad (cr_nonce c) (cr_ct c))) ;;
  sealed <- gcmSeal activeDEK aad plain ;;
  update_cipher (row_is (tg_table t) (cr_pk c)) activeID sealed.2 sealed.1.

Definition reencTableTx (orgID activeID activeDEK : string) (t : dekReencTarget) : io cp Z :=
  recs <- query (fun _ tb => List.filter (stale_row_of (tg_table t) orgID activeID) (ciphers (vaulted tb))) ;;
  _ <- for_each recs (reencrypt_row orgID activeID activeDEK t) ;;
  ret (Z.of_nat (length recs)).

Fixpoint reencrypt_all (orgID activeID activeDEK : string) (ts : list dekReencTarget) (total : Z) : io cp Z :=
  match ts with
  | [] => ret total
  | t :: ts =>
      n <- reencTableTx orgID activeID activeDEK t ;;
      reencrypt_all orgID activeID activeDEK ts (total + n)
  end.

(** [NOT EXISTS (SELECT 1 FROM <each of the ten tables> WHERE <its key column> = d.id)] *)
Definition unreferenced (v : vault) (k : dek_row) : bool :=
  forallb (fun tbl => negb (existsb (fun c => in_table tbl c && match cr_dek c with
    Some id => String.eqb id (dk_id k) | None => false end) (ciphers v)))
    ["secrets"; "db_credentials"; "s3_credentials"; "backup_targets"; "backup_policies"; "backup_repo_key_archive";
     "alert_channels"; "llm_endpoints"; "s3_buckets"; "pending_s3_ops"].

Definition retire (orgID : string) (now : Z) (v : vault) (k : dek_row) : dek_row :=
  if String.eqb (dk_org k) orgID && negb (dk_active k) && bool_decide (dk_retired_at k = None) && unreferenced v k
  then mkDek (dk_id k) (dk_org k) (dk_wrapped k) (dk_wrap_version k) (dk_active k) (Some now) else k.

Definition ReencryptSecrets (orgID : string) : io cp Z :=
  transaction_or 0%Z
    (row <- query (fun _ t => active_dek (vaulted t) orgID) ;;
     match row with
     | None => ret None
     | Some k =>
         activeDEK <- dekPlaintext (dk_id k) ;;
         total <- reencrypt_all orgID (dk_id k) activeDEK dekReencTargets 0 ;;
         _ <- update (fun now t => set_deks (map (retire orgID now (vaulted t))) t) ;;
         ret (Some total)
     end).

(** [handleRotateDEK] of the API: both steps, in two transactions *)
Definition handleRotateDEK (orgID actor : string) : io cp Z :=
  _ <- RotateDEK orgID actor ;; ReencryptSecrets orgID.

(** ** References and values *)

Definition null_last (e : option string) : Z := match e with None => 1 | Some _ => 0 end.

(** The secrets that reach a resource: those of its environment and those of its
    project *)
Definition reaches (r : resource_row) (c : cipher_row) : bool :=
  secret_in (rs_org r) c && String.eqb (id_at 0 (cr_ids c)) (rs_project r) &&
  match sec_EnvironmentID (secret_of c) with
  | None => true
  | Some e => match rs_environment r with Some e' => String.eqb e e' | None => false end
  end.

(** A loop that skips what it has [seen] *)
Fixpoint keep_first {A} (key : A -> string) (seen : list string) (l : list A) : list A :=
  match l with
  | [] => []
  | x :: l =>
      if existsb (String.eqb (key x)) seen then keep_first key seen l
      else x :: keep_first key (key x :: seen) l
  end.

Definition sec_name (c : cipher_row) : string := sec_Name (secret_of c).
Definition env_first (l : list cipher_row) : list cipher_row :=
  order_by (fun c => null_last (sec_EnvironmentID (secret_of c))) l.

(** The rows of the join, [ORDER BY r.id, (s.environment_id IS NULL), ...]: the
    order of the ids is left open. *)
Definition joined (t : tables) (serverID : string) : list (string * cipher_row) :=
  concat (map (fun r => map (pair (rs_id r)) (env_first (List.filter (reaches r) (ciphers (vaulted t)))))
    (order_by (fun _ => 0%Z) (List.filter (ResourceHostedHere t serverID) (resources t)))).

Definition ref_key (p : string * cipher_row) : string := p.1 +:+ String Ascii.zero (sec_name p.2).

(** The map from resources to references, as the list of its entries *)
Definition SecretRefsForServer (serverID : string) : io cp (list (string * (string * bool))) :=
  query (fun _ t => map (fun p => (p.1, (sec_name p.2, sec_EnvVar (secret_of p.2))))
    (keep_first ref_key [] (joined t serverID))).

(** The rows a resource is given *)
Definition effective (v : vault) (r : resource_row) : list cipher_row :=
  keep_first sec_name [] (env_first (List.filter (reaches r) (ciphers v))).

Definition hosted_resource (t : tables) (orgID serverID resourceID : string) : option resource_row :=
  List.find (fun r => String.eqb (rs_org r) orgID && String.eqb (rs_id r) resourceID && ResourceHostedHere t serverID r)
    (resources t).

Fixpoint resolve_rows (orgID projectID : string) (l : list cipher_row) : io cp (list ResolvedSecret) :=
  match l with
  | [] => ret []
  | c :: l =>
      dek <- dekPlaintext (opt_dek c) ;;
      plaintext <- wrapping ("decrypt secret " +:+ quote (sec_Name (secret_of c)) +:+ ": ")
        (lift (gcmOpen dek (secretAAD orgID projectID (cr_pk c)) (cr_nonce c) (cr_ct c))) ;;
      rest <- resolve_rows orgID projectID l ;;
      ret (mkResolvedSecret (sec_Name (secret_of c)) plaintext (sec_EnvVar (secret_of c)) :: rest)
  end.

(** The row of one of the engine tables, for a resource on this very server *)
Definition engine_row (tbl orgID serverID resourceID : string) (c : cipher_row) : bool :=
  row_is tbl resourceID c && String.eqb (cr_org c) orgID &&
  match cr_meta c with EngineMeta _ srv => String.eqb srv serverID | _ => false end.

Definition engine_of (c : cipher_row) : string :=
  match cr_meta c with EngineMeta e _ => e | _ => "" end.

Context {jr : JsonReader}.

(** [dbCredentialsJSON] and [s3CredentialsJSON] *)
Definition dec_db_credentials (v : json) : option (string * string) :=
  dec_struct (fun fs => p ← dec_str (jget fs "password"); r ← dec_str (jget fs "rootPassword"); Some (p, r)) v.
Definition dec_s3_credentials (v : json) : option string :=
  dec_struct (fun fs => dec_str (jget fs "secretKey")) v.

Definition ErrJson := "json: cannot unmarshal".

Definition env_secret (value name : string) : ResolvedSecret := mkResolvedSecret name value true.

Definition resolveDBSecretsTx (orgID serverID resourceID : string) : io cp (list ResolvedSecret) :=
  row <- query (fun _ => find_cipher (engine_row "db_credentials" orgID serverID resourceID)) ;;
  match row with
  | None => ret []
  | Some c =>
      dek <- dekPlaintext (opt_dek c) ;;
      plaintext <- wrapping "decrypt db credentials: "
        (lift (gcmOpen dek (dbAAD orgID resourceID) (cr_nonce c) (cr_ct c))) ;;
      match json_parse plaintext ≫= dec_db_credentials with
      | None => fail ErrJson
      | Some (password, rootPassword) =>
          let e := engine_of c in
          ret (if String.eqb e "postgres" then [env_secret password "POSTGRES_PASSWORD"]
               else if String.eqb e "mysql"
               then [env_secret password "MYSQL_PASSWORD"; env_secret rootPassword "MYSQL_ROOT_PASSWORD"]
               else if String.eqb e "redis" then [env_secret password "REDIS_PASSWORD"]
               else if String.eqb e "mongodb" then [env_secret password "MONGO_INITDB_ROOT_PASSWORD"]
               else [])
      end
  end.

Definition resolveS3SecretsTx (orgID serverID resourceID : string) : io cp (list ResolvedSecret) :=
  row <- query (fun _ => find_cipher (engine_row "s3_credentials" orgID serverID resourceID)) ;;
  match row with
  | None => ret []
  | Some c =>
      match S3EngineByName (engine_of c) with
      | None => fail ("resolve s3 secrets: unknown engine " +:+ quote (engine_of c))
      | Some def =>
          dek <- dekPlaintext (opt_dek c) ;;
          plaintext <- wrapping "decrypt s3 credentials: "
            (lift (gcmOpen dek (s3AAD orgID resourceID) (cr_nonce c) (cr_ct c))) ;;
          match json_parse plaintext ≫= dec_s3_credentials with
          | None => fail ErrJson
          | Some secretKey => ret (map (env_secret secretKey) (se_SecretEnvNames def))
          end
      end
  end.

Definition resolveLLMSecretsTx (orgID serverID resourceID : string) (operatorProvided : list string) :
    io cp (list ResolvedSecret) :=
  if existsb (String.eqb HubTokenSecretName) operatorProvided then ret []
  else
    row <- query (fun _ => find_cipher (fun c =>
      engine_row "llm_endpoints" orgID serverID resourceID c && bool_decide (is_Some (cr_dek c)))) ;;
    match row with
    | None => ret []
    | Some c =>
        dek <- dekPlaintext (opt_dek c) ;;
        plaintext <- wrapping "decrypt hugging face token: "
          (lift (gcmOpen dek (hubTokenAAD orgID resourceID) (cr_nonce c) (cr_ct c))) ;;
        ret [env_secret plaintext HubTokenSecretName]
    end.

Definition ResolveSecretsForResource (orgID serverID resourceID actor : string) : io cp (list ResolvedSecret) :=
  transaction
    (row <- query (fun _ t => hosted_resource t orgID serverID resourceID) ;;
     match row with
     | None => fail ErrNotFound
     | Some r =>
         encRows <- query (fun _ t => effective (vaulted t) r) ;;
         own <- resolve_rows orgID (rs_project r) encRows ;;
         db <- resolveDBSecretsTx orgID serverID resourceID ;;
         s3 <- resolveS3SecretsTx orgID serverID resourceID ;;
         llm <- resolveLLMSecretsTx orgID serverID resourceID (map (fun c => sec_Name (secret_of c)) encRows) ;;
         let out := (own ++ db ++ s3 ++ llm)%list in
         _ <- (if (0 <? length out)%nat
               then auditTx orgID actor "Secrets fetched (agent)" resourceID else ret tt) ;;
         ret out
     end).

End vault.
