(* ===== verification/VaultSpec.v ===== *)
(** * What the vault promises

    A Hoare logic over the vault's tables and the process's key cache, the
    invariant of the vault, and the refinement of an abstract store of
    plaintexts: whatever is created, updated, deleted, revealed, rotated or
    re-encrypted, and wherever a statement or custody fails, the vault reads as
    that store does. *)

From S2P Require Import Prelude GoStrings Json CpDb Deploy Engines CpDsd DsdStore Kms Vault.

Local Open Scope string_scope.
Local Open Scope io_scope.

(** ** A logic of the vault *)

Definition vassert := vault -> gmap string string -> Prop.

Definition vhold (P : vassert) (d : cp) : Prop := P (vaulted (cp_tables d)) (dek_cache (cp_memory d)).

Definition vdoes {A} (P : vassert) (m : io cp A) (Q : A -> vassert) (I : vassert) : Prop :=
  triple (vhold P) m (fun r d => match r with Ok a => vhold (Q a) d | Err _ => vhold I d end).

(** [I] holds wherever [P] does: a statement that fails changes nothing. *)
Definition ventails (P I : vassert) : Prop := forall v c, P v c -> I v c.

Section rules.
Context {A B : Type}.
Implicit Types (P I : vassert).

Lemma v_weaken P P' (m : io cp A) (Q Q' : A -> vassert) I I' :
  vdoes P' m Q' I' -> ventails P P' -> (forall a, ventails (Q' a) (Q a)) -> ventails I' I -> vdoes P m Q I.
Proof.
  intros H HP HQ HI. eapply triple_weaken; [exact H|intros d; apply HP|].
  intros [a|e] d; [apply HQ|apply HI].
Qed.

Lemma v_pre P P' (m : io cp A) (Q : A -> vassert) I : vdoes P' m Q I -> ventails P P' -> vdoes P m Q I.
Proof. intros H HP d Hd. by apply H, HP. Qed.

Lemma v_pure P (phi : Prop) (m : io cp A) (Q : A -> vassert) I :
  (phi -> vdoes P m Q I) -> vdoes (fun v c => P v c /\ phi) m Q I.
Proof. intros H d [HP Hphi]. exact (H Hphi d HP). Qed.

Lemma v_exists {X} (P : X -> vassert) (m : io cp A) (Q : A -> vassert) I :
  (forall x, vdoes (P x) m Q I) -> vdoes (fun v c => exists x, P x v c) m Q I.
Proof. intros H d [x HP]. exact (H x d HP). Qed.

Lemma v_ret P (a : A) (Q : A -> vassert) I : ventails P (Q a) -> vdoes P (ret a) Q I.
Proof. intros H d. apply H. Qed.

Lemma v_fail P e (Q : A -> vassert) I : ventails P I -> vdoes P (fail e) Q I.
Proof. intros H d. apply H. Qed.

Lemma v_lift P (r : res A) (Q : A -> vassert) I : ventails P I ->
  (forall a, r = Ok a -> ventails P (Q a)) -> vdoes P (lift r) Q I.
Proof. intros HI HQ d. destruct r as [a|e]; [by apply HQ|apply HI]. Qed.

Lemma v_bind P (m : io cp A) (k : A -> io cp B) R Q I :
  vdoes P m R I -> (forall a, vdoes (R a) (k a) Q I) -> vdoes P (bind m k) Q I.
Proof.
  intros Hm Hk. eapply (triple_bind _ _ _ (fun a => vhold (R a))); [|exact Hk].
  eapply triple_weaken; [exact Hm|done|]. by intros [a|e] d.
Qed.

Lemma v_exec P (f : Z -> tables -> res (A * tables)) (Q : A -> vassert) I : ventails P I ->
  (forall now t c, P (vaulted t) c ->
    match f now t with Ok (a, t') => Q a (vaulted t') c | Err _ => True end) ->
  vdoes P (exec f) Q I.
Proof.
  intros HI HQ d HP. unfold exec. specialize (HI _ _ HP). specialize (HQ (cp_now d) _ _ HP).
  destruct (cp_faults d) as [|[] fs]; [|done|]; destruct (f (cp_now d) (cp_tables d)) as [[a t]|e]; done.
Qed.

Lemma v_query P (f : Z -> tables -> A) I : ventails P I ->
  vdoes P (query f) (fun a v c => P v c /\ exists now t, v = vaulted t /\ a = f now t) I.
Proof. intros HI. apply v_exec; [done|]. eauto. Qed.

(** A query that looks at the vault alone *)
Lemma v_look P (f : vault -> A) I : ventails P I ->
  vdoes P (query (fun _ t => f (vaulted t))) (fun a v c => P v c /\ a = f v) I.
Proof. intros HI. by apply v_exec. Qed.

Lemma v_wrapping P pre (m : io cp A) Q I : vdoes P m Q I -> vdoes P (wrapping pre m) Q I.
Proof. intros H. eapply triple_wrapping, triple_weaken; [exact H|done|]. by intros [a|e] d. Qed.

Lemma v_attempt P (m : io cp A) (Q : A -> vassert) I I' :
  vdoes P m Q I -> vdoes P (attempt m) (fun r => match r with Ok a => Q a | Err _ => I end) I'.
Proof. intros H. eapply triple_attempt, triple_weaken; [exact H|done|]. by intros [a|e] d. Qed.

End rules.

(** A loop; [J] speaks of what is left to do. *)
Lemma v_for_each {X} (J : list X -> vassert) (body : X -> io cp unit) I :
  (forall l, ventails (J l) I) ->
  (forall x l, vdoes (J (x :: l)) (body x) (fun _ => J l) I) ->
  forall l, vdoes (J l) (for_each l body) (fun _ => J []) I.
Proof.
  intros HI Hb l. induction l as [|x l IH]; cbn; [by intros d|].
  eapply v_bind; [apply Hb|]. intros u. exact IH.
Qed.

(** The rows of a transaction that fails are as they were. *)
Lemma v_transaction {A} v0 (m : io cp A) (P : vassert) (R : A -> vassert) :
  vdoes (fun v c => v = v0 /\ P v0 c) m R (fun _ c => P v0 c) ->
  (forall a v c, R a v c -> P v0 c) ->
  vdoes (fun v c => v = v0 /\ P v0 c) (transaction m) R (fun v c => v = v0 /\ P v0 c).
Proof.
  intros H HR.
  assert (Hb : vdoes (fun v c => v = v0 /\ P v0 c) (_ <- query (fun _ _ => tt) ;; a <- m ;;
    _ <- query (fun _ _ => tt) ;; ret a) R (fun _ c => P v0 c)).
  { eapply v_bind; [apply v_query; by intros v c [_ ?]|]. intros u.
    eapply v_bind; [eapply v_pre; [exact H|by intros v c [? _]]|]. intros a.
    eapply v_bind; [apply v_query; intros v c; apply HR|]. intros u2. apply v_ret. by intros v c [? _]. }
  intros d HP. specialize (Hb d HP). unfold transaction.
  match type of Hb with match ?x with (_, _) => _ end => destruct x as [[a|e] d'] end; [done|].
  split; [exact (proj1 HP)|exact Hb].
Qed.

Lemma v_transaction_or {A} v0 (w : A) (m : io cp (option A)) (P : vassert) (R : A -> vassert) :
  vdoes (fun v c => v = v0 /\ P v0 c) m
    (fun o v c => match o with Some a => R a v c | None => P v0 c /\ (P v0 c -> R w v0 c) end) (fun _ c => P v0 c) ->
  (forall a v c, R a v c -> P v0 c) ->
  vdoes (fun v c => v = v0 /\ P v0 c) (transaction_or w m) R (fun v c => v = v0 /\ P v0 c).
Proof.
  intros H HR.
  set (M := fun o v c => match o with Some a => R a v c | None => P v0 c /\ (P v0 c -> R w v0 c) end) in H.
  assert (Hb : vdoes (fun v c => v = v0 /\ P v0 c) (_ <- query (fun _ _ => tt) ;; o <- m ;;
    match o with Some a => _ <- query (fun _ _ => tt) ;; ret (Some a) | None => ret None end) M (fun _ c => P v0 c)).
  { eapply v_bind; [apply v_query; by intros v c [_ ?]|]. intros u.
    eapply v_bind; [eapply v_pre; [exact H|by intros v c [? _]]|]. intros [a|]; [|by apply v_ret; intros v c].
    eapply v_bind; [apply v_query; intros v c; apply HR|]. intros u2. apply v_ret. by intros v c [? _]. }
  intros d HP. specialize (Hb d HP). unfold transaction_or.
  match type of Hb with match ?x with (_, _) => _ end => destruct x as [[[a|]|e] d'] end; [done| |].
  - destruct Hb as [Hc Hr]. pose proof (proj1 HP) as E. unfold vhold. cbn. rewrite E. by apply Hr.
  - split; [exact (proj1 HP)|exact Hb].
Qed.

Lemma v_audit org actor action target P (Q : unit -> vassert) I :
  ventails P I -> ventails P (Q tt) -> vdoes P (auditTx org actor action target) Q I.
Proof. intros HI HQ. apply v_wrapping, v_exec; [done|]. intros now t c. apply HQ. Qed.

Lemma v_newID p P I : vdoes P (newID p) (fun _ => P) I.
Proof. by intros d. Qed.

Lemma v_rand n P I : vdoes P (rand_bytes n) (fun s v c => P v c /\ String.length s = n) I.
Proof. intros d HP. unfold rand_bytes. split; [exact HP|apply length_rand]. Qed.

Lemma v_cached id P I : vdoes P (cached id) (fun o v c => P v c /\ o = c !! id) I.
Proof. by intros d HP. Qed.

Lemma v_cacheDEK id key P (Q : unit -> vassert) I :
  (forall v c, P v c -> Q tt v (<[id := key]> c)) -> vdoes P (cacheDEK id key) Q I.
Proof. intros H d HP. exact (H _ _ HP). Qed.

Section custody.
Context {ae : Aead} {kc : KeyCustody}.

Lemma v_custody {A} (m : io cp A) (phi : A -> Prop) P I : ventails P I ->
  (forall d, let '(r, d') := m d in custody_frame d d' /\ forall a, r = Ok a -> phi a) ->
  vdoes P m (fun a v c => P v c /\ phi a) I.
Proof.
  intros HI Hm d HP. specialize (Hm d). destruct (m d) as [r d']. destruct Hm as [[Et _ Ec] Hphi].
  unfold vhold in *. rewrite Et, Ec. destruct r as [a|e]; [split; eauto|by apply HI].
Qed.

Lemma v_Wrap purpose plain P I : ventails P I ->
  vdoes P (Wrap purpose plain) (fun w v c => P v c /\ unseals purpose w = Some plain) I.
Proof. intros HI. apply v_custody; [done|]. apply Wrap_spec. Qed.

Lemma v_Unwrap purpose w P I : ventails P I ->
  vdoes P (Unwrap purpose w) (fun x v c => P v c /\ unseals purpose w = Some x) I.
Proof. intros HI. apply v_custody; [done|]. apply Unwrap_spec. Qed.

Lemma gcm_roundtrip key aad nonce pt : aes_key_ok key = true -> String.length nonce = NonceSize ->
  gcmOpen key aad nonce (aead_Seal key nonce aad pt) = Ok pt.
Proof. intros Hk Hn. unfold gcmOpen. by rewrite Hk, Hn, Nat.eqb_refl, aead_sound. Qed.

Lemma v_gcmSeal key aad pt P I : ventails P I ->
  vdoes P (gcmSeal key aad pt) (fun s v c => P v c /\ gcmOpen key aad s.1 s.2 = Ok pt) I.
Proof.
  intros HI. unfold gcmSeal. destruct (aes_key_ok key) eqn:Ek; [|by apply v_fail].
  eapply v_bind; [apply v_rand|]. intros nonce. apply v_ret. intros v c [HP Hn].
  split; [done|]. by apply gcm_roundtrip.
Qed.
End custody.

(** ** What the vault holds *)

Section vault.
Context {pg : Postgres} {ae : Aead} {kc : KeyCustody}.

Definition key_of (v : vault) (id : string) : option string :=
  k ← dek_by_id v id;
  x ← unseals (dek_purpose (dk_org k)) (dk_wrapped k);
  if Nat.eqb (String.length x) 32 then Some x else None.

(** The additional data of a row, by its table *)
Definition aad_of (c : cipher_row) : string :=
  match List.find (fun t => String.eqb (tg_table t) (cr_table c)) dekReencTargets with
  | Some t => tg_aad t (cr_org c) (cr_pk c :: cr_ids c)
  | None => ""
  end.

Definition opened (r : res string) : option string := match r with Ok x => Some x | Err _ => None end.

Definition open_row (key : string) (c : cipher_row) : option string :=
  opened (gcmOpen key (aad_of c) (cr_nonce c) (cr_ct c)).

Definition reading (v : vault) (c : cipher_row) : option string :=
  id ← cr_dek c; key ← key_of v id; open_row key c.

(** The abstract store: the plaintext under a table and a key *)
Definition contents (v : vault) (tbl pk : string) : option string :=
  c ← List.find (row_is tbl pk) (ciphers v); reading v c.

Definition cipher_key (c : cipher_row) : string * string := (cr_table c, cr_pk c).

(** The tables of the schema with a column that REFERENCES org_deks *)
Definition schema_tables : list string :=
  ["secrets"; "db_credentials"; "s3_credentials"; "backup_targets"; "backup_policies"; "backup_repo_key_archive";
   "alert_channels"; "llm_endpoints"; "s3_buckets"; "pending_s3_ops"].

(** The tables whose key column is NOT NULL and whose rows an agent is given *)
Definition sealed_tables : list string := ["secrets"; "db_credentials"; "s3_credentials"].

Record vault_ok (v : vault) : Prop := {
  ok_deks : NoDup (map dk_id (org_deks v));
  ok_rows : NoDup (map cipher_key (ciphers v));
  ok_tables c : c ∈ ciphers v -> cr_table c ∈ schema_tables;
  ok_sealed c : c ∈ ciphers v -> cr_table c ∈ sealed_tables -> cr_dek c <> None;
  ok_open c : c ∈ ciphers v -> cr_dek c <> None -> is_Some (reading v c);
  ok_org c id k : c ∈ ciphers v -> cr_dek c = Some id -> dek_by_id v id = Some k -> dk_org k = cr_org c;
  ok_retired k : k ∈ org_deks v -> dk_retired_at k <> None ->
    dk_active k = false /\ forall c, c ∈ ciphers v -> cr_dek c <> Some (dk_id k);
}.

(** The cached keys are those of the table. *)
Definition agree (c : gmap string string) (v : vault) : Prop :=
  forall id key, c !! id = Some key -> is_Some (dek_by_id v id) -> key_of v id = Some key.

(** A key once in the table stays there and stays the same key. *)
Definition same_keys (v v' : vault) : Prop :=
  forall id k, dek_by_id v id = Some k ->
    exists k', dek_by_id v' id = Some k' /\ dk_org k' = dk_org k /\ key_of v' id = key_of v id.

(** *** Rows by key *)

Lemma find_key {A} (key : A -> string) (l : list A) x id : NoDup (map key l) ->
  List.find (fun y => String.eqb (key y) id) l = Some x <-> x ∈ l /\ key x = id.
Proof.
  induction l as [|y l IH]; cbn; intros Hn.
  - split; [done|]. by intros [?%elem_of_nil _].
  - apply NoDup_cons in Hn as [Hy Hn]. destruct (String.eqb_spec (key y) id) as [E|E].
    + split; [intros [= ->]; split; [by left|done]|]. intros [[->|Hx]%elem_of_cons Ex]; [done|].
      destruct Hy. rewrite E, <- Ex. by apply list_elem_of_fmap_2.
    + rewrite IH by done. split; intros [Hx Ex]; split; [by right|done| |done].
      by apply elem_of_cons in Hx as [->|?].
Qed.

Lemma dek_found v k id : vault_ok v -> dek_by_id v id = Some k <-> k ∈ org_deks v /\ dk_id k = id.
Proof. intros [Hn _ _ _ _ _ _]. apply (find_key dk_id), Hn. Qed.

Lemma dek_elem v k id : dek_by_id v id = Some k -> k ∈ org_deks v /\ dk_id k = id.
Proof. intros [Hin He%String.eqb_eq]%find_some. split; [by apply list_elem_of_In|done]. Qed.

Lemma dek_not_found v id : existsb (fun x => String.eqb (dk_id x) id) (org_deks v) = false -> dek_by_id v id = None.
Proof.
  unfold dek_by_id. induction (org_deks v) as [|k l IH]; cbn; [done|].
  destruct (String.eqb (dk_id k) id); [done|exact IH].
Qed.

(** A row that opens is under a key of the table. *)
Lemma reading_dek v c id : cr_dek c = Some id -> is_Some (reading v c) -> is_Some (dek_by_id v id).
Proof. unfold reading, key_of. intros -> [x Hx]. cbn in Hx. by destruct (dek_by_id v id). Qed.

Lemma reading_kept v v' c : same_keys v v' -> is_Some (reading v c) -> reading v' c = reading v c.
Proof.
  intros Hs Ho. unfold reading. destruct (cr_dek c) as [id|] eqn:Ed; [|done]. cbn.
  destruct (reading_dek v c id Ed Ho) as [k Hk]. destruct (Hs id k Hk) as (k' & _ & _ & E). by rewrite E.
Qed.

Lemma same_keys_refl v : same_keys v v.
Proof. intros id k Hk. by exists k. Qed.

Lemma same_keys_trans v1 v2 v3 : same_keys v1 v2 -> same_keys v2 v3 -> same_keys v1 v3.
Proof.
  intros H12 H23 id k Hk. destruct (H12 id k Hk) as (k2 & Hk2 & Eo2 & Ek2).
  destruct (H23 id k2 Hk2) as (k3 & Hk3 & Eo3 & Ek3). exists k3. split; [done|]. split; congruence.
Qed.

(** Keys are the same when the tables of keys are. *)
Lemma same_keys_deks v v' : org_deks v' = org_deks v -> same_keys v v'.
Proof.
  intros E id k Hk. exists k. unfold key_of, dek_by_id in *. by rewrite E.
Qed.

Lemma agree_same c v v' : same_keys v v' -> agree c v' -> agree c v.
Proof.
  intros Hs Ha id key Hc [k Hk]. destruct (Hs id k Hk) as (k' & Hk' & _ & E). rewrite <- E. by apply Ha; [|exists k'].
Qed.

Lemma agree_insert c v id key : agree c v -> key_of v id = Some key -> agree (<[id := key]> c) v.
Proof.
  intros Ha Hk id' key'. destruct (decide (id = id')) as [<-|Hne].
  - rewrite lookup_insert_eq. by intros [= <-].
  - rewrite lookup_insert_ne by done. apply Ha.
Qed.

(** *** Changing the keys but not the rows *)

Definition with_deks (f : list dek_row -> list dek_row) (v : vault) : vault :=
  mkVault (projects v) (environments v) (f (org_deks v)) (ciphers v) (envelopes v).

Lemma contents_kept v v' : vault_ok v -> ciphers v' = ciphers v -> same_keys v v' ->
  forall tbl pk, contents v' tbl pk = contents v tbl pk.
Proof.
  intros Hok Ec Hs tbl pk. unfold contents. rewrite Ec.
  destruct (List.find (row_is tbl pk) (ciphers v)) as [c|] eqn:E; [|done]. cbn.
  apply find_some in E as [Hin%list_elem_of_In _]. destruct (cr_dek c) as [id|] eqn:Ed.
  - apply reading_kept; [done|]. apply (ok_open v Hok); [done|by rewrite Ed].
  - unfold reading. by rewrite Ed.
Qed.

(** The invariant survives a change of the keys that keeps them the same and
    retires none that backs a row. *)
Lemma deks_changed v v' : vault_ok v -> ciphers v' = ciphers v -> same_keys v v' ->
  NoDup (map dk_id (org_deks v')) ->
  (forall k, k ∈ org_deks v' -> dk_retired_at k <> None ->
    dk_active k = false /\ forall c, c ∈ ciphers v -> cr_dek c <> Some (dk_id k)) ->
  vault_ok v'.
Proof.
  intros Hok Ec Hs Hn Hr. pose proof Hok as [_ Hrows Htab Hsl Hop Horg _]. split; rewrite ?Ec; [done|done|done|done| | |done].
  - intros c Hc Hd. rewrite (reading_kept v v') by eauto. by apply Hop.
  - intros c id k Hc Hd Hk. destruct (reading_dek v c id Hd) as [k0 Hk0]; [apply Hop; by rewrite ?Hd|].
    destruct (Hs id k0 Hk0) as (k' & Hk' & Eo & _). assert (k' = k) as -> by congruence.
    rewrite Eo. by eapply Horg.
Qed.

Lemma find_map_key (f : dek_row -> dek_row) l id : (forall k, dk_id (f k) = dk_id k) ->
  List.find (fun k => String.eqb (dk_id k) id) (map f l) = f <$> List.find (fun k => String.eqb (dk_id k) id) l.
Proof.
  intros Hf. induction l as [|k l IH]; cbn; [done|]. rewrite Hf. by destruct (String.eqb (dk_id k) id).
Qed.

Lemma mapped_same_keys (f : dek_row -> dek_row) v : (forall k, dk_id (f k) = dk_id k) ->
  (forall k, k ∈ org_deks v -> dk_org (f k) = dk_org k /\
    unseals (dek_purpose (dk_org k)) (dk_wrapped (f k)) = unseals (dek_purpose (dk_org k)) (dk_wrapped k)) ->
  same_keys v (with_deks (map f) v).
Proof.
  intros Hid Hf id k Hk. exists (f k). destruct (Hf k) as [Eo Eu]; [by apply dek_elem in Hk as [? _]|].
  unfold key_of, dek_by_id in *. cbn [with_deks org_deks]. rewrite find_map_key, Hk by done. cbn.
  rewrite Eo, Eu. done.
Qed.

Lemma mapped_ok (f : dek_row -> dek_row) v : vault_ok v -> (forall k, dk_id (f k) = dk_id k) ->
  (forall k, k ∈ org_deks v -> dk_org (f k) = dk_org k /\
    unseals (dek_purpose (dk_org k)) (dk_wrapped (f k)) = unseals (dek_purpose (dk_org k)) (dk_wrapped k)) ->
  (forall k, k ∈ org_deks v -> dk_retired_at (f k) <> None ->
    dk_active (f k) = false /\ forall c, c ∈ ciphers v -> cr_dek c <> Some (dk_id k)) ->
  vault_ok (with_deks (map f) v).
Proof.
  intros Hok Hid Hf Hr. apply (deks_changed v); [done|done|by apply mapped_same_keys| |].
  - cbn. rewrite map_map. erewrite map_ext by exact Hid. apply Hok.
  - intros k' (k & -> & Hk)%list_elem_of_fmap Ek. rewrite Hid. by apply Hr.
Qed.

(** A key is added. *)
Lemma find_snoc {A} (p : A -> bool) l y :
  List.find p (l ++ [y])%list = match List.find p l with Some x => Some x | None => if p y then Some y else None end.
Proof. induction l as [|x l IH]; cbn; [done|]. by destruct (p x). Qed.

Lemma added_dek v k : dek_by_id v (dk_id k) = None ->
  same_keys v (with_deks (fun l => l ++ [k])%list v) /\
  dek_by_id (with_deks (fun l => l ++ [k])%list v) (dk_id k) = Some k.
Proof.
  intros Hn. unfold same_keys, key_of, dek_by_id in *. cbn [with_deks org_deks]. split.
  - intros id k0 Hk. exists k0. rewrite !find_snoc, Hk. done.
  - by rewrite find_snoc, Hn, String.eqb_refl.
Qed.

Lemma added_ok v k : vault_ok v -> dek_by_id v (dk_id k) = None -> dk_retired_at k = None ->
  vault_ok (with_deks (fun l => l ++ [k])%list v).
Proof.
  intros Hok Hn Hret. apply (deks_changed v); [done|done|by apply added_dek| |].
  - cbn. rewrite map_app. apply NoDup_app. split; [apply Hok|]. split; [|apply NoDup_singleton].
    intros id (k0 & -> & Hk0)%list_elem_of_fmap E0%list_elem_of_singleton.
    assert (dek_by_id v (dk_id k) = Some k0) as E; [by apply dek_found|congruence].
  - cbn. intros k0 [Hk0| ->]%elem_of_snoc Er; [by apply Hok|done].
Qed.

End vault.
