(* ===== verification/VaultKeep.v ===== *)
(** * The vault keeps its secrets

    The operations of the vault against the abstract store of plaintexts:
    the invariant, the refinement, what a rotation achieves, and which secrets
    an agent is given. *)

From S2P Require Import Prelude GoStrings Json CpDb Deploy Engines CpDsd DsdStore Kms Vault VaultSpec.

Local Open Scope string_scope.
Local Open Scope io_scope.

Section rows.
Context {pg : Postgres} {ae : Aead} {kc : KeyCustody}.

(** ** Changing the rows but not the keys *)

Definition with_ciphers (f : list cipher_row -> list cipher_row) (v : vault) : vault :=
  mkVault (projects v) (environments v) (org_deks v) (f (ciphers v)) (envelopes v).

(** The abstract store with one entry replaced *)
Definition put (tbl pk : string) (x : option string) (a a' : string -> string -> option string) : Prop :=
  forall t p, a' t p = if String.eqb tbl t && String.eqb pk p then x else a t p.

Definition same_store (a a' : string -> string -> option string) : Prop := forall t p, a' t p = a t p.

Lemma row_is_key tbl pk c : row_is tbl pk c = true <-> cr_table c = tbl /\ cr_pk c = pk.
Proof. unfold row_is, in_table. by rewrite andb_true_iff, !String.eqb_eq. Qed.

Lemma row_unique v c c' : vault_ok v -> c ∈ ciphers v -> c' ∈ ciphers v -> cipher_key c = cipher_key c' -> c = c'.
Proof. intros Hok. apply (NoDup_map_inj cipher_key), Hok. Qed.

Lemma contents_at v c : vault_ok v -> c ∈ ciphers v -> contents v (cr_table c) (cr_pk c) = reading v c.
Proof.
  intros Hok Hc. unfold contents.
  destruct (List.find (row_is (cr_table c) (cr_pk c)) (ciphers v)) as [c'|] eqn:E.
  - apply find_some in E as [Hin%list_elem_of_In [Et Ep]%row_is_key]. cbn. f_equal.
    eapply row_unique; [done|done|done|]. unfold cipher_key. congruence.
  - apply list_elem_of_In in Hc. eapply find_none in E; [|exact Hc]. cbn in E.
    unfold row_is, in_table in E. by rewrite !String.eqb_refl in E.
Qed.

Lemma contents_absent v tbl pk : existsb (row_is tbl pk) (ciphers v) = false -> contents v tbl pk = None.
Proof.
  intros E. unfold contents. destruct (List.find _ _) as [c|] eqn:Ef; [|done].
  apply find_some in Ef as [Hin Hr]. rewrite <- not_true_iff_false, existsb_exists in E. destruct E. eauto.
Qed.

Lemma reading_ciphers f v c : reading (with_ciphers f v) c = reading v c.
Proof. done. Qed.

(** *** A row sealed anew *)

Definition reseal (p : cipher_row -> bool) (id ct nonce : string) : list cipher_row -> list cipher_row :=
  map (fun c => if p c then resealed id ct nonce c else c).

Lemma resealed_reading v c id key ct nonce : key_of v id = Some key ->
  reading v (resealed id ct nonce c) = opened (gcmOpen key (aad_of c) nonce ct).
Proof. intros Hk. unfold reading. cbn. by rewrite Hk. Qed.

Lemma find_reseal t q p id ct nonce l : List.find (row_is t q) (reseal p id ct nonce l) =
  (fun c => if p c then resealed id ct nonce c else c) <$> List.find (row_is t q) l.
Proof.
  induction l as [|c l IH]; cbn; [done|].
  replace (row_is t q (if p c then _ else c)) with (row_is t q c) by by destruct (p c).
  by destruct (row_is t q c).
Qed.

Section reseal.
Context (v : vault) (p : cipher_row -> bool) (c0 : cipher_row) (id key ct nonce x : string) (k : dek_row).
Hypothesis Hok : vault_ok v.
Hypothesis Hin : c0 ∈ ciphers v.
Hypothesis Hp : forall c, c ∈ ciphers v -> p c = true <-> c = c0.
Hypothesis Hdek : dek_by_id v id = Some k.
Hypothesis Hkey : key_of v id = Some key.
Hypothesis Horg : dk_org k = cr_org c0.
Hypothesis Hlive : dk_retired_at k = None.
Hypothesis Hopen : gcmOpen key (aad_of c0) nonce ct = Ok x.

Local Abbreviation v' := (with_ciphers (reseal p id ct nonce) v).

Lemma reseal_elem c : c ∈ ciphers v' <-> c = resealed id ct nonce c0 \/ (c ∈ ciphers v /\ c <> c0).
Proof.
  cbn. unfold reseal. rewrite list_elem_of_fmap. split.
  - intros (y & -> & Hy). destruct (p y) eqn:E; [left; f_equal; by apply Hp|right]. split; [done|].
    intros ->. by rewrite (proj2 (Hp c0 Hin) eq_refl) in E.
  - intros [->|[Hc Hne]].
    + exists c0. by rewrite (proj2 (Hp c0 Hin) eq_refl).
    + exists c. destruct (p c) eqn:E; [|done]. destruct Hne. by apply Hp.
Qed.

Lemma reseal_keys : map cipher_key (ciphers v') = map cipher_key (ciphers v).
Proof. cbn. unfold reseal. rewrite map_map. apply map_ext. intros c. by destruct (p c). Qed.

Lemma reseal_ok : vault_ok v'.
Proof.
  split; [apply Hok|rewrite reseal_keys; apply Hok| | | | |].
  - intros c [->|[Hc _]]%reseal_elem; [exact (ok_tables v Hok c0 Hin)|by apply (ok_tables v Hok)].
  - intros c [->|[Hc _]]%reseal_elem; [done|by apply (ok_sealed v Hok)].
  - intros c [->|[Hc _]]%reseal_elem Hd; [|by apply Hok].
    rewrite reading_ciphers, (resealed_reading _ _ _ key), Hopen by done. by eexists.
  - intros c id' k' [->|[Hc _]]%reseal_elem Hd Hk; [|by eapply (ok_org v Hok)].
    injection Hd as <-. cbn in *. unfold dek_by_id in Hk, Hdek. cbn in Hk. congruence.
  - intros k' Hk Hr. destruct (ok_retired v Hok k' Hk Hr) as [Ha Hb]. split; [done|].
    intros c [->|[Hc _]]%reseal_elem; [|by apply Hb]. intros [= E].
    apply Hr. assert (dek_by_id v id = Some k') as E'; [by apply dek_found|congruence].
Qed.

Lemma reseal_contents : put (cr_table c0) (cr_pk c0) (Some x) (contents v) (contents v').
Proof.
  intros t q. destruct (String.eqb_spec (cr_table c0) t) as [<-|Ht], (String.eqb_spec (cr_pk c0) q) as [<-|Hq]; cbn [andb].
  { assert (Hc : resealed id ct nonce c0 ∈ ciphers v') by (apply reseal_elem; by left).
    rewrite (contents_at v' _ reseal_ok Hc : contents v' (cr_table c0) (cr_pk c0) = _).
    by rewrite reading_ciphers, (resealed_reading _ _ _ key), Hopen. }
  all: unfold contents; cbn [with_ciphers ciphers]; rewrite find_reseal; destruct (List.find (row_is _ _) (ciphers v)) as [c|] eqn:E; [|done].
  all: apply find_some in E as [Hc%list_elem_of_In [? ?]%row_is_key]; cbn; rewrite reading_ciphers.
  all: destruct (p c) eqn:Ep; [|done]; apply Hp in Ep as ->; [congruence|done].
Qed.

End reseal.

(** *** A row added, a row deleted *)

Lemma added_row v c k key x : vault_ok v ->
  existsb (row_is (cr_table c) (cr_pk c)) (ciphers v) = false ->
  cr_table c ∈ schema_tables ->
  dek_by_id v (opt_dek c) = Some k -> is_Some (cr_dek c) -> key_of v (opt_dek c) = Some key ->
  dk_org k = cr_org c -> dk_retired_at k = None -> gcmOpen key (aad_of c) (cr_nonce c) (cr_ct c) = Ok x ->
  vault_ok (with_ciphers (fun l => l ++ [c])%list v) /\
  contents v (cr_table c) (cr_pk c) = None /\
  put (cr_table c) (cr_pk c) (Some x) (contents v) (contents (with_ciphers (fun l => l ++ [c])%list v)).
Proof.
  intros Hok Hnew Htab Hdek [i Hd] Hkey Horg Hlive Hopen.
  assert (opt_dek c = i) as Ei by (unfold opt_dek; by rewrite Hd). rewrite Ei in *.
  assert (Hread : reading v c = Some x).
  { unfold reading. rewrite Hd. cbn. unfold key_of, dek_by_id in *. rewrite Hkey. cbn. unfold open_row. by rewrite Hopen. }
  assert (Hnone : List.find (row_is (cr_table c) (cr_pk c)) (ciphers v) = None).
  { destruct (List.find _ _) as [y|] eqn:E; [|done]. apply find_some in E as [Hy Hr].
    rewrite <- not_true_iff_false, existsb_exists in Hnew. destruct Hnew. eauto. }
  split; [split|split].
  - apply Hok.
  - cbn. rewrite map_app. apply NoDup_app. split; [apply Hok|]. split; [|apply NoDup_singleton].
    intros kk (y & -> & Hy)%list_elem_of_fmap E%list_elem_of_singleton. injection E as E1 E2.
    apply list_elem_of_In in Hy. eapply find_none in Hnone; [|exact Hy]. apply not_true_iff_false in Hnone.
    apply Hnone, row_is_key. done.
  - cbn. intros y [Hy| ->]%elem_of_snoc; [by apply (ok_tables v Hok)|done].
  - cbn. intros y [Hy| ->]%elem_of_snoc; [by apply (ok_sealed v Hok)|by rewrite Hd].
  - cbn. intros y [Hy| ->]%elem_of_snoc Hyd; rewrite reading_ciphers; [by apply Hok|by rewrite Hread].
  - cbn. intros y id' k' [Hy| ->]%elem_of_snoc Hyd Hk; [by eapply (ok_org v Hok)|].
    assert (id' = i) as -> by congruence. unfold dek_by_id in *. cbn in Hk. congruence.
  - cbn. intros k' Hk Hr. destruct (ok_retired v Hok k' Hk Hr) as [Ha Hb]. split; [done|].
    intros y [Hy| ->]%elem_of_snoc; [by apply Hb|]. rewrite Hd. intros [= E]. apply Hr.
    assert (dek_by_id v i = Some k') as E' by by apply dek_found. congruence.
  - by apply contents_absent.
  - intros t q. unfold contents. cbn [with_ciphers ciphers]. rewrite find_snoc.
    destruct (String.eqb_spec (cr_table c) t) as [<-|Ht], (String.eqb_spec (cr_pk c) q) as [<-|Hq]; cbn [andb].
    { rewrite Hnone, (proj2 (row_is_key _ _ c) (conj eq_refl eq_refl)). exact Hread. }
    all: clear Hnone; destruct (List.find (row_is _ _) (ciphers v)) as [y|]; [done|].
    all: destruct (row_is _ _ c) eqn:E; [apply row_is_key in E as [? ?]; congruence|reflexivity].
Qed.

Lemma deleted_row v p c0 : vault_ok v -> c0 ∈ ciphers v -> (forall c, c ∈ ciphers v -> p c = true <-> c = c0) ->
  let v' := with_ciphers (List.filter (fun c => negb (p c))) v in
  vault_ok v' /\ put (cr_table c0) (cr_pk c0) None (contents v) (contents v').
Proof.
  intros Hok Hin Hp v'.
  assert (Hel : forall c, c ∈ ciphers v' <-> c ∈ ciphers v /\ c <> c0).
  { intros c. subst v'. cbn. rewrite filter_elem. split; intros [Hc Hn]; split; try done.
    - intros ->. by rewrite (proj2 (Hp c0 Hin) eq_refl) in Hn.
    - apply negb_true_iff, not_true_iff_false. by intros ->%Hp. }
  assert (Hok' : vault_ok v').
  { split.
    - apply Hok.
    - apply NoDup_map_filter, Hok.
    - intros c [Hc _]%Hel. by apply (ok_tables v Hok).
    - intros c [Hc _]%Hel. by apply (ok_sealed v Hok).
    - intros c [Hc _]%Hel Hd. by apply (ok_open v Hok).
    - intros c id k [Hc _]%Hel. by apply (ok_org v Hok).
    - intros k Hk Hr. destruct (ok_retired v Hok k Hk Hr) as [Ha Hb]. split; [done|]. intros c [Hc _]%Hel. by apply Hb. }
  split; [done|]. intros t q.
  destruct (List.find (row_is t q) (ciphers v')) as [c|] eqn:E.
  - pose proof E as E'. apply find_some in E' as [[Hc Hne]%list_elem_of_In%Hel [Et Eq]%row_is_key].
    unfold contents at 1. rewrite E. cbn. rewrite <- Et, <- Eq, (contents_at v c) by done.
    destruct (String.eqb_spec (cr_table c0) (cr_table c)) as [E1|]; [|done].
    destruct (String.eqb_spec (cr_pk c0) (cr_pk c)) as [E2|]; [|done].
    destruct Hne. apply (row_unique v); [done..|]. unfold cipher_key. congruence.
  - unfold contents at 1. rewrite E. cbn.
    destruct (String.eqb_spec (cr_table c0) t) as [Et|Ht], (String.eqb_spec (cr_pk c0) q) as [Eq|Hq]; cbn [andb]; [done|..].
    all: unfold contents; destruct (List.find (row_is t q) (ciphers v)) as [c|] eqn:E2; [|done].
    all: apply find_some in E2 as [Hc%list_elem_of_In Hr]; exfalso.
    all: assert (Hc' : c ∈ ciphers v') by (apply Hel; split; [done|intros ->; apply row_is_key in Hr as [? ?]; congruence]).
    all: apply list_elem_of_In in Hc'; eapply find_none in E; [|exact Hc']; congruence.
Qed.

End rows.

(** ** Inside a transaction

    [inside v0 P]: the vault is in [P], holds the keys of [v0] and perhaps more,
    and the cache holds nothing false about either. *)

Section steps.
Context {pg : Postgres} {ae : Aead} {kc : KeyCustody}.

Definition inside (v0 : vault) (P : vault -> Prop) : vassert := fun v c =>
  P v /\ agree c v0 /\ agree c v /\ same_keys v0 v.
Definition broken (v0 : vault) : vassert := fun _ c => agree c v0.

Lemma inside_broken v0 P : ventails (inside v0 P) (broken v0).
Proof. by intros v c (_ & ? & _). Qed.

Lemma inside_weaken v0 (P P' : vault -> Prop) : (forall v, P v -> P' v) -> ventails (inside v0 P) (inside v0 P').
Proof. intros H v c (HP & ?). split; [by apply H|done]. Qed.

(** The keys of [v'] are those of [v]. *)
Definition known (v v' : vault) : Prop :=
  same_keys v v' /\ forall id, is_Some (dek_by_id v' id) -> is_Some (dek_by_id v id).

Lemma known_deks v v' : org_deks v' = org_deks v -> known v v'.
Proof. intros E. split; [by apply same_keys_deks|]. intros id. unfold dek_by_id. by rewrite E. Qed.

Lemma known_mapped v f : (forall k, dk_id (f k) = dk_id k) -> same_keys v (with_deks (map f) v) ->
  known v (with_deks (map f) v).
Proof.
  intros Hf Hs. split; [done|]. intros id. unfold dek_by_id. cbn. rewrite find_map_key by done.
  by rewrite fmap_is_Some.
Qed.

Lemma agree_known c v v' : known v v' -> agree c v -> agree c v'.
Proof.
  intros [Hs Hk] Ha id key Hc Hd. destruct (Hk id Hd) as [k Ek]. destruct (Hs id k Ek) as (k' & _ & _ & E).
  rewrite E. apply Ha; [done|by exists k].
Qed.

Lemma inside_known v0 v v' c (P' : vault -> Prop) : known v v' -> P' v' ->
  agree c v0 -> agree c v -> same_keys v0 v -> inside v0 P' v' c.
Proof.
  intros Hk HP H0 Hv Hs. split; [done|]. split; [done|]. split; [by eapply agree_known|].
  eapply same_keys_trans; [exact Hs|apply Hk].
Qed.

Lemma v_change v0 (P P' : vault -> Prop) f :
  (forall now t, P (vaulted t) -> known (vaulted t) (vaulted (f now t)) /\ P' (vaulted (f now t))) ->
  vdoes (inside v0 P) (update f) (fun _ => inside v0 P') (broken v0).
Proof.
  intros H. apply v_exec; [apply inside_broken|]. intros now t c (HP & H0 & Hv & Hs).
  destruct (H now t HP). by apply (inside_known v0 (vaulted t)).
Qed.

Lemma v_look_inside {A} v0 P (f : vault -> A) :
  vdoes (inside v0 P) (query (fun _ t => f (vaulted t))) (fun a => inside v0 (fun v => P v /\ a = f v)) (broken v0).
Proof.
  eapply v_weaken; [apply (v_look (inside v0 P)), inside_broken|by intros ? ?| |by intros ? ?]. intros a v c [(HP & H) E]; by split.
Qed.

(** Looking at a vault that is known *)
Lemma v_look_at {A B} v0 v1 (f : vault -> A) (k : A -> io cp B) Q :
  vdoes (inside v0 (eq v1)) (k (f v1)) Q (broken v0) ->
  vdoes (inside v0 (eq v1)) (a <- query (fun _ t => f (vaulted t)) ;; k a) Q (broken v0).
Proof.
  intros H. eapply v_bind; [apply (v_look_inside v0 _ f)|]. intros a d [[E ->] HP].
  rewrite <- E. apply (H d). by split.
Qed.

Lemma v_inside_pure {A} v0 P (phi : Prop) (m : io cp A) Q :
  (phi -> vdoes (inside v0 P) m Q (broken v0)) ->
  vdoes (inside v0 (fun v => P v /\ phi)) m Q (broken v0).
Proof. intros H d [[HP Hphi] ?]. by apply H. Qed.

Lemma v_inside_audit {A} v0 P org actor action target (k : io cp A) Q :
  vdoes (inside v0 P) k Q (broken v0) ->
  vdoes (inside v0 P) (_ <- auditTx org actor action target ;; k) Q (broken v0).
Proof.
  intros H. eapply v_bind; [apply (v_audit _ _ _ _ _ (fun _ => inside v0 P)); [apply inside_broken|by intros ? ?]|].
  by intros u.
Qed.

(** ** Keys *)

Lemma dekPlaintext_spec v0 P id : (forall v, P v -> is_Some (dek_by_id v id)) ->
  vdoes (inside v0 P) (dekPlaintext id) (fun key => inside v0 (fun v => P v /\ key_of v id = Some key)) (broken v0).
Proof.
  intros Hd. unfold dekPlaintext.
  eapply v_bind; [apply v_cached|]. intros [dek|].
  { apply v_ret. intros v c [(HP & H0 & Hv & Hs) E]. split; [split; [done|]|done]. apply Hv; eauto. }
  eapply v_pre; [|by intros v c [H _]; exact H].
  eapply v_bind; [apply (v_look_inside v0 P (fun v => dek_by_id v id))|]. intros [k|]; [|by apply v_fail, inside_broken].
  eapply v_bind; [apply v_wrapping, v_Unwrap, inside_broken|]. intros dek.
  destruct (Nat.eqb (String.length dek) 32) eqn:El; cbn [negb].
  - apply (v_bind _ _ _ (fun _ => inside v0 (fun v => P v /\ key_of v id = Some dek)));
      [|intros u; apply v_ret; by intros ? ?].
    apply v_cacheDEK. intros v c [([HP E] & H0 & Hv & Hs) Hu].
    assert (Hkey : key_of v id = Some dek).
    { unfold key_of. rewrite <- E. cbn. rewrite Hu. cbn. by rewrite El. }
    split; [done|]. split; [|split; [by apply agree_insert|done]].
    intros i key. destruct (decide (id = i)) as [<-|Hne].
    + rewrite lookup_insert_eq. intros [= <-] [k0 Hk0]. destruct (Hs id k0 Hk0) as (_ & _ & _ & E'). congruence.
    + rewrite lookup_insert_ne by done. apply H0.
  - apply v_fail. intros v c [H _]. by eapply inside_broken.
Qed.

(** An organisation's key in use *)
Definition live_key (v : vault) (org id key : string) : Prop :=
  key_of v id = Some key /\ exists k, dek_by_id v id = Some k /\ dk_org k = org /\ dk_retired_at k = None.

(** The vault [v1], perhaps with a key more *)
Definition grown (v1 v : vault) : Prop := vault_ok v /\ ciphers v = ciphers v1 /\ same_keys v1 v.

Lemma grown_refl v : vault_ok v -> grown v v.
Proof. intros H. split; [done|]. split; [done|apply same_keys_refl]. Qed.

(** A key enters the table and the cache. *)
Lemma v_insert_dek v0 v1 k : vault_ok v1 -> dk_retired_at k = None ->
  vdoes (inside v0 (eq v1)) (insert_dek k)
    (fun _ v c => v = with_deks (fun l => l ++ [k])%list v1 /\ vault_ok v /\ dek_by_id v1 (dk_id k) = None /\
       agree c v0 /\ agree c v1 /\ same_keys v0 v1) (broken v0).
Proof.
  intros Hok Hr. apply v_exec; [apply inside_broken|]. intros now t c (HP & H0 & Hv & Hs).
  destruct (existsb _ _ || _) eqn:E; [done|]. apply orb_false_iff in E as [E _].
  apply dek_not_found in E. rewrite <- HP in *. cbn. split; [by rewrite HP|].
  split; [rewrite <- HP; by apply added_ok|]. done.
Qed.

(** Nothing but the new key can be false in the cache, and it is put there. *)
Lemma agree_added c v k key : dek_by_id v (dk_id k) = None -> agree c v ->
  key_of (with_deks (fun l => l ++ [k])%list v) (dk_id k) = Some key ->
  agree (<[dk_id k := key]> c) (with_deks (fun l => l ++ [k])%list v).
Proof.
  intros Hn Ha Hk id key'. destruct (decide (dk_id k = id)) as [<-|Hne].
  - rewrite lookup_insert_eq. by intros [= <-].
  - rewrite lookup_insert_ne by done. intros Hc [k' Hk'].
    assert (E : dek_by_id v id = Some k').
    { clear Hn Hk. unfold dek_by_id in *. cbn in Hk'. rewrite find_snoc in Hk'. destruct (List.find _ _); [done|].
      destruct (String.eqb_spec (dk_id k) id); done. }
    destruct (proj1 (added_dek v k Hn) id k' E) as (_ & _ & _ & ->). apply Ha; eauto.
Qed.

Lemma agree_fresh c v id key : dek_by_id v id = None -> agree c v -> agree (<[id := key]> c) v.
Proof.
  intros Hn Ha i key'. destruct (decide (id = i)) as [<-|Hne]; [intros _ [k Hk]; congruence|].
  rewrite lookup_insert_ne by done. apply Ha.
Qed.

Lemma same_keys_none v0 v id : same_keys v0 v -> dek_by_id v id = None -> dek_by_id v0 id = None.
Proof.
  intros Hs Hn. destruct (dek_by_id v0 id) as [k|] eqn:E; [|done]. destruct (Hs id k E) as (k' & ? & _). congruence.
Qed.

Lemma new_key v id org wrapped dek : dek_by_id v id = None -> String.length dek = 32%nat ->
  unseals (dek_purpose org) wrapped = Some dek ->
  live_key (with_deks (fun l => l ++ [mkDek id org wrapped 1 true None])%list v) org id dek.
Proof.
  intros Hn Hl Hu. destruct (added_dek v (mkDek id org wrapped 1 true None) Hn) as [_ E]. split.
  - unfold key_of. cbn [dk_id] in E. rewrite E. cbn. rewrite Hu. cbn. by rewrite Hl.
  - eexists. split; [exact E|done].
Qed.

Lemma activeDEKTx_spec v0 v1 org : vault_ok v1 ->
  vdoes (inside v0 (eq v1)) (activeDEKTx org)
    (fun p => inside v0 (fun v => grown v1 v /\ live_key v org p.1 p.2)) (broken v0).
Proof.
  intros Hok. unfold activeDEKTx.
  apply (v_look_at v0 v1 (fun v => active_dek v org)). destruct (active_dek v1 org) as [k|] eqn:E.
  - apply find_some in E as [Hin%list_elem_of_In [Eo%String.eqb_eq Ea]%andb_true_iff].
    assert (Hk : dek_by_id v1 (dk_id k) = Some k) by by apply dek_found.
    eapply v_bind; [apply dekPlaintext_spec; intros v <-; eauto|]. intros dek. apply v_ret.
    apply inside_weaken. intros v [<- Hkey]. split; [by apply grown_refl|]. split; [done|].
    exists k. split; [done|]. split; [done|]. destruct (dk_retired_at k) eqn:Er; [|done].
    destruct (ok_retired v1 Hok k Hin) as [Ea' _]; congruence.
  - eapply v_bind; [apply v_rand|]. intros dek.
    apply v_pure. intros Hl.
    eapply v_bind; [apply v_wrapping, v_Wrap, inside_broken|]. intros wrapped. apply v_pure. intros Hu.
    eapply v_bind; [apply v_newID|]. intros id.
    eapply v_bind; [apply v_wrapping, v_insert_dek; [done|done]|]. intros u.
    apply (v_bind _ _ _ (fun _ => inside v0 (fun v => grown v1 v /\ live_key v org id dek)));
      [|intros u2; apply v_ret; by intros ? ?].
    apply v_cacheDEK. cbn [dk_id fst snd].
    intros v c (-> & Hok' & Hn & H0 & Hv & Hs). destruct (new_key v1 id org wrapped dek Hn Hl Hu) as [Hk Hlive].
    pose proof (added_dek v1 (mkDek id org wrapped 1 true None) Hn) as [Hs1 _].
    split; [split; [done|done]|]. split; [|split].
    + apply agree_fresh; [by eapply same_keys_none|done].
    + by apply (agree_added c v1 (mkDek id org wrapped 1 true None)).
    + by eapply same_keys_trans.
Qed.

End steps.
