(* ===== verification/VaultOps.v ===== *)
(** * The operations of the vault

    Each operation of the secrets store against the abstract store of
    plaintexts, whatever fails on the way. *)

From S2P Require Import Prelude GoStrings Json CpDb Deploy Engines CpDsd DsdStore Kms Vault VaultSpec VaultKeep.

Local Open Scope string_scope.
Local Open Scope io_scope.

Section ops.
Context {pg : Postgres} {ae : Aead} {kc : KeyCustody}.

Definition start (v0 : vault) : vassert := fun v c => v = v0 /\ agree c v0.

Lemma start_inside v0 : ventails (start v0) (inside v0 (eq v0)).
Proof. intros v c [-> H]. split; [done|]. split; [done|]. split; [done|apply same_keys_refl]. Qed.

(** What an operation does to the vault when it succeeds *)
Definition achieves {A} (v0 : vault) (m : io cp A) (R : A -> vault -> Prop) : Prop :=
  vdoes (start v0) m (fun a v c => R a v /\ agree c v) (start v0).

Lemma v_tx {A} v0 (m : io cp A) (R : A -> vault -> Prop) :
  vdoes (inside v0 (eq v0)) m (fun a => inside v0 (R a)) (broken v0) -> achieves v0 (transaction m) R.
Proof.
  intros H. unfold achieves.
  eapply v_weaken; [apply (v_transaction v0 m (fun v c => agree c v) (fun a => inside v0 (R a)))|by intros ? ?| |by intros ? ?].
  - eapply v_pre; [exact H|apply start_inside].
  - by intros a v c (_ & ? & _).
  - intros a v c (HR & _ & Hv & _). by split.
Qed.

(** The states the vault is meant to be in *)
Definition vault_of (d : cp) : vault := vaulted (cp_tables d).
Definition vault_inv (d : cp) : Prop := vault_ok (vault_of d) /\ agree (dek_cache (cp_memory d)) (vault_of d).

Lemma achieves_run {A} v0 (m : io cp A) R d r d' : achieves v0 m R -> vault_of d = v0 ->
  agree (dek_cache (cp_memory d)) v0 -> m d = (r, d') ->
  agree (dek_cache (cp_memory d')) (vault_of d') /\
  match r with Ok a => R a (vault_of d') | Err _ => vault_of d' = v0 end.
Proof.
  intros H Hv Ha E. pose proof (triple_run _ _ _ d r d' H (conj Hv Ha) E) as Hp.
  destruct r as [a|e]; unfold vhold in Hp; [by destruct Hp|]. destruct Hp as [Ev Hc].
  unfold vault_of. rewrite Ev. done.
Qed.

(** A read that decides nothing about the vault *)
Lemma v_read {A B} v0 P (f : Z -> tables -> A) (k : A -> io cp B) Q :
  (forall a, vdoes (inside v0 P) (k a) Q (broken v0)) ->
  vdoes (inside v0 P) (a <- query f ;; k a) Q (broken v0).
Proof.
  intros H. eapply v_bind; [apply v_query, inside_broken|]. intros a. eapply v_pre; [apply H|]. by intros v c [? _].
Qed.

Lemma v_retp {A} v0 (P : vault -> Prop) (a : A) (R : A -> vault -> Prop) :
  (forall v, P v -> R a v) -> vdoes (inside v0 P) (ret a) (fun a => inside v0 (R a)) (broken v0).
Proof. intros H. by apply v_ret, inside_weaken. Qed.

Lemma v_failp {A} v0 P e (Q : A -> vassert) : vdoes (inside v0 P) (fail e) Q (broken v0).
Proof. apply v_fail, inside_broken. Qed.

Lemma v_then {A B} v0 P (m : io cp A) (k : A -> io cp B) R Q :
  vdoes (inside v0 P) m (fun a => inside v0 (R a)) (broken v0) ->
  (forall a, vdoes (inside v0 (R a)) (k a) Q (broken v0)) -> vdoes (inside v0 P) (bind m k) Q (broken v0).
Proof. intros Hm Hk. by eapply v_bind. Qed.

Lemma v_seal v0 P key aad pt :
  vdoes (inside v0 P) (gcmSeal key aad pt) (fun s => inside v0 (fun v => P v /\ gcmOpen key aad s.1 s.2 = Ok pt)) (broken v0).
Proof.
  eapply v_weaken; [apply v_gcmSeal, inside_broken|by intros ? ?| |by intros ? ?].
  intros s v c [(HP & H) E]. by split.
Qed.

Lemma v_opening v0 P pre (r : res string) :
  vdoes (inside v0 P) (wrapping pre (lift r)) (fun x => inside v0 (fun v => P v /\ r = Ok x)) (broken v0).
Proof.
  apply v_wrapping, v_lift; [apply inside_broken|]. intros x E v c (HP & H). by split.
Qed.

Lemma grown_contents v1 v : vault_ok v1 -> grown v1 v -> same_store (contents v1) (contents v).
Proof. intros Hok (_ & Ec & Hs) t p. by apply contents_kept. Qed.

Lemma put_same tbl pk x a a1 a' : same_store a a1 -> put tbl pk x a1 a' -> put tbl pk x a a'.
Proof. intros Hs Hp t p. rewrite Hp. by destruct (_ && _). Qed.

(** ** Secrets *)

Lemma scope_spec v0 P org prj env :
  vdoes (inside v0 P) (assertScopeTx org prj env) (fun _ => inside v0 P) (broken v0).
Proof.
  unfold assertScopeTx. apply v_read. intros ok. destruct (negb ok); [apply v_failp|].
  destruct (negb _); [|by apply v_retp]. apply v_read. intros ok'.
  destruct (negb ok'); [apply v_failp|by apply v_retp].
Qed.

Definition created (v0 : vault) (inp : CreateSecretInput) (s : store_Secret) (v : vault) : Prop :=
  vault_ok v /\ contents v0 "secrets" (sec_ID s) = None /\
  put "secrets" (sec_ID s) (Some (csi_Value inp)) (contents v0) (contents v).

Lemma CreateSecret_spec v0 org actor inp : vault_ok v0 ->
  achieves v0 (CreateSecret org actor inp) (created v0 inp).
Proof.
  intros Hok. apply v_tx. eapply v_then; [apply (scope_spec v0 (eq v0))|]. intros u.
  eapply v_then; [by apply activeDEKTx_spec|]. intros p.
  eapply v_bind; [apply v_newID|]. intros id.
  eapply v_then; [apply v_seal|]. intros sealed.
  apply v_inside_pure. intros Hopen.
  set (row := secret_row _ _ _ _ _ _ _ _ _ _).
  apply (v_bind _ _ _ (fun r => match r with
    | Ok _ => inside v0 (created v0 inp (mkSecret id (csi_ProjectID inp) (nullif (csi_EnvironmentID inp))
        (csi_Name inp) (csi_EnvVar inp) actor))
    | Err _ => broken v0 end)).
  - eapply v_weaken; [apply (v_attempt (inside v0 (fun v => grown v0 v /\ live_key v org p.1 p.2))
      (insert_cipher row) (fun _ => inside v0 (created v0 inp (mkSecret id (csi_ProjectID inp)
        (nullif (csi_EnvironmentID inp)) (csi_Name inp) (csi_EnvVar inp) actor))) (broken v0))|by intros ? ?| |by intros ? ?].
    2: { intros [u1|e]; intros v c H; exact H. }
    apply v_exec; [apply inside_broken|]. intros now t c ((Hg & Hkey & k & Hk & Ho & Hl) & H0 & Hv & Hs).
    destruct (existsb _ _) eqn:E; [done|].
    apply (inside_known v0 (vaulted t)); [by apply known_deks| |done|done|done].
    pose proof Hg as (Hok1 & _ & _).
    destruct (added_row (vaulted t) row k p.2 (csi_Value inp)) as (A1 & A2 & A3); try done.
    + apply not_true_iff_false. intros (x & Hx & Hr)%existsb_exists. apply not_true_iff_false in E. apply E.
      apply existsb_exists. exists x. split; [done|]. by rewrite (Hr : row_is (cr_table row) (cr_pk row) x = true).
    + by left.
    + split; [exact A1|]. cbn [sec_ID]. split; [rewrite <- (grown_contents v0 (vaulted t)) by done; exact A2|].
      eapply put_same; [by apply grown_contents|exact A3].
  - intros [u1|e].
    + apply v_inside_audit. by apply v_retp.
    + destruct (String.eqb e ErrUnique); by apply v_fail; intros ? ?.
Qed.

(** The row of a secret *)
Lemma find_secret v org id c : vault_ok v -> List.find (the_secret org id) (ciphers v) = Some c ->
  c ∈ ciphers v /\ cr_table c = "secrets" /\ cr_org c = org /\ cr_pk c = id /\
  forall y, y ∈ ciphers v -> the_secret org id y = true <-> y = c.
Proof.
  intros Hok [Hin%list_elem_of_In E]%find_some.
  assert (Hthe : forall y, the_secret org id y = true -> cr_table y = "secrets" /\ cr_org y = org /\ cr_pk y = id).
  { intros y [[Et Eo]%andb_true_iff Ep]%andb_true_iff. unfold in_table in Et. by apply String.eqb_eq in Et, Eo, Ep. }
  destruct (Hthe c E) as (Et & Eo & Ep). repeat (split; [done|]). intros y Hy. split; [|by intros ->].
  intros (Et' & _ & Ep')%Hthe. eapply row_unique; [done|done|done|]. unfold cipher_key. congruence.
Qed.

Lemma secret_aad c : cr_table c = "secrets" -> aad_of c = secretAAD (cr_org c) (id_at 0 (cr_ids c)) (cr_pk c).
Proof. intros E. unfold aad_of. by rewrite E. Qed.

Lemma sec_project c : sec_ProjectID (secret_of c) = id_at 0 (cr_ids c).
Proof. unfold secret_of. by destruct (cr_meta c). Qed.

Lemma sec_id c : sec_ID (secret_of c) = cr_pk c.
Proof. unfold secret_of. by destruct (cr_meta c). Qed.

Definition updated (v0 : vault) (id value : string) (s : store_Secret) (v : vault) : Prop :=
  sec_ID s = id /\ vault_ok v /\ contents v0 "secrets" id <> None /\
  put "secrets" id (Some value) (contents v0) (contents v).

Lemma secret_stored v c : vault_ok v -> c ∈ ciphers v -> cr_table c = "secrets" -> contents v "secrets" (cr_pk c) <> None.
Proof.
  intros Hok Hc Et. rewrite <- Et, contents_at by done.
  destruct (ok_open v Hok c Hc) as [x ->]; [|done]. apply (ok_sealed v Hok c Hc). rewrite Et. by left.
Qed.

Lemma UpdateSecretValue_spec v0 org id value actor : vault_ok v0 ->
  achieves v0 (UpdateSecretValue org id value actor) (updated v0 id value).
Proof.
  intros Hok. apply v_tx. apply (v_look_at v0 v0 (fun v => List.find (the_secret org id) (ciphers v))).
  destruct (List.find _ _) as [c0|] eqn:E; [|apply v_failp].
  destruct (find_secret v0 org id c0 Hok E) as (Hin & Et & Eo & Ep & Hthe).
  eapply v_then; [by apply activeDEKTx_spec|]. intros p.
  eapply v_then; [apply v_seal|]. intros sealed. apply v_inside_pure. rewrite sec_project, sec_id. intros Hopen.
  eapply v_then.
  { apply v_wrapping, (v_change v0 _ (updated v0 id value (secret_of c0))).
    intros now t (Hg & Hkey & k & Hk & Hko & Hl). split; [by apply known_deks|]. rewrite <- Eo in Hko. pose proof Hg as (Hok1 & Ec & _).
    rewrite <- Ec in Hin, Hthe.
    assert (Ho : gcmOpen p.2 (aad_of c0) sealed.1 sealed.2 = Ok value) by (rewrite secret_aad, Eo by done; exact Hopen).
    split; [by rewrite sec_id|]. split; [|split].
    - by apply (reseal_ok (vaulted t) (the_secret org id) c0 p.1 p.2 sealed.2 sealed.1 value k).
    - rewrite Ec in Hin. rewrite <- Ep. by apply secret_stored.
    - eapply put_same; [by apply (grown_contents v0 (vaulted t))|]. rewrite <- Et, <- Ep at 1.
      by apply (reseal_contents (vaulted t) (the_secret org id) c0 p.1 p.2 sealed.2 sealed.1 value k). }
  intros u. apply v_inside_audit. by apply v_retp.
Qed.

Definition deleted (v0 : vault) (id : string) (s : store_Secret) (v : vault) : Prop :=
  sec_ID s = id /\ vault_ok v /\ contents v0 "secrets" id <> None /\
  put "secrets" id None (contents v0) (contents v).

Lemma DeleteSecret_spec v0 org id actor : vault_ok v0 ->
  achieves v0 (DeleteSecret org id actor) (deleted v0 id).
Proof.
  intros Hok. apply v_tx.
  apply (v_bind _ _ _ (fun row => match row with
    | Some c => inside v0 (deleted v0 id (secret_of c)) | None => broken v0 end)).
  - apply v_exec; [apply inside_broken|]. intros now t c (Ev & H0 & Hv & Hs). unfold find_cipher.
    rewrite <- Ev. destruct (List.find _ _) as [c0|] eqn:E; [|done].
    destruct (find_secret v0 org id c0 Hok E) as (Hin & Et & Eo & Ep & Hthe).
    apply (inside_known v0 (vaulted t)); [by apply known_deks| |done|done|done].
    unfold set_ciphers, set_vault. cbn [vaulted]. rewrite <- Ev.
    destruct (deleted_row v0 (the_secret org id) c0 Hok Hin Hthe) as [Hok' Hput].
    split; [by rewrite sec_id|]. split; [exact Hok'|]. split; [rewrite <- Ep; by apply secret_stored|].
    rewrite <- Et, <- Ep at 1. exact Hput.
  - intros [c0|]; [|by apply v_fail; intros ? ?]. apply v_inside_audit. by apply v_retp.
Qed.

(** A row's key is in the table. *)
Lemma row_dek v c : vault_ok v -> c ∈ ciphers v -> cr_dek c <> None ->
  is_Some (dek_by_id v (opt_dek c)) /\ cr_dek c = Some (opt_dek c).
Proof.
  intros Hok Hc Hd. destruct (cr_dek c) as [id|] eqn:E; [|done]. unfold opt_dek. rewrite E. split; [|done].
  apply (reading_dek v c id E), (ok_open v Hok c Hc). by rewrite E.
Qed.

Lemma opened_reading v c key x : cr_dek c = Some (opt_dek c) -> key_of v (opt_dek c) = Some key ->
  gcmOpen key (aad_of c) (cr_nonce c) (cr_ct c) = Ok x -> reading v c = Some x.
Proof. intros Hd Hk Ho. unfold reading, open_row. rewrite Hd. cbn. rewrite Hk. cbn. by rewrite Ho. Qed.

Definition revealed (v0 : vault) (id : string) (x : string) (v : vault) : Prop :=
  v = v0 /\ contents v0 "secrets" id = Some x.

Lemma RevealSecret_spec v0 org id actor : vault_ok v0 ->
  achieves v0 (RevealSecret org id actor) (revealed v0 id).
Proof.
  intros Hok. apply v_tx. apply (v_look_at v0 v0 (fun v => List.find (the_secret org id) (ciphers v))).
  destruct (List.find _ _) as [c0|] eqn:E; [|apply v_failp].
  destruct (find_secret v0 org id c0 Hok E) as (Hin & Et & Eo & Ep & _).
  destruct (row_dek v0 c0 Hok Hin) as [Hk Hd]; [apply (ok_sealed v0 Hok c0 Hin); rewrite Et; by left|].
  eapply v_then; [apply dekPlaintext_spec; by intros v <-|]. intros key.
  eapply v_then; [apply v_opening|]. intros x. apply v_inside_pure. intros Ho.
  apply v_inside_audit. apply v_retp. intros v [<- Hkey]. split; [done|].
  rewrite <- Ep, <- Et at 1. rewrite contents_at by done. apply (opened_reading _ _ key); [done|done|].
  by rewrite secret_aad, Eo, Ep.
Qed.

End ops.
