(* ===== verification/VaultRotate.v ===== *)
(** * Rotation, and what agents are given

    The rotations of the vault's keys leave every plaintext as it was, and a
    completed one leaves nothing under an old key; the secrets an agent is
    handed are those its document refers to. *)

From S2P Require Import Prelude GoStrings Json CpDb Deploy Engines CpDsd DsdStore Kms Vault VaultSpec VaultKeep VaultOps.

Local Open Scope string_scope.
Local Open Scope io_scope.

Section rotate.
Context {pg : Postgres} {ae : Aead} {kc : KeyCustody}.

(** ** The key-encryption key *)

Lemma grown_trans v1 v2 v3 : grown v1 v2 -> grown v2 v3 -> grown v1 v3.
Proof.
  intros (_ & E1 & S1) (H3 & E2 & S2). split; [done|]. split; [congruence|by eapply same_keys_trans].
Qed.

(** Columns outside the keys and the rows do not matter. *)
Lemma grown_other v v' : vault_ok v -> org_deks v' = org_deks v -> ciphers v' = ciphers v -> grown v v'.
Proof.
  intros Hok Ed Ec. split; [|split; [done|by apply same_keys_deks]].
  apply (deks_changed v); [done|done|by apply same_keys_deks|rewrite Ed; apply Hok|rewrite Ed; apply Hok].
Qed.

Lemma rewrapped_grown v k w x : vault_ok v -> k ∈ org_deks v ->
  unseals (dek_purpose (dk_org k)) (dk_wrapped k) = Some x -> unseals (dek_purpose (dk_org k)) w = Some x ->
  let f := rewrapped (dk_id k) w in
  known v (with_deks (map f) v) /\ grown v (with_deks (map f) v).
Proof.
  intros Hok Hk Ho Hw f. assert (Hid : forall y, dk_id (f y) = dk_id y).
  { intros y. unfold f, rewrapped. by destruct (String.eqb _ _). }
  assert (Hf : forall y, y ∈ org_deks v -> dk_org (f y) = dk_org y /\
    unseals (dek_purpose (dk_org y)) (dk_wrapped (f y)) = unseals (dek_purpose (dk_org y)) (dk_wrapped y)).
  { intros y Hy. unfold f, rewrapped. destruct (String.eqb_spec (dk_id y) (dk_id k)) as [E|]; [|done].
    assert (y = k) as -> by (eapply (NoDup_map_inj dk_id); [apply Hok|done..]). cbn. by rewrite Ho, Hw. }
  pose proof (mapped_same_keys f v Hid Hf) as Hs. split; [by apply known_mapped|]. split; [|done].
  apply mapped_ok; [done|done|done|]. intros y Hy. unfold f, rewrapped.
  destruct (String.eqb _ _); cbn; by apply Hok.
Qed.

(** The keys a rotation has yet to rewrap are as it read them. *)
Definition pending_deks (v0 : vault) (org : string) (l : list dek_row) (v : vault) : Prop :=
  grown v0 v /\ NoDup (map dk_id l) /\ forall k, k ∈ l -> k ∈ org_deks v /\ dk_org k = org.

Lemma rewrap_dek_spec v0 org k l :
  vdoes (inside v0 (pending_deks v0 org (k :: l))) (rewrap_dek org k)
    (fun _ => inside v0 (pending_deks v0 org l)) (broken v0).
Proof.
  unfold rewrap_dek. eapply v_bind; [apply v_wrapping, v_Unwrap, inside_broken|]. intros plain. apply v_pure. intros Hu.
  eapply v_bind; [apply v_wrapping, v_Wrap, inside_broken|]. intros w. apply v_pure. intros Hw.
  apply v_change. intros now t (Hg & [Hn1 Hn2]%NoDup_cons & Hl).
  destruct (Hl k) as [Hk Ho]; [by left|]. pose proof Hg as (Hok & _ & _). rewrite <- Ho in Hu, Hw.
  destruct (rewrapped_grown (vaulted t) k w plain Hok Hk Hu Hw) as [Hkn Hgr]. split; [exact Hkn|].
  split; [by eapply grown_trans|]. split; [done|]. intros y Hy. destruct (Hl y) as [Hy1 Hy2]; [by right|].
  split; [|done]. apply list_elem_of_fmap. exists y. split; [|done]. unfold rewrapped.
  destruct (String.eqb_spec (dk_id y) (dk_id k)) as [E|]; [|done]. destruct Hn1. rewrite <- E. by apply list_elem_of_fmap_2.
Qed.

Lemma v_grown v0 f :
  (forall now t, grown v0 (vaulted t) -> org_deks (vaulted (f now t)) = org_deks (vaulted t) /\
     ciphers (vaulted (f now t)) = ciphers (vaulted t)) ->
  vdoes (inside v0 (grown v0)) (update f) (fun _ => inside v0 (grown v0)) (broken v0).
Proof.
  intros H. apply v_change. intros now t Hg. destruct (H now t Hg) as [Ed Ec]. split; [by apply known_deks|].
  pose proof Hg as (Hok & _ & _). eapply grown_trans; [done|]. by apply grown_other.
Qed.

Lemma v_custodied {A B} v0 P (m : io cp A) (phi : A -> Prop) (k : A -> io cp B) Q pre :
  (forall I, ventails (inside v0 P) I -> vdoes (inside v0 P) m (fun a v c => inside v0 P v c /\ phi a) I) ->
  (forall a, vdoes (inside v0 P) (k a) Q (broken v0)) ->
  vdoes (inside v0 P) (a <- wrapping pre m ;; k a) Q (broken v0).
Proof.
  intros Hm Hk. eapply v_bind; [apply v_wrapping, Hm, inside_broken|]. intros a. apply v_pure. intros _. apply Hk.
Qed.

Lemma rewrap_envelope_spec v0 tbl purpose kw :
  vdoes (inside v0 (grown v0)) (rewrap_envelope tbl purpose kw) (fun _ => inside v0 (grown v0)) (broken v0).
Proof.
  eapply v_custodied; [intros I HI; exact (v_Unwrap _ _ _ I HI)|]. intros plain.
  eapply v_custodied; [intros I HI; exact (v_Wrap _ _ _ I HI)|]. intros w.
  apply v_grown. by intros now t _.
Qed.

Lemma rewrapColumnTx_spec v0 tbl purpose org :
  vdoes (inside v0 (grown v0)) (rewrapColumnTx tbl purpose org) (fun _ => inside v0 (grown v0)) (broken v0).
Proof.
  apply v_read. intros rs. apply (v_then v0 _ _ _ (fun _ => grown v0)); [|intros u; by apply v_retp].
  apply (v_for_each (fun _ => inside v0 (grown v0))); [intros l; apply inside_broken|]. intros x l. apply rewrap_envelope_spec.
Qed.

(** Nothing but the wrapping of keys has changed. *)
Definition rotated {A} (v0 : vault) (_ : A) (v : vault) : Prop := grown v0 v.

Lemma v_maybe_audit {A} v0 P (b : bool) org actor action target (k : io cp A) Q :
  vdoes (inside v0 P) k Q (broken v0) ->
  vdoes (inside v0 P) (_ <- (if b then auditTx org actor action target else ret tt) ;; k) Q (broken v0).
Proof. intros H. destruct b; [by apply v_inside_audit|exact H]. Qed.

Lemma RotateKEK_spec v0 org actor : vault_ok v0 -> achieves v0 (RotateKEK org actor) (rotated v0).
Proof.
  intros Hok. apply v_tx.
  apply (v_look_at v0 v0 (fun v => List.filter (fun k => String.eqb (dk_org k) org) (org_deks v))).
  set (deks := List.filter _ _).
  apply (v_then v0 _ _ _ (fun _ => grown v0)).
  - eapply v_weaken; [apply (v_for_each (fun l => inside v0 (pending_deks v0 org l)) (rewrap_dek org) (broken v0))| | |by intros ? ?].
    + intros l. apply inside_broken.
    + intros k l. apply rewrap_dek_spec.
    + apply inside_weaken. intros v <-. split; [by apply grown_refl|]. split.
      * apply NoDup_map_filter, Hok.
      * intros k [Hk Ho%String.eqb_eq]%filter_elem. done.
    + intros u. apply inside_weaken. by intros v (? & _ & _).
  - intros u. eapply v_then; [apply rewrapColumnTx_spec|]. intros gitN.
    eapply v_then; [apply rewrapColumnTx_spec|]. intros srvN. cbv zeta. apply v_maybe_audit. by apply v_retp.
Qed.

Lemma rewrap_globals_spec v0 names n :
  vdoes (inside v0 (grown v0)) (rewrap_globals names n) (fun _ => inside v0 (grown v0)) (broken v0).
Proof.
  revert n. induction names as [|name names IH]; intros n; cbn; [by apply v_retp|].
  apply v_read. intros [w|]; [|apply IH].
  eapply v_custodied; [intros I HI; exact (v_Unwrap _ _ _ I HI)|]. intros plain.
  eapply v_custodied; [intros I HI; exact (v_Wrap _ _ _ I HI)|]. intros rew.
  eapply v_then; [apply v_grown; by intros now t _|]. intros u. apply IH.
Qed.

Lemma RotateGlobalKEK_spec v0 actor : vault_ok v0 -> achieves v0 (RotateGlobalKEK actor) (rotated v0).
Proof.
  intros Hok. apply v_tx. apply (v_then v0 _ _ _ (fun _ => grown v0)); [|intros n; apply v_maybe_audit; by apply v_retp].
  eapply v_pre; [apply rewrap_globals_spec|]. apply inside_weaken. intros v <-. by apply grown_refl.
Qed.

(** ** The data-encryption key *)

Lemma deactivated_id org k : dk_id (deactivated org k) = dk_id k.
Proof. unfold deactivated. by destruct (active_in org k). Qed.

Lemma deactivated_grown v org : vault_ok v ->
  known v (with_deks (map (deactivated org)) v) /\ grown v (with_deks (map (deactivated org)) v).
Proof.
  intros Hok. assert (Hf : forall y, y ∈ org_deks v -> dk_org (deactivated org y) = dk_org y /\
    unseals (dek_purpose (dk_org y)) (dk_wrapped (deactivated org y)) = unseals (dek_purpose (dk_org y)) (dk_wrapped y)).
  { intros y _. unfold deactivated. by destruct (active_in org y). }
  pose proof (mapped_same_keys _ v (deactivated_id org) Hf) as Hs.
  split; [by apply known_mapped, Hs; apply deactivated_id|]. split; [|done].
  apply mapped_ok; [done|apply deactivated_id|done|]. intros y Hy. unfold deactivated.
  destruct (active_in org y); cbn; intros Hr; (split; [|apply (ok_retired v Hok y Hy Hr)]); [done|].
  by apply (ok_retired v Hok y Hy Hr).
Qed.

(** The same plaintexts, and a key in use *)
Definition rotated_dek {A} (v0 : vault) (org : string) (_ : A) (v : vault) : Prop :=
  grown v0 v /\ is_Some (active_dek v org).

Lemma added_active v org id w : is_Some (active_dek (with_deks (fun l => l ++ [mkDek id org w 1 true None])%list v) org).
Proof.
  unfold active_dek. cbn [with_deks org_deks]. rewrite find_snoc. destruct (List.find _ _); [by eexists|].
  unfold active_in. cbn. rewrite String.eqb_refl. by eexists.
Qed.

Lemma RotateDEK_spec v0 org actor : vault_ok v0 -> achieves v0 (RotateDEK org actor) (rotated_dek v0 org).
Proof.
  intros Hok. unfold achieves, RotateDEK.
  set (R := fun (made : string * string) (v : vault) (c : gmap string string) => exists v1 wrapped, grown v0 v1 /\
    v = with_deks (fun l => l ++ [mkDek made.1 org wrapped 1 true None])%list v1 /\ vault_ok v /\
    dek_by_id v1 made.1 = None /\ live_key v org made.1 made.2 /\ agree c v0 /\ agree c v1).
  eapply (v_bind _ _ _ R).
  - eapply v_weaken; [apply (v_transaction v0 _ (fun v c => agree c v) R)|by intros ? ?|by intros ? ? ?|by intros ? ?].
    2: { by intros a v c (v1 & w & _ & _ & _ & _ & _ & ? & _). }
    eapply v_pre; [|apply start_inside].
    eapply v_then; [by apply activeDEKTx_spec|]. intros p.
    eapply (v_then v0 _ _ _ (fun _ => grown v0)).
    { apply v_change. intros now t [Hg _]. pose proof Hg as (Hok1 & _ & _).
      destruct (deactivated_grown (vaulted t) org Hok1) as [Hk Hg']. split; [exact Hk|]. by eapply grown_trans. }
    intros u. eapply v_bind; [apply v_rand|]. intros dek. apply v_pure. intros Hl.
    eapply v_bind; [apply v_Wrap, inside_broken|]. intros wrapped. apply v_pure. intros Hu.
    eapply v_bind; [apply v_newID|]. intros id.
    eapply v_bind.
    { apply (v_weaken _ (fun v c => exists v1, inside v0 (eq v1) v c /\ grown v0 v1) _
        (fun _ => R (id, dek)) (fun _ => R (id, dek)) (broken v0) (broken v0)); [|intros v c (HP & H); by exists v|by intros ? ? ?|by intros ? ?].
      apply v_exists. intros v1. apply v_pure. intros Hg. pose proof Hg as (Hok1 & _ & _).
      eapply v_weaken; [by apply (v_insert_dek v0 v1)|by intros ? ?| |by intros ? ?].
      intros u1 v c (-> & Hok' & Hn & H0 & Hv & Hs). exists v1, wrapped. split; [done|]. split; [done|].
      split; [done|]. split; [done|].
      split; [exact (new_key v1 id org wrapped dek Hn Hl Hu)|done]. }
    intros u1. apply (v_bind _ _ _ (fun _ => R (id, dek))); [|intros u2; apply v_ret; by intros ? ?].
    apply v_audit; [|by intros ? ?]. by intros v c (v1 & w & _ & _ & _ & _ & _ & ? & _).
  - intros [id dek]. apply (v_bind _ _ _ (fun _ v c => rotated_dek v0 org id v /\ agree c v)); [|intros u; apply v_ret; by intros ? ?].
    cbn [fst snd].
    apply v_cacheDEK. intros v c (v1 & w & Hg & -> & Hok' & Hn & [Hk _] & H0 & Hv). cbn [fst snd] in *. split.
    + split; [|apply added_active]. eapply grown_trans; [done|]. split; [done|]. split; [done|by apply added_dek].
    + by apply (agree_added c v1 (mkDek id org w 1 true None)).
Qed.

End rotate.
