(* ===== verification/VaultReenc.v ===== *)
(** * Re-encryption

    [ReencryptSecrets] moves every ciphertext of an organisation to its active
    key without changing what any of them reads as, and retires only keys that
    back nothing any more. *)

From S2P Require Import Prelude GoStrings Json CpDb Deploy Engines CpDsd DsdStore Kms Vault VaultSpec VaultKeep VaultOps.
From S2P Require Import VaultRotate.

Local Open Scope string_scope.
Local Open Scope io_scope.

Section reencrypt.
Context {pg : Postgres} {ae : Aead} {kc : KeyCustody}.

Lemma target_aad t c : t ∈ dekReencTargets -> cr_table c = tg_table t ->
  aad_of c = tg_aad t (cr_org c) (cr_pk c :: cr_ids c).
Proof.
  intros Ht E. unfold aad_of. rewrite E. apply list_elem_of_In in Ht.
  repeat (destruct Ht as [<-|Ht]; [reflexivity|]). destruct Ht.
Qed.

(** Rotation knows every table of the schema. *)
Lemma schema_covered tbl : tbl ∈ schema_tables -> tbl ∈ map tg_table dekReencTargets.
Proof.
  assert (forallb (fun x => existsb (String.eqb x) (map tg_table dekReencTargets)) schema_tables = true) as H by reflexivity.
  intros Ht. rewrite forallb_elem in H. apply H, existsb_elem in Ht as (y & Hy & ->%String.eqb_eq). exact Hy.
Qed.

Lemma stale_row tbl org aid c : stale_row_of tbl org aid c = true <->
  cr_table c = tbl /\ cr_org c = org /\ cr_dek c <> None /\ cr_dek c <> Some aid.
Proof.
  unfold stale_row_of, in_table. destruct (cr_dek c) as [id|]; rewrite !andb_true_iff, !String.eqb_eq.
  - rewrite negb_true_iff, String.eqb_neq. split; [intros [[? ?] Hn]|intros (? & ? & _ & Hn)]; repeat split; congruence.
  - split; [by intros [_ ?]|]. by intros (_ & _ & ? & _).
Qed.

Section org.
Context (v0 : vault) (org aid akey : string) (k : dek_row).
Hypothesis Hk : dek_by_id v0 aid = Some k.
Hypothesis Horg : dk_org k = org.
Hypothesis Hlive : dk_retired_at k = None.
Hypothesis Hkey : key_of v0 aid = Some akey.

(** The keys are those of [v0], every plaintext is, and in the tables [tbls]
    nothing is left under another key. *)
Record moved (tbls : list string) (v : vault) : Prop := {
  mv_ok : vault_ok v;
  mv_deks : org_deks v = org_deks v0;
  mv_same : same_store (contents v0) (contents v);
  mv_done tbl c : tbl ∈ tbls -> c ∈ ciphers v -> stale_row_of tbl org aid c = false;
}.

Definition leftover (tbl : string) (l : list cipher_row) (v : vault) : Prop :=
  NoDup (map cipher_key l) /\ forall c, c ∈ ciphers v /\ stale_row_of tbl org aid c = true <-> c ∈ l.

Lemma moved_key tbls v : moved tbls v -> dek_by_id v aid = Some k /\ key_of v aid = Some akey.
Proof. intros [_ E _ _]. unfold key_of, dek_by_id in *. by rewrite E. Qed.

(** One row moves to the active key. *)
Lemma move_row tbls tbl c l v key x ct nonce : moved tbls v -> leftover tbl (c :: l) v ->
  key_of v (opt_dek c) = Some key -> gcmOpen key (aad_of c) (cr_nonce c) (cr_ct c) = Ok x ->
  gcmOpen akey (aad_of c) nonce ct = Ok x ->
  let v' := with_ciphers (reseal (row_is tbl (cr_pk c)) aid ct nonce) v in
  moved tbls v' /\ leftover tbl l v'.
Proof.
  intros Hm [[Hn1 Hn2]%NoDup_cons Hl] Hold Ho Hs v'. pose proof Hm as [Hok Ed Hsame Hdone].
  destruct (moved_key tbls v Hm) as [Hk' Hkey'].
  destruct (proj2 (Hl c)) as [Hin (Et & Eo & Hd & Hne)%stale_row]; [by left|].
  assert (Hp : forall y, y ∈ ciphers v -> row_is tbl (cr_pk c) y = true <-> y = c).
  { intros y Hy. rewrite row_is_key. split; [|by intros ->]. intros [E1 E2].
    apply (row_unique v); [done..|]. unfold cipher_key. congruence. }
  assert (Horg' : dk_org k = cr_org c) by congruence.
  pose proof (reseal_ok v _ c aid akey ct nonce x k Hok Hin Hp Hk' Hkey' Horg' Hlive Hs) as Hok'.
  pose proof (reseal_contents v _ c aid akey ct nonce x k Hok Hin Hp Hk' Hkey' Horg' Hlive Hs) as Hput.
  pose proof (fun y => reseal_elem v (row_is tbl (cr_pk c)) c aid ct nonce Hin Hp y) as Hel.
  assert (Hnot : forall tb, stale_row_of tb org aid (resealed aid ct nonce c) = false).
  { intros tb. apply not_true_iff_false. intros (_ & _ & _ & H)%stale_row. by apply H. }
  destruct (row_dek v c Hok Hin Hd) as [_ Ed'].
  split; [split|split].
  - exact Hok'.
  - exact Ed.
  - intros t q. etrans; [exact (Hput t q)|]. destruct (_ && _) eqn:E; [|apply Hsame].
    apply andb_true_iff in E as [<-%String.eqb_eq <-%String.eqb_eq].
    rewrite <- (Hsame (cr_table c) (cr_pk c)), contents_at by done.
    symmetry. by apply (opened_reading v c key).
  - intros tb y Htb [->|[Hy _]]%Hel; [apply Hnot|by eapply Hdone].
  - exact Hn2.
  - intros y. split.
    + intros [[->|[Hy Hyc]]%Hel Hst]; [by rewrite Hnot in Hst|].
      assert (y ∈ c :: l) as [?|?]%elem_of_cons by (by apply Hl); done.
    + intros Hy. destruct (proj2 (Hl y)) as [Hyin Hst]; [by right|]. split; [|done]. apply Hel. right. split; [done|].
      intros ->. apply Hn1. by apply list_elem_of_fmap_2.
Qed.

Lemma reencrypt_row_spec tbls t c l : t ∈ dekReencTargets ->
  vdoes (inside v0 (fun v => moved tbls v /\ leftover (tg_table t) (c :: l) v)) (reencrypt_row org aid akey t c)
    (fun _ => inside v0 (fun v => moved tbls v /\ leftover (tg_table t) l v)) (broken v0).
Proof.
  intros Ht. set (P := fun v => moved tbls v /\ leftover (tg_table t) (c :: l) v).
  assert (Hrow : forall v, P v -> c ∈ ciphers v /\ stale_row_of (tg_table t) org aid c = true).
  { intros v [_ [_ Hl]]. apply Hl. by left. }
  eapply v_then; [apply dekPlaintext_spec|].
  { intros v HP. destruct (Hrow v HP) as [Hin (_ & _ & Hd & _)%stale_row]. apply row_dek; [apply HP|done|done]. }
  intros old. cbv zeta. eapply v_then; [apply v_opening|]. intros x. eapply v_then; [apply v_seal|]. intros sealed.
  apply v_change. intros now tb [[[HP Hold] Ho] Hs]. split; [by apply known_deks|].
  destruct (Hrow _ HP) as [Hin (Et & Eo & _)%stale_row]. destruct HP as [Hm Hl].
  assert (Ea : aad_of c = tg_aad t org (cr_pk c :: cr_ids c)) by (rewrite (target_aad t) by done; by rewrite Eo).
  rewrite <- Ea in Ho, Hs. by apply (move_row tbls (tg_table t) c l (vaulted tb) old x).
Qed.

Lemma reencTableTx_spec tbls t : t ∈ dekReencTargets ->
  vdoes (inside v0 (moved tbls)) (reencTableTx org aid akey t) (fun _ => inside v0 (moved (tg_table t :: tbls))) (broken v0).
Proof.
  intros Ht. unfold reencTableTx.
  eapply v_then; [apply (v_look_inside v0 _ (fun v => List.filter (stale_row_of (tg_table t) org aid) (ciphers v)))|]. intros recs.
  apply (v_then v0 _ _ _ (fun _ => moved (tg_table t :: tbls))); [|intros u; by apply v_retp].
  eapply v_weaken; [apply (v_for_each (fun l => inside v0 (fun v => moved tbls v /\ leftover (tg_table t) l v))
    (reencrypt_row org aid akey t) (broken v0))| | |by intros ? ?].
  - intros l. apply inside_broken.
  - intros c l. by apply reencrypt_row_spec.
  - apply inside_weaken. intros v [Hm ->]. split; [done|]. split; [|intros c; by rewrite filter_elem].
    apply NoDup_map_filter, Hm.
  - intros u. apply inside_weaken. intros v [[Hok Ed Hs Hdone] [_ Hl]]. split; [done|done|done|].
    intros tb c [->|Htb]%elem_of_cons Hc; [|by eapply Hdone].
    apply not_true_iff_false. intros Hst. by apply (elem_of_nil c), (Hl c).
Qed.

Lemma reencrypt_all_spec ts tbls total : (forall t, t ∈ ts -> t ∈ dekReencTargets) ->
  vdoes (inside v0 (moved tbls)) (reencrypt_all org aid akey ts total)
    (fun _ => inside v0 (moved (rev (map tg_table ts) ++ tbls))) (broken v0).
Proof.
  revert tbls total. induction ts as [|t ts IH]; intros tbls total Hts; cbn.
  - by apply v_retp.
  - eapply v_then; [apply reencTableTx_spec, Hts; by left|]. intros n.
    rewrite <- app_assoc. apply IH. intros t' Ht'. apply Hts. by right.
Qed.

(** The state a completed re-encryption leaves: nothing of the organisation is
    under another key, and its other keys are retired. *)
Record drained (v : vault) : Prop := {
  dr_ok : vault_ok v;
  dr_active : dk_id <$> active_dek v org = Some aid;
  dr_ciphers c : c ∈ ciphers v -> cr_org c = org -> cr_dek c = None \/ cr_dek c = Some aid;
  dr_retired y : y ∈ org_deks v -> dk_org y = org -> dk_active y = false -> dk_retired_at y <> None;
}.

Lemma unreferenced_spec v y : vault_ok v ->
  unreferenced v y = true <-> forall c, c ∈ ciphers v -> cr_dek c <> Some (dk_id y).
Proof.
  intros Hok. unfold unreferenced. rewrite forallb_forall. split.
  - intros H c Hc E. pose proof (ok_tables v Hok c Hc) as Ht. apply list_elem_of_In in Ht.
    assert (Hin : In (cr_table c) ["secrets"; "db_credentials"; "s3_credentials"; "backup_targets"; "backup_policies";
      "backup_repo_key_archive"; "alert_channels"; "llm_endpoints"; "s3_buckets"; "pending_s3_ops"]) by (cbn in *; tauto).
    apply H, negb_true_iff, not_true_iff_false in Hin. apply Hin, existsb_exists. exists c. split; [by apply list_elem_of_In|].
    unfold in_table. by rewrite E, !String.eqb_refl.
  - intros H tbl _. apply negb_true_iff, not_true_iff_false. intros (c & Hc%list_elem_of_In & E)%existsb_exists.
    apply andb_true_iff in E as [_ E]. specialize (H c Hc). destruct (cr_dek c) as [i|]; [|done].
    apply String.eqb_eq in E. congruence.
Qed.

Lemma retire_same v now y : dk_id (retire org now v y) = dk_id y /\ dk_org (retire org now v y) = dk_org y /\
  dk_wrapped (retire org now v y) = dk_wrapped y /\ dk_active (retire org now v y) = dk_active y.
Proof. unfold retire. by destruct (_ && _). Qed.

Lemma find_map_same {A} (p : A -> bool) f l : (forall x, p (f x) = p x) -> List.find p (map f l) = f <$> List.find p l.
Proof. intros Hf. induction l as [|x l IH]; cbn; [done|]. rewrite Hf. by destruct (p x). Qed.

Lemma retired_drained v now : active_dek v0 org = Some k -> dk_active k = true -> moved (map tg_table dekReencTargets) v ->
  let v' := with_deks (map (retire org now v)) v in
  known v v' /\ drained v' /\ same_store (contents v0) (contents v').
Proof.
  intros Hfind Hact [Hok Ed Hs Hdone] v'.
  assert (Hid : forall y, dk_id (retire org now v y) = dk_id y) by (intros y; apply retire_same).
  assert (Hf : forall y, y ∈ org_deks v -> dk_org (retire org now v y) = dk_org y /\
    unseals (dek_purpose (dk_org y)) (dk_wrapped (retire org now v y)) = unseals (dek_purpose (dk_org y)) (dk_wrapped y)).
  { intros y _. destruct (retire_same v now y) as (_ & -> & -> & _). done. }
  pose proof (mapped_same_keys _ v Hid Hf) as Hsk.
  assert (Hon : forall c, c ∈ ciphers v -> cr_org c = org -> cr_dek c = None \/ cr_dek c = Some aid).
  { intros c Hc Eo. destruct (cr_dek c) as [i|] eqn:E; [|by left]. right. f_equal. destruct (decide (i = aid)) as [|Hne]; [done|].
    pose proof (Hdone (cr_table c) c (schema_covered _ (ok_tables v Hok c Hc)) Hc) as H. apply not_true_iff_false in H. destruct H.
    apply stale_row. rewrite E. repeat split; congruence. }
  split; [by apply known_mapped|]. split; [split|].
  - apply mapped_ok; [done|done|done|]. intros y Hy. destruct (retire_same v now y) as (_ & _ & _ & ->).
    unfold retire. destruct (_ && unreferenced v y) eqn:E; [|by apply Hok]. intros _.
    apply andb_true_iff in E as [[[_ E]%andb_true_iff _]%andb_true_iff Eu]. split; [by apply negb_true_iff|].
    by apply unreferenced_spec.
  - unfold active_dek, v'. cbn [with_deks org_deks]. rewrite find_map_same, Ed.
    + unfold active_dek in Hfind. rewrite Hfind. cbn. destruct (retire_same v now k) as [-> _].
      f_equal. exact (proj2 (dek_elem _ _ _ Hk)).
    + intros y. destruct (retire_same v now y) as (_ & Eo & _ & Ea). unfold active_in. by rewrite Eo, Ea.
  - exact Hon.
  - intros y' (y & -> & Hy)%list_elem_of_fmap. destruct (retire_same v now y) as (_ & -> & _ & ->). intros Eo Ea.
    unfold retire. rewrite Eo, String.eqb_refl, Ea. cbn [negb andb].
    destruct (bool_decide_reflect (dk_retired_at y = None)) as [Er|Er]; [|done].
    rewrite (proj2 (unreferenced_spec v y Hok)); [done|]. intros c Hc E.
    destruct (reading_dek v c _ E) as [y2 Hy2]; [apply (ok_open v Hok c Hc); by rewrite E|].
    assert (Hy2' : dek_by_id v (dk_id y) = Some y) by by apply dek_found.
    assert (y2 = y) as -> by congruence. pose proof (ok_org v Hok c _ y Hc E Hy2') as Eoc.
    destruct (Hon c Hc) as [?|E2]; [congruence|congruence|]. assert (dk_id y = aid) as Ey by congruence.
    rewrite Ey in Hy2'. unfold dek_by_id in *. rewrite Ed in Hy2'. congruence.
  - intros t q. rewrite <- Hs. by apply contents_kept.
Qed.

End org.

(** What a re-encryption that succeeds has done *)
Definition reencrypted (v0 : vault) (org : string) (v : vault) : Prop :=
  vault_ok v /\ same_store (contents v0) (contents v) /\
  match active_dek v0 org with
  | Some k => drained org (dk_id k) v
  | None => v = v0
  end.

Lemma ReencryptSecrets_spec v0 org : vault_ok v0 ->
  achieves v0 (ReencryptSecrets org) (fun _ => reencrypted v0 org).
Proof.
  intros Hok. unfold achieves, ReencryptSecrets.
  set (R := fun (_ : Z) => inside v0 (reencrypted v0 org)).
  eapply v_weaken; [apply (v_transaction_or v0 0%Z _ (fun v c => agree c v) R)|by intros ? ?| |by intros ? ?].
  - eapply v_pre; [|apply start_inside].
    apply (v_look_at v0 v0 (fun v => active_dek v org)). destruct (active_dek v0 org) as [k|] eqn:E.
    + pose proof E as E'. apply find_some in E' as [Hin%list_elem_of_In [Eo%String.eqb_eq Ea]%andb_true_iff].
      assert (Hk : dek_by_id v0 (dk_id k) = Some k) by by apply dek_found.
      assert (Hlive : dk_retired_at k = None).
      { destruct (dk_retired_at k) eqn:Er; [|done]. destruct (ok_retired v0 Hok k Hin); congruence. }
      eapply v_then; [apply dekPlaintext_spec; by intros v <-|]. intros akey.
      eapply v_pre; [|apply (inside_weaken v0 _ (fun v => v0 = v /\ key_of v0 (dk_id k) = Some akey)); by intros v [<- ?]].
      apply v_inside_pure. intros Hkey.
      apply (v_then v0 _ _ _ (fun _ => moved v0 org (dk_id k) (map tg_table dekReencTargets))).
      { eapply v_weaken; [eapply (reencrypt_all_spec v0 org (dk_id k) akey k Hk Eo Hlive Hkey dekReencTargets []); done| | |by intros ? ?].
        - apply inside_weaken. intros v <-. split; [done|done|done|]. by intros tbl c ?%elem_of_nil.
        - intros n. apply inside_weaken. intros v [H1 H2 H3 H4]. split; [done|done|done|].
          intros tbl c Ht. apply H4. rewrite app_nil_r. apply list_elem_of_In. rewrite <- in_rev. by apply list_elem_of_In. }
      intros total. apply (v_bind _ _ _ (fun _ => R total)); [|intros u; apply v_ret; by intros ? ?].
      apply v_change. intros now t Hm.
      destruct (retired_drained v0 org (dk_id k) k Hk (vaulted t) now E Ea Hm) as (Hkn & Hdr & Hsame).
      split; [exact Hkn|]. split; [apply Hdr|]. split; [exact Hsame|]. by rewrite E.
    + apply v_ret. intros v c (<- & H0 & Hv & Hs). split; [done|]. intros _. split; [|done].
      split; [done|]. split; [done|]. by rewrite E.
  - intros a v c (_ & H0 & _). exact H0.
  - intros a v c (HR & _ & Hv & _). by split.
Qed.

End reencrypt.
