(* ===== verification/VaultAgents.v ===== *)
(** * What an agent is given

    The references the control plane renders into a server's document and the
    values it hands that server's agent are computed by different queries; they
    agree, and the values are those of the secrets that govern the resource. *)

From S2P Require Import Prelude GoStrings Json CpDb Deploy Engines CpDsd DsdStore Naming Kms Vault VaultSpec VaultKeep.
From S2P Require Import VaultOps.
From Stdlib Require Import Ascii.

Local Open Scope string_scope.
Local Open Scope io_scope.

(** ** Loops that skip what they have seen *)

Section keep_first.
Context {A : Type} (key : A -> string).

Definition same_key (x y : A) : bool := String.eqb (key y) (key x).

Lemma seen_spec (k : string) seen : existsb (String.eqb k) seen = true <-> k ∈ seen.
Proof.
  rewrite existsb_exists. split; [intros (y & Hy & ->%String.eqb_eq); by apply list_elem_of_In|].
  intros H. exists k. split; [by apply list_elem_of_In|apply String.eqb_refl].
Qed.

(** What is kept is the first of its key. *)
Lemma keep_first_elem seen l x :
  x ∈ keep_first key seen l <-> (key x ∉ seen) /\ List.find (same_key x) l = Some x.
Proof.
  revert seen. induction l as [|y l IH]; intros seen; cbn; [split; [by intros ?%elem_of_nil|by intros [_ ?]]|].
  destruct (existsb _ seen) eqn:E.
  - apply seen_spec in E. rewrite IH. unfold same_key at 2. destruct (String.eqb_spec (key y) (key x)) as [Ek|Ek]; [|done].
    split; intros [Hx _]; rewrite <- Ek in Hx; done.
  - apply not_true_iff_false in E. rewrite seen_spec in E. unfold same_key at 1.
    rewrite elem_of_cons, IH, not_elem_of_cons. destruct (String.eqb_spec (key y) (key x)) as [Ek|Ek].
    + split; [intros [->|[[Hne _] _]]; [done|congruence]|]. intros [_ [= ->]]. by left.
    + split; [intros [->|[[_ ?] ?]]; done|]. intros [Hx Hf]. right. split; [|done]. split; [congruence|done].
Qed.

Lemma find_nth (p : A -> bool) l x : List.find p l = Some x <->
  exists i, l !! i = Some x /\ p x = true /\ forall j y, (j < i)%nat -> l !! j = Some y -> p y = false.
Proof.
  induction l as [|z l IH]; cbn; [split; [done|by intros (i & ? & _)]|]. destruct (p z) eqn:E.
  - split; [intros [= ->]; exists 0%nat; split; [done|]; split; [done|]; lia|].
    intros ([|i] & Hi & Hx & Hj); [done|]. specialize (Hj 0%nat z ltac:(lia) eq_refl). congruence.
  - rewrite IH. split.
    + intros (i & Hi & Hx & Hj). exists (S i). split; [done|]. split; [done|]. intros [|j] y Hl Hy; [by injection Hy as ->|].
      apply (Hj j); [lia|done].
    + intros ([|i] & Hi & Hx & Hj); [cbn in Hi; congruence|]. exists i. split; [done|]. split; [done|].
      intros j y Hl Hy. apply (Hj (S j)); [lia|done].
Qed.

Lemma find_app {B} (p : B -> bool) l1 l2 :
  List.find p (l1 ++ l2)%list = match List.find p l1 with Some x => Some x | None => List.find p l2 end.
Proof. induction l1 as [|x l1 IH]; cbn; [done|]. by destruct (p x). Qed.

Lemma find_absent {B} (p : B -> bool) l : (forall x, x ∈ l -> p x = false) -> List.find p l = None.
Proof.
  intros H. destruct (List.find p l) as [x|] eqn:E; [|done]. apply find_some in E as [Hx%list_elem_of_In E].
  specialize (H x Hx). congruence.
Qed.

Lemma find_pair {B} (a : B) (p : B * A -> bool) l :
  List.find p (map (pair a) l) = pair a <$> List.find (fun x => p (a, x)) l.
Proof. induction l as [|x l IH]; cbn; [done|]. by destruct (p (a, x)). Qed.

Lemma find_ext {B} (p q : B -> bool) l : (forall x, p x = q x) -> List.find p l = List.find q l.
Proof. intros H. induction l as [|x l IH]; cbn; [done|]. rewrite H. by destruct (q x). Qed.

(** In blocks with distinct labels, [find] looks in the block of the label. *)
Lemma find_blocks {R} (label : R -> string) (block : R -> list A) (rs : list R) (r : R) (p : string * A -> bool) :
  r ∈ rs -> (forall r', r' ∈ rs -> label r' = label r -> r' = r) -> NoDup rs ->
  (forall r' x, r' ∈ rs -> p (label r', x) = true -> label r' = label r) ->
  List.find p (concat (map (fun r => map (pair (label r)) (block r)) rs)) =
  pair (label r) <$> List.find (fun x => p (label r, x)) (block r).
Proof.
  intros Hr Hu Hn Hp. apply list_elem_of_split in Hr as (l1 & l2 & ->).
  assert (Hout : forall l, (forall r', r' ∈ l -> r' ∈ l1 ++ r :: l2 /\ r' <> r)%list ->
    List.find p (concat (map (fun r => map (pair (label r)) (block r)) l)) = None).
  { intros l Hl. apply find_absent. intros y (r' & Hr' & (x & -> & Hx)%list_elem_of_fmap)%concat_map_elem.
    apply not_true_iff_false. intros E. destruct (Hl r' Hr') as [Hin Hne]. apply Hne, Hu; [done|]. by eapply Hp. }
  apply NoDup_app in Hn as (_ & Hd & [Hr2 _]%NoDup_cons).
  rewrite map_app, concat_app, find_app, Hout.
  - cbn. rewrite find_app, find_pair. destruct (List.find _ (block r)); cbn; [done|]. apply Hout.
    intros r' Hr'. split; [|by intros ->]. apply elem_of_app. right. by right.
  - intros r' Hr'. split; [by apply elem_of_app; left|]. intros ->. apply (Hd r Hr'). by left.
Qed.

End keep_first.

#[export] Instance cipher_meta_eq_dec : EqDecision cipher_meta.
Proof. solve_decision. Defined.
#[export] Instance cipher_row_eq_dec : EqDecision cipher_row.
Proof. solve_decision. Defined.

Section agents.
Context {pg : Postgres} {ae : Aead} {kc : KeyCustody}.

(** ** Which secret governs a name *)

Definition env_scoped (c : cipher_row) : bool := bool_decide (is_Some (sec_EnvironmentID (secret_of c))).

(** A secret governs its name for a resource when it reaches it and, if it is the
    project's, no secret of the environment has that name. *)
Definition governs (v : vault) (r : resource_row) (c : cipher_row) : Prop :=
  c ∈ ciphers v /\ reaches r c = true /\
  (env_scoped c = true \/
   forall y, y ∈ ciphers v -> reaches r y = true -> sec_name y = sec_name c -> env_scoped y = false).

(** The two unique indexes of [secrets] *)
Definition names_unique (v : vault) : Prop :=
  forall c y, c ∈ ciphers v -> y ∈ ciphers v -> same_scope c y = true -> c = y.

Lemma reaches_secret r c : reaches r c = true -> in_table "secrets" c = true /\ cr_org c = rs_org r /\
  id_at 0 (cr_ids c) = rs_project r /\
  match sec_EnvironmentID (secret_of c) with None => True | Some e => rs_environment r = Some e end.
Proof.
  unfold reaches, secret_in. intros [[[Ht Ho%String.eqb_eq]%andb_true_iff Hp%String.eqb_eq]%andb_true_iff He]%andb_true_iff.
  split; [done|]. split; [done|]. split; [done|]. destruct (sec_EnvironmentID _); [|done].
  destruct (rs_environment r); [|done]. apply String.eqb_eq in He. congruence.
Qed.

Lemma one_scope r c y : reaches r c = true -> reaches r y = true -> sec_name y = sec_name c ->
  env_scoped y = env_scoped c -> same_scope c y = true.
Proof.
  intros (Tc & _ & Pc & Ec)%reaches_secret (Ty & _ & Py & Ey)%reaches_secret Hn He.
  unfold same_scope. rewrite Tc, Ty, !sec_project, Pc, Py. unfold sec_name in Hn. rewrite Hn, String.eqb_refl. cbn [andb].
  unfold env_scoped in He. destruct (sec_EnvironmentID (secret_of c)) as [e|], (sec_EnvironmentID (secret_of y)) as [e'|];
    try (rewrite !bool_decide_decide in He; destruct (decide _), (decide _); try done; by (exfalso; eauto)).
  - apply String.eqb_eq. congruence.
  - apply String.eqb_refl.
Qed.

(** The first of a name in the order of the queries is the one that governs. *)
Lemma first_governs v r c : vault_ok v -> names_unique v ->
  List.find (same_key sec_name c) (env_first (List.filter (reaches r) (ciphers v))) = Some c <-> governs v r c.
Proof.
  intros Hok Hu. set (l := env_first _).
  assert (Hel : forall y, y ∈ l <-> y ∈ ciphers v /\ reaches r y = true).
  { intros y. unfold l, env_first. rewrite (order_by_perm _ _). by rewrite filter_elem. }
  assert (Hsort : forall i j x y, (i <= j)%nat -> l !! i = Some x -> l !! j = Some y -> env_scoped y = true -> env_scoped x = true).
  { intros i j x y Hij Hx Hy. pose proof (order_by_sorted _ _ i j x y Hij Hx Hy) as Hs. unfold env_scoped, null_last in *.
    destruct (sec_EnvironmentID (secret_of x)), (sec_EnvironmentID (secret_of y)); done. }
  rewrite find_nth. split.
  - intros (i & Hi & _ & Hj). destruct (proj1 (Hel c)) as [Hc Hr]; [by eapply list_elem_of_lookup_2|].
    split; [done|]. split; [done|]. destruct (env_scoped c) eqn:Ec; [by left|]. right. intros y Hy Hry Hny.
    apply not_true_iff_false. intros Ey. pose proof (proj2 (Hel y) (conj Hy Hry)) as [j Hyj]%list_elem_of_lookup.
    destruct (decide (j < i)%nat) as [Hlt|Hge].
    + specialize (Hj j y Hlt Hyj). unfold same_key in Hj. by rewrite Hny, String.eqb_refl in Hj.
    + rewrite (Hsort i j c y ltac:(lia) Hi Hyj Ey) in Ec. done.
  - intros (Hc & Hr & Hg). pose proof (proj2 (Hel c) (conj Hc Hr)) as (l1 & l2 & E & Hn)%list_elem_of_split_l.
    exists (length l1). rewrite E. split; [by rewrite list_lookup_middle|]. unfold same_key at 1.
    split; [apply String.eqb_refl|]. intros j y Hj Hy. apply String.eqb_neq. fold l in E. intros Hny.
    assert (Hy1 : y ∈ l1) by (rewrite lookup_app_l in Hy by done; by eapply list_elem_of_lookup_2).
    destruct (proj1 (Hel y)) as [Hyc Hry]; [rewrite E; apply elem_of_app; by left|].
    assert (Hyj : l !! j = Some y) by (by rewrite E). assert (Hci : l !! length l1 = Some c) by (by rewrite E, list_lookup_middle).
    assert (Hsc : env_scoped y = env_scoped c).
    { destruct (env_scoped c) eqn:Ec; [apply (Hsort j (length l1) y c); [lia|done..]|]. destruct Hg as [?|Hg]; [done|by apply Hg]. }
    apply Hn. rewrite (Hu c y); [done|done|done|by eapply one_scope].
Qed.

Lemma effective_spec v r c : vault_ok v -> names_unique v -> c ∈ effective v r <-> governs v r c.
Proof.
  intros Hok Hu. unfold effective. rewrite keep_first_elem, first_governs by done.
  split; [by intros [_ ?]|]. intros H. split; [by intros ?%elem_of_nil|done].
Qed.

(** ** The two queries agree *)

(** Primary keys of [resources], with no NUL byte, as PostgreSQL has no text with *)
Definition resource_ids (t : tables) : Prop :=
  NoDup (map rs_id (resources t)) /\ forall r, r ∈ resources t -> has_char (rs_id r) Ascii.zero = false.

Lemma joined_spec t srv r c : resource_ids t -> r ∈ resources t -> ResourceHostedHere t srv r = true ->
  (rs_id r, c) ∈ keep_first ref_key [] (joined t srv) <-> c ∈ effective (vaulted t) r.
Proof.
  intros [Hn Hz] Hr Hh. unfold effective. rewrite !keep_first_elem. unfold joined.
  set (rs := order_by _ (List.filter _ (resources t))).
  assert (Hel : forall r', r' ∈ rs <-> r' ∈ resources t /\ ResourceHostedHere t srv r' = true).
  { intros r'. unfold rs. rewrite (order_by_perm _ _). by rewrite filter_elem. }
  assert (Hnd : NoDup rs).
  { unfold rs. rewrite (order_by_perm _ _). by eapply (NoDup_fmap_1 rs_id), NoDup_map_filter. }
  rewrite (find_blocks rs_id (fun r => env_first (List.filter (reaches r) (ciphers (vaulted t)))) rs r); [|by apply Hel| |done|].
  - rewrite (find_ext _ (same_key sec_name c)).
    + split; intros [_ E]; (split; [by intros ?%elem_of_nil|]); [|by rewrite E].
      by apply fmap_Some in E as (y & E & [= <-]).
    + intros x. unfold same_key, ref_key. cbn. destruct (String.eqb_spec (sec_name x) (sec_name c)) as [->|Hne].
      * apply String.eqb_refl.
      * apply String.eqb_neq. intros E. apply app_char_inj in E as [_ E]; [done|by apply Hz..].
  - intros r' [Hr' _]%Hel E. by eapply (NoDup_map_inj rs_id).
  - intros r' x [Hr' _]%Hel E. unfold same_key, ref_key in E. cbn in E. apply String.eqb_eq in E.
    apply app_char_inj in E as [E _]; [done|by apply Hz..].
Qed.

(** ** Resolving *)

(** A resolved secret is that of a row. *)
Definition resolves (v : vault) (c : cipher_row) (s : ResolvedSecret) : Prop :=
  rsec_Name s = sec_name c /\ rsec_EnvVar s = sec_EnvVar (secret_of c) /\ contents v "secrets" (cr_pk c) = Some (rsec_Value s).

Lemma v_open_row v0 id pre aad nonce ct : is_Some (dek_by_id v0 id) ->
  vdoes (inside v0 (eq v0))
    (dek <- dekPlaintext id ;; wrapping pre (lift (gcmOpen dek aad nonce ct)))
    (fun x => inside v0 (fun v => v0 = v /\ exists key, key_of v0 id = Some key /\ gcmOpen key aad nonce ct = Ok x)) (broken v0).
Proof.
  intros Hk. eapply v_then; [apply dekPlaintext_spec; by intros v <-|]. intros key.
  eapply v_weaken; [apply v_opening|by intros ? ?| |by intros ? ?]. intros x. apply inside_weaken.
  intros v [[<- Hkey] Ho]. split; [done|]. by exists key.
Qed.

Lemma bind_assoc {A B C} (m : io cp A) (f : A -> io cp B) (g : B -> io cp C) d :
  bind m (fun a => bind (f a) g) d = bind (bind m f) g d.
Proof. unfold bind. by destruct (m d) as [[a|e] d1]. Qed.

Lemma v_assoc {A B C} P (m : io cp A) (f : A -> io cp B) (g : B -> io cp C) Q I :
  vdoes P (bind (bind m f) g) Q I -> vdoes P (bind m (fun a => bind (f a) g)) Q I.
Proof. intros H d HP. rewrite bind_assoc. by apply H. Qed.

Lemma resolve_rows_spec v0 r l : vault_ok v0 ->
  (forall c, c ∈ l -> c ∈ ciphers v0 /\ reaches r c = true) ->
  vdoes (inside v0 (eq v0)) (resolve_rows (rs_org r) (rs_project r) l)
    (fun out => inside v0 (fun v => v0 = v /\ Forall2 (resolves v0) l out)) (broken v0).
Proof.
  intros Hok. induction l as [|c l IH]; intros Hl; cbn.
  { apply v_retp. intros v <-. split; [done|constructor]. }
  destruct (Hl c) as [Hc Hr]; [by left|]. destruct (reaches_secret r c Hr) as (Ht & Ho & Hp & _).
  apply String.eqb_eq in Ht. destruct (row_dek v0 c Hok Hc) as [Hk Hd]; [apply (ok_sealed v0 Hok c Hc); rewrite Ht; by left|].
  apply v_assoc. eapply v_then; [by apply v_open_row|]. intros x. apply v_inside_pure. intros (key & Hkey & Hopen).
  eapply v_then; [apply IH; intros y Hy; apply Hl; by right|]. intros rest. apply v_retp.
  intros v [<- Hrest]. split; [done|]. constructor; [|done]. split; [done|]. split; [done|].
  rewrite <- Ht at 1. rewrite contents_at by done. apply (opened_reading v0 c key); [done|done|].
  by rewrite secret_aad, Ho, Hp.
Qed.

Context {jr : JsonReader}.

(** The names an engine's own credentials go by *)
Definition engine_names : list string :=
  ["POSTGRES_PASSWORD"; "MYSQL_PASSWORD"; "MYSQL_ROOT_PASSWORD"; "REDIS_PASSWORD"; "MONGO_INITDB_ROOT_PASSWORD";
   HubTokenSecretName] ++ concat (map se_SecretEnvNames s3Engines).

Definition is_credential (s : ResolvedSecret) : Prop := rsec_Name s ∈ engine_names /\ rsec_EnvVar s = true.

Lemma engine_found v tbl org srv rid c : vault_ok v -> tbl ∈ sealed_tables ->
  List.find (engine_row tbl org srv rid) (ciphers v) = Some c -> is_Some (dek_by_id v (opt_dek c)).
Proof.
  intros Hok Ht [Hc%list_elem_of_In [[[E _]%row_is_key _]%andb_true_iff _]%andb_true_iff]%find_some.
  apply row_dek; [done|done|]. apply (ok_sealed v Hok c Hc). by rewrite E.
Qed.

Lemma resolveDB_spec v0 org srv rid : vault_ok v0 ->
  vdoes (inside v0 (eq v0)) (resolveDBSecretsTx org srv rid)
    (fun out => inside v0 (fun v => v0 = v /\ Forall is_credential out)) (broken v0).
Proof.
  intros Hok. apply (v_look_at v0 v0 (fun v => List.find (engine_row "db_credentials" org srv rid) (ciphers v))).
  destruct (List.find _ _) as [c|] eqn:E; [|by apply v_retp].
  apply v_assoc. eapply v_then; [apply v_open_row; eapply engine_found; [done| |exact E]; right; by left|]. intros x.
  destruct (json_parse x ≫= dec_db_credentials) as [[pw root]|]; [|apply v_failp].
  apply v_retp. intros v [<- _]. split; [done|].
  repeat destruct (String.eqb _ _); repeat constructor; cbn; set_solver.
Qed.

Lemma s3_name_known e def n : S3EngineByName e = Some def -> n ∈ se_SecretEnvNames def -> n ∈ engine_names.
Proof.
  intros He Hn. pose proof (map_all s3EngineByName (fun _ d => forallb (fun n => existsb (String.eqb n) engine_names)
    (se_SecretEnvNames d)) ltac:(vm_compute; reflexivity) _ _ He) as E. cbv beta in E.
  apply forallb_elem with (x := n) in E; [|done]. by apply seen_spec.
Qed.

Lemma resolveS3_spec v0 org srv rid : vault_ok v0 ->
  vdoes (inside v0 (eq v0)) (resolveS3SecretsTx org srv rid)
    (fun out => inside v0 (fun v => v0 = v /\ Forall is_credential out)) (broken v0).
Proof.
  intros Hok. apply (v_look_at v0 v0 (fun v => List.find (engine_row "s3_credentials" org srv rid) (ciphers v))).
  destruct (List.find _ _) as [c|] eqn:E; [|by apply v_retp].
  destruct (S3EngineByName _) as [def|] eqn:Ed; [|apply v_failp].
  apply v_assoc. eapply v_then; [apply v_open_row; eapply engine_found; [done| |exact E]; do 2 right; by left|]. intros x.
  destruct (json_parse x ≫= dec_s3_credentials) as [key|]; [|apply v_failp].
  apply v_retp. intros v [<- _]. split; [done|]. apply Forall_forall. intros s (n & -> & Hn)%list_elem_of_fmap.
  split; [by eapply s3_name_known|done].
Qed.

Lemma resolveLLM_spec v0 org srv rid given : vault_ok v0 ->
  vdoes (inside v0 (eq v0)) (resolveLLMSecretsTx org srv rid given)
    (fun out => inside v0 (fun v => v0 = v /\ Forall is_credential out)) (broken v0).
Proof.
  intros Hok. unfold resolveLLMSecretsTx. destruct (existsb _ given); [by apply v_retp|].
  apply (v_look_at v0 v0 (fun v => List.find (fun c => engine_row "llm_endpoints" org srv rid c &&
    bool_decide (is_Some (cr_dek c))) (ciphers v))).
  destruct (List.find _ _) as [c|] eqn:E; [|by apply v_retp].
  apply find_some in E as [Hc%list_elem_of_In [_ Hd%bool_decide_eq_true]%andb_true_iff].
  apply v_assoc. eapply v_then.
  { apply v_open_row, row_dek; [done|done|]. by destruct Hd as [i ->]. }
  intros x. apply v_retp. intros v [<- _]. split; [done|]. repeat constructor; cbn; set_solver.
Qed.

(** What a successful resolve of a row returned *)
Definition resolved (v0 : vault) (r : resource_row) (out : list ResolvedSecret) (v : vault) : Prop :=
  v0 = v /\ exists own extra, out = (own ++ extra)%list /\
    Forall2 (resolves v0) (effective v0 r) own /\ Forall is_credential extra.

Lemma effective_elem v r c : c ∈ effective v r -> c ∈ ciphers v /\ reaches r c = true.
Proof.
  unfold effective. intros [_ [Hc _]%find_some]%keep_first_elem. apply list_elem_of_In in Hc.
  revert Hc. unfold env_first. rewrite (order_by_perm _ _), filter_elem. done.
Qed.

(** The body of [ResolveSecretsForResource] once the resource is found *)
Definition resolve_body (orgID serverID resourceID actor : string) (r : resource_row) : io cp (list ResolvedSecret) :=
  encRows <- query (fun _ t => effective (vaulted t) r) ;;
  own <- resolve_rows orgID (rs_project r) encRows ;;
  db <- resolveDBSecretsTx orgID serverID resourceID ;;
  s3 <- resolveS3SecretsTx orgID serverID resourceID ;;
  llm <- resolveLLMSecretsTx orgID serverID resourceID (map (fun c => sec_Name (secret_of c)) encRows) ;;
  let out := (own ++ db ++ s3 ++ llm)%list in
  _ <- (if (0 <? length out)%nat
        then auditTx orgID actor "Secrets fetched (agent)" resourceID else ret tt) ;;
  ret out.

Lemma resolve_body_spec v0 srv rid actor r : vault_ok v0 ->
  achieves v0 (transaction (resolve_body (rs_org r) srv rid actor r)) (resolved v0 r).
Proof.
  intros Hok. apply v_tx. apply (v_look_at v0 v0 (fun v => effective v r)).
  eapply v_then; [apply resolve_rows_spec; [done|intros c; apply effective_elem]|]. intros own.
  apply v_inside_pure. intros Hown.
  eapply v_then; [by apply resolveDB_spec|]. intros db. apply v_inside_pure. intros Hdb.
  eapply v_then; [by apply resolveS3_spec|]. intros s3. apply v_inside_pure. intros Hs3.
  eapply v_then; [by apply resolveLLM_spec|]. intros llm. apply v_inside_pure. intros Hllm.
  cbv zeta. destruct (_ <? _)%nat; [apply v_inside_audit|]; apply v_retp; intros v <-; (split; [done|]);
    exists own, (db ++ s3 ++ llm)%list; (split; [done|]); (split; [done|]); by rewrite !Forall_app.
Qed.

(** A transaction that starts with a query *)
Lemma transaction_query {A B} (f : Z -> tables -> A) (k : A -> io cp B) d b d' :
  transaction (a <- query f ;; k a) d = (Ok b, d') ->
  exists d1, cp_tables d1 = cp_tables d /\ cp_memory d1 = cp_memory d /\
    transaction (k (f (cp_now d) (cp_tables d))) d1 = (Ok b, d').
Proof.
  destruct d as [t now fs rnd n mem]. exists (mkCp t now (tl fs) rnd n mem). split; [done|]. split; [done|].
  revert H. unfold transaction, query, exec, bind. cbn. destruct fs as [|[] [|[] fs]]; cbn; try done.
  all: by destruct (k _ _) as [[?|?] ?].
Qed.

End agents.

Section given.
Context {pg : Postgres} {ae : Aead} {kc : KeyCustody} {jr : JsonReader}.

Lemma Forall2_exists_l {A B} (R : A -> B -> Prop) l k x : Forall2 R l k -> x ∈ l -> exists y, y ∈ k /\ R x y.
Proof.
  induction 1 as [|a b l k Hab _ IH]; [by intros ?%elem_of_nil|]. intros [->|Hx]%elem_of_cons.
  - exists b. split; [by left|done].
  - destruct (IH Hx) as (y & Hy & Hr). exists y. split; [by right|done].
Qed.

Lemma Forall2_exists_r {A B} (R : A -> B -> Prop) l k y : Forall2 R l k -> y ∈ k -> exists x, x ∈ l /\ R x y.
Proof. intros H Hy. apply Forall2_flip in H. by apply (Forall2_exists_l (flip R) k l y). Qed.

Lemma resource_unique t r r' : resource_ids t -> r ∈ resources t -> r' ∈ resources t -> rs_id r = rs_id r' -> r = r'.
Proof. intros [Hn _]. by apply NoDup_map_inj. Qed.

(** C8: An agent is given what its document refers to, and nothing else.  If the
    control plane resolves the secrets of a resource for a server, the resource
    is hosted there; what it hands out is, for every secret that governs its name
    for that resource (an environment's secret before the project's), its name,
    its mode and the value stored last, and beyond those only credentials of the
    resource's own engine; and the references rendered into that server's
    document for the resource carry exactly the same names and modes. *)
Theorem agents_get_their_secrets org srv rid actor d out d' refs d2 : vault_inv d -> names_unique (vault_of d) ->
  resource_ids (cp_tables d) ->
  ResolveSecretsForResource org srv rid actor d = (Ok out, d') -> SecretRefsForServer srv d = (Ok refs, d2) ->
  exists r own extra,
    r ∈ resources (cp_tables d) /\ rs_id r = rid /\ rs_org r = org /\ ResourceHostedHere (cp_tables d) srv r = true /\
    out = (own ++ extra)%list /\ Forall is_credential extra /\
    (forall s, s ∈ own <-> exists c, governs (vault_of d) r c /\ resolves (vault_of d) c s) /\
    (forall name mode, (rid, (name, mode)) ∈ refs <-> exists value, mkResolvedSecret name value mode ∈ own).
Proof.
  intros [Hok Ha] Hu Hids Hres Hrefs.
  apply transaction_query in Hres as (d1 & Et & Em & Hres). unfold hosted_resource in Hres.
  destruct (List.find _ _) as [r|] eqn:Ef.
  2: { exfalso. revert Hres. unfold transaction, query, exec, bind, fail. destruct (cp_faults d1) as [|[] ?]; done. }
  apply find_some in Ef as [Hin%list_elem_of_In [[Ho%String.eqb_eq Hi%String.eqb_eq]%andb_true_iff Hh]%andb_true_iff].
  rewrite <- Ho in Hres.
  destruct (achieves_run (vault_of d) _ _ d1 (Ok out) d' (resolve_body_spec (vault_of d) srv rid actor r Hok))
    as [_ (_ & own & extra & -> & Hown & Hextra)]; [unfold vault_of; by rewrite Et|by rewrite Em|exact Hres|].
  exists r, own, extra. repeat (split; [done|]). split; [|].
  - intros s. split.
    + intros Hs. destruct (Forall2_exists_r _ _ _ _ Hown Hs) as (c & Hc & Hr). exists c. split; [|done]. by apply effective_spec.
    + intros (c & Hc & H1 & H2 & H3). apply effective_spec in Hc; [|done..].
      destruct (Forall2_exists_l _ _ _ _ Hown Hc) as (s' & Hs' & H1' & H2' & H3').
      destruct s, s'. cbn in *. assert (Some rsec_Value = Some rsec_Value0) as [= ->] by congruence. by subst.
  - assert (Erefs : refs = map (fun p => (p.1, (sec_name p.2, sec_EnvVar (secret_of p.2))))
      (keep_first ref_key [] (joined (cp_tables d) srv))).
    { revert Hrefs. unfold SecretRefsForServer, query, exec. destruct (cp_faults d) as [|[] ?]; by intros [= <- _]. }
    intros name mode. rewrite Erefs, list_elem_of_fmap. split.
    + intros ([i c] & [= -> -> ->] & Hp). rewrite <- Hi in Hp. apply joined_spec in Hp; [|done..].
      destruct (Forall2_exists_l _ _ _ _ Hown Hp) as ([n v m] & Hs & H1 & H2 & _). cbn in *. subst. by exists v.
    + intros (v & Hs). destruct (Forall2_exists_r _ _ _ _ Hown Hs) as (c & Hc & H1 & H2 & _). cbn in *.
      exists (rid, c). split; [by rewrite H1, H2|]. rewrite <- Hi. by apply joined_spec.
Qed.

End given.
