(* ===== verification/Backups.v ===== *)
(** * Backups ([cp/internal/store/backups.go], [pitr.go], [cp/internal/backup/scheduler.go])

    The life of a backup run: the scheduler inserts pending rows, at most one of
    a kind for a policy and a UTC day; the reconciler renders the open ones; the
    agent that executes one fetches its credential and reports the outcome;
    restores are queued against a backup that succeeded; a run that stops making
    progress is failed.  With the targets and policies they run under, the
    archive of repository keys and the write-ahead-log high-water marks.

    Times are microseconds of one clock; columns that hold a ciphertext are rows
    of the vault's [ciphers]. *)

From S2P Require Import Prelude GoStrings Json Naming CpDb Deploy CpDsd Engines RenderDoc DsdStore Kms Vault.
From Stdlib Require Import Ascii.

Local Open Scope string_scope.
Local Open Scope io_scope.

Definition BackupRunPending := "pending".
Definition BackupRunRunning := "running".
Definition BackupRunSuccess := "success".
Definition BackupRunFailed := "failed".

Definition AlertBackupFailed := "backup_failed".
Definition AlertVerifyFailed := "verify_failed".

Definition ErrNotDatabase := "resource is not a database".
Definition ErrForeignKey := "violates foreign key constraint".

(** [status IN ('pending', 'running')] *)
Definition run_open (r : run_row) : bool :=
  String.eqb (run_status r) BackupRunPending || String.eqb (run_status r) BackupRunRunning.

Definition alert_event (kind : string) : string :=
  if String.eqb kind "verify" then AlertVerifyFailed else AlertBackupFailed.

Definition day_length : Z := 86400000000.

(** [((created_at AT TIME ZONE 'UTC')::date)], as a day number *)
Definition runDayUTC (us : Z) : Z := us / day_length.

(** The first row of an [ORDER BY key DESC]: NULLs come first unless told
    otherwise. *)
Definition desc_nulls_first `{!Postgres} {A} (key : A -> option Z) (l : list A) : list A :=
  (order_by (fun _ => 0%Z) (List.filter (fun x => bool_decide (key x = None)) l) ++
   order_by (fun x => - default 0 (key x))%Z (List.filter (fun x => bool_decide (key x <> None)) l))%list.
Definition desc_nulls_last `{!Postgres} {A} (key : A -> option Z) (l : list A) : list A :=
  (order_by (fun x => - default 0 (key x))%Z (List.filter (fun x => bool_decide (key x <> None)) l) ++
   order_by (fun _ => 0%Z) (List.filter (fun x => bool_decide (key x = None)) l))%list.

(** [hex.EncodeToString] *)
Fixpoint hex_encode (s : string) : string :=
  match s with
  | EmptyString => EmptyString
  | String b s =>
      let n := nat_of_ascii b in String (hex_digit (n / 16)) (String (hex_digit (n mod 16)) (hex_encode s))
  end.

(** [strings.TrimSuffix(s, "/")] *)
Fixpoint trim_slash (s : string) : string :=
  match s with
  | EmptyString => EmptyString
  | String b EmptyString => if Ascii.eqb b "/"%char then EmptyString else s
  | String b s => String b (trim_slash s)
  end.

Record CreateBackupTargetInput := mkCreateTarget {
  cti_Name : string;
  cti_Endpoint : string;
  cti_Bucket : string;
  cti_Region : string;
  cti_ForcePathStyle : bool;
  cti_AccessKey : string;
  cti_SecretKey : string;
}.

(** Nil fields keep the current value. *)
Record UpdateBackupPolicyInput := mkUpdatePolicy {
  upi_TargetID : option string;
  upi_Schedule : option string;
  upi_KeepDaily : option Z;
  upi_KeepWeekly : option Z;
  upi_KeepMonthly : option Z;
  upi_Enabled : option bool;
  upi_PitrEnabled : option bool;
}.

Record BackupCredential := mkCredential {
  bc_Repository : string;
  bc_RepoKey : string;
  bc_AccessKey : string;
  bc_SecretKey : string;
  bc_Region : string;
  bc_ForcePathStyle : bool;
}.

Record BackupRun := mkBackupRunView {
  bv_ID : string;
  bv_ResourceID : string;
  bv_Kind : string;
  bv_Status : string;
  bv_SnapshotID : string;
  bv_DumpSha256 : string;
  bv_Detail : string;
  bv_RestoreResourceID : option string;
  bv_CreatedAt : option Z;            (* [None] for the zero time *)
  bv_FinishedAt : option Z;
}.

Definition run_view (r : run_row) : BackupRun :=
  mkBackupRunView (run_id r) (ri_resource (run_ident_of r)) (run_kind r) (run_status r) (run_snapshot r) (run_sha r)
    (run_detail r) (ri_restore_resource (run_ident_of r)) (Some (run_created_at r)) (run_finished_at r).

Record VerifyDay := mkVerifyDay { vd_Day : string; vd_Runs : Z; vd_Failed : Z; vd_Green : bool }.

Record ArchivedRepoKey := mkArchivedKey {
  ark_PolicyID : string;
  ark_ResourceID : string;
  ark_ResourceName : string;
  ark_ArchivedAt : Z;
}.

Definition backupRunKinds : list (string * string) := [
  ("backup", "Backup");
  ("basebackup", "Base backup");
  ("verify", "Restore-verify");
  ("restore", "Restore");
  ("restore-pitr", "Restore to timestamp")].

Definition backupRunAction (kind : string) : string :=
  default kind (snd <$> List.find (fun k => String.eqb k.1 kind) backupRunKinds).

(** The restic URL of a target and a resource's repository *)
Definition resticRepository (endpoint bucket resourceID : string) : string :=
  let host := if String.eqb endpoint "" then "s3.amazonaws.com" else endpoint in
  "s3:" +:+ trim_slash host +:+ "/" +:+ bucket +:+ "/sigmahub/" +:+ resourceID.

Section backups.
Context {pg : Postgres} {ae : Aead} {kc : KeyCustody}.

(** ** Targets *)

Definition target_cipher (id org ct nonce dekID : string) : cipher_row :=
  mkCipher "backup_targets" id org [] ct nonce (Some dekID) NoMeta.

(** [backup_targets_org_name_idx]: a target's name is unique in its
    organisation, case aside *)
Definition same_target_name (a b : backup_target) : bool :=
  String.eqb (tgt_org a) (tgt_org b) && String.eqb (to_lower (tgt_name a)) (to_lower (tgt_name b)).

Definition insert_target (t : Z -> backup_target) (c : cipher_row) : io cp backup_target :=
  exec (fun now db =>
    if existsb (fun x => String.eqb (tgt_id x) (tgt_id (t now)) || same_target_name x (t now)) (backup_targets (backed_up db))
       || existsb (row_is (cr_table c) (cr_pk c)) (ciphers (vaulted db))
    then Err ErrUnique
    else Ok (t now, set_ciphers (fun l => l ++ [c])%list (set_targets (fun l => l ++ [t now])%list db))).

Definition CreateBackupTarget (orgID actor : string) (inp : CreateBackupTargetInput) : io cp backup_target :=
  if String.eqb (cti_Name inp) "" || String.eqb (cti_Bucket inp) "" || String.eqb (cti_AccessKey inp) ""
     || String.eqb (cti_SecretKey inp) ""
  then fail "name, bucket, accessKey and secretKey are required"
  else transaction
    (dk <- activeDEKTx orgID ;;
     id <- newID "bkt" ;;
     sealed <- gcmSeal dk.2 (targetAAD orgID id) (cti_SecretKey inp) ;;
     r <- attempt (insert_target (fun now => mkBackupTarget id orgID (cti_Name inp) (cti_Endpoint inp) (cti_Bucket inp)
            (cti_Region inp) (cti_ForcePathStyle inp) (cti_AccessKey inp) actor now)
            (target_cipher id orgID sealed.2 sealed.1 dk.1)) ;;
     match r with
     | Err e =>
         if String.eqb e ErrUnique
         then fail (ErrConflict +:+ ": a backup target named " +:+ quote (cti_Name inp) +:+ " already exists")
         else fail ("insert backup target: " +:+ e)
     | Ok t =>
         _ <- auditTx orgID actor "Backup target created" (tgt_name t) ;;
         ret t
     end).

Definition ListBackupTargets (orgID : string) : io cp (list backup_target) :=
  query (fun _ t => order_by tgt_created_at (List.filter (fun x => String.eqb (tgt_org x) orgID)
    (backup_targets (backed_up t)))).

Definition in_use := "backup target is in use by a backup policy; point the policy elsewhere first".

Definition points_at (targetID : string) (p : policy_row) : bool :=
  match pol_target p with Some x => String.eqb x targetID | None => false end.

Definition the_target (orgID targetID : string) (x : backup_target) : bool :=
  String.eqb (tgt_org x) orgID && String.eqb (tgt_id x) targetID.

(** [DELETE ... RETURNING name], under the foreign key of [backup_policies] *)
Definition delete_target (orgID targetID : string) : io cp (option string) :=
  exec (fun _ t =>
    match List.find (the_target orgID targetID) (backup_targets (backed_up t)) with
    | None => Ok (None, t)
    | Some x =>
        if existsb (points_at targetID) (backup_policies (backed_up t)) then Err ErrForeignKey
        else Ok (Some (tgt_name x),
          set_ciphers (List.filter (fun c => negb (row_is "backup_targets" targetID c)))
            (set_targets (List.filter (fun x => negb (the_target orgID targetID x))) t))
    end).

Definition DeleteBackupTarget (orgID targetID actor : string) : io cp unit :=
  transaction
    (used <- query (fun _ t => existsb (fun p => String.eqb (pol_org p) orgID && points_at targetID p)
       (backup_policies (backed_up t))) ;;
     if (used : bool) then fail in_use
     else
       r <- attempt (delete_target orgID targetID) ;;
       match r with
       | Ok None => fail ErrNotFound
       | Err e => if String.eqb e ErrForeignKey then fail in_use else fail e
       | Ok (Some name) => auditTx orgID actor "Backup target deleted" name
       end).

(** ** Policies *)

Definition the_policy (orgID resourceID : string) (p : policy_row) : bool :=
  String.eqb (pol_org p) orgID && String.eqb (pol_resource p) resourceID.

Definition with_target (o : option string) (p : policy_row) : policy_row :=
  mkPolicy (pol_id p) (pol_org p) (pol_resource p) (pol_schedule p) (pol_daily p) (pol_weekly p) (pol_monthly p) o
    (pol_enabled p) (pol_pitr p).
Definition with_pitr (b : bool) (p : policy_row) : policy_row :=
  mkPolicy (pol_id p) (pol_org p) (pol_resource p) (pol_schedule p) (pol_daily p) (pol_weekly p) (pol_monthly p)
    (pol_target p) (pol_enabled p) b.
Definition with_settings (inp : UpdateBackupPolicyInput) (p : policy_row) : policy_row :=
  mkPolicy (pol_id p) (pol_org p) (pol_resource p) (default (pol_schedule p) (upi_Schedule inp))
    (default (pol_daily p) (upi_KeepDaily inp)) (default (pol_weekly p) (upi_KeepWeekly inp))
    (default (pol_monthly p) (upi_KeepMonthly inp)) (pol_target p) (pol_enabled p) (pol_pitr p).
Definition with_enabled (o : option bool) (p : policy_row) : policy_row :=
  mkPolicy (pol_id p) (pol_org p) (pol_resource p) (pol_schedule p) (pol_daily p) (pol_weekly p) (pol_monthly p)
    (pol_target p) (default (pol_enabled p) o) (pol_pitr p).

Definition retention_ok (p : policy_row) : bool :=
  negb ((pol_daily p <? 1)%Z || (365 <? pol_daily p)%Z || (pol_weekly p <? 0)%Z || (52 <? pol_weekly p)%Z
        || (pol_monthly p <? 0)%Z || (24 <? pol_monthly p)%Z).

(** The part of the update that chooses the target *)
Definition update_target (orgID : string) (o : option string) (bp : policy_row) : io cp policy_row :=
  match o with
  | None => ret bp
  | Some id =>
      if String.eqb id "" then ret (with_target None bp)
      else
        known <- query (fun _ t => existsb (the_target orgID id) (backup_targets (backed_up t))) ;;
        if (known : bool) then ret (with_target (Some id) bp) else fail "unknown backup target"
  end.

Definition update_pitr (orgID resourceID : string) (o : option bool) (bp : policy_row) : io cp policy_row :=
  match o with
  | None => ret bp
  | Some false => ret (with_pitr false bp)
  | Some true =>
      engine <- query (fun _ t => db_engine <$> List.find (fun d =>
        String.eqb (db_org d) orgID && String.eqb (db_resource d) resourceID) (db_credentials (backed_up t))) ;;
      match engine with
      | None => fail ErrNoRows
      | Some e =>
          if negb (String.eqb e "postgres")
          then fail "point-in-time recovery is available for postgres resources only"
          else if bool_decide (pol_target bp = None) then fail "point-in-time recovery requires a backup target"
          else ret (with_pitr true bp)
      end
  end.

(** The columns the [UPDATE] writes *)
Definition policy_columns (bp p : policy_row) : policy_row :=
  mkPolicy (pol_id p) (pol_org p) (pol_resource p) (pol_schedule bp) (pol_daily bp) (pol_weekly bp) (pol_monthly bp)
    (pol_target bp) (pol_enabled bp) (pol_pitr bp).

Definition write_policy (orgID resourceID : string) (bp : policy_row) : io cp unit :=
  exec (fun _ t =>
    if existsb (the_policy orgID resourceID) (backup_policies (backed_up t)) &&
       match pol_target bp with
       | Some id => negb (existsb (fun x => String.eqb (tgt_id x) id) (backup_targets (backed_up t)))
       | None => false
       end
    then Err ErrForeignKey
    else Ok (tt, set_policies (map (fun p => if the_policy orgID resourceID p then policy_columns bp p else p)) t)).

Definition UpdateBackupPolicy (orgID resourceID actor : string) (inp : UpdateBackupPolicyInput) : io cp policy_row :=
  transaction
    (row <- query (fun _ t => List.find (the_policy orgID resourceID) (backup_policies (backed_up t))) ;;
     match row with
     | None => fail ErrNotDatabase
     | Some bp =>
         bp <- update_target orgID (upi_TargetID inp) bp ;;
         if match upi_Schedule inp with Some s => negb (String.eqb s "daily") | None => false end
         then fail ("schedule must be " +:+ quote "daily" +:+ " in v1")
         else
           let bp := with_settings inp bp in
           if negb (retention_ok bp) then fail "retention out of range"
           else
             bp <- update_pitr orgID resourceID (upi_PitrEnabled inp) (with_enabled (upi_Enabled inp) bp) ;;
             let bp := if bool_decide (pol_target bp = None) then with_pitr false bp else bp in
             r <- attempt (write_policy orgID resourceID bp) ;;
             match r with
             | Err e =>
                 if String.eqb e ErrForeignKey then fail "unknown backup target"
                 else fail ("update backup policy: " +:+ e)
             | Ok _ => _ <- auditTx orgID actor "Backup policy updated" resourceID ;; ret bp
             end
     end).

(** ** The repository key *)

Definition policy_cipher (policyID : string) (c : cipher_row) : bool := row_is "backup_policies" policyID c.

Definition policy_cipher_in (orgID policyID : string) (c : cipher_row) : bool :=
  policy_cipher policyID c && String.eqb (cr_org c) orgID.

Definition ensureRepoKeyTx (orgID policyID : string) : io cp unit :=
  have <- query (fun _ => find_cipher (policy_cipher_in orgID policyID)) ;;
  match have with
  | None => fail ErrNoRows
  | Some c =>
      if negb (String.eqb (cr_ct c) "") then ret tt
      else
        key <- rand_bytes 24 ;;
        dk <- activeDEKTx orgID ;;
        sealed <- gcmSeal dk.2 (repoKeyAAD orgID policyID) (hex_encode key) ;;
        update_cipher (policy_cipher_in orgID policyID) dk.1 sealed.2 sealed.1
  end.

(** ** The scheduler *)

(** The index [backup_runs_daily_uniq] *)
Definition daily (kind : string) : bool := existsb (String.eqb kind) ["backup"; "basebackup"; "verify"].

Definition same_day_run (i : run_ident) (r : run_row) : bool :=
  daily (ri_kind i) && String.eqb (run_policy r) (ri_policy i) && String.eqb (run_kind r) (ri_kind i) &&
  (runDayUTC (run_created_at r) =? runDayUTC (ri_created_at i))%Z.

Definition new_run (i : run_ident) : run_row := mkRun i BackupRunPending "" "" "" None None.

Definition id_taken (id : string) (t : tables) : bool :=
  existsb (fun r => String.eqb (run_id r) id) (backup_runs (backed_up t)).

(** [INSERT ... ON CONFLICT (policy_id, kind, day) DO NOTHING] *)
Definition insert_daily (i : Z -> run_ident) : io cp unit :=
  exec (fun now t =>
    if existsb (same_day_run (i now)) (backup_runs (backed_up t)) then Ok (tt, t)
    else if id_taken (ri_id (i now)) t then Err ErrUnique
    else Ok (tt, set_runs (fun l => l ++ [new_run (i now)])%list t)).

Record due := mkDue {
  du_policy : string;
  du_org : string;
  du_resource : string;
  du_server : string;
  du_backup : bool;
  du_verify : bool;
  du_base : bool;
}.

(** What the [SELECT] and the loop over it find due since [day] for a policy
    and its database *)
Definition due_of (day : Z) (runs : list run_row) (p : policy_row) (dc : database_row) : due :=
  let since kind := List.filter (fun r => String.eqb (run_policy r) (pol_id p) && String.eqb (run_kind r) kind &&
                                          (day <=? run_created_at r)%Z) runs in
  let some {A} (l : list A) := match l with [] => false | _ => true end in
  let sha_today := some (List.filter (fun r => String.eqb (run_status r) BackupRunSuccess &&
                                               negb (String.eqb (run_sha r) "")) (since "backup")) in
  mkDue (pol_id p) (pol_org p) (pol_resource p) (db_server dc)
    (negb (some (since "backup"))) (negb (some (since "verify")) && sha_today)
    (pol_pitr p && String.eqb (db_engine dc) "postgres" && negb (some (since "basebackup"))).

Definition due_now (day : Z) (t : tables) : list due :=
  let b := backed_up t in
  List.filter (fun d => du_backup d || du_verify d || du_base d)
    (order_by (fun _ => 0%Z) (p ← List.filter (fun p => pol_enabled p && bool_decide (pol_target p <> None)) (backup_policies b);
      map (due_of day (backup_runs b) p) (List.filter (fun dc => String.eqb (db_resource dc) (pol_resource p)) (db_credentials b)))).

Definition due_run (d : due) (kind id : string) (now : Z) : run_ident :=
  mkRunIdent id (du_org d) (du_resource d) (du_policy d) (du_server d) kind None None now.

Definition enqueue_kind (d : due) (kind : string) (wanted : bool) : io cp unit :=
  if wanted then id <- newID "run" ;; insert_daily (due_run d kind id) else ret tt.

Definition enqueue_due (d : due) : io cp unit :=
  _ <- wrapping "ensure repo key: " (ensureRepoKeyTx (du_org d) (du_policy d)) ;;
  _ <- enqueue_kind d "backup" (du_backup d) ;;
  _ <- enqueue_kind d "verify" (du_verify d) ;;
  enqueue_kind d "basebackup" (du_base d).

(** The servers of the due runs, each once, in the order they come *)
Fixpoint distinct_servers (seen : list string) (l : list due) : list (string * string) :=
  match l with
  | [] => []
  | d :: l =>
      if existsb (String.eqb (du_server d)) seen then distinct_servers seen l
      else (du_server d, du_org d) :: distinct_servers (du_server d :: seen) l
  end.

Definition CreateDueBackupRuns (now : Z) : io cp (list (string * string)) :=
  transaction
    (let day := (runDayUTC now * day_length)%Z in
     work <- query (fun _ => due_now day) ;;
     _ <- for_each work enqueue_due ;;
     ret (distinct_servers [] work)).

(** ** Timeouts *)

Definition stale_run (now execMaxAge queueMaxAge : Z) (r : run_row) : bool :=
  (String.eqb (run_status r) BackupRunRunning && (default (run_created_at r) (run_started_at r) <? now - execMaxAge)%Z)
  || (String.eqb (run_status r) BackupRunPending && (run_created_at r <? now - queueMaxAge)%Z).

Definition timed_out_run (now : Z) (r : run_row) : run_row :=
  mkRun (run_ident_of r) BackupRunFailed (run_snapshot r) (run_sha r)
    (if String.eqb (run_status r) BackupRunPending then "timed out in queue" else "timed out")
    (run_started_at r) (Some now).

Definition resource_name (t : tables) (id : string) : string := default id (rs_name <$> res_by_id t id).

Definition run_alert_key (id : string) : string := "bkr:" +:+ id.

(** The alert a timed-out run raises on the channel of a rule *)
Definition timeout_alert (now : Z) (t : tables) (r : run_row) (rule : alert_rule) : alert_row :=
  mkAlert (ri_org (run_ident_of r)) (ar_channel rule) (alert_event (run_kind r)) (run_alert_key (run_id r))
    (backupRunAction (run_kind r) +:+ " timed out for " +:+ resource_name t (ri_resource (run_ident_of r)))
    (if String.eqb (run_status r) BackupRunPending
     then "The run was never dispatched within its queue window and was failed by the scheduler."
     else "The dispatched run stopped reporting and was failed by the scheduler (agent crashed or unreachable mid-run).")
    now (queued_delivery now).

Definition channel_on (t : tables) (rule : alert_rule) : bool :=
  existsb (fun c => String.eqb (ac_id c) (ar_channel rule) && ac_enabled c) (alert_channels t).

Definition timeout_alerts (now : Z) (t : tables) (r : run_row) : list alert_row :=
  map (timeout_alert now t r) (List.filter (fun rule =>
    String.eqb (ar_org rule) (ri_org (run_ident_of r)) && String.eqb (ar_event rule) (alert_event (run_kind r)) &&
    channel_on t rule &&
    negb (existsb (fun o => String.eqb (al_channel o) (ar_channel rule) &&
                            String.eqb (al_dedup_key o) (run_alert_key (run_id r))) (alert_outbox t))) (alert_rules t)).

Definition TimeoutStaleBackupRuns (execMaxAge queueMaxAge : Z) : io cp Z :=
  exec (fun now t =>
    let stale := List.filter (stale_run now execMaxAge queueMaxAge) (backup_runs (backed_up t)) in
    Ok (Z.of_nat (length stale),
      set_outbox (fun o => o ++ order_by (fun _ => 0%Z) (r ← stale; timeout_alerts now t r))%list
        (set_runs (map (fun r => if stale_run now execMaxAge queueMaxAge r then timed_out_run now r else r)) t))).

(** ** What the reconciler renders *)

Definition kind_rank (kind : string) : Z :=
  if String.eqb kind "backup" then 0 else if String.eqb kind "basebackup" then 1
  else if String.eqb kind "verify" then 2 else 3.

Definition successful (kind policyID : string) (r : run_row) : bool :=
  String.eqb (run_policy r) policyID && String.eqb (run_kind r) kind && String.eqb (run_status r) BackupRunSuccess.

Definition expected_sha (runs : list run_row) (r : run_row) : string :=
  if String.eqb (run_kind r) "verify"
  then default "" (run_sha <$> head (desc_nulls_first run_finished_at (List.filter (fun b =>
         successful "backup" (run_policy r) b && (runDayUTC (run_created_at b) =? runDayUTC (run_created_at r))%Z) runs)))
  else run_sha r.

Definition database_of (b : backup_tables) (resourceID : string) : option database_row :=
  List.find (fun d => String.eqb (db_resource d) resourceID) (db_credentials b).

Definition policy_by_id (b : backup_tables) (id : string) : option policy_row :=
  List.find (fun p => String.eqb (pol_id p) id) (backup_policies b).

Definition run_spec (b : backup_tables) (r : run_row) : option BackupRunSpec :=
  let i := run_ident_of r in
  p ← policy_by_id b (ri_policy i);
  dc ← database_of b (ri_resource i);
  let rdc := id ← ri_restore_resource i; database_of b id in
  Some (mkBackupRun (ri_id i) (ri_kind i) (ri_resource i) (db_engine dc) (db_name dc) (db_username dc)
    (pol_daily p) (pol_weekly p) (pol_monthly p) (expected_sha (backup_runs b) r) (run_snapshot r)
    (deref (ri_restore_resource i)) (default "" (db_name <$> rdc)) (default "" (db_username <$> rdc))
    ((fun us => us / 1000000)%Z <$> ri_recovery_target i)).

(** [ORDER BY created_at, CASE kind ..., id]; rows of the same time and rank
    come in any order. *)
Definition BackupRunsForServer (serverID : string) : io cp (list BackupRunSpec) :=
  query (fun _ t => let b := backed_up t in
    omap (run_spec b) (order_by (fun r => run_created_at r * 4 + kind_rank (run_kind r))%Z
      (List.filter (fun r => String.eqb (ri_server (run_ident_of r)) serverID && run_open r) (backup_runs b)))).

(** ** Credentials *)

(** A policy joined with the target it points at *)
Definition policy_target (b : backup_tables) (p : policy_row) : option backup_target :=
  id ← pol_target p; List.find (fun x => String.eqb (tgt_id x) id) (backup_targets b).

Definition cipher_at (t : tables) (tbl pk : string) : option cipher_row := find_cipher (row_is tbl pk) t.

(** What the release of a credential reads: the policy, its target and the two
    ciphertexts *)
Record custody_row := mkCustody {
  cu_policy : policy_row;
  cu_target : backup_target;
  cu_secret : cipher_row;
  cu_repo : cipher_row;
}.

Definition custody_of (t : tables) (p : policy_row) : option custody_row :=
  x ← policy_target (backed_up t) p;
  s ← cipher_at t "backup_targets" (tgt_id x);
  r ← cipher_at t "backup_policies" (pol_id p);
  Some (mkCustody p x s r).

Definition open_run_of (serverID runID : string) (t : tables) : option (run_row * custody_row) :=
  r ← List.find (fun r => String.eqb (run_id r) runID && String.eqb (ri_server (run_ident_of r)) serverID && run_open r)
        (backup_runs (backed_up t));
  p ← policy_by_id (backed_up t) (run_policy r);
  c ← custody_of t p;
  Some (r, c).

Definition no_repo_key (c : cipher_row) : bool := String.eqb (cr_ct c) "" || bool_decide (cr_dek c = None).

(** The two keys: the target's secret, then the repository's *)
Definition open_custody (orgID : string) (c : custody_row) : io cp (string * string) :=
  tDek <- dekPlaintext (opt_dek (cu_secret c)) ;;
  secretKey <- wrapping "decrypt target secret: "
    (lift (gcmOpen tDek (targetAAD orgID (tgt_id (cu_target c))) (cr_nonce (cu_secret c)) (cr_ct (cu_secret c)))) ;;
  rDek <- dekPlaintext (opt_dek (cu_repo c)) ;;
  repoKey <- wrapping "decrypt repo key: "
    (lift (gcmOpen rDek (repoKeyAAD orgID (pol_id (cu_policy c))) (cr_nonce (cu_repo c)) (cr_ct (cu_repo c)))) ;;
  ret (secretKey, repoKey).

Definition credential (resourceID : string) (x : backup_target) (keys : string * string) : BackupCredential :=
  mkCredential (resticRepository (tgt_endpoint x) (tgt_bucket x) resourceID) keys.2 (tgt_access_key x) keys.1
    (tgt_region x) (tgt_path_style x).

Definition update_run (p : run_row -> bool) (f : Z -> run_row -> run_row) : io cp unit :=
  update (fun now => set_runs (map (fun r => if p r then f now r else r))).

Definition running_run (now : Z) (r : run_row) : run_row :=
  mkRun (run_ident_of r) BackupRunRunning (run_snapshot r) (run_sha r) (run_detail r) (Some now) (run_finished_at r).

Definition BackupCredentialForRun (serverID runID : string) : io cp BackupCredential :=
  transaction
    (row <- query (fun _ => open_run_of serverID runID) ;;
     match row with
     | None => fail ErrNotFound
     | Some (r, c) =>
         if no_repo_key (cu_repo c) then fail ("backup run " +:+ runID +:+ " has no repo key")
         else
           let i := run_ident_of r in
           keys <- open_custody (ri_org i) c ;;
           _ <- update_run (fun r => String.eqb (run_id r) runID && String.eqb (run_status r) BackupRunPending) running_run ;;
           _ <- auditTx (ri_org i) ("agent:" +:+ serverID) "Backup repo key unwrapped (agent)"
                  (ri_resource i +:+ " run " +:+ runID) ;;
           ret (credential (ri_resource i) (cu_target c) keys)
     end).

(** ** Results *)

Definition reported_run (ok : bool) (snapshotID dumpSha detail : string) (now : Z) (r : run_row) : run_row :=
  mkRun (run_ident_of r) (if ok then BackupRunSuccess else BackupRunFailed) snapshotID dumpSha (left detail 4000)
    (run_started_at r) (Some now).

Definition reportable_run (serverID runID : string) (r : run_row) : bool :=
  String.eqb (run_id r) runID && String.eqb (ri_server (run_ident_of r)) serverID && run_open r.

Definition record_result (serverID runID : string) (f : Z -> run_row -> run_row) : io cp (option run_ident) :=
  exec (fun now t =>
    Ok (run_ident_of <$> List.find (reportable_run serverID runID) (backup_runs (backed_up t)),
        set_runs (map (fun r => if reportable_run serverID runID r then f now r else r)) t)).

Definition SetBackupRunResult (serverID runID : string) (ok : bool) (snapshotID dumpSha detail : string) : io cp unit :=
  transaction
    (row <- record_result serverID runID (reported_run ok snapshotID dumpSha detail) ;;
     match row with
     | None => fail ErrNotFound
     | Some i =>
         let action := backupRunAction (ri_kind i) +:+ (if ok then " succeeded" else " failed") in
         _ <- auditTx (ri_org i) ("agent:" +:+ serverID) action (ri_resource i +:+ " run " +:+ runID) ;;
         if ok then ret tt
         else
           name <- attempt (row <- query (fun _ t => rs_name <$> res_by_id t (ri_resource i)) ;;
                            match row with Some n => ret n | None => fail ErrNoRows end) ;;
           let resName := match name with Ok n => n | Err _ => ri_resource i end in
           let body := if String.eqb detail "" then "no failure detail reported" else detail in
           enqueueAlertTx (ri_org i) (alert_event (ri_kind i)) (run_alert_key runID) 0 (action +:+ " for " +:+ resName) body
     end).

Definition FailBackupRunFromOpStatus (serverID runID errText : string) : io cp unit :=
  r <- attempt (SetBackupRunResult serverID runID false "" "" errText) ;;
  match r with
  | Ok _ => ret tt
  | Err e => if String.eqb e ErrNotFound then ret tt else fail e
  end.

(** ** Listings *)

Definition ListBackupRuns (orgID resourceID : string) (limit : Z) : io cp (list BackupRun) :=
  let limit := if (limit <=? 0)%Z || (200 <? limit)%Z then 50%Z else limit in
  query (fun _ t => map run_view (take (Z.to_nat limit) (order_by (fun r => - run_created_at r)%Z (List.filter (fun r =>
    String.eqb (ri_org (run_ident_of r)) orgID && String.eqb (ri_resource (run_ident_of r)) resourceID)
    (backup_runs (backed_up t)))))).

(** [to_char(day, 'YYYY-MM-DD')] *)
Definition day_text (day : Z) : string :=
  let '(y, m, d) := civil day in dec_pad 4 y +:+ "-" +:+ dec_pad 2 m +:+ "-" +:+ dec_pad 2 d.

Definition verify_day (orgID : string) (runs : list run_row) (day : Z) : VerifyDay :=
  let of_day := List.filter (fun r => String.eqb (ri_org (run_ident_of r)) orgID && String.eqb (run_kind r) "verify" &&
                                      (runDayUTC (run_created_at r) =? day)%Z) runs in
  let count (p : run_row -> bool) := Z.of_nat (length (List.filter p of_day)) in
  let n := count (fun r => String.eqb (run_status r) BackupRunSuccess || String.eqb (run_status r) BackupRunFailed) in
  let failed := count (fun r => String.eqb (run_status r) BackupRunFailed) in
  mkVerifyDay (day_text day) n failed ((0 <? n)%Z && (failed =? 0)%Z).

Definition VerifyDays (orgID : string) (days : Z) : io cp (list VerifyDay) :=
  let days := if (days <=? 0)%Z || (366 <? days)%Z then 30%Z else days in
  query (fun now t =>
    map (fun i => verify_day orgID (backup_runs (backed_up t)) (runDayUTC now - (days - 1) + Z.of_nat i)%Z)
      (seq 0 (Z.to_nat days))).

(** ** Restores *)

Definition targeted_policy (orgID resourceID : string) (t : tables) : option (policy_row * bool) :=
  p ← List.find (fun p => the_policy orgID resourceID p && bool_decide (pol_target p <> None)) (backup_policies (backed_up t));
  c ← cipher_at t "backup_policies" (pol_id p);
  Some (p, bool_decide (cr_dek c <> None)).

(** The newest success: [finished_at DESC NULLS LAST, created_at DESC]; the
    order of runs that finished together is left open. *)
Definition newest_backup (policyID : string) (t : tables) : option run_row :=
  head (desc_nulls_last run_finished_at (List.filter (successful "backup" policyID) (backup_runs (backed_up t)))).

Definition database_in (orgID resourceID : string) (t : tables) : option database_row :=
  List.find (fun d => String.eqb (db_org d) orgID && String.eqb (db_resource d) resourceID) (db_credentials (backed_up t)).

Definition insert_run (f : Z -> run_row) : io cp unit :=
  exec (fun now t =>
    if id_taken (run_id (f now)) t then Err ErrUnique
    else Ok (tt, set_runs (fun l => l ++ [f now])%list t)).

Definition restore_row (id orgID sourceID policyID serverID newID snapshot sha : string) (now : Z) : run_row :=
  mkRun (mkRunIdent id orgID sourceID policyID serverID "restore" (Some newID) None now)
    BackupRunPending snapshot sha "" None None.

Definition CreateRestoreRun (orgID sourceID newResourceID actor : string) : io cp BackupRun :=
  transaction
    (row <- query (fun _ => targeted_policy orgID sourceID) ;;
     match row with
     | None => fail "source database has no backup target configured"
     | Some (p, hasKey) =>
         if negb hasKey then fail "source database has no backups yet"
         else
           b <- query (fun _ => newest_backup (pol_id p)) ;;
           match b with
           | None => fail "source database has no successful backup to restore"
           | Some b =>
               if String.eqb (run_sha b) ""
               then fail "the newest successful backup recorded no checksum; it cannot be restored safely"
               else
                 dc <- query (fun _ => database_in orgID newResourceID) ;;
                 match dc with
                 | None => fail "restore target is not a database resource"
                 | Some dc =>
                     id <- newID "run" ;;
                     _ <- insert_run (restore_row id orgID sourceID (pol_id p) (db_server dc) newResourceID
                            (run_snapshot b) (run_sha b)) ;;
                     _ <- auditTx orgID actor "Restore queued" (sourceID +:+ " -> " +:+ newResourceID) ;;
                     ret (mkBackupRunView id sourceID "restore" BackupRunPending (run_snapshot b) (run_sha b) ""
                            (Some newResourceID) None None)
                 end
           end
     end).

Definition pitr_row (id orgID sourceID policyID serverID newID : string) (at_ now : Z) : run_row :=
  mkRun (mkRunIdent id orgID sourceID policyID serverID "restore-pitr" (Some newID) (Some at_) now)
    BackupRunPending "" "" "" None None.

Definition base_before (policyID : string) (at_ : Z) (t : tables) : bool :=
  existsb (fun r => successful "basebackup" policyID r &&
    match run_finished_at r with Some f => (f <=? at_)%Z | None => false end) (backup_runs (backed_up t)).

Definition wal_covers (resourceID : string) (at_ : Z) (t : tables) : bool :=
  existsb (fun w => String.eqb (wal_resource w) resourceID &&
    match wal_shipped_at w with Some s => (at_ <=? s)%Z | None => false end) (wal_archive_status (backed_up t)).

(** [time.Now()], of the one clock *)
Definition clock : io cp Z := fun d => (Ok (cp_now d), d).

Definition CreateRestoreToTimestampRun (orgID sourceID newResourceID : string) (targetTime : Z) (actor : string) : io cp BackupRun :=
  now <- clock ;;
  if (now <? targetTime)%Z then fail "recovery target time is in the future"
  else transaction
    (row <- query (fun _ => targeted_policy orgID sourceID) ;;
     match row with
     | None => fail "source database has no backup target configured"
     | Some (p, hasKey) =>
         if negb (pol_pitr p) then fail "point-in-time recovery is not enabled on the source database"
         else if negb hasKey then fail "source database has no backups yet"
         else
           base <- query (fun _ => base_before (pol_id p) targetTime) ;;
           if negb base then fail "no base backup was taken before the requested time"
           else
             covers <- query (fun _ => wal_covers sourceID targetTime) ;;
             if negb covers
             then fail "the archived WAL does not yet cover the requested time; pick an earlier time"
             else
               dc <- query (fun _ => database_in orgID newResourceID) ;;
               match dc with
               | None => fail "restore target is not a database resource"
               | Some dc =>
                   if negb (String.eqb (db_engine dc) "postgres")
                   then fail "point-in-time recovery is postgres-only"
                   else
                     id <- newID "run" ;;
                     _ <- insert_run (pitr_row id orgID sourceID (pol_id p) (db_server dc) newResourceID targetTime) ;;
                     _ <- auditTx orgID actor "PITR restore queued"
                            (sourceID +:+ " -> " +:+ newResourceID +:+ " @ " +:+ rfc3339 (targetTime / 1000000)) ;;
                     ret (mkBackupRunView id sourceID "restore-pitr" BackupRunPending "" "" "" (Some newResourceID) None None)
               end
     end).

(** ** The archive of repository keys *)

Definition in_scope (scope scopeID : string) (p : policy_row) (r : resource_row) : option bool :=
  if String.eqb scope "resource" then Some (String.eqb (pol_resource p) scopeID)
  else if String.eqb scope "project" then Some (String.eqb (rs_project r) scopeID)
  else if String.eqb scope "environment"
  then Some (match rs_environment r with Some e => String.eqb e scopeID | None => false end)
  else None.

Definition archive_cipher (c : cipher_row) (p : policy_row) : cipher_row :=
  mkCipher "backup_repo_key_archive" (pol_id p) (pol_org p) [] (cr_ct c) (cr_nonce c) (cr_dek c) NoMeta.

(** The rows the [SELECT] feeds to the archive *)
Definition to_archive (now : Z) (orgID scope scopeID : string) (t : tables) : list (archive_row * cipher_row) :=
  omap (fun p =>
    r ← res_by_id t (pol_resource p);
    c ← cipher_at t "backup_policies" (pol_id p);
    if String.eqb (pol_org p) orgID && bool_decide (cr_dek c <> None) && default false (in_scope scope scopeID p r)
       && negb (existsb (fun a => String.eqb (arc_policy a) (pol_id p)) (backup_repo_key_archive (backed_up t)))
    then Some (mkArchive (pol_id p) (pol_org p) (pol_resource p) (rs_name r) now, archive_cipher c p)
    else None) (backup_policies (backed_up t)).

Definition scope_known (scope : string) : bool := existsb (String.eqb scope) ["resource"; "project"; "environment"].

Definition archiveRepoKeysTx (orgID scope scopeID : string) : io cp unit :=
  if negb (scope_known scope) then fail ("archiveRepoKeys: unknown scope " +:+ quote scope)
  else update (fun now t =>
    let rows := to_archive now orgID scope scopeID t in
    set_archive (fun l => l ++ map fst rows)%list (set_ciphers (fun l => l ++ map snd rows)%list t)).

Definition ListArchivedRepoKeys (orgID : string) : io cp (list ArchivedRepoKey) :=
  query (fun _ t => map (fun a => mkArchivedKey (arc_policy a) (arc_resource a) (arc_resource_name a) (arc_archived_at a))
    (order_by (fun a => - arc_archived_at a)%Z (List.filter (fun a => String.eqb (arc_org a) orgID)
      (backup_repo_key_archive (backed_up t))))).

Definition live_key_row (orgID resourceID : string) (t : tables) : option cipher_row :=
  p ← List.find (the_policy orgID resourceID) (backup_policies (backed_up t));
  c ← cipher_at t "backup_policies" (pol_id p);
  if bool_decide (cr_dek c <> None) then Some c else None.

Definition archived_key_row (orgID resourceID : string) (t : tables) : option cipher_row :=
  a ← head (order_by (fun a => - arc_archived_at a)%Z (List.filter (fun a =>
        String.eqb (arc_org a) orgID && String.eqb (arc_resource a) resourceID) (backup_repo_key_archive (backed_up t))));
  cipher_at t "backup_repo_key_archive" (arc_policy a).

Definition ExportRepoKey (orgID resourceID actor : string) : io cp string :=
  transaction
    (row <- query (fun _ => live_key_row orgID resourceID) ;;
     row <- match row with
            | Some c => ret (Some c)
            | None => query (fun _ => archived_key_row orgID resourceID)
            end ;;
     match row with
     | None => fail ErrNotFound
     | Some c =>
         dek <- dekPlaintext (opt_dek c) ;;
         key <- wrapping "unwrap repo key: " (lift (gcmOpen dek (repoKeyAAD orgID (cr_pk c)) (cr_nonce c) (cr_ct c))) ;;
         _ <- auditTx orgID actor "Backup repo key exported" resourceID ;;
         ret key
     end).

(** ** Write-ahead logs *)

Definition WALTargetsForServer (serverID : string) : io cp (list string) :=
  query (fun _ t => map db_resource (List.filter (fun dc =>
    String.eqb (db_server dc) serverID && String.eqb (db_engine dc) "postgres" &&
    existsb (fun p => String.eqb (pol_resource p) (db_resource dc) && pol_enabled p && pol_pitr p &&
                      bool_decide (pol_target p <> None)) (backup_policies (backed_up t)))
    (order_by (fun _ => 0%Z) (db_credentials (backed_up t))))).

Definition wal_custody (serverID resourceID : string) (t : tables) : option custody_row :=
  p ← List.find (fun p => String.eqb (pol_resource p) resourceID && pol_enabled p && pol_pitr p &&
        existsb (fun dc => String.eqb (db_resource dc) resourceID && String.eqb (db_server dc) serverID)
          (db_credentials (backed_up t))) (backup_policies (backed_up t));
  custody_of t p.

(** The handler reads [target_id] again; under one transaction it is the same. *)
Definition WALCredentialForResource (serverID resourceID : string) : io cp BackupCredential :=
  transaction
    (row <- query (fun _ => wal_custody serverID resourceID) ;;
     match row with
     | None => fail ErrNotFound
     | Some c =>
         if no_repo_key (cu_repo c) then fail ErrNotFound
         else
           let orgID := pol_org (cu_policy c) in
           tDek <- dekPlaintext (opt_dek (cu_secret c)) ;;
           targetID <- query (fun _ t => p ← policy_by_id (backed_up t) (pol_id (cu_policy c)); pol_target p) ;;
           secretKey <- wrapping "decrypt target secret: "
             (lift (gcmOpen tDek (targetAAD orgID (deref targetID)) (cr_nonce (cu_secret c)) (cr_ct (cu_secret c)))) ;;
           rDek <- dekPlaintext (opt_dek (cu_repo c)) ;;
           repoKey <- wrapping "decrypt repo key: "
             (lift (gcmOpen rDek (repoKeyAAD orgID (pol_id (cu_policy c))) (cr_nonce (cu_repo c)) (cr_ct (cu_repo c)))) ;;
           _ <- auditTx orgID ("agent:" +:+ serverID) "WAL repo key unwrapped (agent)" resourceID ;;
           ret (credential resourceID (cu_target c) (secretKey, repoKey))
     end).

(** [GREATEST] skips a NULL; a comparison with one is not true *)
Definition advanced_wal (segment : string) (at_ : Z) (w : wal_row) : wal_row :=
  mkWal (wal_resource w) (wal_org w)
    (match wal_shipped_at w with Some s => if (s <? at_)%Z then segment else wal_segment w | None => wal_segment w end)
    (Some (match wal_shipped_at w with Some s => Z.max s at_ | None => at_ end)).

Definition SetWALStatus (serverID resourceID segment : string) (at_ : Z) : io cp unit :=
  done <- exec (fun _ t =>
    match List.find (fun dc => String.eqb (db_resource dc) resourceID && String.eqb (db_server dc) serverID)
            (db_credentials (backed_up t)) with
    | None => Ok (false, t)
    | Some dc => Ok (true, set_wal (fun l =>
        if existsb (fun w => String.eqb (wal_resource w) resourceID) l
        then map (fun w => if String.eqb (wal_resource w) resourceID then advanced_wal segment at_ w else w) l
        else l ++ [mkWal resourceID (db_org dc) segment (Some at_)])%list t)
    end) ;;
  if (done : bool) then ret tt else fail ErrNotFound.

(** ** The scheduler's pass *)

Record Config := mkConfig { cf_RunTimeout : Z; cf_QueueTimeout : Z }.

(** The defaults [Run] fills in: half an hour and six hours *)
Definition defaulted (c : Config) : Config :=
  mkConfig (if (cf_RunTimeout c <=? 0)%Z then 1800000000%Z else cf_RunTimeout c)
    (if (cf_QueueTimeout c <=? 0)%Z then 21600000000%Z else cf_QueueTimeout c).

(** The servers to reconcile, and the first error of the pass *)
Definition sweep (cfg : Config) : io cp (list (string * string) * option string) :=
  now <- clock ;;
  due <- attempt (CreateDueBackupRuns now) ;;
  late <- attempt (TimeoutStaleBackupRuns (cf_RunTimeout cfg) (cf_QueueTimeout cfg)) ;;
  ret (match due with Ok l => l | Err _ => [] end,
       match due, late with Err e, _ => Some e | Ok _, Err e => Some e | Ok _, Ok _ => None end).
End backups.
