(* ===== verification/BackupRuns.v ===== *)
(** * The history of backup runs

    What every operation of [Backups] does to the table of runs: rows are
    appended and never removed, their identity never changes, a finished row is
    frozen; at most one run of a scheduled kind exists for a policy and a day;
    a verify run exists only beside the successful dump it checks, and a restore
    waits pinned to the dump it will load.  The operations that fail a run raise
    its alert. *)

From S2P Require Import Prelude GoStrings Json Naming CpDb Deploy CpDsd Engines RenderDoc DsdStore Kms Vault Backups.

Local Open Scope string_scope.
Local Open Scope io_scope.

Definition runs (t : tables) : list run_row := backup_runs (backed_up t).

(** ** Rows over time *)

Definition run_known (r : run_row) : Prop :=
  run_status r ∈ [BackupRunPending; BackupRunRunning; BackupRunSuccess; BackupRunFailed].

Record run_step (r r' : run_row) : Prop := {
  ru_ident : run_ident_of r' = run_ident_of r;
  ru_frozen : run_open r = false -> r' = r;
  ru_pinned : run_open r' = true -> run_snapshot r' = run_snapshot r /\ run_sha r' = run_sha r;
  ru_known : run_known r -> run_known r';
}.

#[export] Instance run_step_preorder : PreOrder run_step.
Proof.
  split.
  - intros r. by split.
  - intros r1 r2 r3 [I1 F1 P1 K1] [I2 F2 P2 K2]. split; [congruence| | |auto].
    + intros H. pose proof (F1 H) as ->. auto.
    + intros H3. destruct (run_open r2) eqn:E2; [|pose proof (F2 eq_refl) as ->; congruence].
      destruct (P1 eq_refl), (P2 H3). split; congruence.
Qed.

Lemma run_step_id r r' : run_step r r' -> run_id r' = run_id r /\ run_kind r' = run_kind r /\
  run_policy r' = run_policy r /\ run_created_at r' = run_created_at r.
Proof. intros [E _ _ _]. unfold run_id, run_kind, run_policy, run_created_at. by rewrite E. Qed.

Lemma run_step_success kind pol r r' : run_step r r' -> successful kind pol r = true -> r' = r.
Proof.
  intros Hs [_ E%String.eqb_eq]%andb_true_iff. apply (ru_frozen _ _ Hs). unfold run_open. by rewrite E.
Qed.

(** A table a few statements later *)
Definition run_ext (l l' : list run_row) : Prop := exists l1 l2, l' = (l1 ++ l2)%list /\ Forall2 run_step l l1.

#[export] Instance run_ext_preorder : PreOrder run_ext.
Proof.
  split.
  - intros l. exists l, []. rewrite app_nil_r. split; [done|]. induction l; by constructor.
  - intros l1 l2 l3 (a & b & -> & H1) (c & e & -> & H2).
    apply Forall2_app_inv_l in H2 as (c1 & c2 & Hc1 & Hc2 & ->). exists c1, (c2 ++ e)%list.
    split; [by rewrite app_assoc|]. by etransitivity.
Qed.

Lemma run_ext_lookup l l' i r : run_ext l l' -> l !! i = Some r -> exists r', l' !! i = Some r' /\ run_step r r'.
Proof.
  intros (l1 & l2 & -> & H) Hi. destruct (Forall2_lookup_l _ _ _ _ _ H Hi) as (r' & Hi' & Hs).
  exists r'. split; [by apply lookup_app_l_Some|done].
Qed.

Lemma run_ext_steps l l' : Forall2 run_step l l' -> run_ext l l'.
Proof. intros H. exists l', []. by rewrite app_nil_r. Qed.

Lemma run_ext_snoc l r : run_ext l (l ++ [r]).
Proof. exists l, [r]. split; [done|]. induction l; constructor; [reflexivity|done]. Qed.

Lemma map_run_steps (f : run_row -> run_row) l : (forall r, r ∈ l -> run_step r (f r)) -> Forall2 run_step l (map f l).
Proof.
  induction l as [|r l IH]; intros H; cbn; constructor; [apply H; left|]. apply IH. intros. apply H. by right.
Qed.

(** ** The invariant *)

(** The dump a verify run checks, a successful backup of its policy and day *)
Definition dump_of (l : list run_row) (r b : run_row) : Prop :=
  b ∈ l /\ successful "backup" (run_policy r) b = true /\ run_sha b <> "" /\
  runDayUTC (run_created_at b) = runDayUTC (run_created_at r).

(** The backup a restore is pinned to *)
Definition pinned_to (l : list run_row) (r b : run_row) : Prop :=
  b ∈ l /\ successful "backup" (run_policy r) b = true /\ run_sha b <> "" /\
  run_snapshot r = run_snapshot b /\ run_sha r = run_sha b.

(** The base backup a recovery to a time replays from *)
Definition base_of (l : list run_row) (at_ : Z) (r b : run_row) : Prop :=
  b ∈ l /\ successful "basebackup" (run_policy r) b = true /\
  exists f, run_finished_at b = Some f /\ (f <= at_)%Z.

Definition once_a_day (l : list run_row) : Prop :=
  forall i j r r', l !! i = Some r -> l !! j = Some r' -> same_day_run (run_ident_of r) r' = true -> i = j.

Record runs_ok (now : Z) (l : list run_row) : Prop := {
  ro_ids : NoDup (map run_id l);
  ro_daily : once_a_day l;
  ro_known r : r ∈ l -> run_known r;
  ro_past r : r ∈ l -> (run_created_at r <= now)%Z;
  ro_verify r : r ∈ l -> run_kind r = "verify" -> exists b, dump_of l r b;
  ro_restore r : r ∈ l -> run_kind r = "restore" -> run_open r = true -> exists b, pinned_to l r b;
  ro_pitr r : r ∈ l -> run_kind r = "restore-pitr" ->
    exists at_ b, ri_recovery_target (run_ident_of r) = Some at_ /\ (at_ <= run_created_at r)%Z /\ base_of l at_ r b;
}.

Lemma runs_ok_later now now' l : (now <= now')%Z -> runs_ok now l -> runs_ok now' l.
Proof. intros Hle [? ? ? Hp ? ? ?]. split; try done. intros r Hr%Hp. lia. Qed.

Lemma run_steps_elem l l' r' : Forall2 run_step l l' -> r' ∈ l' -> exists r, r ∈ l /\ run_step r r'.
Proof.
  intros H (i & E)%list_elem_of_lookup. destruct (Forall2_lookup_r _ _ _ _ _ H E) as (r & Ei & ?).
  exists r. split; [by eapply list_elem_of_lookup_2|done].
Qed.

Lemma run_steps_success l l' kind pol b : Forall2 run_step l l' -> b ∈ l -> successful kind pol b = true -> b ∈ l'.
Proof.
  intros H (i & Hi)%list_elem_of_lookup Hb. destruct (Forall2_lookup_l _ _ _ _ _ H Hi) as (r' & Hi' & Hs).
  rewrite (run_step_success _ _ _ _ Hs Hb) in Hi'. by eapply list_elem_of_lookup_2.
Qed.

Lemma run_steps_ids l l' : Forall2 run_step l l' -> map run_id l' = map run_id l.
Proof. induction 1 as [|r r' l l' Hr H IH]; [done|]. cbn. rewrite IH. by destruct (run_step_id _ _ Hr) as (-> & _). Qed.

Lemma steps_runs_ok now l l' : Forall2 run_step l l' -> runs_ok now l -> runs_ok now l'.
Proof.
  intros H [Hi Hd Hk Hp Hv Hr Ht]. split.
  - by rewrite (run_steps_ids _ _ H).
  - intros i j r r' Ei Ej E. destruct (Forall2_lookup_r _ _ _ _ _ H Ei) as (r0 & Fi & [I1 _ _ _]).
    destruct (Forall2_lookup_r _ _ _ _ _ H Ej) as (r1 & Fj & [I2 _ _ _]). apply (Hd i j r0 r1 Fi Fj).
    rewrite <- I1, <- E. unfold same_day_run, run_policy, run_kind, run_created_at. by rewrite I2.
  - intros r' (r & Hin & Hs)%(run_steps_elem _ _ _ H). apply (ru_known _ _ Hs). auto.
  - intros r' (r & Hin & Hs)%(run_steps_elem _ _ _ H). destruct (run_step_id _ _ Hs) as (_ & _ & _ & ->). auto.
  - intros r' (r & Hin & Hs)%(run_steps_elem _ _ _ H). destruct (run_step_id _ _ Hs) as (_ & Ek & Ep & Ec).
    rewrite Ek. intros Ev. destruct (Hv r Hin Ev) as (b & Hb & Sb & Nb & Db). exists b. unfold dump_of.
    rewrite Ep, Ec. split_and!; [by eapply run_steps_success|done..].
  - intros r' (r & Hin & Hs)%(run_steps_elem _ _ _ H). destruct (run_step_id _ _ Hs) as (_ & Ek & Ep & _).
    rewrite Ek. intros Ev Ho. destruct (ru_pinned _ _ Hs Ho) as [E1 E2].
    assert (Ho' : run_open r = true).
    { destruct (run_open r) eqn:E; [done|]. by rewrite (ru_frozen _ _ Hs E), E in Ho. }
    destruct (Hr r Hin Ev Ho') as (b & Hb & Sb & Nb & F1 & F2). exists b. unfold pinned_to. rewrite Ep, E1, E2.
    split_and!; [by eapply run_steps_success|done..].
  - intros r' (r & Hin & Hs)%(run_steps_elem _ _ _ H). destruct (run_step_id _ _ Hs) as (_ & Ek & Ep & Ec).
    rewrite Ek. intros Ev. destruct (Ht r Hin Ev) as (a & b & Ea & Hle & Hb & Sb & f & Ef & Hf).
    exists a, b. rewrite (ru_ident _ _ Hs), Ec. split; [done|]. split; [done|]. unfold base_of. rewrite Ep.
    split; [by eapply run_steps_success|]. eauto.
Qed.

(** A row that may be added to the table *)
Record addable (now : Z) (l : list run_row) (r : run_row) : Prop := {
  ad_id : run_id r ∉ map run_id l;
  ad_open : run_status r = BackupRunPending;
  ad_now : run_created_at r = now;
  ad_daily : existsb (same_day_run (run_ident_of r)) l = false;
  ad_verify : run_kind r = "verify" -> exists b, dump_of l r b;
  ad_restore : run_kind r = "restore" -> exists b, pinned_to l r b;
  ad_pitr : run_kind r = "restore-pitr" ->
    exists at_ b, ri_recovery_target (run_ident_of r) = Some at_ /\ (at_ <= run_created_at r)%Z /\ base_of l at_ r b;
}.

Lemma same_day_sym r r' : same_day_run (run_ident_of r) r' = true -> same_day_run (run_ident_of r') r = true.
Proof.
  unfold same_day_run, run_policy, run_kind, run_created_at. rewrite !andb_true_iff, !String.eqb_eq, !Z.eqb_eq.
  intros [[[H1 H2] H3] H4]. rewrite <- H3 in H1. done.
Qed.

Lemma snoc_lookup {A} (l : list A) x i y : (l ++ [x])%list !! i = Some y -> l !! i = Some y \/ (i = length l /\ y = x).
Proof.
  intros [?|[Hl E]]%lookup_app_Some; [by left|]. right. destruct (i - length l) eqn:Ei; [|done].
  injection E as <-. split; [lia|done].
Qed.

Lemma add_runs_ok now l r : addable now l r -> runs_ok now l -> runs_ok now (l ++ [r]).
Proof.
  intros [Ai Ao An Ad Av Ar At] [Hi Hd Hk Hp Hv Hr Ht].
  assert (Hnot : forall x, x ∈ l -> same_day_run (run_ident_of r) x = true -> False).
  { intros x Hx E. apply not_true_iff_false in Ad. apply Ad. apply existsb_elem. eauto. }
  split.
  - rewrite map_app. apply NoDup_app. split_and!; [done| |apply NoDup_singleton].
    intros x Hx ->%list_elem_of_singleton. done.
  - intros i j a b Ei Ej E. apply snoc_lookup in Ei as [Ei|[-> ->]], Ej as [Ej|[-> ->]].
    + by eapply Hd.
    + destruct (Hnot a); [by eapply list_elem_of_lookup_2|by apply same_day_sym].
    + destruct (Hnot b); [by eapply list_elem_of_lookup_2|done].
    + done.
  - intros x [Hx| ->]%elem_of_snoc; [auto|]. unfold run_known. rewrite Ao. left.
  - intros x [Hx| ->]%elem_of_snoc; [auto|]. lia.
  - assert (Hmono : forall x, (exists b, dump_of l x b) -> exists b, dump_of (l ++ [r]) x b).
    { intros x (b & Hb & ?). exists b. split; [apply elem_of_app; by left|done]. }
    intros x [Hx| ->]%elem_of_snoc E; apply Hmono; auto.
  - assert (Hmono : forall x, (exists b, pinned_to l x b) -> exists b, pinned_to (l ++ [r]) x b).
    { intros x (b & Hb & ?). exists b. split; [apply elem_of_app; by left|done]. }
    intros x [Hx| ->]%elem_of_snoc E Ho; apply Hmono; auto.
  - intros x Hx E.
    assert (Hx' : exists at_ b, ri_recovery_target (run_ident_of x) = Some at_ /\ (at_ <= run_created_at x)%Z /\ base_of l at_ x b)
      by (apply elem_of_snoc in Hx as [Hx| ->]; auto).
    destruct Hx' as (a & b & Ea & Hle & Hb & ?). exists a, b. split_and!; [done..|]. split; [apply elem_of_app; by left|done].
Qed.

(** ** Statements that leave the runs alone *)

Section steady.
Context {pg : Postgres} {ae : Aead} {kc : KeyCustody}.

Definition steady {A} (P : assertion) (m : io cp A) : Prop := does P m (fun _ => P) P.

(** An assertion that the vault, the audit log and the alerts do not enter *)
Class Insensitive (P : assertion) := {
  ins_vault n t f : P n t -> P n (set_vault f t);
  ins_audit n t f : P n t -> P n (set_audit f t);
  ins_outbox n t f : P n t -> P n (set_outbox f t);
}.

(** An assertion about the runs only *)
Definition about_runs (P : assertion) : Prop := forall n t t', runs t' = runs t -> P n t -> P n t'.

Lemma steady_does {A} (P I : assertion) (m : io cp A) : steady P m -> (forall n t, P n t -> I n t) ->
  does P m (fun _ => P) I.
Proof. intros H HI. by eapply does_weaken. Qed.

Lemma steady_then {A B} P (m : io cp A) (k : A -> io cp B) Q I :
  steady P m -> (forall n t, P n t -> I n t) -> (forall a, does P (k a) Q I) -> does P (bind m k) Q I.
Proof. intros Hm HI Hk. eapply does_bind; [by apply steady_does|done]. Qed.

Lemma steady_ret {A} P (a : A) : steady P (ret a).
Proof. by apply does_ret. Qed.

Lemma steady_fail {A} P e : steady P (fail (A := A) e).
Proof. by apply does_fail. Qed.

Lemma steady_lift {A} P (r : res A) : steady P (lift r).
Proof. intros d HP. unfold lift. by destruct r. Qed.

Lemma steady_bind {A B} P (m : io cp A) (k : A -> io cp B) : steady P m -> (forall a, steady P (k a)) -> steady P (bind m k).
Proof. intros Hm Hk. by eapply does_bind. Qed.

Lemma steady_wrapping {A} P pre (m : io cp A) : steady P m -> steady P (wrapping pre m).
Proof. apply does_wrapping. Qed.

Lemma steady_attempt {A} P (m : io cp A) : steady P m -> steady P (attempt m).
Proof.
  intros H. eapply does_weaken; [eapply does_attempt, H|done| |done]. by intros [a|e].
Qed.

Lemma steady_query {A} P (f : Z -> tables -> A) : steady P (query f).
Proof. by apply does_exec. Qed.

Lemma steady_newID P p : steady P (newID p).
Proof. by intros d. Qed.

Lemma steady_rand P n : steady P (rand_bytes n).
Proof. by intros d. Qed.

Lemma about_insensitive P : about_runs P -> Insensitive P.
Proof. intros H. split; intros n t f HP; by apply (H n t). Qed.

Lemma steady_does_exec {A} P (f : Z -> tables -> res (A * tables)) :
  (forall n t, P n t -> match f n t with Ok (_, t') => P n t' | Err _ => True end) -> steady P (exec f).
Proof.
  intros Hf. apply does_exec; [done|]. intros n t H. specialize (Hf n t H). by destruct (f n t) as [[a t']|e].
Qed.

Lemma steady_does_update P f : (forall n t, P n t -> P n (f n t)) -> steady P (update f).
Proof. intros Hf. by apply steady_does_exec. Qed.

Lemma steady_exec {A} P (f : Z -> tables -> res (A * tables)) : about_runs P ->
  (forall n t, match f n t with Ok (_, t') => runs t' = runs t | Err _ => True end) -> steady P (exec f).
Proof.
  intros HP Hf. apply does_exec; [done|]. intros n t H. specialize (Hf n t).
  destruct (f n t) as [[a t']|e]; [by eapply HP|done].
Qed.

Lemma steady_update P f : about_runs P -> (forall n t, runs (f n t) = runs t) -> steady P (update f).
Proof. intros HP Hf. by apply steady_exec. Qed.

Lemma steady_audit P `{!Insensitive P} org actor action target : steady P (auditTx org actor action target).
Proof. apply steady_wrapping, steady_does_update. intros n t. apply ins_audit. Qed.

Lemma steady_enqueue P `{!Insensitive P} org event key window title body :
  steady P (enqueueAlertTx org event key window title body).
Proof.
  apply steady_bind; [apply steady_wrapping, steady_query|]. intros u.
  apply steady_wrapping, steady_does_update. intros n t. apply ins_outbox.
Qed.

Lemma steady_custody {A} P (m : io cp A) (phi : A -> Prop) :
  (forall d, let '(r, d') := m d in custody_frame d d' /\ forall a, r = Ok a -> phi a) -> steady P m.
Proof.
  intros Hm d HP. specialize (Hm d). destruct (m d) as [r d']. destruct Hm as [[Et En _] _].
  unfold hold in *. rewrite Et, En. by destruct r.
Qed.

Lemma steady_for_each {X} P (l : list X) (body : X -> io cp unit) : (forall x, x ∈ l -> steady P (body x)) ->
  steady P (for_each l body).
Proof.
  induction l as [|x l IH]; intros H; cbn; [apply steady_ret|].
  apply steady_bind; [apply H; left|]. intros u. apply IH. intros y Hy. apply H. by right.
Qed.

Lemma steady_dekPlaintext P id : steady P (dekPlaintext id).
Proof.
  apply steady_bind; [by intros d|]. intros [dek|]; [apply steady_ret|].
  apply steady_bind; [apply steady_query|]. intros [k|]; [|apply steady_fail].
  apply steady_bind; [eapply steady_wrapping, steady_custody, Unwrap_spec|]. intros dek.
  destruct (negb _); [apply steady_fail|]. apply steady_bind; [by intros d|]. intros u. apply steady_ret.
Qed.

Lemma steady_activeDEKTx P `{!Insensitive P} org : steady P (activeDEKTx org).
Proof.
  apply steady_bind; [apply steady_query|]. intros [k|].
  - apply steady_bind; [apply steady_dekPlaintext|]. intros dek. apply steady_ret.
  - apply steady_bind; [apply steady_rand|]. intros dek.
    apply steady_bind; [eapply steady_wrapping, steady_custody, Wrap_spec|]. intros w.
    apply steady_bind; [apply steady_newID|]. intros id.
    apply steady_bind; [apply steady_wrapping, steady_does_exec|].
    { intros n t H. destruct (_ || _); [done|]. by apply ins_vault. }
    intros u. apply steady_bind; [by intros d|]. intros u'. apply steady_ret.
Qed.

Lemma steady_gcmSeal P key aad pt : steady P (gcmSeal key aad pt).
Proof. unfold gcmSeal. destruct (negb _); [apply steady_fail|]. apply steady_bind; [apply steady_rand|]. intros. apply steady_ret. Qed.

Lemma steady_update_cipher P `{!Insensitive P} p id ct nonce : steady P (update_cipher p id ct nonce).
Proof. apply steady_does_update. intros n t. apply ins_vault. Qed.

Lemma steady_ensureRepoKeyTx P `{!Insensitive P} org pol : steady P (ensureRepoKeyTx org pol).
Proof.
  apply steady_bind; [apply steady_query|]. intros [c|]; [|apply steady_fail].
  destruct (negb _); [apply steady_ret|]. apply steady_bind; [apply steady_rand|]. intros key.
  apply steady_bind; [apply steady_activeDEKTx; apply _|]. intros dk. apply steady_bind; [apply steady_gcmSeal|]. intros s.
  apply steady_update_cipher; apply _.
Qed.

Lemma steady_open_custody P org c : steady P (open_custody org c).
Proof.
  apply steady_bind; [apply steady_dekPlaintext|]. intros k. apply steady_bind; [apply steady_wrapping, steady_lift|].
  intros s. apply steady_bind; [apply steady_dekPlaintext|]. intros k'.
  apply steady_bind; [apply steady_wrapping, steady_lift|]. intros s'. apply steady_ret.
Qed.
End steady.

(** Statement by statement; [write] proves the statements that write. *)
Ltac steady write :=
  repeat match goal with
  | |- steady _ (bind _ _) => apply steady_bind; [|intros ?]
  | |- steady _ (attempt _) => apply steady_attempt
  | |- steady _ (wrapping _ _) => apply steady_wrapping
  | |- steady _ (ret _) => apply steady_ret
  | |- steady _ (fail _) => apply steady_fail
  | |- steady _ (lift _) => apply steady_lift
  | |- steady _ (query _) => apply steady_query
  | |- steady _ (newID _) => apply steady_newID
  | |- steady _ (auditTx _ _ _ _) => apply steady_audit; apply _
  | |- steady _ (enqueueAlertTx _ _ _ _ _ _) => apply steady_enqueue; apply _
  | |- steady _ (activeDEKTx _) => apply steady_activeDEKTx; apply _
  | |- steady _ (ensureRepoKeyTx _ _) => apply steady_ensureRepoKeyTx; apply _
  | |- steady _ (dekPlaintext _) => apply steady_dekPlaintext
  | |- steady _ (open_custody _ _) => apply steady_open_custody
  | |- steady _ (gcmSeal _ _ _) => apply steady_gcmSeal
  | |- steady _ (for_each _ _) => apply steady_for_each; intros ? ?
  | |- steady _ (match ?x with _ => _ end) => destruct x
  | |- steady _ _ => write
  | |- _ => progress cbv zeta
  end.

(** ** The operations *)

(** The channel of every rule of a failed run's organisation on its event has
    its alert. *)
Definition heard (t : tables) (r : run_row) : Prop :=
  forall rule, rule ∈ alert_rules t -> ar_org rule = ri_org (run_ident_of r) ->
    ar_event rule = alert_event (run_kind r) -> channel_on t rule = true ->
    exists a, a ∈ alert_outbox t /\ al_channel a = ar_channel rule /\ al_dedup_key a = run_alert_key (run_id r).

Definition failed_run (r : run_row) : Prop := run_status r = BackupRunFailed.
Definition failed_in (l : list run_row) (id : string) : Prop := exists r, r ∈ l /\ run_id r = id /\ failed_run r.

Section history.
Context {pg : Postgres} {ae : Aead} {kc : KeyCustody} (t0 : tables) (now : Z).

(** Within a transaction: no run failed so far. *)
Record hist (n : Z) (t : tables) : Prop := {
  hi_now : n = now;
  hi_ext : run_ext (runs t0) (runs t);
  hi_ok : runs_ok now (runs t);
  hi_calm r : r ∈ runs t -> failed_run r -> failed_in (runs t0) (run_id r);
}.

(** At its end: a run that failed is heard of. *)
Record told (n : Z) (t : tables) : Prop := {
  tl_now : n = now;
  tl_ext : run_ext (runs t0) (runs t);
  tl_ok : runs_ok now (runs t);
  tl_heard r : r ∈ runs t -> failed_run r -> failed_in (runs t0) (run_id r) \/ heard t r;
}.

Lemma hist_about : about_runs hist.
Proof. intros n t t' E [? ? ? ?]. split; rewrite ?E; done. Qed.

#[local] Instance hist_insensitive : Insensitive hist := about_insensitive _ hist_about.

Lemma hist_time n t : hist n t -> at_time now n t.
Proof. by intros []. Qed.

Lemma hist_told n t : hist n t -> told n t.
Proof. intros [? ? ? H]. split; try done. intros r Hr Hf. left. auto. Qed.

Lemma hist_start n t : runs_ok now (runs t0) -> from t0 now n t -> hist n t.
Proof. intros H [-> ->]. split; [done|reflexivity|done|]. intros r Hr Hf. by exists r. Qed.

Lemma hist_later n t t' : Forall2 run_step (runs t) (runs t') ->
  (forall r, r ∈ runs t' -> failed_run r -> failed_in (runs t) (run_id r)) -> hist n t -> hist n t'.
Proof.
  intros H Hf [Hn He Ho Hc]. split; [done|by etransitivity; [|apply run_ext_steps]|by eapply steps_runs_ok|].
  intros r Hr Hfr. destruct (Hf r Hr Hfr) as (r0 & Hr0 & <- & Hf0). auto.
Qed.

Lemma hist_add n t r : addable now (runs t) r -> hist n t -> hist n (set_runs (fun l => l ++ [r])%list t).
Proof.
  intros Ha [Hn He Ho Hc]. split; cbn.
  - done.
  - etransitivity; [exact He|]. apply run_ext_snoc.
  - by apply add_runs_ok.
  - intros x [Hx| ->]%elem_of_snoc; [auto|]. unfold failed_run. by rewrite (ad_open _ _ _ Ha).
Qed.

(** An operation, as one step of the history *)
Definition records {A} (m : io cp A) : Prop := does (from t0 now) m (fun _ => told) told.

Lemma records_tx {A} (m : io cp A) : runs_ok now (runs t0) -> does hist m (fun _ => told) (at_time now) -> records (transaction m).
Proof.
  intros Hok H. apply (does_weaken _ (from t0 now) _ _ (fun _ => told) _ (from t0 now)); [|done|done|].
  - apply does_transaction; [|by intros a n t []]. eapply does_pre; [exact H|]. intros n t. by apply hist_start.
  - intros n t Hf. by apply hist_told, hist_start.
Qed.

Lemma records_calm {A} (m : io cp A) : runs_ok now (runs t0) -> steady hist m -> records (transaction m).
Proof.
  intros Hok H. apply records_tx; [done|]. eapply does_weaken; [exact H|done| |apply hist_time].
  intros a n t. apply hist_told.
Qed.

Lemma records_steady {A} (m : io cp A) : runs_ok now (runs t0) -> steady hist m -> records m.
Proof.
  intros Hok H. eapply does_weaken; [exact H| |intros a n t; apply hist_told|intros n t; apply hist_told].
  intros n t. by apply hist_start.
Qed.

(** *** Inserting *)

Lemma id_taken_ids t id : id_taken id t = false -> id ∉ map run_id (runs t).
Proof.
  intros H (r & -> & Hr)%list_elem_of_fmap. apply not_true_iff_false in H. apply H. apply existsb_elem.
  exists r. split; [done|apply String.eqb_refl].
Qed.

(** What the scheduler knows of the work it found *)
Definition dump_today (l : list run_row) (d : due) : Prop :=
  du_verify d = true -> exists b, b ∈ l /\ successful "backup" (du_policy d) b = true /\ run_sha b <> "" /\
    runDayUTC (run_created_at b) = runDayUTC now.

Definition scheduling (work : list due) : assertion := fun n t => hist n t /\ forall d, d ∈ work -> dump_today (runs t) d.

Lemma scheduling_about work : about_runs (scheduling work).
Proof. intros n t t' E [H1 H2]. split; [by apply (hist_about n t)|]. by rewrite E. Qed.

Lemma enqueue_kind_does work d kind wanted : d ∈ work -> daily kind = true -> (kind = "verify" -> wanted = du_verify d) ->
  steady (scheduling work) (enqueue_kind d kind wanted).
Proof.
  intros Hin Hd Hv. unfold enqueue_kind. destruct wanted eqn:Ew; [|apply steady_ret].
  apply steady_bind; [apply steady_newID|]. intros id. apply does_exec; [done|].
  intros n t [H Ht]. set (r := new_run (due_run d kind id n)). pose proof (hi_now _ _ H) as ->.
  destruct (existsb (same_day_run _) _) eqn:Es; [done|].
  destruct (id_taken _ t) eqn:Ei; [done|]. split.
  - apply (hist_add now t r); [|done]. split; try done.
    + by apply id_taken_ids in Ei.
    + cbn. intros Ek. destruct (Ht d Hin (eq_sym (Hv Ek))) as (b & Hb & Sb & Nb & Db). exists b. done.
    + intros E. change (kind = "restore") in E. by rewrite E in Hd.
    + intros E. change (kind = "restore-pitr") in E. by rewrite E in Hd.
  - intros d' Hin' Hdv. destruct (Ht d' Hin' Hdv) as (b & Hb & ?). exists b. split; [|done].
    cbn. apply elem_of_app. by left.
Qed.

Lemma enqueue_due_does work d : d ∈ work -> steady (scheduling work) (enqueue_due d).
Proof.
  intros Hin. pose proof (about_insensitive _ (scheduling_about work)). apply steady_bind; [apply steady_wrapping, steady_ensureRepoKeyTx; apply _|].
  intros u. apply steady_bind; [by apply enqueue_kind_does|]. intros u'.
  apply steady_bind; [by apply enqueue_kind_does|]. intros u''. by apply enqueue_kind_does.
Qed.

Lemma due_dump day n t d : hist n t -> runDayUTC now = day -> d ∈ due_now (day * day_length) t -> dump_today (runs t) d.
Proof.
  intros H <- (Hd & _)%filter_elem Hv. rewrite order_by_perm in Hd. apply list_elem_of_bind in Hd as (p & Hd & _).
  apply list_elem_of_fmap in Hd as (dc & -> & _). cbn in *. apply andb_true_iff in Hv as [_ Hv].
  set (l := List.filter _ (List.filter _ _)) in Hv. destruct l as [|b l'] eqn:El; [done|].
  assert (Hb : b ∈ l) by (rewrite El; left). unfold l in Hb.
  apply filter_elem in Hb as [[Hb Hp]%filter_elem [Hs Hn]%andb_true_iff].
  apply andb_true_iff in Hp as [Hp Hday%Z.leb_le]. exists b. split; [done|]. split; [unfold successful; by rewrite Hp, Hs|].
  split; [intros E; by rewrite E in Hn|]. apply Z.le_antisymm.
  - apply Z.div_le_mono; [done|]. by apply (ro_past _ _ (hi_ok _ _ H)).
  - apply Z.div_le_lower_bound; [done|]. lia.
Qed.

Lemma CreateDueBackupRuns_does app : runDayUTC app = runDayUTC now -> runs_ok now (runs t0) ->
  records (CreateDueBackupRuns app).
Proof.
  intros Hday Hok. apply records_calm; [done|].
  eapply (does_bind _ _ _ (fun work => scheduling work)).
  - eapply does_weaken; [apply (does_query hist); by intros n t|done| |done].
    intros work n t [H ->]. split; [done|]. intros d Hd. by eapply due_dump.
  - intros work. eapply (does_bind _ _ _ (fun _ => scheduling work)).
    + eapply steady_does; [|by intros n t []]. apply steady_for_each. intros d Hd. by apply enqueue_due_does.
    + intros u. apply does_ret. by intros n t [].
Qed.

(** *** Timeouts *)

Lemma not_open_stale e q r : stale_run now e q r = true -> run_open r = true.
Proof.
  unfold stale_run, run_open. intros [[-> _]%andb_true_iff|[-> _]%andb_true_iff]%orb_true_iff; [by rewrite orb_true_r|done].
Qed.

Lemma timed_out_step r : run_open r = true -> run_step r (timed_out_run now r).
Proof.
  intros H. split; [done|by rewrite H|done|]. intros _. unfold run_known. cbn. do 3 apply elem_of_list_further || right. left.
Qed.

Lemma TimeoutStaleBackupRuns_does e q : runs_ok now (runs t0) -> records (TimeoutStaleBackupRuns e q).
Proof.
  intros Hok. apply does_exec; [intros n t H; by apply hist_told, hist_start|]. intros n t [-> ->].
  set (f := fun r => if stale_run now e q r then timed_out_run now r else r).
  assert (Hs : Forall2 run_step (runs t0) (map f (runs t0))).
  { apply map_run_steps. intros r Hr. unfold f. destruct (stale_run now e q r) eqn:E; [|reflexivity].
    by eapply timed_out_step, not_open_stale. }
  split; [done|by apply run_ext_steps|by eapply steps_runs_ok|].
  intros r' (r & -> & Hr)%list_elem_of_fmap Hf. unfold f in *. destruct (stale_run now e q r) eqn:E; [|left; by exists r].
  right. intros rule Hrule Ho Hev Hch. cbn in Ho, Hev. change (channel_on t0 rule = true) in Hch.
  destruct (existsb (fun o => String.eqb (al_channel o) (ar_channel rule) &&
    String.eqb (al_dedup_key o) (run_alert_key (run_id r))) (alert_outbox t0)) eqn:Ex.
  - apply existsb_elem in Ex as (o & Hin & [Hc%String.eqb_eq Hk%String.eqb_eq]%andb_true_iff).
    exists o. split; [|done]. cbn. apply elem_of_app. by left.
  - exists (timeout_alert now t0 r rule). split; [|done]. cbn. apply elem_of_app. right. rewrite order_by_perm.
    apply list_elem_of_bind. exists r. split; [|by apply filter_elem]. apply list_elem_of_fmap. exists rule. split; [done|].
    apply filter_elem. split; [done|]. rewrite Ho, Hev, !String.eqb_refl, Ex. cbn. by rewrite Hch.
Qed.

(** *** Credentials *)

Lemma running_step r : run_status r = BackupRunPending -> run_step r (running_run now r).
Proof.
  intros H. split; [done|unfold run_open; by rewrite H|done|]. intros _. unfold run_known. cbn. right. left.
Qed.

Lemma mark_running_does runID :
  steady hist (update_run (fun r => String.eqb (run_id r) runID && String.eqb (run_status r) BackupRunPending) running_run).
Proof.
  apply does_update; [done|]. intros n t H. pose proof (hi_now _ _ H) as ->.
  apply (hist_later now t); [| |exact H].
  - apply map_run_steps. intros r Hr. destruct (_ && _) eqn:E; [|reflexivity].
    apply andb_true_iff in E as [_ E%String.eqb_eq]. by apply running_step.
  - intros r' (r & -> & Hr)%list_elem_of_fmap. destruct (_ && _); [intros [=]|]. intros Hf. by exists r.
Qed.

Lemma BackupCredentialForRun_does srv id : runs_ok now (runs t0) -> records (BackupCredentialForRun srv id).
Proof.
  intros Hok. apply records_calm; [done|]. apply steady_bind; [apply steady_query|].
  intros [[r c]|]; [|apply steady_fail]. destruct (no_repo_key _); [apply steady_fail|].
  apply steady_bind; [apply steady_open_custody|]. intros keys.
  apply steady_bind; [apply mark_running_does|]. intros u.
  apply steady_bind; [apply steady_audit; apply _|]. intros u'. apply steady_ret.
Qed.

(** *** Results *)

Lemma enqueue_raises (P : assertion) org event key title body (Q : assertion) :
  (forall n t, P n t -> n = now) ->
  (forall t t', P now t -> runs t' = runs t -> alert_rules t' = alert_rules t -> alert_channels t' = alert_channels t ->
     (forall a, a ∈ alert_outbox t -> a ∈ alert_outbox t') ->
     (forall rule, rule ∈ alert_rules t -> ar_org rule = org -> ar_event rule = event -> channel_on t rule = true ->
        exists a, a ∈ alert_outbox t' /\ al_channel a = ar_channel rule /\ al_dedup_key a = key) -> Q now t') ->
  does P (enqueueAlertTx org event key 0 title body) (fun _ => Q) (at_time now).
Proof.
  intros HP HQ. unfold enqueueAlertTx.
  eapply does_bind; [eapply does_wrapping, does_query; intros n t H; by apply HP in H|]. intros u.
  apply does_wrapping, does_update; [by intros n t [?%HP _]|]. intros n t [H _].
  pose proof (HP _ _ H) as ->. apply (HQ t); [done..| |].
  - intros a Ha. cbn. apply elem_of_app. by left.
  - intros rule Hr Ho He Hc.
    destruct (existsb (fun o => String.eqb (al_channel o) (ar_channel rule) && String.eqb (al_dedup_key o) key)
      (alert_outbox t)) eqn:Ex.
    + apply existsb_elem in Ex as (o & Hin & [Hc'%String.eqb_eq Hk%String.eqb_eq]%andb_true_iff).
      exists o. split; [|done]. cbn. apply elem_of_app. by left.
    + eexists. split; [cbn; apply elem_of_app; right; apply list_elem_of_fmap; exists rule; split; [reflexivity|]|done].
      rewrite order_by_perm. apply filter_elem. split; [done|]. rewrite Ho, He, !String.eqb_refl. cbn.
      unfold channel_on in Hc. rewrite Hc. cbn. unfold alert_due. apply negb_true_iff.
      clear -Ex. induction (alert_outbox t) as [|o l IH]; cbn in *; [done|].
      apply orb_false_iff in Ex as [Ex ?]. by rewrite Ex, IH.
Qed.

Lemma reported_step ok snap sha detail r : run_open r = true -> run_step r (reported_run ok snap sha detail now r).
Proof.
  intros H. split; [done|by rewrite H| |].
  - destruct ok; cbn; [done|]. intros [=].
  - intros _. unfold run_known. cbn. destruct ok; [right; right; left|do 3 right; left].
Qed.

(** The runs after a report: only the reported one can have failed. *)
Definition reporting (srv id : string) (ok : bool) (o : option run_ident) : assertion := fun n t =>
  n = now /\ run_ext (runs t0) (runs t) /\ runs_ok now (runs t) /\
  forall r, r ∈ runs t -> failed_run r -> failed_in (runs t0) (run_id r) \/
    (ok = false /\ o = Some (run_ident_of r) /\ run_id r = id).

Lemma record_result_does srv id ok snap sha detail :
  does hist (record_result srv id (reported_run ok snap sha detail)) (fun o => reporting srv id ok o) (at_time now).
Proof.
  apply does_exec; [apply hist_time|]. intros n t [-> He Ho Hc].
  set (f := fun r => if reportable_run srv id r then reported_run ok snap sha detail now r else r).
  assert (Hs : Forall2 run_step (runs t) (map f (runs t))).
  { apply map_run_steps. intros r Hr. unfold f. destruct (reportable_run srv id r) eqn:E; [|reflexivity].
    apply reported_step. by apply andb_true_iff in E as [_ ?]. }
  split; [done|]. split; [etransitivity; [exact He|]; by apply run_ext_steps|]. split; [by eapply steps_runs_ok|].
  intros r' (r & -> & Hr)%list_elem_of_fmap Hf. unfold f in *.
  destruct (reportable_run srv id r) eqn:E; [|left; by apply Hc]. right.
  assert (Hok : ok = false) by (destruct ok; [done|done]). split; [done|].
  pose proof E as E'. apply andb_true_iff in E' as [[Eid%String.eqb_eq _]%andb_true_iff _]. split; [|done].
  assert (Hfind : List.find (reportable_run srv id) (runs t) = Some r); [|unfold runs in Hfind; by rewrite Hfind].
  pose proof (ro_ids _ _ Ho) as Hn.
  destruct (List.find (reportable_run srv id) (runs t)) as [x|] eqn:Ef.
  - apply find_some in Ef as [Hx%list_elem_of_In Ex]. f_equal. eapply (NoDup_map_inj run_id); [done..|].
    apply andb_true_iff in Ex as [[Ex%String.eqb_eq _]%andb_true_iff _]. congruence.
  - eapply find_none in Ef; [|by apply list_elem_of_In]. congruence.
Qed.

Lemma reporting_about srv id ok o : about_runs (reporting srv id ok o).
Proof. intros n t t' E [-> ?]. split; [done|]. by rewrite E. Qed.

Lemma reporting_quiet srv id ok o n t : reporting srv id ok o n t -> ok = true \/ o = None -> told n t.
Proof.
  intros (-> & He & Ho & Hf) Hq. split; [done..|]. intros r Hr Hfr.
  destruct (Hf r Hr Hfr) as [?|(-> & -> & _)]; [by left|]. by destruct Hq.
Qed.

Lemma SetBackupRunResult_does srv id ok snap sha detail : runs_ok now (runs t0) ->
  records (SetBackupRunResult srv id ok snap sha detail).
Proof.
  intros Hok. apply records_tx; [done|]. eapply does_bind; [apply record_result_does|]. intros [i|].
  2: { apply does_fail. by intros n t []. }
  assert (Ht : forall n t, reporting srv id ok (Some i) n t -> at_time now n t) by by intros n t [].
  pose proof (about_insensitive _ (reporting_about srv id ok (Some i))).
  apply steady_then; [apply steady_audit; apply _|exact Ht|]. intros u. destruct ok.
  { apply does_ret. intros n t H'. eapply reporting_quiet; [exact H'|by left]. }
  apply steady_then; [|exact Ht|].
  { apply steady_attempt, steady_bind; [apply steady_query|]. intros [x|]; [apply steady_ret|apply steady_fail]. }
  intros name. apply enqueue_raises; [exact Ht|].
  intros t t' (_ & He & Ho & Hf) Er Eru Ech Hout Hraise. split; [done|by rewrite Er|by rewrite Er|].
  rewrite Er. intros r Hr Hfr. destruct (Hf r Hr Hfr) as [?|(_ & [= ->] & Eid)]; [by left|]. right.
  intros rule Hrule Horg Hev Hch. rewrite Eru in Hrule. rewrite Eid. apply Hraise; [done..|].
  unfold channel_on in *. by rewrite <- Ech.
Qed.

Lemma FailBackupRunFromOpStatus_does srv id err : runs_ok now (runs t0) -> records (FailBackupRunFromOpStatus srv id err).
Proof.
  intros Hok. eapply does_bind; [eapply does_attempt, SetBackupRunResult_does, Hok|].
  intros [u|e]; [by apply does_ret|]. destruct (String.eqb e ErrNotFound); [by apply does_ret|by apply does_fail].
Qed.

(** *** Restores *)

Lemma insert_run_does (P : assertion) (f : Z -> run_row) :
  (forall n t, P n t -> hist n t) ->
  (forall t, P now t -> run_id (f now) ∉ map run_id (runs t) -> addable now (runs t) (f now)) ->
  does P (insert_run f) (fun _ => hist) (at_time now).
Proof.
  intros HP Ha. apply does_exec; [intros n t H; by apply HP in H as []|]. intros n t H.
  pose proof (HP _ _ H) as Hh. pose proof (hi_now _ _ Hh) as ->.
  destruct (id_taken _ t) eqn:Ei; [by apply hist_time|]. apply id_taken_ids in Ei.
  apply hist_add; [by apply Ha|exact Hh].
Qed.

Lemma not_daily l i : daily (ri_kind i) = false -> existsb (same_day_run i) l = false.
Proof.
  intros H. apply not_true_iff_false. intros (r & _ & E)%existsb_elem. unfold same_day_run in E. by rewrite H in E.
Qed.

Lemma hist_finish {A} (org actor action target : string) (a : A) :
  does hist (_ <- auditTx org actor action target ;; ret a) (fun _ => told) (at_time now).
Proof.
  apply steady_then; [apply steady_audit; apply _|apply hist_time|]. intros u. apply does_ret. apply hist_told.
Qed.

Lemma look_does {A B} (P : assertion) (f : Z -> tables -> A) (k : A -> io cp B) Q :
  (forall n t, P n t -> at_time now n t) ->
  (forall a, does (fun n t => P n t /\ a = f n t) (k a) Q (at_time now)) -> does P (a <- query f ;; k a) Q (at_time now).
Proof. intros HP Hk. eapply does_bind; [by apply does_query|exact Hk]. Qed.

Lemma CreateRestoreRun_does org src new actor : runs_ok now (runs t0) -> records (CreateRestoreRun org src new actor).
Proof.
  intros Hok. apply records_tx; [done|]. apply steady_then; [apply steady_query|apply hist_time|].
  intros [[p hasKey]|]; [|by apply does_fail, hist_time]. destruct (negb hasKey); [by apply does_fail, hist_time|].
  apply look_does; [apply hist_time|]. intros [b|].
  2: { apply does_fail. by intros n t [[]]. }
  destruct (String.eqb_spec (run_sha b) "") as [|Hsha]; [by apply does_fail; intros n t [[]]|].
  set (P := fun n t => hist n t /\ Some b = newest_backup (pol_id p) t).
  assert (HP : forall n t, P n t -> at_time now n t) by by intros n t [[]].
  apply steady_then; [apply steady_query|exact HP|]. intros [dc|]; [|by apply does_fail].
  apply steady_then; [apply steady_newID|exact HP|]. intros id.
  eapply does_bind; [|intros u; apply hist_finish]. apply (insert_run_does P); [by intros n t []|].
  intros t [Hh Hb] Hid. split; try done; [by apply not_daily|]. intros _. exists b.
  assert (Hb' : b ∈ List.filter (successful "backup" (pol_id p)) (runs t)).
  { unfold newest_backup in Hb. unfold runs. set (l := List.filter _ _) in *.
    assert (Hperm : b ∈ desc_nulls_last run_finished_at l) by (destruct (desc_nulls_last _ l); [done|]; injection Hb as ->; left).
    apply elem_of_app in Hperm as [H|H]; rewrite order_by_perm in H; by apply filter_elem in H as [? _]. }
  apply filter_elem in Hb' as [Hin Hsucc]. done.
Qed.

Lemma CreateRestoreToTimestampRun_does org src new at_ actor : runs_ok now (runs t0) ->
  records (CreateRestoreToTimestampRun org src new at_ actor).
Proof.
  intros Hok. unfold CreateRestoreToTimestampRun.
  eapply (does_bind _ _ _ (fun c n t => from t0 now n t /\ c = now)); [by intros d Hd; split; [|apply Hd]|]. intros c.
  apply does_pure. intros ->. destruct (Z.ltb_spec now at_) as [|Hat].
  { apply does_fail. intros n t Hf. by apply hist_told, hist_start. }
  apply records_tx; [done|]. apply steady_then; [apply steady_query|apply hist_time|].
  intros [[p hasKey]|]; [|by apply does_fail, hist_time]. destruct (negb (pol_pitr p)); [by apply does_fail, hist_time|].
  destruct (negb hasKey); [by apply does_fail, hist_time|].
  apply look_does; [apply hist_time|]. intros base.
  set (P := fun n t => hist n t /\ base = base_before (pol_id p) at_ t).
  assert (HP : forall n t, P n t -> at_time now n t) by by intros n t [[]].
  destruct base; cbn [negb]; [|by apply does_fail].
  apply steady_then; [apply steady_query|exact HP|]. intros covers. destruct (negb covers); [by apply does_fail|].
  apply steady_then; [apply steady_query|exact HP|]. intros [dc|]; [|by apply does_fail].
  destruct (negb _); [by apply does_fail|].
  apply steady_then; [apply steady_newID|exact HP|]. intros id.
  eapply does_bind; [|intros u; apply hist_finish]. apply (insert_run_does P); [by intros n t []|].
  intros t [Hh Hb] Hid. split; try done; [by apply not_daily|]. intros _. symmetry in Hb.
  apply existsb_elem in Hb as (b & Hin & [Hs Hf]%andb_true_iff). exists at_, b. split; [done|]. split; [done|].
  split; [done|]. split; [done|]. destruct (run_finished_at b) as [f|]; [|done]. exists f. split; [done|]. by apply Z.leb_le.
Qed.
End history.

#[export] Existing Instance hist_insensitive.
