(* ===== verification/BackupClaims.v ===== *)
(** * What the backup schedule guarantees

    The operations of [Backups] as the steps of one control plane, in any order
    and whatever fails: the history of runs, what the reconciler may dispatch,
    and the alerts of the runs that fail. *)

From S2P Require Import Prelude GoStrings Json Naming CpDb Deploy DeployPipeline CpDsd Engines RenderDoc DsdStore Kms Vault Backups BackupRuns.
From S2P Require Import VaultClaims.

Local Open Scope string_scope.
Local Open Scope io_scope.

Inductive backup_act : Type :=
| BTick (app : Z)                                    (* the scheduler's [time.Now()] *)
| BTimeout (execMaxAge queueMaxAge : Z)
| BCredential (server run : string)
| BResult (server run : string) (ok : bool) (snapshot sha detail : string)
| BOpStatus (server run err : string)
| BRestore (org source new actor : string)
| BRestoreAt (org source new : string) (at_ : Z) (actor : string)
| BTarget (org actor : string) (inp : CreateBackupTargetInput)
| BDropTarget (org target actor : string)
| BPolicy (org resource actor : string) (inp : UpdateBackupPolicyInput)
| BArchive (org scope id : string)
| BExport (org resource actor : string)
| BWalCredential (server resource : string)
| BWal (server resource segment : string) (at_ : Z).

Definition forget {A} (m : io cp A) : io cp unit := _ <- m ;; ret tt.

Section claims.
Context {pg : Postgres} {ae : Aead} {kc : KeyCustody}.

Definition run_backup_op (o : backup_act) : io cp unit :=
  match o with
  | BTick app => forget (CreateDueBackupRuns app)
  | BTimeout e q => forget (TimeoutStaleBackupRuns e q)
  | BCredential s r => forget (BackupCredentialForRun s r)
  | BResult s r ok snap sha detail => SetBackupRunResult s r ok snap sha detail
  | BOpStatus s r e => FailBackupRunFromOpStatus s r e
  | BRestore o s n a => forget (CreateRestoreRun o s n a)
  | BRestoreAt o s n t a => forget (CreateRestoreToTimestampRun o s n t a)
  | BTarget o a inp => forget (CreateBackupTarget o a inp)
  | BDropTarget o t a => DeleteBackupTarget o t a
  | BPolicy o r a inp => forget (UpdateBackupPolicy o r a inp)
  | BArchive o s i => transaction (archiveRepoKeysTx o s i)
  | BExport o r a => forget (ExportRepoKey o r a)
  | BWalCredential s r => forget (WALCredentialForResource s r)
  | BWal s r seg a => SetWALStatus s r seg a
  end.

(** The scheduler's clock and the database's agree on the day. *)
Definition on_time (o : backup_act) (d : cp) : Prop :=
  match o with BTick app => runDayUTC app = runDayUTC (cp_now d) | _ => True end.

Lemma forget_records t0 now {A} (m : io cp A) : records t0 now m -> records t0 now (forget m).
Proof. intros H. eapply does_bind; [exact H|]. intros a. by apply does_ret. Qed.

(** A statement that leaves the runs alone *)
Ltac keeps_runs := idtac;
  match goal with
  | |- steady _ (update _) => by apply steady_update
  | |- steady _ (exec _) => apply steady_exec; [done|]; intros ? ?; by repeat case_match; simplify_eq
  end.

Lemma other_records o d : runs_ok (cp_now d) (runs (cp_tables d)) ->
  match o with
  | BTarget _ _ _ | BDropTarget _ _ _ | BPolicy _ _ _ _ | BArchive _ _ _ | BExport _ _ _ | BWalCredential _ _ | BWal _ _ _ _ =>
      records (cp_tables d) (cp_now d) (run_backup_op o)
  | _ => True
  end.
Proof.
  intros Hok. pose proof (hist_about (cp_tables d) (cp_now d)) as HP.
  destruct o as [| | | | | | |o a inp|o t a|o r a inp|o s i|o r a|s r|s r seg a]; try done; try apply forget_records.
  - unfold CreateBackupTarget, insert_target. destruct (_ || _); [by apply records_steady, steady_fail|].
    apply records_calm; [done|]. steady keeps_runs.
  - apply records_calm; [done|]. unfold delete_target. steady keeps_runs.
  - apply records_calm; [done|]. unfold update_target, update_pitr, write_policy. steady keeps_runs.
  - apply records_calm; [done|]. unfold archiveRepoKeysTx. steady keeps_runs.
  - apply records_calm; [done|]. steady keeps_runs.
  - apply records_calm; [done|]. steady keeps_runs.
  - apply records_steady; [done|]. cbn [run_backup_op]. unfold SetWALStatus. steady keeps_runs.
Qed.

Lemma run_backup_records o d : on_time o d -> runs_ok (cp_now d) (runs (cp_tables d)) ->
  records (cp_tables d) (cp_now d) (run_backup_op o).
Proof.
  intros Hday Hok. pose proof (other_records o d Hok) as Hother.
  destruct o; try exact Hother; try apply forget_records.
  - by apply CreateDueBackupRuns_does.
  - by apply TimeoutStaleBackupRuns_does.
  - by apply BackupCredentialForRun_does.
  - by apply SetBackupRunResult_does.
  - by apply FailBackupRunFromOpStatus_does.
  - by apply CreateRestoreRun_does.
  - by apply CreateRestoreToTimestampRun_does.
Qed.

(** ** Runs of the control plane *)

(** One step: an operation, whatever fails in it, or anything that leaves the
    table of runs alone while time goes on. *)
Inductive backup_step (d d' : cp) : Prop :=
| bstep_op o r : on_time o d -> run_backup_op o d = (r, d') -> backup_step d d'
| bstep_else : runs (cp_tables d') = runs (cp_tables d) -> (cp_now d <= cp_now d')%Z -> backup_step d d'.

Definition backup_inv (d : cp) : Prop := runs_ok (cp_now d) (runs (cp_tables d)).

Lemma op_told o d r d' : on_time o d -> backup_inv d -> run_backup_op o d = (r, d') ->
  told (cp_tables d) (cp_now d) (cp_now d') (cp_tables d').
Proof.
  intros Hday Hok E. pose proof (does_run _ _ _ _ d r d' (run_backup_records o d Hday Hok) (conj eq_refl eq_refl) E) as H.
  by destruct r.
Qed.

Lemma backup_step_inv d d' : backup_step d d' -> backup_inv d ->
  backup_inv d' /\ run_ext (runs (cp_tables d)) (runs (cp_tables d')).
Proof.
  intros [o r Hday E|E Hle] Hok.
  - destruct (op_told o d r d' Hday Hok E) as [En He Ho _]. split; [|exact He].
    unfold backup_inv. by rewrite En.
  - unfold backup_inv. rewrite E. split; [by eapply runs_ok_later|reflexivity].
Qed.

Lemma backup_run_inv d d' : rtc backup_step d d' -> backup_inv d ->
  backup_inv d' /\ run_ext (runs (cp_tables d)) (runs (cp_tables d')).
Proof.
  induction 1 as [d|d1 d2 d3 H12 H23 IH]; intros Hok; [split; [done|reflexivity]|].
  destruct (backup_step_inv _ _ H12 Hok) as [H2 E2]. destruct (IH H2) as [H3 E3]. split; [done|by etransitivity].
Qed.

Lemma no_runs_inv d : runs (cp_tables d) = [] -> backup_inv d.
Proof.
  intros E. unfold backup_inv. rewrite E. split; try by intros r ?%elem_of_nil.
  - constructor.
  - by intros i j r r' [=].
Qed.


(** ** What is dispatched *)

Lemma expected_dump now l r : runs_ok now l -> r ∈ l -> run_kind r = "verify" ->
  exists b, dump_of l r b /\ expected_sha l r = run_sha b.
Proof.
  intros Hok Hr Ek. destruct (ro_verify _ _ Hok r Hr Ek) as (b & Hb & Sb & Nb & Db). exists b. split; [done|].
  unfold expected_sha. rewrite Ek. cbn [String.eqb Ascii.eqb Bool.eqb].
  set (P := fun b => successful "backup" (run_policy r) b && (runDayUTC (run_created_at b) =? runDayUTC (run_created_at r))%Z).
  assert (Hmem : forall x, x ∈ desc_nulls_first run_finished_at (List.filter P l) <-> x ∈ l /\ P x = true).
  { intros x. unfold desc_nulls_first. rewrite elem_of_app, !order_by_perm, !filter_elem.
    case_bool_decide as E1; case_bool_decide as E2; naive_solver. }
  assert (HPb : P b = true) by (unfold P; rewrite Sb; by apply Z.eqb_eq).
  assert (Honly : forall x, x ∈ l -> P x = true -> x = b).
  { intros x Hx Px. apply list_elem_of_lookup in Hx as (i & Hi). apply list_elem_of_lookup in Hb as (j & Hj).
    assert (i = j); [|congruence]. apply (ro_daily _ _ Hok i j x b Hi Hj).
    unfold P in Px. apply andb_true_iff in Px as [Px Dx%Z.eqb_eq]. unfold successful in Px, Sb.
    apply andb_true_iff in Px as [[P1%String.eqb_eq K1%String.eqb_eq]%andb_true_iff _].
    apply andb_true_iff in Sb as [[P2%String.eqb_eq K2%String.eqb_eq]%andb_true_iff _].
    unfold same_day_run, run_policy, run_kind, run_created_at in *. rewrite K1, P1, K2, P2, !String.eqb_refl.
    cbn. apply Z.eqb_eq. congruence. }
  destruct (desc_nulls_first run_finished_at (List.filter P l)) as [|x k] eqn:E.
  - exfalso. eapply not_elem_of_nil, Hmem. done.
  - cbn. f_equal. apply Honly; apply Hmem; left.
Qed.

(** C11: Nothing unverifiable is dispatched: in any state the control plane
    reaches, every verify run and every restore it hands to an agent carries a
    checksum, and it is the checksum of a successful backup of the run's own
    policy - for a verify, the one dump of the run's own day; for a restore, the
    dump of the snapshot it names. *)
Theorem dispatched_runs_have_digest d0 d server specs d' : rtc backup_step d0 d -> backup_inv d0 ->
  BackupRunsForServer server d = (Ok specs, d') ->
  forall s, s ∈ specs -> br_Kind s = "verify" \/ br_Kind s = "restore" ->
  br_ExpectedSha s <> "" /\
  exists r b, r ∈ runs (cp_tables d) /\ run_id r = br_RunID s /\ b ∈ runs (cp_tables d) /\
    successful "backup" (run_policy r) b = true /\ br_ExpectedSha s = run_sha b /\
    (br_Kind s = "verify" -> runDayUTC (run_created_at b) = runDayUTC (run_created_at r)) /\
    (br_Kind s = "restore" -> br_SnapshotID s = run_snapshot b).
Proof.
  intros H Hok E s Hs Hk. destruct (backup_run_inv d0 d H Hok) as [Hi _].
  unfold BackupRunsForServer, query, exec in E.
  assert (Es : specs = omap (run_spec (backed_up (cp_tables d))) (order_by (fun r => run_created_at r * 4 + kind_rank (run_kind r))%Z
      (List.filter (fun r => String.eqb (ri_server (run_ident_of r)) server && run_open r) (runs (cp_tables d)))))
    by (destruct (cp_faults d) as [|[] fs]; [|done|]; by injection E as <- _).
  rewrite Es in Hs. apply list_elem_of_omap in Hs as (r & Hr & Espec). rewrite order_by_perm in Hr.
  apply filter_elem in Hr as [Hr [_ Ho]%andb_true_iff]. unfold run_spec in Espec.
  destruct (policy_by_id _ _) as [p|]; [|done]. destruct (database_of _ _) as [dc|]; [|done].
  injection Espec as <-. cbn in *. destruct Hk as [Ek|Ek].
  - destruct (expected_dump _ _ r Hi Hr Ek) as (b & (Hb & Sb & Nb & Db) & Esha). unfold runs in Esha. rewrite Esha.
    split; [done|]. exists r, b. split_and!; try done. rewrite Ek. discriminate.
  - destruct (ro_restore _ _ Hi r Hr Ek Ho) as (b & Hb & Sb & Nb & E1 & E2).
    assert (Esha : expected_sha (runs (cp_tables d)) r = run_sha b) by (unfold expected_sha, run_kind; rewrite Ek; exact E2).
    unfold runs in Esha. rewrite Esha. split; [done|]. exists r, b. split_and!; try done. rewrite Ek. discriminate.
Qed.

(** No backup fails in silence: after any operation, a run that has failed
    either had failed before it, or there is an alert about this very run in the
    outbox for every enabled channel its organisation routed the event to -
    restore-verify failures being an event of their own. *)
Theorem failures_are_heard o d r d' : on_time o d -> backup_inv d -> run_backup_op o d = (r, d') ->
  forall run, run ∈ runs (cp_tables d') -> run_status run = BackupRunFailed ->
    failed_in (runs (cp_tables d)) (run_id run) \/ heard (cp_tables d') run.
Proof. intros Hday Hok E. apply (op_told o d r d' Hday Hok E). Qed.
End claims.

(** ** A night *)

#[local] Existing Instance pg_stable.
#[local] Existing Instance toy_aead.
#[local] Existing Instance toy_custody.

Definition night : Z := 1700000000000000.

(** A database without a backup target *)
Definition noon : cp :=
  mkCp (mkTables [] [mkResource "res_1" "org" "prj_1" None (Some "srv_1") None "database" "orders" (JObj [])]
          [] [] [] [] [] [mkAlertRule "org" AlertVerifyFailed "ch_1"] [mkAlertChannel "ch_1" true no_channel_columns] [] [] []
          (mkFleet [mkServer "srv_1" "org" "db-1" false 1 no_columns] ∅ [] ∅)
          (mkVault [] [] [] [mkCipher "backup_policies" "bkp_1" "org" [] "" "" None NoMeta] [])
          (mkBackups [mkPolicy "bkp_1" "org" "res_1" "daily" 7 4 6 None true false] [] [] []
             [mkDatabase "res_1" "org" "srv_1" "postgres" "app" "app" 5432] []) no_estate)
    night [] demo_draw 0 (mkMemory ∅ []).

Definition do_op (o : backup_act) (d : cp) : cp := (run_backup_op o d).2.

(** It is given one. *)
Definition offsite : cp := Eval vm_compute in
  do_op (BTarget "org" "alice" (mkCreateTarget "offsite" "https://s3.example/" "backups" "eu" true "AK" "SECRET")) noon.
Definition target_id : string := Eval vm_compute in
  match backup_targets (backed_up (cp_tables offsite)) with x :: _ => tgt_id x | [] => "" end.
Definition dusk : cp := Eval vm_compute in
  do_op (BPolicy "org" "res_1" "alice" (mkUpdatePolicy (Some target_id) None None None None None None)) offsite.

Definition backed : cp := Eval vm_compute in do_op (BTick night) dusk.
Definition backup_id : string := Eval vm_compute in match runs (cp_tables backed) with r :: _ => run_id r | [] => "" end.
Definition dumped : cp := Eval vm_compute in do_op (BResult "srv_1" backup_id true "snap" "sha" "") backed.
Definition checking : cp := Eval vm_compute in do_op (BTick night) dumped.

Lemma dusk_inv : backup_inv dusk.
Proof. by apply no_runs_inv. Qed.

Lemma op_step o d : on_time o d -> backup_step d (do_op o d).
Proof.
  intros H. unfold do_op. destruct (run_backup_op o d) as [r d'] eqn:E. by apply (bstep_op d d' o r).
Qed.

Lemma night_steps : rtc backup_step dusk checking.
Proof.
  assert (H : rtc backup_step dusk
    (do_op (BTick night) (do_op (BResult "srv_1" backup_id true "snap" "sha" "") (do_op (BTick night) dusk)))).
  { eapply rtc_l; [apply op_step|eapply rtc_l; [apply op_step|eapply rtc_once, op_step]]; vm_compute; done. }
  assert (E : do_op (BTick night) (do_op (BResult "srv_1" backup_id true "snap" "sha" "") (do_op (BTick night) dusk)) = checking)
    by (vm_compute; reflexivity).
  by rewrite <- E.
Qed.


Lemma dispatched_runs_have_digest_witness : exists specs d' s,
  BackupRunsForServer "srv_1" checking = (Ok specs, d') /\ s ∈ specs /\ br_Kind s = "verify" /\ br_ExpectedSha s = "sha" /\
  br_ExpectedSha s <> "".
Proof.
  destruct (BackupRunsForServer "srv_1" checking) as [r d'] eqn:E.
  assert (Er : exists s, r = Ok [s] /\ br_Kind s = "verify" /\ br_ExpectedSha s = "sha").
  { change r with ((r, d').1). rewrite <- E. eexists. vm_compute. split_and!; reflexivity. }
  destruct Er as (s & -> & Ek & Es). exists [s], d', s. split; [done|]. split; [left|]. split; [done|]. split; [done|].
  apply (dispatched_runs_have_digest dusk checking "srv_1" [s] d' night_steps dusk_inv E s); [left|by left].
Defined.

Definition verify_id : string := Eval vm_compute in match runs (cp_tables checking) with [_; r] => run_id r | _ => "" end.
Definition red : cp := Eval vm_compute in do_op (BResult "srv_1" verify_id false "" "" "checksum mismatch") checking.

Lemma failures_are_heard_witness : exists run,
  last (runs (cp_tables red)) = Some run /\ run_id run = verify_id /\ run_status run = BackupRunFailed /\
  map al_dedup_key (alert_outbox (cp_tables red)) = ["bkr:" +:+ verify_id] /\ heard (cp_tables red) run.
Proof.
  destruct (run_backup_op (BResult "srv_1" verify_id false "" "" "checksum mismatch") checking) as [r d'] eqn:E.
  assert (Ed : d' = red) by (change d' with ((r, d').2); rewrite <- E; vm_compute; reflexivity). subst d'.
  destruct (last (runs (cp_tables red))) as [run|] eqn:El; [|exfalso; revert El; vm_compute; discriminate].
  pose proof El as Hr. apply last_Some in Hr as (l & Hr).
  assert (Hin : run ∈ runs (cp_tables red)) by (rewrite Hr; apply elem_of_app; right; left).
  assert (Hst : run_status run = BackupRunFailed /\ run_id run = verify_id)
    by (revert El; vm_compute; intros [= <-]; split; reflexivity).
  exists run. split; [done|]. split; [apply Hst|]. split; [apply Hst|]. split; [vm_compute; reflexivity|].
  pose proof (proj1 (backup_run_inv _ _ night_steps dusk_inv)) as Hi.
  destruct (failures_are_heard (BResult "srv_1" verify_id false "" "" "checksum mismatch") checking r red I Hi E run Hin (proj1 Hst)) as [(x & Hx & _ & Hfx)|Hh]; [|exact Hh].
  exfalso. revert Hfx. unfold failed_run. revert Hx. change (runs (cp_tables checking)) with
    [nth 0 (runs (cp_tables checking)) x; nth 1 (runs (cp_tables checking)) x].
  intros [->|[->|Hx%elem_of_nil]%elem_of_cons]%elem_of_cons; [vm_compute; discriminate|vm_compute; discriminate|done].
Defined.
