(* ===== verification/BackupKeys.v ===== *)
(** * Policies, targets and credentials

    The settings backups run under stay coherent whatever is done to them, and
    the credential an agent is given for a run is the run's own. *)

From S2P Require Import Prelude GoStrings Json Naming CpDb Deploy DeployPipeline CpDsd Engines RenderDoc DsdStore Kms Vault.
From S2P Require Import VaultSpec VaultKeep VaultOps VaultClaims Backups BackupRuns BackupClaims.

Local Open Scope string_scope.
Local Open Scope io_scope.

(** ** Policies *)

(** The target of a policy is one of its organisation. *)
Definition target_known (targets : list backup_target) (p : policy_row) : Prop :=
  forall id, pol_target p = Some id -> exists x, x ∈ targets /\ tgt_id x = id /\ tgt_org x = pol_org p.

Record policy_ok (targets : list backup_target) (p : policy_row) : Prop := {
  po_pitr : pol_pitr p = true -> pol_target p <> None;
  po_target : target_known targets p;
  po_retention : retention_ok p = true;
}.

Definition policies_ok (b : backup_tables) : Prop := forall p, p ∈ backup_policies b -> policy_ok (backup_targets b) p.

Section policies.
Context {pg : Postgres} {ae : Aead} {kc : KeyCustody}.

Definition coherent : assertion := fun _ t => policies_ok (backed_up t).

#[local] Instance coherent_insensitive : Insensitive coherent.
Proof. by split. Qed.

Lemma steady_transaction {A} (m : io cp A) : steady coherent m -> steady coherent (transaction m).
Proof.
  intros H d HP.
  assert (Hb : steady coherent (_ <- query (fun _ _ => tt) ;; a <- m ;; _ <- query (fun _ _ => tt) ;; ret a))
    by (steady idtac; exact H).
  specialize (Hb d HP). unfold transaction. destruct (bind _ _ d) as [[a|e] d']; [exact Hb|exact HP].
Qed.

(** A statement that leaves policies and targets alone *)
Ltac keeps_policies := idtac;
  match goal with
  | |- steady _ (transaction _) => apply steady_transaction
  | |- steady _ clock => intros ? H; exact H
  | |- steady _ (update _) => apply steady_does_update; intros ? ? H; exact H
  | |- steady _ (exec _) => apply steady_does_exec; intros ? ? ?; repeat case_match; simplify_eq;
      first [exact I | match goal with H : coherent _ _ |- _ => exact H end]
  end.

Lemma CreateBackupTarget_coherent org actor inp : steady coherent (CreateBackupTarget org actor inp).
Proof.
  unfold CreateBackupTarget. destruct (_ || _); [apply steady_fail|]. apply steady_transaction. steady idtac.
  apply steady_does_exec. intros n t H. destruct (_ || _); [done|]. intros p [H1 H2 H3]%H. split; [done| |done].
  intros id E. destruct (H2 id E) as (x & Hx & ?). exists x. split; [|done]. cbn. apply elem_of_app. by left.
Qed.

Lemma DeleteBackupTarget_coherent org target actor : steady coherent (DeleteBackupTarget org target actor).
Proof.
  apply steady_transaction. steady idtac. apply steady_does_exec. intros n t H.
  destruct (List.find _ _) as [x|]; [|done]. destruct (existsb (points_at target) _) eqn:E; [done|].
  intros p Hp. destruct (H p Hp) as [H1 H2 H3]. split; [done| |done].
  intros id Et. destruct (H2 id Et) as (y & Hy & Ey & Eo). exists y. split; [|done]. cbn. apply filter_elem. split; [done|].
  apply negb_true_iff. unfold the_target. destruct (String.eqb_spec (tgt_id y) target) as [E1|]; [|by rewrite andb_false_r].
  exfalso. apply not_true_iff_false in E. apply E. apply existsb_elem. exists p. split; [done|].
  unfold points_at. rewrite Et. apply String.eqb_eq. congruence.
Qed.

(** A policy being edited *)
Definition editing (org : string) (bp : policy_row) : assertion := fun n t =>
  coherent n t /\ pol_org bp = org /\ target_known (backup_targets (backed_up t)) bp.

Lemma update_target_does org o bp : does (editing org bp) (update_target org o bp)
  (fun bp' => editing org bp') coherent.
Proof.
  destruct o as [id|]; cbn; [|by apply does_ret]. destruct (String.eqb id "").
  { apply does_ret. intros n t (H & E & _). split; [done|]. split; [done|]. by intros x. }
  eapply does_bind; [apply does_query; by intros n t []|]. intros known. cbv beta.
  destruct known; [|apply does_fail; by intros n t [[]]].
  apply does_ret. intros n t ((H & E & _) & Hk). split; [done|]. split; [done|]. intros x [= <-].
  symmetry in Hk. apply existsb_elem in Hk as (y & Hy & [Eo%String.eqb_eq Ei%String.eqb_eq]%andb_true_iff).
  exists y. cbn. split_and!; congruence.
Qed.

Lemma update_pitr_does org res o bp : does (editing org bp) (update_pitr org res o bp)
  (fun bp' => fun n t => editing org bp' n t /\ (retention_ok bp = true -> retention_ok bp' = true)) coherent.
Proof.
  assert (Hx : forall b n t, editing org bp n t -> editing org (with_pitr b bp) n t) by done.
  destruct o as [[|]|]; cbn; [|by apply does_ret; split; [apply Hx|]|by apply does_ret].
  eapply does_bind; [apply does_query; by intros n t []|]. intros engine.
  eapply does_pre; [|by intros n t [H _]; exact H].
  destruct engine as [e|]; [|apply does_fail; by intros n t []].
  destruct (negb _); [apply does_fail; by intros n t []|]. case_bool_decide; [apply does_fail; by intros n t []|].
  apply does_ret. intros n t H'. split; [by apply Hx|done].
Qed.

Lemma write_policy_does org res bp : retention_ok bp = true -> (pol_pitr bp = true -> pol_target bp <> None) ->
  does (editing org bp) (write_policy org res bp) (fun _ => coherent) coherent.
Proof.
  intros Hr Hp. apply does_exec; [by intros n t []|]. intros n t (H & Eo & Ht).
  destruct (_ && _); [exact H|].
  intros p' (p & -> & Hin)%list_elem_of_fmap. destruct (the_policy org res p) eqn:E; [|exact (H p Hin)].
  apply andb_true_iff in E as [E%String.eqb_eq _]. split; [exact Hp| |exact Hr].
  intros id Eid. destruct (Ht id Eid) as (x & Hx & Ei & Ex). exists x. split; [done|]. split; [done|]. cbn. congruence.
Qed.

Lemma UpdateBackupPolicy_coherent org res actor inp : steady coherent (UpdateBackupPolicy org res actor inp).
Proof.
  apply steady_transaction. eapply does_bind; [by apply does_query|]. intros [bp|]; [|apply does_fail; by intros n t []].
  apply (does_pre _ (editing org bp)).
  2: { intros n t [H E]. symmetry in E. apply find_some in E as [Hin%list_elem_of_In E].
       apply andb_true_iff in E as [E%String.eqb_eq _]. split; [done|]. split; [done|]. by apply H. }
  assert (Hf : forall e bp, does (editing org bp) (fail (A := policy_row) e) (fun _ => coherent) coherent)
    by (intros; apply does_fail; by intros n t []).
  eapply does_bind; [apply update_target_does|]. intros bp1. cbv zeta.
  match goal with |- does _ (if ?c then _ else _) _ _ => destruct c end; [apply Hf|].
  destruct (negb (retention_ok (with_settings inp bp1))) eqn:Er; [apply Hf|]. apply negb_false_iff in Er.
  eapply does_bind; [apply (does_pre _ (editing org (with_enabled (upi_Enabled inp) (with_settings inp bp1))));
    [apply update_pitr_does|done]|].
  intros bp2. apply does_pure. intros Hr. specialize (Hr Er).
  set (bp3 := if bool_decide (pol_target bp2 = None) then with_pitr false bp2 else bp2).
  assert (H3 : retention_ok bp3 = true /\ (pol_pitr bp3 = true -> pol_target bp3 <> None) /\
    forall n t, editing org bp2 n t -> editing org bp3 n t).
  { unfold bp3. case_bool_decide; split_and!; done. }
  destruct H3 as (R3 & P3 & E3).
  eapply does_bind; [eapply does_attempt, does_pre; [by apply write_policy_does|exact E3]|].
  intros [u|e]; [|destruct (String.eqb _ _); by apply does_fail].
  apply steady_bind; [apply steady_audit; apply _|]. intros; apply steady_ret.
Qed.

Lemma op_coherent o : steady coherent (run_backup_op o).
Proof.
  destruct o; cbn [run_backup_op];
    try (unfold forget; apply steady_bind; [|intros; apply steady_ret]);
    try apply CreateBackupTarget_coherent; try apply DeleteBackupTarget_coherent;
    try apply UpdateBackupPolicy_coherent.
  - unfold CreateDueBackupRuns, enqueue_due, enqueue_kind, insert_daily. steady keeps_policies.
  - unfold TimeoutStaleBackupRuns. steady keeps_policies.
  - unfold BackupCredentialForRun, update_run. steady keeps_policies.
  - unfold SetBackupRunResult, record_result. steady keeps_policies.
  - unfold FailBackupRunFromOpStatus, SetBackupRunResult, record_result. steady keeps_policies.
  - unfold CreateRestoreRun, insert_run. steady keeps_policies.
  - unfold CreateRestoreToTimestampRun, insert_run. steady keeps_policies.
  - unfold archiveRepoKeysTx. steady keeps_policies.
  - unfold ExportRepoKey. steady keeps_policies.
  - unfold WALCredentialForResource. steady keeps_policies.
  - unfold SetWALStatus. steady keeps_policies.
Qed.

(** The settings backups run under stay coherent: whatever is done to them
    and whatever fails, a policy with point-in-time recovery on has a target to
    archive to, every policy's target exists and belongs to the policy's own
    organisation - no target in use is ever deleted, none of another tenant is
    ever pointed at - and retention stays in range. *)
Theorem policies_stay_ok o d r d' : policies_ok (backed_up (cp_tables d)) -> run_backup_op o d = (r, d') ->
  policies_ok (backed_up (cp_tables d')).
Proof.
  intros H E. pose proof (does_run _ _ _ _ d r d' (op_coherent o) H E) as Hr. by destruct r.
Qed.
End policies.

(** ** Credentials *)

(** What a computation leaves of the store when it only reads *)
Record same_store_as (d d' : cp) : Prop := {
  sm_tables : cp_tables d' = cp_tables d;
  sm_now : cp_now d' = cp_now d;
  sm_memory : cp_memory d' = cp_memory d;
}.

Lemma bind_returns {A B} (m : io cp A) (k : A -> io cp B) d b d' : bind m k d = (Ok b, d') ->
  exists a d1, m d = (Ok a, d1) /\ k a d1 = (Ok b, d').
Proof. unfold bind. destruct (m d) as [[a|e] d1]; [eauto|done]. Qed.

Lemma query_ok {A} (f : Z -> tables -> A) d a d' : query f d = (Ok a, d') ->
  a = f (cp_now d) (cp_tables d) /\ same_store_as d d'.
Proof. unfold query, exec. destruct (cp_faults d) as [|[] fs]; [|done|]; intros [= <- <-]; (split; [done|by split]). Qed.

Lemma update_ok f d u d' : update f d = (Ok u, d') ->
  cp_tables d' = f (cp_now d) (cp_tables d) /\ cp_now d' = cp_now d.
Proof. unfold update, exec. destruct (cp_faults d) as [|[] fs]; [|done|]; by intros [= _ <-]. Qed.

Lemma wrapping_ok {A} pre (m : io cp A) d a d' : wrapping pre m d = (Ok a, d') -> m d = (Ok a, d').
Proof. unfold wrapping. destruct (m d) as [[x|e] d1]; cbn; [by intros [= -> ->]|done]. Qed.

Lemma transaction_inv {A} (m : io cp A) d a d' : transaction m d = (Ok a, d') ->
  exists d1 d2, same_store_as d d1 /\ m d1 = (Ok a, d2) /\ same_store_as d2 d'.
Proof.
  unfold transaction. destruct (bind _ _ d) as [[x|e] d3] eqn:E; [intros [= -> ->]|done].
  apply bind_returns in E as (u & d1 & [_ H1]%query_ok & E). apply bind_returns in E as (b & d2 & E & E').
  apply bind_returns in E' as (u' & d4 & [_ H2]%query_ok & [= -> ->]). eauto.
Qed.

Section credentials.
Context {pg : Postgres} {ae : Aead} {kc : KeyCustody}.

(** The rows an open run's credential is read from carry its organisation. *)
Definition one_tenant (org : string) (c : custody_row) : Prop :=
  cr_org (cu_secret c) = org /\ cr_org (cu_repo c) = org.

Lemma row_at t tbl pk c : cipher_at t tbl pk = Some c ->
  c ∈ ciphers (vaulted t) /\ cr_table c = tbl /\ cr_pk c = pk.
Proof. intros [Hin%list_elem_of_In E%row_is_key]%find_some. by destruct E. Qed.

Lemma custody_rows t p c : custody_of t p = Some c ->
  cu_policy c = p /\ policy_target (backed_up t) p = Some (cu_target c) /\
  cipher_at t "backup_targets" (tgt_id (cu_target c)) = Some (cu_secret c) /\
  cipher_at t "backup_policies" (pol_id p) = Some (cu_repo c).
Proof.
  unfold custody_of. destruct (policy_target _ p) as [x|]; [|done]. cbn.
  destruct (cipher_at t "backup_targets" _) as [s|] eqn:Es; [|done]. cbn.
  destruct (cipher_at t "backup_policies" _) as [r|] eqn:Er; [|done]. intros [= <-]. done.
Qed.

(** Opening both ciphertexts yields what the vault holds under them. *)
Lemma open_custody_spec v0 org c : vault_ok v0 -> one_tenant org c ->
  cu_secret c ∈ ciphers v0 -> cr_table (cu_secret c) = "backup_targets" -> cr_pk (cu_secret c) = tgt_id (cu_target c) ->
  cu_repo c ∈ ciphers v0 -> cr_table (cu_repo c) = "backup_policies" -> cr_pk (cu_repo c) = pol_id (cu_policy c) ->
  cr_dek (cu_secret c) <> None -> cr_dek (cu_repo c) <> None ->
  vdoes (inside v0 (eq v0)) (open_custody org c) (fun keys => inside v0 (fun v => v = v0 /\
    contents v0 "backup_targets" (tgt_id (cu_target c)) = Some keys.1 /\
    contents v0 "backup_policies" (pol_id (cu_policy c)) = Some keys.2)) (broken v0).
Proof.
  intros Hok [O1 O2] I1 T1 P1 I2 T2 P2 D1 D2.
  destruct (row_dek v0 _ Hok I1 D1) as [K1 L1], (row_dek v0 _ Hok I2 D2) as [K2 L2].
  eapply v_then; [apply dekPlaintext_spec; by intros v <-|]. intros tDek.
  eapply v_then; [apply v_opening|]. intros sk. apply v_inside_pure. intros Hs.
  eapply v_then; [apply dekPlaintext_spec; by intros v [<- _]|]. intros rDek.
  eapply v_then; [apply v_opening|]. intros rk. apply v_inside_pure. intros Hr.
  apply v_retp. intros v [[<- Hk1] Hk2]. split; [done|]. cbn.
  rewrite <- P1, <- P2, <- T1, <- T2 at 1. rewrite !contents_at by done. split.
  - apply (opened_reading _ _ tDek); [done|done|]. unfold aad_of. rewrite T1, O1, P1. exact Hs.
  - apply (opened_reading _ _ rDek); [done|done|]. unfold aad_of. rewrite T2, O2, P2. exact Hr.
Qed.

Lemma vault_same d d' : same_store_as d d' -> vault_of d' = vault_of d /\ dek_cache (cp_memory d') = dek_cache (cp_memory d).
Proof. intros [Et _ Em]. unfold vault_of. by rewrite Et, Em. Qed.

Lemma open_run_found server id t r c : open_run_of server id t = Some (r, c) ->
  r ∈ runs t /\ run_id r = id /\ ri_server (run_ident_of r) = server /\ run_open r = true /\
  exists p, policy_by_id (backed_up t) (run_policy r) = Some p /\ custody_of t p = Some c.
Proof.
  unfold open_run_of. destruct (List.find _ _) as [r0|] eqn:Er; [|done]. cbn.
  destruct (policy_by_id _ _) as [p|] eqn:Ep; [|done]. cbn. destruct (custody_of t p) as [c0|] eqn:Ec; [|done].
  intros [= <- <-]. apply find_some in Er as [Hin%list_elem_of_In [[E1%String.eqb_eq E2%String.eqb_eq]%andb_true_iff E3]%andb_true_iff].
  split_and!; [done..|]. by exists p.
Qed.

Lemma open_custody_tables org c d keys d' : open_custody org c d = (Ok keys, d') ->
  cp_tables d' = cp_tables d /\ cp_now d' = cp_now d.
Proof.
  intros E. pose proof (does_run _ _ _ _ d (Ok keys) d'
    (steady_open_custody (fun n t => t = cp_tables d /\ n = cp_now d) org c) (conj eq_refl eq_refl) E) as H. exact H.
Qed.

Lemma open_run_marked id now l r : r ∈ l -> run_id r = id -> run_open r = true ->
  exists r', r' ∈ map (fun r => if String.eqb (run_id r) id && String.eqb (run_status r) BackupRunPending
                                then running_run now r else r) l /\
    run_ident_of r' = run_ident_of r /\ run_status r' = BackupRunRunning.
Proof.
  intros Hr Hid Ho. eexists. split; [by apply list_elem_of_fmap_2|]. rewrite Hid, String.eqb_refl. cbn [andb].
  destruct (String.eqb_spec (run_status r) BackupRunPending) as [E|E]; [done|]. split; [done|].
  unfold run_open in Ho. apply orb_true_iff in Ho as [Ho%String.eqb_eq|Ho%String.eqb_eq]; congruence.
Qed.

(** C13: A credential fits its run: an agent is given repository and target keys
    only for a run that is open and queued to its own server, they are exactly
    what the vault holds for the run's policy and that policy's target, for the
    repository of the run's own database - and the release is on record in the
    audit log, with the run marked running. *)
Theorem credentials_fit server id d cred d' : vault_inv d ->
  (forall r c, open_run_of server id (cp_tables d) = Some (r, c) ->
     one_tenant (ri_org (run_ident_of r)) c /\ cr_dek (cu_secret c) <> None) ->
  BackupCredentialForRun server id d = (Ok cred, d') ->
  exists r p x, r ∈ runs (cp_tables d) /\ run_id r = id /\ ri_server (run_ident_of r) = server /\ run_open r = true /\
    policy_by_id (backed_up (cp_tables d)) (run_policy r) = Some p /\
    policy_target (backed_up (cp_tables d)) p = Some x /\
    cred = credential (ri_resource (run_ident_of r)) x (bc_SecretKey cred, bc_RepoKey cred) /\
    contents (vault_of d) "backup_targets" (tgt_id x) = Some (bc_SecretKey cred) /\
    contents (vault_of d) "backup_policies" (pol_id p) = Some (bc_RepoKey cred) /\
    cp_audit_log (cp_tables d') = (cp_audit_log (cp_tables d) ++ [mkAudit (ri_org (run_ident_of r)) ("agent:" +:+ server)
      "Backup repo key unwrapped (agent)" (ri_resource (run_ident_of r) +:+ " run " +:+ id)])%list /\
    exists r', r' ∈ runs (cp_tables d') /\ run_ident_of r' = run_ident_of r /\ run_status r' = BackupRunRunning.
Proof.
  intros [Hok Ha] Horg E. apply transaction_inv in E as (d1 & d2 & S1 & E & S2).
  apply bind_returns in E as (row & d3 & [-> S3]%query_ok & E). rewrite (sm_tables _ _ S1) in E.
  destruct (open_run_of server id (cp_tables d)) as [[r c]|] eqn:Eo; [|done].
  destruct (Horg r c eq_refl) as [Hten Hdek]. destruct (open_run_found _ _ _ _ _ Eo) as (Hr & Hid & Hsrv & Hop & p & Hp & Hc).
  destruct (custody_rows _ _ _ Hc) as (<- & Hx & (I1 & T1 & P1)%row_at & (I2 & T2 & P2)%row_at).
  destruct (no_repo_key (cu_repo c)) eqn:En; [done|]. apply orb_false_iff in En as [_ En%bool_decide_eq_false].
  apply bind_returns in E as (keys & d4 & Ek & E).
  pose proof (open_custody_tables _ _ _ _ _ Ek) as [Et4 En4].
  destruct (vault_same _ _ S1) as [V1 C1], (vault_same _ _ S3) as [V3 C3].
  pose proof (triple_run _ _ _ d3 (Ok keys) d4 (open_custody_spec (vault_of d) _ c Hok Hten I1 T1 P1 I2 T2 P2 Hdek En)) as Hkeys.
  destruct Hkeys as ((_ & K1 & K2) & _); [|exact Ek|].
  { unfold vhold, inside. fold (vault_of d3). rewrite V3, V1, C3, C1. split; [done|]. split; [done|]. split; [done|apply same_keys_refl]. }
  apply bind_returns in E as (u & d5 & [Et5 _]%update_ok & E).
  apply bind_returns in E as (u' & d6 & Ea & [= <- <-]). apply wrapping_ok, update_ok in Ea as [Et6 _].
  exists r, (cu_policy c), (cu_target c). rewrite (sm_tables _ _ S2), Et6, Et5, Et4, (sm_tables _ _ S3), (sm_tables _ _ S1).
  split_and!; try done. by apply open_run_marked.
Qed.
End credentials.

(** ** A night's credential *)

#[local] Existing Instance pg_stable.
#[local] Existing Instance toy_aead.
#[local] Existing Instance toy_custody.
#[local] Arguments String.append !_ _ / : simpl nomatch.

Definition arm : backup_act := BPolicy "org" "res_1" "alice" (mkUpdatePolicy (Some target_id) None None None None None (Some true)).
Definition armed : cp := Eval vm_compute in do_op arm offsite.

Lemma policies_stay_ok_witness :
  policies_ok (backed_up (cp_tables noon)) /\
  map pol_target (backup_policies (backed_up (cp_tables armed))) = [Some target_id] /\
  map pol_pitr (backup_policies (backed_up (cp_tables armed))) = [true] /\
  policies_ok (backed_up (cp_tables armed)) /\
  (run_backup_op (BDropTarget "org" target_id "bob") armed).1 = Err in_use.
Proof.
  assert (H0 : policies_ok (backed_up (cp_tables noon))) by (intros p ->%list_elem_of_singleton; by split).
  split; [exact H0|]. split; [vm_compute; reflexivity|]. split; [vm_compute; reflexivity|].
  split; [|vm_compute; reflexivity].
  destruct (run_backup_op (BTarget "org" "alice" (mkCreateTarget "offsite" "https://s3.example/" "backups" "eu" true "AK" "SECRET")) noon)
    as [r1 d1] eqn:E1.
  assert (D1 : d1 = offsite) by (change d1 with ((r1, d1).2); rewrite <- E1; vm_compute; reflexivity).
  pose proof (policies_stay_ok _ _ _ _ H0 E1) as H1. rewrite D1 in H1.
  destruct (run_backup_op arm offsite)
    as [r2 d2] eqn:E2.
  assert (D2 : d2 = armed) by (change d2 with ((r2, d2).2); rewrite <- E2; vm_compute; reflexivity).
  pose proof (policies_stay_ok _ _ _ _ H1 E2) as H2. rewrite D2 in H2. exact H2.
Defined.

Lemma backed_vault : vault_inv backed.
Proof.
  assert (Hc : forall c, c ∈ ciphers (vault_of backed) ->
    c = nth 0 (ciphers (vault_of backed)) c \/ c = nth 1 (ciphers (vault_of backed)) c).
  { intros c. change (ciphers (vault_of backed)) with
      [nth 0 (ciphers (vault_of backed)) c; nth 1 (ciphers (vault_of backed)) c] at 1.
    intros [->|[->|[]%elem_of_nil]%elem_of_cons]%elem_of_cons; [by left|by right]. }
  split; [split|].
  - apply NoDup_singleton.
  - apply (bool_decide_unpack _). vm_compute. exact I.
  - intros c [->| ->]%Hc; apply (bool_decide_unpack _); vm_compute; exact I.
  - intros c [->| ->]%Hc; vm_compute; discriminate.
  - intros c [->| ->]%Hc _; vm_compute; eauto.
  - intros c id k [->| ->]%Hc; vm_compute; intros [= <-] [= <-]; reflexivity.
  - intros k ->%list_elem_of_singleton; vm_compute; done.
  - set (id0 := dk_id (nth 0 (org_deks (vault_of backed)) (mkDek "" "" "" 0 false None))).
    assert (E : dek_cache (cp_memory backed) = {[id0 := default "" (key_of (vault_of backed) id0)]}) by (vm_compute; reflexivity).
    intros id key. rewrite E. intros [<- <-]%lookup_singleton_Some _. vm_compute. reflexivity.
Qed.

Lemma credentials_fit_witness : exists cred d',
  BackupCredentialForRun "srv_1" backup_id backed = (Ok cred, d') /\
  bc_Repository cred = "s3:https://s3.example/backups/sigmahub/res_1" /\ bc_SecretKey cred = "SECRET" /\
  (exists x, contents (vault_of backed) "backup_targets" x = Some (bc_SecretKey cred)) /\
  BackupCredentialForRun "srv_2" backup_id backed = (Err ErrNotFound, backed).
Proof.
  destruct (BackupCredentialForRun "srv_1" backup_id backed) as [o d'] eqn:E.
  assert (Ho : exists cred, o = Ok cred /\ bc_Repository cred = "s3:https://s3.example/backups/sigmahub/res_1" /\ bc_SecretKey cred = "SECRET")
    by (change o with ((o, d').1); rewrite <- E; eexists; vm_compute; split_and!; reflexivity).
  destruct Ho as (cred & -> & Er & Es). exists cred, d'. split; [done|]. split; [exact Er|]. split; [exact Es|].
  split; [|vm_compute; reflexivity].
  assert (Horg : forall r c, open_run_of "srv_1" backup_id (cp_tables backed) = Some (r, c) ->
     one_tenant (ri_org (run_ident_of r)) c /\ cr_dek (cu_secret c) <> None).
  { intros r c. vm_compute. intros [= <- <-]. cbn. split; [split; reflexivity|discriminate]. }
  destruct (credentials_fit "srv_1" backup_id backed cred d' backed_vault Horg E)
    as (r & p & x & _ & _ & _ & _ & _ & _ & _ & Hs & _). exists (tgt_id x). exact Hs.
Defined.
