(* ===== verification/Resync.v ===== *)
(** * The fleet resync

    Models [resyncPass], [safeReconcile] and [acquireSlot] of
    [cp/internal/reconciler/reconciler.go]: one pass over the fleet by a handful
    of workers that claim servers off a shared index, each reconcile under one
    of the slots it shares with everything else that reconciles, and the verdict
    the pass reports.  The workers' steps interleave in any order. *)

From S2P Require Import Prelude CpDb.
From stdpp Require Import pretty.

Local Open Scope string_scope.

Definition reconcileConcurrency : nat := 4.

(** How one server's turn ended: [safeReconcile] returned nil, an error or a
    recovered panic, or there was no slot *)
Inductive turn :=
| Converged
| FailedWith (e : string)
| PanickedWith (p : string)
| NoSlot.

(** The error handed to [fail] for server [sv] *)
Definition turn_error (sv : string) (o : turn) : option string :=
  match o with
  | Converged => None
  | FailedWith e => Some e
  | PanickedWith p => Some ("panic reconciling server " +:+ sv +:+ ": " +:+ p +:+ ": reconcile panic")
  | NoSlot => Some ("resync: no reconcile slot for server " +:+ sv)
  end.

Definition failing (o : turn) : bool := match o with Converged => false | _ => true end.
Definition panicking (o : turn) : bool := match o with PanickedWith _ => true | _ => false end.

(** Where a worker stands in its loop *)
Inductive worker :=
| Claiming
| Waiting (idx : nat)
| Running (idx : nat)
| Stopped.

#[export] Instance worker_eq_dec : EqDecision worker.
Proof. solve_decision. Defined.

Record pass := mkPass {
  pa_next : nat;
  pa_workers : list worker;
  pa_others : nat;                     (* slots held by other reconciles *)
  pa_attempted : nat;
  pa_failed : nat;
  pa_panicked : bool;
  pa_err : option string;
  pa_done : list (nat * turn);      (* the turns that ended, for the record *)
}.

Definition running (w : worker) : bool := match w with Running _ => true | _ => false end.
Definition slots_used (p : pass) : nat := length (List.filter running (pa_workers p)) + pa_others p.

Definition set_worker (i : nat) (w : worker) (p : pass) : pass :=
  mkPass (pa_next p) (<[i := w]> (pa_workers p)) (pa_others p) (pa_attempted p) (pa_failed p) (pa_panicked p)
    (pa_err p) (pa_done p).

Definition claim (n : nat) (i : nat) (p : pass) : pass :=
  let idx := pa_next p in
  let p := mkPass (S idx) (pa_workers p) (pa_others p) (pa_attempted p) (pa_failed p) (pa_panicked p) (pa_err p) (pa_done p) in
  if (n <=? idx)%nat then set_worker i Stopped p
  else set_worker i (Waiting idx)
    (mkPass (pa_next p) (pa_workers p) (pa_others p) (S (pa_attempted p)) (pa_failed p) (pa_panicked p) (pa_err p) (pa_done p)).

(** [fail], or nothing when the turn ended well *)
Definition ended (sv : string) (idx : nat) (o : turn) (p : pass) : pass :=
  mkPass (pa_next p) (pa_workers p) (pa_others p) (pa_attempted p)
    (if failing o then S (pa_failed p) else pa_failed p)
    (panicking o || pa_panicked p)
    (match pa_err p with Some e => Some e | None => turn_error sv o end)
    (pa_done p ++ [(idx, o)]).

Section pass.
Context (servers : list (string * string)) (cap : nat).

Definition server_at (idx : nat) : string := default "" (fst <$> servers !! idx).

(** A worker's step *)
Inductive work (p : pass) : pass -> Prop :=
| work_claim i : pa_workers p !! i = Some Claiming -> work p (claim (length servers) i p)
| work_slot i idx : pa_workers p !! i = Some (Waiting idx) -> (slots_used p < cap)%nat ->
    work p (set_worker i (Running idx) p)
| work_no_slot i idx : pa_workers p !! i = Some (Waiting idx) ->
    work p (ended (server_at idx) idx NoSlot (set_worker i Stopped p))
| work_end i idx o : pa_workers p !! i = Some (Running idx) -> o <> NoSlot ->
    work p (ended (server_at idx) idx o (set_worker i Claiming p)).

Definition with_others (k : nat) (p : pass) : pass :=
  mkPass (pa_next p) (pa_workers p) k (pa_attempted p) (pa_failed p) (pa_panicked p) (pa_err p) (pa_done p).

(** A step of the process: a worker's, or another reconcile takes or gives back
    a slot. *)
Inductive pass_step (p : pass) : pass -> Prop :=
| pass_work p' : work p p' -> pass_step p p'
| pass_take : (slots_used p < cap)%nat -> pass_step p (with_others (S (pa_others p)) p)
| pass_give k : pa_others p = S k -> pass_step p (with_others k p).

Definition pass_start (others : nat) : pass :=
  mkPass 0 (replicate (min reconcileConcurrency (length servers)) Claiming) others 0 0 false None [].

(** [wg.Wait()] *)
Definition finished (p : pass) : Prop := Forall (eq Stopped) (pa_workers p).

(** What the pass returns *)
Definition pass_verdict (p : pass) : option string :=
  if (pa_failed p =? 0)%nat then None
  else if pa_panicked p
  then Some ("resync: " +:+ pretty (pa_failed p) +:+ " of " +:+ pretty (pa_attempted p) +:+
             " server(s) failed to reconcile: " +:+ deref (pa_err p))
  else if (pa_failed p <? pa_attempted p)%nat then None
  else Some ("resync: all " +:+ pretty (pa_attempted p) +:+ " server(s) failed to reconcile: " +:+ deref (pa_err p)).
End pass.

(** ** The invariant *)

(** The servers a worker has in hand *)
Definition in_hand (w : worker) : list nat := match w with Waiting i | Running i => [i] | _ => [] end.
Definition held (ws : list worker) : list nat := ws ≫= in_hand.
#[local] Arguments held _ : simpl never.
#[local] Arguments Nat.min _ _ : simpl never.

Section invariant.
Context (servers : list (string * string)) (cap : nat).
#[local] Abbreviation n := (length servers).

Record pass_ok (p : pass) : Prop := {
  pk_workers : length (pa_workers p) = min reconcileConcurrency n;
  pk_slots : (slots_used p <= cap)%nat;
  pk_claimed : (map fst (pa_done p) ++ held (pa_workers p))%list ≡ₚ seq 0 (min (pa_next p) n);
  pk_attempted : pa_attempted p = (length (pa_done p) + length (held (pa_workers p)))%nat;
  pk_failed : pa_failed p = length (List.filter (fun x => failing x.2) (pa_done p));
  pk_panicked : pa_panicked p = existsb (fun x => panicking x.2) (pa_done p);
  pk_stopped : Stopped ∈ pa_workers p -> (n < pa_next p)%nat \/ exists i, (i, NoSlot) ∈ pa_done p;
}.

Lemma held_insert i w w' ws : ws !! i = Some w ->
  exists l1 l2, held ws = (l1 ++ in_hand w ++ l2)%list /\ held (<[i := w']> ws) = (l1 ++ in_hand w' ++ l2)%list.
Proof.
  intros Hi. exists (held (take i ws)), (held (drop (S i) ws)). unfold held. split.
  - rewrite <- (take_drop_middle ws i w Hi) at 1. by rewrite bind_app, bind_cons.
  - rewrite insert_take_drop by (by eapply lookup_lt_Some). by rewrite bind_app, bind_cons.
Qed.

Lemma running_insert i w w' ws : ws !! i = Some w ->
  (length (List.filter running (<[i := w']> ws)) + (if running w then 1 else 0) =
   length (List.filter running ws) + (if running w' then 1 else 0))%nat.
Proof.
  intros Hi. rewrite insert_take_drop by (by eapply lookup_lt_Some).
  rewrite <- (take_drop_middle ws i w Hi) at 3. rewrite !List.filter_app, !length_app. cbn.
  destruct (running w), (running w'); cbn; lia.
Qed.

Lemma stopped_insert (i : nat) (w : worker) (ws : list worker) : w <> Stopped -> Stopped ∈ <[i := w]> ws -> Stopped ∈ ws.
Proof.
  intros Hw (j & Hj)%list_elem_of_lookup. apply list_lookup_insert_Some in Hj as [(_ & ? & _)|[_ Hj]]; [done|].
  by eapply list_elem_of_lookup_2.
Qed.

Lemma done_snoc_failed l idx o : length (List.filter (fun x : nat * turn => failing x.2) (l ++ [(idx, o)])) =
  ((if failing o then S else id) (length (List.filter (fun x : nat * turn => failing x.2) l)))%nat.
Proof. rewrite List.filter_app, length_app. cbn. destruct (failing o); cbn; unfold id; lia. Qed.

(** A step that turns one worker's state, ending a turn or not *)
Lemma turn_claimed (l1 l2 d : list nat) m (idx : nat) :
  (d ++ (l1 ++ [idx] ++ l2))%list ≡ₚ m -> ((d ++ [idx]) ++ (l1 ++ l2))%list ≡ₚ m.
Proof. intros <-. rewrite <- app_assoc. apply Permutation_app_head. cbn. apply Permutation_middle. Qed.

Lemma claim_ok i p : pa_workers p !! i = Some Claiming -> pass_ok p -> pass_ok (claim n i p).
Proof.
  intros Hi [Hl Hs Hc Ha Hf Hp Ht]. unfold claim. destruct (Nat.leb_spec n (pa_next p)) as [Hn|Hn].
  - destruct (held_insert i _ Stopped _ Hi) as (l1 & l2 & E1 & E2). cbn in E1, E2.
    pose proof (running_insert i _ Stopped _ Hi) as Hr. cbn in Hr.
    split; cbn; [by rewrite length_insert|unfold slots_used in *; cbn; lia| |by rewrite E2, <- E1|done|done|left; lia].
    rewrite E2, <- E1, Hc. by replace (min (S (pa_next p)) n) with (min (pa_next p) n) by lia.
  - destruct (held_insert i _ (Waiting (pa_next p)) _ Hi) as (l1 & l2 & E1 & E2). cbn in E1, E2.
    pose proof (running_insert i _ (Waiting (pa_next p)) _ Hi) as Hr. cbn in Hr.
    split; cbn; [by rewrite length_insert|unfold slots_used in *; cbn; lia| | |done|done|].
    + rewrite E2. replace (min (S (pa_next p)) n) with (S (pa_next p)) by lia.
      rewrite seq_S. replace (min (pa_next p) n) with (pa_next p) in Hc by lia. rewrite <- Hc, E1. cbn.
      rewrite app_assoc, <- Permutation_middle, app_assoc. symmetry. apply Permutation_app_comm.
    + rewrite E2, Ha, E1. rewrite !length_app. cbn. lia.
    + intros H%stopped_insert; [|done]. destruct (Ht H) as [?|?]; [left; lia|by right].
Qed.

Lemma slot_ok i idx p : pa_workers p !! i = Some (Waiting idx) -> (slots_used p < cap)%nat ->
  pass_ok p -> pass_ok (set_worker i (Running idx) p).
Proof.
  intros Hi Hlt [Hl Hs Hc Ha Hf Hp Ht].
  destruct (held_insert i _ (Running idx) _ Hi) as (l1 & l2 & E1 & E2). cbn in E1, E2.
  pose proof (running_insert i _ (Running idx) _ Hi) as Hr. cbn in Hr.
  split; cbn; [by rewrite length_insert|unfold slots_used in *; cbn; lia|by rewrite E2, <- E1|by rewrite E2, <- E1|done|done|].
  intros H%stopped_insert; [auto|done].
Qed.

(** A turn that ends: the worker stops when there was no slot, and goes on
    otherwise. *)
Lemma ended_ok i idx o w w' sv p : pa_workers p !! i = Some w -> in_hand w = [idx] -> in_hand w' = [] -> running w' = false ->
  (w' = Stopped -> o = NoSlot) -> pass_ok p -> pass_ok (ended sv idx o (set_worker i w' p)).
Proof.
  intros Hi Hw Hw' Hr' Hst [Hl Hs Hc Ha Hf Hp Ht].
  destruct (held_insert i _ w' _ Hi) as (l1 & l2 & E1 & E2). rewrite Hw in E1. rewrite Hw' in E2. cbn in E2.
  pose proof (running_insert i _ w' _ Hi) as Hr. rewrite Hr' in Hr.
  split; cbn.
  - by rewrite length_insert.
  - unfold slots_used in *. cbn. destruct (running w); lia.
  - rewrite map_app, E2. apply (turn_claimed l1 l2 (map fst (pa_done p)) _ idx). by rewrite <- E1.
  - rewrite E2, Ha, E1, !length_app. cbn. lia.
  - rewrite done_snoc_failed, Hf. by destruct (failing o).
  - rewrite existsb_app, Hp. cbn. rewrite orb_false_r. apply orb_comm.
  - intros Hin. destruct (decide (w' = Stopped)) as [->|Hne].
    + right. exists idx. apply elem_of_app. right. rewrite (Hst eq_refl). left.
    + apply stopped_insert in Hin; [|done]. destruct (Ht Hin) as [?|(j & Hj)]; [by left|]. right. exists j.
      apply elem_of_app. by left.
Qed.

Lemma others_ok k p : (length (List.filter running (pa_workers p)) + k <= cap)%nat -> pass_ok p -> pass_ok (with_others k p).
Proof. intros Hk [Hl Hs Hc Ha Hf Hp Ht]. by split. Qed.

Lemma step_ok p p' : pass_step servers cap p p' -> pass_ok p -> pass_ok p'.
Proof.
  intros [p1 [i Hi|i idx Hi Hlt|i idx Hi|i idx o Hi Ho]|Hlt|k Hk] Hok.
  - by apply claim_ok.
  - by apply slot_ok.
  - by eapply ended_ok.
  - by eapply ended_ok.
  - apply others_ok; [|done]. unfold slots_used in Hlt. lia.
  - apply others_ok; [|done]. pose proof (pk_slots _ Hok) as Hs. unfold slots_used in Hs. lia.
Qed.

Lemma start_ok others : (others <= cap)%nat -> pass_ok (pass_start servers others).
Proof.
  intros Ho. unfold pass_start. set (k := min reconcileConcurrency n).
  assert (Hh : held (replicate k Claiming) = []) by (induction k; cbn; auto).
  assert (Hr : List.filter running (replicate k Claiming) = []) by (induction k; cbn; auto).
  split; cbn; rewrite ?Hh; try done.
  - apply length_replicate.
  - unfold slots_used. cbn. rewrite Hr. cbn. lia.
  - intros H%elem_of_replicate_inv. discriminate.
Qed.

Lemma run_ok others p : (others <= cap)%nat -> rtc (pass_step servers cap) (pass_start servers others) p -> pass_ok p.
Proof.
  intros Ho H. pose proof (start_ok others Ho) as H0. revert H0. induction H as [p|p1 p2 p3 H12 _ IH]; [done|].
  intros H1. apply IH. by eapply step_ok.
Qed.

(** *** What a finished pass has seen *)

Lemma finished_held p : finished p -> held (pa_workers p) = [].
Proof.
  unfold finished, held. induction (pa_workers p) as [|w ws IH]; [done|]. intros [<- H]%Forall_cons. cbn. auto.
Qed.

Lemma failing_count (l : list (nat * turn)) :
  (length (List.filter (fun x => failing x.2) l) <= length l)%nat /\
  (length (List.filter (fun x => failing x.2) l) = 0%nat <-> forall x, x ∈ l -> x.2 = Converged) /\
  ((length (List.filter (fun x => failing x.2) l) < length l)%nat <-> exists x, x ∈ l /\ x.2 = Converged).
Proof.
  induction l as [|[i o] l (IH1 & IH2 & IH3)]; cbn.
  - split; [done|]. split; [split; [by intros _ x ?%elem_of_nil|done]|]. split; [lia|]. by intros (x & ?%elem_of_nil & _).
  - destruct (failing o) eqn:Eo; cbn.
    + assert (Hne : o <> Converged) by (intros ->; done).
      split; [lia|]. split; [split; [done|]; intros H; by destruct (Hne (H _ (list_elem_of_here _ _)))|].
      rewrite <- Nat.succ_lt_mono, IH3. split; intros (x & Hx & E).
      * exists x. split; [by right|done].
      * apply elem_of_cons in Hx as [->|Hx]; [done|eauto].
    + assert (He : o = Converged) by (by destruct o). subst o. split; [lia|]. split.
      * rewrite IH2. split; [intros H x [->|Hx]%elem_of_cons; auto|]. intros H x Hx. apply H. by right.
      * split; [intros _; exists (i, Converged); split; [left|done]|lia].
Qed.

Lemma finished_verdict p : pass_ok p -> finished p ->
  pass_verdict p = None <->
  (forall x, x ∈ pa_done p -> panicking x.2 = false) /\ (pa_done p = [] \/ exists x, x ∈ pa_done p /\ x.2 = Converged).
Proof.
  intros [_ _ _ Ha Hf Hp _] Hfin. rewrite (finished_held p Hfin) in Ha. cbn in Ha. rewrite Nat.add_0_r in Ha.
  destruct (failing_count (pa_done p)) as (H1 & H2 & H3). rewrite <- Hf, <- Ha in *.
  assert (Hpan : pa_panicked p = false <-> forall x, x ∈ pa_done p -> panicking x.2 = false).
  { rewrite Hp, <- not_true_iff_false, existsb_elem.
    split; [|intros H (x & Hx & E); by rewrite (H x Hx) in E].
    intros H x Hx. apply not_true_iff_false. intros E. apply H. eauto. }
  unfold pass_verdict. destruct (Nat.eqb_spec (pa_failed p) 0) as [E0|E0].
  - split; [|done]. intros _. pose proof (proj1 H2 E0) as Hall. split; [intros x Hx; by rewrite (Hall x Hx)|].
    destruct (pa_done p) as [|x l]; [by left|]. right. exists x. split; [left|apply Hall; left].
  - destruct (pa_panicked p) eqn:Epan.
    + split; [done|]. intros [Hn _]. by apply Hpan in Hn.
    + destruct (Nat.ltb_spec (pa_failed p) (pa_attempted p)) as [Hlt|Hge].
      * split; [|done]. intros _. split; [by apply Hpan|]. right. by apply H3.
      * split; [done|]. intros [_ [Hnil|Hex%H3]]; [|lia]. exfalso. apply E0, H2. rewrite Hnil. by intros x ?%elem_of_nil.
Qed.

Lemma finished_all p : pass_ok p -> finished p -> (forall x, x ∈ pa_done p -> x.2 <> NoSlot) ->
  map fst (pa_done p) ≡ₚ seq 0 n.
Proof.
  intros [Hl _ Hc _ _ _ Ht] Hfin Hno. rewrite (finished_held p Hfin), app_nil_r in Hc. rewrite Hc.
  destruct n as [|m] eqn:En; [by rewrite Nat.min_0_r|]. assert (Hin : Stopped ∈ pa_workers p).
  { unfold finished in Hfin. destruct (pa_workers p) as [|w ws]; [done|]. apply Forall_cons in Hfin as [<- _]. left. }
  destruct (Ht Hin) as [Hlt|(i & Hi)]; [by rewrite Nat.min_r by lia|]. by destruct (Hno _ Hi).
Qed.
End invariant.

(** The verdict of a resync means what it says: whatever the interleaving of
    its workers with each other and with every other reconcile, a pass that ends
    gave no server more than one turn, gave every server of the fleet one unless
    a slot could not be had, and reports an error exactly when a reconcile
    panicked or no server at all converged - so one unreachable host never reads
    as a dead control plane, and a dead control plane never as a healthy one. *)
Theorem resync_verdict servers cap others p : (others <= cap)%nat ->
  rtc (pass_step servers cap) (pass_start servers others) p -> finished p ->
  NoDup (map fst (pa_done p)) /\ (forall i, i ∈ map fst (pa_done p) -> (i < length servers)%nat) /\
  ((forall x, x ∈ pa_done p -> x.2 <> NoSlot) -> map fst (pa_done p) ≡ₚ seq 0 (length servers)) /\
  (pass_verdict p = None <->
    (forall x, x ∈ pa_done p -> panicking x.2 = false) /\
    (pa_done p = [] \/ exists x, x ∈ pa_done p /\ x.2 = Converged)).
Proof.
  intros Ho H Hfin. pose proof (run_ok servers cap others p Ho H) as Hok.
  pose proof (pk_claimed _ _ _ Hok) as Hc. rewrite (finished_held p Hfin), app_nil_r in Hc.
  split; [rewrite Hc; apply NoDup_seq|]. split; [intros i Hi; rewrite Hc in Hi; apply elem_of_seq in Hi; lia|].
  split; [by apply (finished_all servers cap)|]. by apply (finished_verdict servers cap).
Qed.

(** ** It ends *)

Definition weight (w : worker) : nat := match w with Claiming => 1 | Waiting _ => 3 | Running _ => 2 | Stopped => 0 end.
Fixpoint weights (ws : list worker) : nat := match ws with [] => 0 | w :: ws => weight w + weights ws end.

Definition to_do (n : nat) (p : pass) : nat := 3 * (n - pa_next p) + weights (pa_workers p).

(** A run with [k] steps of the workers among its steps *)
Inductive pass_run (servers : list (string * string)) (cap : nat) : nat -> pass -> pass -> Prop :=
| run_nil p : pass_run servers cap 0 p p
| run_work k p1 p2 p3 : work servers cap p1 p2 -> pass_run servers cap k p2 p3 -> pass_run servers cap (S k) p1 p3
| run_other k p1 p2 p3 : pass_step servers cap p1 p2 -> pa_workers p2 = pa_workers p1 -> pa_next p2 = pa_next p1 ->
    pass_run servers cap k p2 p3 -> pass_run servers cap k p1 p3.

Lemma weights_insert i w w' ws : ws !! i = Some w -> (weights (<[i := w']> ws) + weight w = weights ws + weight w')%nat.
Proof.
  intros Hi. rewrite insert_take_drop by (by eapply lookup_lt_Some). rewrite <- (take_drop_middle ws i w Hi) at 3.
  generalize (take i ws) (drop (S i) ws). clear. intros l1 l2. induction l1 as [|x l1 IH]; cbn; lia.
Qed.

Lemma work_decreases servers cap p p' : work servers cap p p' -> (to_do (length servers) p' < to_do (length servers) p)%nat.
Proof.
  intros [i Hi|i idx Hi _|i idx Hi|i idx o Hi _]; unfold to_do.
  - unfold claim. destruct (Nat.leb_spec (length servers) (pa_next p)); cbn.
    + pose proof (weights_insert i _ Stopped _ Hi) as H1. cbn in H1. lia.
    + pose proof (weights_insert i _ (Waiting (pa_next p)) _ Hi) as H1. cbn in H1. lia.
  - pose proof (weights_insert i _ (Running idx) _ Hi) as H1. cbn in *. lia.
  - pose proof (weights_insert i _ Stopped _ Hi) as H1. cbn in *. lia.
  - pose proof (weights_insert i _ Claiming _ Hi) as H1. cbn in *. lia.
Qed.

Lemma work_progress servers cap p : finished p \/ exists p', work servers cap p p'.
Proof.
  destruct (decide (Forall (eq Stopped) (pa_workers p))) as [H|H]; [by left|]. right.
  apply not_Forall_Exists, Exists_exists in H; [|intros w; apply _]. destruct H as (w & (i & Hi)%list_elem_of_lookup & Hw).
  destruct w as [|idx|idx|]; [eexists; by eapply work_claim|eexists; by eapply work_no_slot|
    eexists; by eapply (work_end servers cap p i idx Converged)|by destruct Hw].
Qed.

Lemma run_count servers cap k p p' : pass_run servers cap k p p' -> (k + to_do (length servers) p' <= to_do (length servers) p)%nat.
Proof.
  induction 1 as [p|k p1 p2 p3 Hw _ IH|k p1 p2 p3 _ E1 E2 _ IH]; [lia| |].
  - pose proof (work_decreases _ _ _ _ Hw). lia.
  - unfold to_do in *. rewrite E1, E2 in IH. exact IH.
Qed.

Lemma run_rtc servers cap k p p' : pass_run servers cap k p p' -> rtc (pass_step servers cap) p p'.
Proof.
  induction 1 as [|k p1 p2 p3 Hw _ IH|k p1 p2 p3 Hs _ _ _ IH]; [done|..]; (eapply rtc_l; [|exact IH]); [by apply pass_work|done].
Qed.

(** A resync cannot hang: however other reconciles come and go, the workers
    of a pass over n servers take at most 3n+4 steps, and until the pass is over
    one of them has a step to take - waiting for a slot ends too, with the slot
    or without it - while the reconciles of the whole process never exceed the
    slots there are. *)
Theorem resync_terminates servers cap others k p : (others <= cap)%nat ->
  pass_run servers cap k (pass_start servers others) p ->
  (k <= 3 * length servers + reconcileConcurrency)%nat /\ (finished p \/ exists p', work servers cap p p') /\
  (slots_used p <= cap)%nat.
Proof.
  intros Ho H. split; [|split].
  - pose proof (run_count _ _ _ _ _ H) as Hc. unfold to_do in Hc. cbn [pa_next pa_workers pass_start] in Hc.
    assert (Hw : weights (replicate (min reconcileConcurrency (length servers)) Claiming) = min reconcileConcurrency (length servers)).
    { generalize (min reconcileConcurrency (length servers)) as m. induction m as [|m IH]; cbn; lia. }
    rewrite Hw in Hc. lia.
  - apply work_progress.
  - apply (pk_slots servers), (run_ok servers cap others); [done|]. by eapply run_rtc.
Qed.

(** *** A pass *)

Definition demo_servers : list (string * string) := [("srv_1", "org"); ("srv_2", "org")].

(** One server's host is down; the other converges. *)
Definition demo_end : pass :=
  let claim i := claim 2 i in
  claim 1 (claim 0 (ended "srv_2" 1 Converged (set_worker 1 Claiming
    (ended "srv_1" 0 (FailedWith "connection refused") (set_worker 0 Claiming
      (set_worker 1 (Running 1) (set_worker 0 (Running 0) (claim 1 (claim 0 (pass_start demo_servers 1)))))))))).

Lemma demo_pass_run : pass_run demo_servers reconcileConcurrency 8 (pass_start demo_servers 1) demo_end.
Proof.
  unfold demo_end. eapply run_work; [apply (work_claim demo_servers _ _ 0); reflexivity|].
  eapply run_work; [apply (work_claim demo_servers _ _ 1); reflexivity|].
  eapply run_work; [apply (work_slot demo_servers _ _ 0 0); [reflexivity|vm_compute; lia]|].
  eapply run_work; [apply (work_slot demo_servers _ _ 1 1); [reflexivity|vm_compute; lia]|].
  eapply run_work; [apply (work_end demo_servers _ _ 0 0 (FailedWith "connection refused")); [reflexivity|done]|].
  eapply run_work; [apply (work_end demo_servers _ _ 1 1 Converged); [reflexivity|done]|].
  eapply run_work; [apply (work_claim demo_servers _ _ 0); reflexivity|].
  eapply run_work; [apply (work_claim demo_servers _ _ 1); reflexivity|]. apply run_nil.
Qed.

Lemma resync_verdict_witness :
  map fst (pa_done demo_end) ≡ₚ seq 0 2 /\ pa_failed demo_end = 1%nat /\ pass_verdict demo_end = None.
Proof.
  destruct (resync_verdict demo_servers reconcileConcurrency 1 demo_end) as (_ & _ & H & V).
  - vm_compute. lia.
  - eapply run_rtc, demo_pass_run.
  - repeat constructor.
  - split; [|split; [reflexivity|]].
    + apply H. intros x Hx. cbn in Hx. apply elem_of_cons in Hx as [->|[->|[]%elem_of_nil]%elem_of_cons]; done.
    + apply V. split; [intros x Hx; cbn in Hx; apply elem_of_cons in Hx as [->|[->|[]%elem_of_nil]%elem_of_cons]; done|].
      right. exists (1%nat, Converged). split; [right; left|done].
Defined.

Lemma resync_terminates_witness : (8 <= 3 * length demo_servers + reconcileConcurrency)%nat /\ (slots_used demo_end <= reconcileConcurrency)%nat.
Proof.
  destruct (resync_terminates demo_servers reconcileConcurrency 1 8 demo_end) as (H1 & _ & H2).
  - vm_compute. lia.
  - exact demo_pass_run.
  - split; [exact H1|exact H2].
Defined.
