(* ===== verification/ConnPool.v ===== *)
(** * Reconciles and the connection pool

    Models [acquireSlot] and [ReconcileAsync] of
    [cp/internal/reconciler/reconciler.go] with [LockServerReconcile] of
    [cp/internal/store/dsd_store.go]: a reconcile takes one of the bounded slots,
    checks a connection out of the pool, tries the server's advisory lock on it -
    giving the connection back before it tries again - and, holding that
    connection, needs a second one for each of its reads.  The pool is shared
    with the request handlers, which hold one connection at a time. *)

From S2P Require Import Prelude Resync.
From stdpp Require Import pretty.

(** Where a reconcile stands; a locked one has so many reads to go. *)
Inductive stage :=
| Queued                     (* waiting for a slot *)
| Slotted                    (* asking the pool for the lock's connection *)
| Trying                     (* [pg_try_advisory_lock] *)
| Backoff                    (* contended: connection released, sleeping *)
| Locked (reads : nat)       (* the lock is held, on its connection *)
| Reading (reads : nat)      (* with a second connection *)
| Over.

Record pool_task := mkTask { tk_server : string; tk_stage : stage }.

Record pool_state := mkPoolState {
  ps_tasks : list pool_task;
  ps_handlers : nat;           (* connections the request handlers hold *)
}.

Definition slots (st : stage) : nat := match st with Queued | Over => 0 | _ => 1 end.
Definition locking (st : stage) : bool := match st with Locked _ | Reading _ => true | _ => false end.
Definition has_lock (t : pool_task) : bool := locking (tk_stage t).
Definition conns (st : stage) : nat := match st with Trying | Locked _ => 1 | Reading _ => 2 | _ => 0 end.

Fixpoint total (f : pool_task -> nat) (ts : list pool_task) : nat := match ts with [] => 0 | t :: ts => f t + total f ts end.
Definition slots_of (t : pool_task) : nat := slots (tk_stage t).
Definition conns_of (t : pool_task) : nat := conns (tk_stage t).

Definition slots_taken (s : pool_state) : nat := total slots_of (ps_tasks s).
Definition checked_out (s : pool_state) : nat := total conns_of (ps_tasks s) + ps_handlers s.

Definition set_stage (i : nat) (t : pool_task) (st : stage) (s : pool_state) : pool_state :=
  mkPoolState (<[i := mkTask (tk_server t) st]> (ps_tasks s)) (ps_handlers s).

(** The lock is advisory and belongs to a session: whoever was given it. *)
Definition lock_held (serverID : string) (s : pool_state) : Prop :=
  exists t, t ∈ ps_tasks s /\ tk_server t = serverID /\ has_lock t = true.

Section pool.
Context (cap pool : nat).

(** What a reconcile does by itself *)
Inductive advance (s : pool_state) (i : nat) (t : pool_task) : stage -> stage -> Prop :=
| adv_slot : slots_taken s < cap -> advance s i t Queued Slotted
| adv_conn : checked_out s < pool -> advance s i t Slotted Trying
| adv_lock k : ~ lock_held (tk_server t) s -> advance s i t Trying (Locked k)
| adv_busy : lock_held (tk_server t) s -> advance s i t Trying Backoff
| adv_again : advance s i t Backoff Slotted
| adv_skip : advance s i t Backoff Over                    (* past [reconcileLockWait] *)
| adv_read k : checked_out s < pool -> advance s i t (Locked (S k)) (Reading k)
| adv_back k : advance s i t (Reading k) (Locked k)
| adv_unlock : advance s i t (Locked 0) Over.

(** The moves of the process, apart from its deadlines *)
Inductive move (s : pool_state) : pool_state -> Prop :=
| move_task i t st : ps_tasks s !! i = Some t -> advance s i t (tk_stage t) st -> move s (set_stage i t st s)
| move_give k : ps_handlers s = S k -> move s (mkPoolState (ps_tasks s) k).

(** And everything else that may happen: a deadline expires, a reconcile is
    asked for, a handler checks a connection out *)
Inductive pool_step (s : pool_state) : pool_state -> Prop :=
| pool_move s' : move s s' -> pool_step s s'
| pool_expire i t : ps_tasks s !! i = Some t -> pool_step s (set_stage i t Over s)
| pool_ask serverID : pool_step s (mkPoolState (ps_tasks s ++ [mkTask serverID Queued]) (ps_handlers s))
| pool_handler : checked_out s < pool -> pool_step s (mkPoolState (ps_tasks s) (S (ps_handlers s))).

Definition idle : pool_state := mkPoolState [] 0.

(** ** The invariant *)

Record pool_ok (s : pool_state) : Prop := {
  pl_slots : slots_taken s <= cap;
  pl_conns : checked_out s <= pool;
  pl_lock i j t u : ps_tasks s !! i = Some t -> ps_tasks s !! j = Some u ->
    has_lock t = true -> has_lock u = true -> tk_server t = tk_server u -> i = j;
}.

Lemma total_insert f i t u ts : ts !! i = Some t -> total f (<[i := u]> ts) + f t = total f ts + f u.
Proof.
  intros Hi. rewrite insert_take_drop by (by eapply lookup_lt_Some). rewrite <- (take_drop_middle ts i t Hi) at 3.
  generalize (take i ts) (drop (S i) ts). clear. intros l1 l2. induction l1 as [|x l1 IH]; cbn; lia.
Qed.

Lemma total_app f l1 l2 : total f (l1 ++ l2) = total f l1 + total f l2.
Proof. induction l1 as [|x l1 IH]; cbn; lia. Qed.

Lemma total_le f g ts : (forall t, f t <= g t) -> total f ts <= total g ts.
Proof. intros H. induction ts as [|t ts IH]; cbn; [lia|]. specialize (H t). lia. Qed.

(** A stage that takes no more than it had, or finds what it takes *)
Lemma set_stage_ok s i t st : ps_tasks s !! i = Some t -> pool_ok s ->
  slots_taken s + slots st <= cap + slots (tk_stage t) ->
  checked_out s + conns st <= pool + conns (tk_stage t) ->
  (locking st = true -> locking (tk_stage t) = true \/ ~ lock_held (tk_server t) s) ->
  pool_ok (set_stage i t st s).
Proof.
  intros Hi [Hs Hc Hl] Ls Lc Ll. unfold slots_taken, checked_out in *.
  pose proof (total_insert slots_of i t (mkTask (tk_server t) st) _ Hi) as E1.
  pose proof (total_insert conns_of i t (mkTask (tk_server t) st) _ Hi) as E2.
  change (slots_of (mkTask (tk_server t) st)) with (slots st) in E1. change (slots_of t) with (slots (tk_stage t)) in E1.
  change (conns_of (mkTask (tk_server t) st)) with (conns st) in E2. change (conns_of t) with (conns (tk_stage t)) in E2.
  split; unfold slots_taken, checked_out; cbn [ps_tasks ps_handlers set_stage].
  - lia.
  - lia.
  - assert (Hother : forall j u, j <> i -> ps_tasks s !! j = Some u -> has_lock u = true -> tk_server u = tk_server t ->
      has_lock (mkTask (tk_server t) st) = true -> False).
    { intros j u Hne Hj Hu Es Hst. destruct (Ll Hst) as [Ht|Hn]; [by apply Hne, (Hl j i u t)|].
      apply Hn. exists u. split; [by eapply list_elem_of_lookup_2|done]. }
    intros a b x y Ha Hb Hx Hy E.
    apply list_lookup_insert_Some in Ha as [(<- & <- & _)|[Na Ha]], Hb as [(<- & <- & _)|[Nb Hb]].
    + done.
    + exfalso. by eapply (Hother b y).
    + exfalso. by eapply (Hother a x).
    + by eapply Hl.
Qed.

Lemma move_ok s s' : move s s' -> pool_ok s -> pool_ok s'.
Proof.
  intros [i [srv st0] st Hi Ha|k Hk] Hok.
  - pose proof Hok as [Hs Hc Hl]. cbn [tk_stage] in Ha.
    inversion Ha; subst; (apply set_stage_ok; [done|done|..]); cbn [slots conns locking tk_stage tk_server] in *;
      try lia; try done; auto.
  - destruct Hok as [Hs Hc Hl]. split; [done| |done]. unfold checked_out in *. cbn. lia.
Qed.

Lemma pool_step_ok s s' : pool_step s s' -> pool_ok s -> pool_ok s'.
Proof.
  intros [s1 Hm|i [srv st0] Hi|srv|Hlt] Hok.
  - by eapply move_ok.
  - pose proof Hok as [Hs Hc Hl]. apply set_stage_ok; [done|done|..]; cbn [slots conns locking tk_stage]; [lia|lia|done].
  - destruct Hok as [Hs Hc Hl]. split; unfold slots_taken, checked_out in *; cbn.
    + rewrite total_app. cbn. lia.
    + rewrite total_app. cbn. lia.
    + intros i j t u Hi Hj Ht Hu E. apply lookup_snoc_Some in Hi as [[_ Hi]|[_ <-]], Hj as [[_ Hj]|[_ <-]]; [by eapply Hl|done..].
  - destruct Hok as [Hs Hc Hl]. split; [done| |done]. unfold checked_out in *. cbn. lia.
Qed.

Lemma reachable_ok s : rtc pool_step idle s -> pool_ok s.
Proof.
  assert (H0 : pool_ok idle) by (split; [unfold slots_taken; cbn; lia|unfold checked_out; cbn; lia|done]).
  intros H. revert H0. induction H as [s|s1 s2 s3 H12 _ IH]; [done|]. intros H1. apply IH. by eapply pool_step_ok.
Qed.

(** ** No deadlock *)

Lemma total_zero f ts : (forall t, t ∈ ts -> f t = 0) -> total f ts = 0.
Proof.
  induction ts as [|t ts IH]; intros H; cbn; [done|]. rewrite (H t) by left. apply IH. intros u Hu. apply H. by right.
Qed.

Lemma total_elem f ts t : t ∈ ts -> f t <= total f ts.
Proof. induction ts as [|u ts IH]; [by intros ?%elem_of_nil|]. intros [->|H]%elem_of_cons; cbn; [lia|]. specialize (IH H). lia. Qed.

(** Once stuck, every reconcile is queued, wants a connection for the lock or a
    connection to read with, or is over. *)
Lemma stuck_stage s t : (forall s', ~ move s s') -> t ∈ ps_tasks s ->
  (tk_stage t = Queued /\ cap <= slots_taken s) \/ (tk_stage t = Slotted /\ pool <= checked_out s) \/
  ((exists k, tk_stage t = Locked (S k)) /\ pool <= checked_out s) \/ tk_stage t = Over.
Proof.
  intros Hst (i & Hi)%list_elem_of_lookup.
  assert (Hno : forall st, ~ advance s i t (tk_stage t) st) by (intros st Ha; by eapply Hst, move_task).
  destruct (tk_stage t) as [| | | |[|k]|k|] eqn:E.
  - left. split; [done|]. apply Nat.nlt_ge. intros H. by eapply Hno, adv_slot.
  - right. left. split; [done|]. apply Nat.nlt_ge. intros H. by eapply Hno, adv_conn.
  - exfalso. destruct (decide (Exists (fun u => tk_server u = tk_server t /\ has_lock u = true) (ps_tasks s))) as [Hx|Hx].
    + eapply Hno, adv_busy. apply Exists_exists in Hx as (u & Hu & ?). by exists u.
    + eapply (Hno (Locked 0)), adv_lock. intros (u & Hu & ?). apply Hx, Exists_exists. eauto.
  - exfalso. by eapply Hno, adv_again.
  - exfalso. by eapply Hno, adv_unlock.
  - right. right. left. split; [by exists k|]. apply Nat.nlt_ge. intros H. by eapply Hno, adv_read.
  - exfalso. by eapply Hno, adv_back.
  - by right; right; right.
Qed.

Lemma not_stuck s : 0 < cap -> cap < pool -> pool_ok s -> (forall s', ~ move s s') ->
  forall t, t ∈ ps_tasks s -> tk_stage t = Over.
Proof.
  intros Hc Hp [Hs Hk _] Hst.
  assert (Hh : ps_handlers s = 0) by (destruct (ps_handlers s) as [|k] eqn:E; [done|]; by destruct (Hst _ (move_give s k E))).
  assert (Hle : checked_out s <= slots_taken s).
  { unfold checked_out, slots_taken. rewrite Hh, Nat.add_0_r.
    assert (Hall : forall t, t ∈ ps_tasks s -> conns_of t <= slots_of t).
    { intros t Ht. unfold conns_of, slots_of.
      destruct (stuck_stage s t Hst Ht) as [[-> _]|[[-> _]|[[[k ->] _]| ->]]]; cbn; lia. }
    revert Hall. clear. induction (ps_tasks s) as [|t ts IH]; intros H; cbn; [lia|].
    specialize (H t (list_elem_of_here _ _)) as Ht. assert (total conns_of ts <= total slots_of ts); [|lia].
    apply IH. intros u Hu. apply H. by right. }
  assert (Hq : forall t, t ∈ ps_tasks s -> tk_stage t = Queued \/ tk_stage t = Over).
  { intros t Ht. destruct (stuck_stage s t Hst Ht) as [[? _]|[[_ ?]|[[_ ?]|?]]]; [by left|lia|lia|by right]. }
  assert (Hz : slots_taken s = 0).
  { apply total_zero. intros t Ht. unfold slots_of. by destruct (Hq t Ht) as [->| ->]. }
  intros t Ht. destruct (stuck_stage s t Hst Ht) as [[_ ?]|[[_ ?]|[[_ ?]|?]]]; [lia|lia|lia|done].
Qed.

(** A move exists or not: stuck states are recognised. *)
Definition stage_moves (s : pool_state) (t : pool_task) : bool :=
  match tk_stage t with
  | Queued => (slots_taken s <? cap)%nat
  | Slotted | Locked (S _) => (checked_out s <? pool)%nat
  | Trying | Backoff | Locked 0 | Reading _ => true
  | Over => false
  end.

Definition can_move (s : pool_state) : bool := (0 <? ps_handlers s)%nat || existsb (stage_moves s) (ps_tasks s).

Lemma can_move_spec s : can_move s = true <-> exists s', move s s'.
Proof.
  unfold can_move. rewrite orb_true_iff, existsb_elem. split.
  - intros [Hh%Nat.ltb_lt|(t & (i & Hi)%list_elem_of_lookup & Ht)].
    + destruct (ps_handlers s) as [|k] eqn:E; [lia|]. eexists. by apply move_give.
    + unfold stage_moves in Ht. destruct t as [srv st]. cbn in Ht. assert (H : exists st', advance s i (mkTask srv st) st st').
      { destruct st as [| | | |[|k]|k|]; try apply Nat.ltb_lt in Ht; try done; try (eexists; by constructor).
        destruct (decide (Exists (fun u => tk_server u = srv /\ has_lock u = true) (ps_tasks s))) as [Hx|Hx].
        - exists Backoff. apply adv_busy. apply Exists_exists in Hx as (u & Hu & ?). by exists u.
        - exists (Locked 0). apply adv_lock. intros (u & Hu & ?). apply Hx, Exists_exists. eauto. }
      destruct H as [st' H]. eexists. by eapply move_task.
  - intros (s' & [i t st Hi Ha|k Hk]); [right|left; rewrite Hk; done].
    exists t. split; [by eapply list_elem_of_lookup_2|]. unfold stage_moves.
    inversion Ha; subst; cbn; try done; by apply Nat.ltb_lt.
Qed.
End pool.

(** C15: Reconciles cannot wedge the control plane: with fewer slots than the pool
    has connections - four, under a floor of twenty - in every state that any
    burst of reconciles and requests leads to, as long as some reconcile is not
    over some connection holder or some reconcile can move on, without waiting for
    a deadline; the reconciles together hold at most twice as many connections as
    there are slots, and no two of them hold the lock of one server. *)
Theorem reconciles_never_wedge cap pool s : 0 < cap -> cap < pool -> rtc (pool_step cap pool) idle s ->
  ((exists t, t ∈ ps_tasks s /\ tk_stage t <> Over) -> exists s', move cap pool s s') /\
  total conns_of (ps_tasks s) <= 2 * cap /\ checked_out s <= pool /\
  (forall i j t u, ps_tasks s !! i = Some t -> ps_tasks s !! j = Some u -> has_lock t = true -> has_lock u = true ->
     tk_server t = tk_server u -> i = j).
Proof.
  intros Hc Hp H. pose proof (reachable_ok cap pool s H) as Hok. split; [|split; [|split; apply Hok]].
  - intros (t & Ht & Hne). apply can_move_spec. destruct (can_move cap pool s) eqn:E; [done|]. exfalso. apply Hne.
    apply (not_stuck cap pool s Hc Hp Hok); [|done]. intros s' Hm.
    assert (can_move cap pool s = true) by (apply can_move_spec; eauto). congruence.
  - pose proof (pl_slots _ _ _ Hok) as Hs. unfold slots_taken in Hs.
    assert (total conns_of (ps_tasks s) <= 2 * total slots_of (ps_tasks s)); [|lia].
    clear. induction (ps_tasks s) as [|t ts IH]; cbn; [lia|].
    assert (conns_of t <= 2 * slots_of t) by (unfold conns_of, slots_of; destruct (tk_stage t); cbn; lia). lia.
Qed.

(** Without the bound - as many slots as connections - they can: every
    connection is held by a reconcile that waits for one. *)
Definition burst (n : nat) (st : stage) : pool_state :=
  mkPoolState (map (fun i => mkTask ("srv_" +:+ pretty i) st) (seq 0 n)) 0.

Lemma burst_snoc n st : ps_tasks (burst (S n) st) = (ps_tasks (burst n st) ++ [mkTask ("srv_" +:+ pretty n) st])%list.
Proof. unfold burst. cbn [ps_tasks]. rewrite seq_S, map_app. done. Qed.

Lemma burst_total n st : total conns_of (ps_tasks (burst n st)) = n * conns st /\ total slots_of (ps_tasks (burst n st)) = n * slots st.
Proof.
  induction n as [|n [IH1 IH2]]; [done|]. rewrite burst_snoc, !total_app, IH1, IH2. cbn. unfold conns_of, slots_of. cbn. lia.
Qed.

(** The last of the tasks, stage by stage *)
Lemma last_step cap pool ts srv st st' : advance cap pool (mkPoolState (ts ++ [mkTask srv st]) 0) (length ts) (mkTask srv st) st st' ->
  pool_step cap pool (mkPoolState (ts ++ [mkTask srv st]) 0) (mkPoolState (ts ++ [mkTask srv st']) 0).
Proof.
  intros Ha. assert (Hl : (ts ++ [mkTask srv st])%list !! length ts = Some (mkTask srv st))
    by (rewrite lookup_app_r, Nat.sub_diag by done; done).
  pose proof (pool_move _ _ _ _ (move_task cap pool (mkPoolState (ts ++ [mkTask srv st]) 0) _ _ _ Hl Ha)) as H.
  unfold set_stage in H. cbn [ps_tasks ps_handlers tk_server] in H.
  by rewrite insert_app_r_alt, Nat.sub_diag in H by done.
Qed.

Lemma burst_reached n cap pool : n <= cap -> n <= pool -> rtc (pool_step cap pool) idle (burst n (Locked 1)).
Proof.
  induction n as [|n IH]; intros Hc Hp; [apply rtc_refl|].
  etransitivity; [apply IH; lia|]. set (ts := ps_tasks (burst n (Locked 1))). set (srv := "srv_" +:+ pretty n).
  destruct (burst_total n (Locked 1)) as [Et Es]. cbn [conns slots] in Et, Es. fold ts in Et, Es.
  assert (Htot : forall st, total slots_of (ts ++ [mkTask srv st]) = n + slots st /\
    total conns_of (ts ++ [mkTask srv st]) = n + conns st).
  { intros st. rewrite !total_app, Et, Es. cbn. unfold slots_of, conns_of. cbn. lia. }
  assert (Hfree : forall st, ~ locking st = true -> ~ lock_held srv (mkPoolState (ts ++ [mkTask srv st]) 0)).
  { intros st Hst (t & Ht & E & Hl). cbn in Ht. apply elem_of_snoc in Ht as [Ht| ->]; [|done].
    unfold ts in Ht. apply list_elem_of_fmap in Ht as (i & -> & Hi%elem_of_seq). cbn in E.
    unfold srv in E. apply (inj (String.append "srv_")), (inj pretty) in E. lia. }
  replace (burst (S n) (Locked 1)) with (mkPoolState (ts ++ [mkTask srv (Locked 1)]) 0)
    by (unfold ts, srv; rewrite <- burst_snoc; done).
  eapply rtc_l; [apply (pool_ask cap pool (burst n (Locked 1)) srv)|]. cbn [ps_tasks ps_handlers]. fold ts.
  eapply rtc_l; [apply (last_step _ _ ts srv Queued Slotted), adv_slot|].
  { unfold slots_taken. cbn [ps_tasks ps_handlers]. rewrite (proj1 (Htot Queued)). cbn. lia. }
  eapply rtc_l; [apply (last_step _ _ ts srv Slotted Trying), adv_conn|].
  { unfold checked_out. cbn [ps_tasks ps_handlers]. rewrite (proj2 (Htot Slotted)). cbn. lia. }
  apply rtc_once, (last_step _ _ ts srv Trying (Locked 1)), adv_lock. by apply Hfree.
Qed.

(** The bound on the slots is what prevents it: with as many slots as the
    pool has connections, a burst of that many reconciles reaches a state in
    which each holds one connection and waits for a second, and nothing in the
    process can move until deadlines expire. *)
Theorem unbounded_reconciles_wedge n : 0 < n ->
  rtc (pool_step n n) idle (burst n (Locked 1)) /\ (forall s', ~ move n n (burst n (Locked 1)) s') /\
  checked_out (burst n (Locked 1)) = n.
Proof.
  intros Hn. destruct (burst_total n (Locked 1)) as [Et _]. cbn [conns] in Et.
  assert (Hout : checked_out (burst n (Locked 1)) = n) by (unfold checked_out; rewrite Et; cbn; lia).
  split; [by apply burst_reached|]. split; [|exact Hout]. intros s' Hm.
  assert (Hc : can_move n n (burst n (Locked 1)) = true) by (apply can_move_spec; eauto).
  unfold can_move in Hc. apply orb_true_iff in Hc as [Hc|Hc]; [done|]. apply existsb_elem in Hc as (t & Ht & Hs).
  unfold burst in Ht. cbn in Ht. apply list_elem_of_fmap in Ht as (i & -> & _).
  unfold stage_moves in Hs. cbn [tk_stage] in Hs. apply Nat.ltb_lt in Hs. lia.
Qed.

(** *** With the code's numbers *)

Definition pool_floor : nat := 20.

Lemma reconciles_never_wedge_witness :
  rtc (pool_step reconcileConcurrency pool_floor) idle (burst 4 (Locked 1)) /\
  (exists s', move reconcileConcurrency pool_floor (burst 4 (Locked 1)) s') /\
  total conns_of (ps_tasks (burst 4 (Locked 1))) <= 8.
Proof.
  assert (H : rtc (pool_step reconcileConcurrency pool_floor) idle (burst 4 (Locked 1)))
    by (apply burst_reached; unfold reconcileConcurrency, pool_floor; lia).
  destruct (reconciles_never_wedge reconcileConcurrency pool_floor (burst 4 (Locked 1))) as (Hm & Hc & _);
    [unfold reconcileConcurrency; lia|unfold reconcileConcurrency, pool_floor; lia|exact H|].
  split; [exact H|]. split; [|exact Hc]. apply Hm. eexists. split; [left|done].
Defined.

Lemma unbounded_reconciles_wedge_witness : checked_out (burst 20 (Locked 1)) = 20 /\ forall s', ~ move 20 20 (burst 20 (Locked 1)) s'.
Proof. destruct (unbounded_reconciles_wedge 20) as (_ & H1 & H2); [lia|]. done. Defined.
