(* ===== verification/ServerCatalog.v ===== *)
(** * Server types ([cp/internal/store/server_catalog.go], [server_units.go], [facts.go], [compat.go])

    What a server of a type may host, what it weighs on a bill and what its
    machine must have; the facts an agent reports about its machine, how they
    are cleaned and merged; the gate that compares the two, and the status a
    server takes from it. *)

From stdpp Require Import sorting.
From Stdlib Require Import Ascii SpecFloat.
From S2P Require Import Prelude GoStrings Json CpDb Engines.

Local Open Scope string_scope.

(** ** The catalogue *)

Record GPURequirement := mkGPURequirement { gq_Vendor : string; gq_Driver : bool }.

Record ServerRequirements := mkRequirements {
  rq_Distros : list string;
  rq_Arches : list string;
  rq_MinDiskBytes : Z;
  rq_GPU : option GPURequirement;
}.

Record Requirement := mkRequirement { req_ID : string; req_Fact : string; req_Text : string }.

Record ServerTypeSpec := mkServerType {
  ts_Type : string;
  ts_Label : string;
  ts_Hosts : list string;
  ts_Connectable : bool;
  ts_UnitWeight : Z;
  ts_Requires : ServerRequirements;
}.

Definition supportedDistroLabels : list (string * string) := [
  ("ubuntu-22.04", "Ubuntu 22.04 LTS");
  ("ubuntu-24.04", "Ubuntu 24.04 LTS");
  ("debian-12", "Debian 12")].

Definition allDistros : list string := map fst supportedDistroLabels.
Definition bothArches := ["amd64"; "arm64"].
Definition amd64Only := ["amd64"].

Definition gb : Z := 1000000000.
Definition databaseMinDisk : Z := 100 * gb.
Definition storageMinDisk : Z := 500 * gb.

Definition resourceKinds : list (string * string * string) := [
  ("app", "App", "application");
  ("postgres", "PostgreSQL", "database");
  ("mysql", "MySQL", "database");
  ("mongodb", "MongoDB", "database");
  ("redis", "Redis", "database");
  ("s3", "Object storage", "storage");
  ("llm", "LLM", "model")].

Definition serverCatalog : list ServerTypeSpec := [
  mkServerType "general" "General" ["app"; "postgres"; "mysql"; "mongodb"; "redis"] true 1
    (mkRequirements allDistros bothArches 0 None);
  mkServerType "vps" "VPS" ["app"; "postgres"; "mysql"; "mongodb"; "redis"] true 1
    (mkRequirements allDistros bothArches 0 None);
  mkServerType "database" "Database" ["postgres"; "mysql"; "mongodb"; "redis"] true 1
    (mkRequirements allDistros bothArches databaseMinDisk None);
  mkServerType "storage" "Storage" ["s3"] true 1
    (mkRequirements allDistros bothArches storageMinDisk None);
  mkServerType "gpu" "GPU" ["llm"; "app"] true 4
    (mkRequirements allDistros amd64Only 0 (Some (mkGPURequirement "nvidia" true)));
  mkServerType "k8s" "Cluster node" [] false 2
    (mkRequirements allDistros bothArches 0 None);
  mkServerType "build" "Build" [] true 1
    (mkRequirements allDistros bothArches 0 None)].

(** [catalogByType] *)
Definition ServerTypeSpecFor (t : string) : option ServerTypeSpec :=
  List.find (fun s => String.eqb (ts_Type s) t) serverCatalog.

Definition IsServerType (t : string) : bool := bool_decide (ServerTypeSpecFor t <> None).

Definition ServerTypes : list string := map ts_Type serverCatalog.

Definition has_string (l : list string) (x : string) : bool := existsb (String.eqb x) l.

(** [nil] for an unknown kind *)
Definition AllowedServerTypes (kind : string) : option (list string) :=
  if has_string (map (fun k => k.1.1) resourceKinds) kind
  then Some (map ts_Type (List.filter (fun s => has_string (ts_Hosts s) kind) serverCatalog))
  else None.

Definition ResourceKindLabel (kind : string) : string :=
  default kind ((fun k => k.1.2) <$> List.find (fun k => String.eqb k.1.1 kind) resourceKinds).

Definition CanHost (serverType kind : string) : bool :=
  match ServerTypeSpecFor serverType with
  | None => false
  | Some spec => has_string (ts_Hosts spec) kind
  end.

Definition DistroSupported (distro : string) : bool := has_string allDistros distro.

Definition clusterExcludedKinds := ["postgres"; "mysql"; "redis"; "mongodb"; "s3"; "llm"].
Definition ClusterKindAllowed (kind : string) : bool := negb (has_string clusterExcludedKinds kind).

(** *** Billing units *)

Definition DefaultServerUnitWeight : Z := 1.

Definition ServerUnitWeight (serverType : string) : Z :=
  match ServerTypeSpecFor serverType with
  | Some spec => ts_UnitWeight spec
  | None => DefaultServerUnitWeight
  end.

(** *** Its sentences *)

Definition distroLabelsFor (ids : list string) : list string :=
  map (fun id => default id (snd <$> List.find (fun d => String.eqb d.1 id) supportedDistroLabels)) ids.

(** ["a, b or c"] *)
Definition joinOr (items : list string) : string :=
  match rev items with
  | [] => ""
  | [x] => x
  | x :: front => join_with ", " (rev front) +:+ " or " +:+ x
  end.

(** What [fmt] makes of a [float64] with [%g] and [%.1f] *)
Class FloatText := { fmt_g : spec_float -> string; fmt_f1 : spec_float -> string }.

Definition terabytes (b : Z) : spec_float := SFdiv 53 1024 (float_of_Z b) (float_of_Z (1000 * gb)).

Section sentences.
Context `{!FloatText}.

Definition formatDiskBytes (b : Z) : string :=
  if (1000 * gb <=? b)%Z then fmt_g (terabytes b) +:+ " TB" else dec (b / gb) +:+ " GB".

Definition humanBytes (b : Z) : string :=
  if (1000 * gb <=? b)%Z then fmt_f1 (terabytes b) +:+ " TB" else dec (b / gb) +:+ " GB".

(** [ServerRequirements.List] *)
Definition List_ (r : ServerRequirements) : list Requirement :=
  ((match rq_Distros r with
    | [] => []
    | _ => [mkRequirement "distro" "distro" ("Runs " +:+ joinOr (distroLabelsFor (rq_Distros r)) +:+ ".")]
    end) ++
   (match rq_Arches r with
    | [] => []
    | _ => [mkRequirement "arch" "arch" (joinOr (rq_Arches r) +:+ " CPU architecture.")]
    end) ++
   (if (0 <? rq_MinDiskBytes r)%Z
    then [mkRequirement "disk" "diskTotalBytes" ("At least " +:+ formatDiskBytes (rq_MinDiskBytes r) +:+ " of disk.")]
    else []) ++
   (match rq_GPU r with
    | None => []
    | Some g =>
        let vendor := to_upper (gq_Vendor g) in
        [mkRequirement "gpu" "gpu"
           (if gq_Driver g then "An " +:+ vendor +:+ " GPU with a usable driver." else "An " +:+ vendor +:+ " GPU.")]
    end))%list.

End sentences.

(** ** Facts

    [servers.facts] is a JSON object, held as a map. *)

Definition facts := gmap string json.

Definition name_le (a b : string * json) : Prop := String.leb a.1 b.1 = true.
#[export] Instance name_le_dec a b : Decision (name_le a b).
Proof. unfold name_le. apply _. Defined.

(** [json.Marshal] of a [map[string]json.RawMessage]: sorted keys *)
Definition enc_object (m : facts) : json := JObj (merge_sort name_le (map_to_list m)).

(** [json.Unmarshal] into one: the last of a repeated key *)
Definition dec_object (v : json) : option facts :=
  match v with JObj fs => Some (list_to_map (rev fs)) | _ => None end.

(** The length of a value's text *)
Class JsonSize := { json_size : json -> Z }.

(** The zero values of the wire: null, the empty string, 0 and false *)
Definition isZeroJSON (raw : option json) : bool :=
  match raw with
  | None | Some JNull => true
  | Some (JStr s) => String.eqb s ""
  | Some (JInt z) => (z =? 0)%Z
  | Some (JBool b) => negb b
  | _ => false
  end.

Definition zeroValuedFactKeys := ["distro"; "distroName"; "diskPath"; "diskTotalBytes"].
Definition maxFactKeys : Z := 64.
Definition maxFactBytes : Z := 16384.

(** The keys that say nothing are dropped. *)
Definition telling (kv : string * json) : Prop :=
  kv.2 <> JNull /\ (kv.1 ∈ zeroValuedFactKeys -> isZeroJSON (Some kv.2) = false).
#[export] Instance telling_dec kv : Decision (telling kv).
Proof.
  destruct kv as [k v]. unfold telling. cbn.
  destruct v; try (right; intros [? _]; done); destruct (decide (k ∈ zeroValuedFactKeys));
    match goal with
    | |- Decision (_ /\ (_ -> ?b = false)) => destruct b eqn:?;
        [first [left; split; [done|intros; done] | right; intros [_ Hz]; by specialize (Hz ltac:(assumption))
               | left; split; [done|intros; contradiction]]
        | left; split; [done|intros; done]]
    end.
Defined.

Section facts.
Context `{!JsonSize}.

Definition informative (obj : facts) : facts :=
  let out := filter telling obj in
  if (maxFactKeys <? Z.of_nat (size out))%Z then ∅
  else if (maxFactBytes <? json_size (enc_object out))%Z then ∅
  else out.

(** [None] for a payload that is absent or no JSON *)
Definition normalizeFacts (payload : option json) : facts :=
  match payload ≫= dec_object with
  | None => ∅
  | Some obj => informative obj
  end.

End facts.

(** ** The typed view *)

Record GPUCard := mkGPUCard { gc_Index : Z; gc_Model : string; gc_VRAMBytes : Z }.

Record GPUInventory := mkGPU {
  gpu_Vendor : string;
  gpu_Model : string;
  gpu_Count : Z;
  gpu_VRAMBytesPerGPU : Z;
  gpu_VRAMBytesTotal : Z;
  gpu_DriverVersion : string;
  gpu_Cards : list GPUCard;
}.

Record HostFacts := mkFacts {
  hf_Arch : string;
  hf_Distro : string;
  hf_DistroName : string;
  hf_DiskTotalBytes : Z;
  hf_DiskFreeBytes : Z;
  hf_DiskPath : string;
  hf_GPU : option GPUInventory;
}.

Definition unknown_host : HostFacts := mkFacts "" "" "" 0 0 "" None.

Definition dec_card : json -> option GPUCard := dec_struct (fun fs =>
  i ← dec_int (jget fs "index"); m ← dec_str (jget fs "model"); v ← dec_uint (jget fs "vramBytes");
  Some (mkGPUCard i m v)).

Definition dec_gpu : json -> option GPUInventory := dec_struct (fun fs =>
  v ← dec_str (jget fs "vendor"); m ← dec_str (jget fs "model"); c ← dec_int (jget fs "count");
  p ← dec_uint (jget fs "vramBytesPerGpu"); t ← dec_uint (jget fs "vramBytesTotal");
  d ← dec_str (jget fs "driverVersion"); cards ← dec_list dec_card (jget fs "cards");
  Some (mkGPU v m c p t d cards)).

Definition dec_facts : json -> option HostFacts := dec_struct (fun fs =>
  arch ← dec_str (jget fs "arch"); distro ← dec_str (jget fs "distro"); name ← dec_str (jget fs "distroName");
  total ← dec_uint (jget fs "diskTotalBytes"); free ← dec_uint (jget fs "diskFreeBytes");
  path ← dec_str (jget fs "diskPath");
  gpu ← match jget fs "gpu" with
        | None | Some JNull => Some None
        | Some v => g ← dec_gpu v; Some (Some g)
        end;
  Some (mkFacts arch distro name total free path gpu)).

Definition ParseHostFacts `{!JsonSize} (m : facts) : HostFacts :=
  default unknown_host (dec_facts (enc_object (informative m))).

(** [reportedHostname] and [sanitizeServerName] *)
Definition maxServerNameLen : Z := 253.

(** [used] bytes were written; the bytes that continue a rune follow the first. *)
Fixpoint printable (used : nat) (s : string) : string :=
  match s with
  | EmptyString => EmptyString
  | String b s =>
      let n := nat_of_ascii b in
      if ((n <? 32) || (n =? 127))%nat then printable used s
      else if ((128 <=? n) && (n <? 192))%nat then String b (printable (S used) s)
      else if (Z.to_nat maxServerNameLen <=? used)%nat then EmptyString
      else String b (printable (S used) s)
  end.

Definition sanitizeServerName (name : string) : string :=
  trim_space (printable 0 (trim_space name)).

Definition reportedHostname (m : facts) : string :=
  sanitizeServerName (default "" (dec_struct (fun fs => dec_str (jget fs "hostname")) (enc_object m))).

(** ** The gate *)

Definition ServerStatusProvisioning := "provisioning".
Definition ServerStatusRunning := "running".
Definition ServerStatusUnreachable := "unreachable".
Definition ServerStatusIncompatible := "incompatible".
Definition ServerStatusDecommissioning := "decommissioning".

Definition maxFactText : nat := 120.
Definition clipFact (v : string) : string :=
  if (String.length v <=? maxFactText)%nat then v else trim_space (stake maxFactText v) +:+ "…".

Definition IncompatibilitySummary (fails : list FailedRequirement) : string :=
  match fails with
  | [] => ""
  | [f] => fr_Reason f
  | f :: rest => fr_Reason f +:+ " (+" +:+ dec (Z.of_nat (length rest)) +:+ " more)"
  end.

Section gate.
Context `{!FloatText}.

Definition failed (spec : ServerTypeSpec) (id detected because : string) : FailedRequirement :=
  let r := default (mkRequirement "" "" "") (List.find (fun r => String.eqb (req_ID r) id) (List_ (ts_Requires spec))) in
  mkFailed id (req_Fact r) (req_Text r) (clipFact detected)
    ("You connected this as a " +:+ ts_Label spec +:+ " server, but " +:+ clipFact because +:+ ".").

Definition check_distro (spec : ServerTypeSpec) (f : HostFacts) : list FailedRequirement :=
  let req := ts_Requires spec in
  if (0 <? length (rq_Distros req))%nat && negb (String.eqb (hf_Distro f) "") && negb (has_string (rq_Distros req) (hf_Distro f))
  then
    let detected := if String.eqb (hf_DistroName f) "" then hf_Distro f else hf_DistroName f in
    [failed spec "distro" detected ("it runs " +:+ detected +:+ " — that type needs " +:+ joinOr (distroLabelsFor (rq_Distros req)))]
  else [].

Definition check_arch (spec : ServerTypeSpec) (f : HostFacts) : list FailedRequirement :=
  let req := ts_Requires spec in
  if (0 <? length (rq_Arches req))%nat && negb (String.eqb (hf_Arch f) "") && negb (has_string (rq_Arches req) (hf_Arch f))
  then [failed spec "arch" (hf_Arch f) ("its CPU architecture is " +:+ hf_Arch f +:+ " — that type needs " +:+ joinOr (rq_Arches req))]
  else [].

Definition check_disk (spec : ServerTypeSpec) (f : HostFacts) : list FailedRequirement :=
  let floor := rq_MinDiskBytes (ts_Requires spec) in
  if ((0 <? floor) && (0 <? hf_DiskTotalBytes f) && (hf_DiskTotalBytes f <? floor))%Z
  then [failed spec "disk" (humanBytes (hf_DiskTotalBytes f))
          ("it has " +:+ humanBytes (hf_DiskTotalBytes f) +:+ " of disk — that type needs at least " +:+ formatDiskBytes floor)]
  else [].

Definition check_gpu (spec : ServerTypeSpec) (f : HostFacts) : list FailedRequirement :=
  match rq_GPU (ts_Requires spec), hf_GPU f with
  | Some req, Some gpu =>
      let vendor := to_upper (gq_Vendor req) in
      if (gpu_Count gpu =? 0)%Z || negb (equal_fold (gpu_Vendor gpu) (gq_Vendor req))
      then [failed spec "gpu" (if (0 <? gpu_Count gpu)%Z then dec (gpu_Count gpu) +:+ " × " +:+ gpu_Vendor gpu else "none")
              ("no " +:+ vendor +:+ " GPU was detected")]
      else if gq_Driver req && String.eqb (gpu_DriverVersion gpu) ""
      then [failed spec "gpu" (dec (gpu_Count gpu) +:+ " × " +:+ gpu_Vendor gpu +:+ ", no driver")
              ("its " +:+ vendor +:+ " GPU has no usable driver")]
      else []
  | _, _ => []
  end.

Definition CheckServerCompatibility (serverType : string) (f : HostFacts) : list FailedRequirement :=
  match ServerTypeSpecFor serverType with
  | None => []
  | Some spec => (check_distro spec f ++ check_arch spec f ++ check_disk spec f ++ check_gpu spec f)%list
  end.

End gate.

(** ** The status it leads to *)

Definition is_status (prev s : string) : bool := String.eqb prev s.

Definition compatibilityStatus (prev : string) (fails : list FailedRequirement) (agentCheckedIn : bool) : string :=
  if is_status prev ServerStatusDecommissioning then prev
  else match fails with
  | _ :: _ => ServerStatusIncompatible
  | [] =>
      if agentCheckedIn && (is_status prev ServerStatusProvisioning || is_status prev ServerStatusUnreachable
                            || is_status prev ServerStatusIncompatible)
      then ServerStatusRunning
      else if negb agentCheckedIn && is_status prev ServerStatusIncompatible then ServerStatusProvisioning
      else prev
  end.

(** 90 seconds, in microseconds *)
Definition DefaultStaleAfter : Z := 90000000.

Definition statusAfterTypeChange (prev : string) (fails : list FailedRequirement) (lastSeenAt : option Z)
    (now staleAfter : Z) : string :=
  if is_status prev ServerStatusDecommissioning then prev
  else match fails with
  | _ :: _ => ServerStatusIncompatible
  | [] =>
      if negb (is_status prev ServerStatusIncompatible) then prev
      else match lastSeenAt with
      | None => ServerStatusProvisioning
      | Some at_ => if (staleAfter <? now - at_)%Z then ServerStatusUnreachable else ServerStatusRunning
      end
  end.
