(* ===== verification/Billing.v ===== *)
(** * Billing ([cp/internal/store/billing.go])

    What a tenant owes and what happens when it does not pay: the hourly meter
    of connected servers, the units a subscription is priced on, the state of
    the subscription as Paddle's events tell it, the reminders and the caps.
    Times are microseconds of one clock. *)

From stdpp Require Import sorting.
From Stdlib Require Import SpecFloat.
From S2P Require Import Prelude GoStrings Json CpDb Deploy RenderDoc Engines Backups ServerCatalog.

Local Open Scope string_scope.
Local Open Scope io_scope.

Definition BillingUnitPrice : Z := 5.
Definition BillingFreeTier : Z := 3.
Definition BillingCurrency := "EUR".
Definition SubscriptionMinQuantity : Z := 1.

Definition hour_us : Z := 3600000000.
Definition BillingGracePeriod : Z := 14 * day_length.
Definition BillingDunningInterval : Z := 72 * hour_us.
Definition quantitySyncDebounce : Z := 30 * 60000000.
Definition quantitySyncWindow : Z := 24 * hour_us.

Definition statusOverFreeTier := "over_free_tier".

Record ServerUnitLine := mkUnitLine { ul_Type : string; ul_Count : Z; ul_Weight : Z; ul_Units : Z }.

Record BillingStatus := mkBillingStatus {
  bs_OrgID : string;
  bs_CustomerID : string;
  bs_SubscriptionID : string;
  bs_Status : string;
  bs_Quantity : Z;
}.

Record BillingSummary := mkSummary {
  bm_Configured : bool;
  bm_Connected : Z;
  bm_Units : Z;
  bm_BilledUnits : Z;
  bm_BillingWindowHours : Z;
  bm_BillableUnits : Z;
  bm_Breakdown : list ServerUnitLine;
  bm_FreeTier : Z;
  bm_UnitPrice : Z;
  bm_Currency : string;
  bm_Amount : Z;
  bm_ServerHoursThisMonth : Z;
  bm_Month : string;
  bm_Subscription : BillingStatus;
}.

Record DelinquentOrg := mkDelinquent {
  dq_OrgID : string;
  dq_Status : string;
  dq_SubscriptionID : string;
  dq_Since : Z;
  dq_GraceExpiresAt : Z;
  dq_Capped : bool;
  dq_Servers : Z;
  dq_Units : Z;
  dq_MonthlyValue : Z;
  dq_Currency : string;
}.

Record SubscriptionDrift := mkDrift { dr_OrgID : string; dr_SubscriptionID : string; dr_Billed : Z; dr_Want : Z }.

(** ** The meter *)

Definition sumZ (l : list Z) : Z := fold_right Z.add 0%Z l.

Definition sv_type (s : server_row) : string := col_type (sv_cols s).
Definition sv_status (s : server_row) : string := col_status (sv_cols s).

(** [deleted_at IS NULL AND status = 'running'] *)
Definition connected (s : server_row) : bool := negb (sv_deleted s) && String.eqb (sv_status s) ServerStatusRunning.
Definition connected_of (orgID : string) (t : tables) : list server_row :=
  List.filter (fun s => String.eqb (sv_org s) orgID && connected s) (servers (machines t)).

(** [date_trunc('hour', ...)] *)
Definition trunc_hour (now : Z) : Z := now / hour_us * hour_us.

Definition metered (hour : Z) (s : server_row) : hour_row :=
  mkHour (sv_org s) (sv_id s) hour (ServerUnitWeight (sv_type s)).

Definition same_hour (a b : hour_row) : bool :=
  String.eqb (sh_server a) (sh_server b) && (sh_hour a =? sh_hour b)%Z.

(** [INSERT ... ON CONFLICT DO NOTHING], under the primary key *)
Fixpoint insert_hours (new l : list hour_row) : list hour_row :=
  match new with
  | [] => l
  | h :: new => insert_hours new (if existsb (same_hour h) l then l else l ++ [h])%list
  end.

Definition SweepServerHours (now : Z) : io cp Z :=
  exec (fun _ t =>
    let l := server_hours (estate t) in
    let l' := insert_hours (map (metered (trunc_hour now)) (List.filter connected (servers (machines t)))) l in
    Ok (Z.of_nat (length l') - Z.of_nat (length l), set_hours (fun _ => l') t)%Z).

Definition unit_line (l : list server_row) (ty : string) : ServerUnitLine :=
  let n := Z.of_nat (length (List.filter (fun s => String.eqb (sv_type s) ty) l)) in
  mkUnitLine ty n (ServerUnitWeight ty) (n * ServerUnitWeight ty).

(** [GROUP BY type ORDER BY type] *)
Definition unit_lines (l : list server_row) : list ServerUnitLine :=
  map (unit_line l) (sort_strings (remove_dups (map sv_type l))).

Definition ConnectedServerUnits (orgID : string) : io cp (list ServerUnitLine * Z * Z) :=
  query (fun _ t =>
    let lines := unit_lines (connected_of orgID t) in
    (lines, sumZ (map ul_Count lines), sumZ (map ul_Units lines))).

(** ** The price *)

Definition BillableQuantity (units : Z) (hasSubscription : bool) : Z :=
  let q := (units - BillingFreeTier)%Z in
  let q := if (q <? 0)%Z then 0%Z else q in
  if hasSubscription && (q <? SubscriptionMinQuantity)%Z then SubscriptionMinQuantity else q.

Definition SubscriptionHoldsMinimum (sub : BillingStatus) : bool :=
  String.eqb (bs_Status sub) "active" && negb (String.eqb (bs_SubscriptionID sub) "").

(** The hours of an organisation since a time, its servers among them, and the
    largest weight a server had *)
Definition hours_since (orgID : string) (since : Z) (t : tables) : list hour_row :=
  List.filter (fun h => String.eqb (sh_org h) orgID && (since <=? sh_hour h)%Z) (server_hours (estate t)).
Definition peak_weight (l : list hour_row) (serverID : string) : Z :=
  fold_right Z.max 0%Z (map sh_weight (List.filter (fun h => String.eqb (sh_server h) serverID) l)).

Definition billedUnitsSQL (orgID : string) (since : Z) (t : tables) : Z :=
  let hours := hours_since orgID since t in
  Z.max (sumZ (map (fun s => ServerUnitWeight (sv_type s)) (connected_of orgID t)))
        (sumZ (map (peak_weight hours) (remove_dups (map sh_server hours)))).

Definition billableQuantitySQL (units : Z) : Z := Z.max SubscriptionMinQuantity (units - BillingFreeTier).

Definition BilledUnitsForOrg (orgID : string) (now : Z) : io cp Z :=
  query (fun _ => billedUnitsSQL orgID (now - quantitySyncWindow)).

(** ** The subscription *)

Definition billing_of (orgID : string) (t : tables) : option billing_row :=
  List.find (fun b => String.eqb (ob_org b) orgID) (org_billing (estate t)).

Definition status_of (b : billing_row) : BillingStatus :=
  mkBillingStatus (ob_org b) (ob_customer b) (ob_subscription b) (ob_status b) (ob_quantity b).

Definition GetBillingStatus (orgID : string) : io cp BillingStatus :=
  query (fun _ t => default (mkBillingStatus orgID "" "" "none" 0) (status_of <$> billing_of orgID t)).

Section billing.
Context {pg : Postgres}.

(** Newest first among the rows of the subscription, then of the customer *)
Definition OrgForPaddleIDs (subscriptionID customerID : string) : io cp string :=
  if String.eqb subscriptionID "" && String.eqb customerID "" then ret ""
  else query (fun _ t =>
    let sub b := String.eqb (ob_subscription b) subscriptionID in
    let hits := List.filter (fun b => (negb (String.eqb subscriptionID "") && sub b)
                  || (negb (String.eqb customerID "") && String.eqb (ob_customer b) customerID)) (org_billing (estate t)) in
    let newest := order_by (fun b => - ob_updated_at b)%Z in
    default "" (ob_org <$> head (newest (List.filter sub hits) ++ newest (List.filter (fun b => negb (sub b)) hits))%list)).

(** [webhook_deliveries]: [ON CONFLICT (delivery_id) DO NOTHING]; whether a row
    was inserted *)
Definition record_delivery (deliveryID : string) : io cp bool :=
  exec (fun _ t =>
    if has_string (webhook_deliveries (estate t)) deliveryID then Ok (false, t)
    else Ok (true, set_deliveries (fun l => l ++ [deliveryID])%list t)).

Definition WebhookSeen (deliveryID : string) : io cp bool :=
  fresh <- record_delivery deliveryID ;; ret (negb fresh).

(** *** Reminders *)

Definition billingDelinquent (status : string) : bool := String.eqb status "past_due" || String.eqb status "canceled".

Definition dunningDedupKey (subscriptionID status : string) (suffix : list string) : string :=
  fold_left (fun key s => key +:+ ":" +:+ s) suffix ("billing:" +:+ subscriptionID +:+ ":" +:+ status).

(** [int(remaining.Hours() / 24)], for microseconds: the floats of [time.Duration.Hours] *)
Definition SF_trunc (f : spec_float) : Z :=
  match f with
  | S754_finite s m e => let v := (if (0 <=? e)%Z then Zpos m * 2 ^ e else Zpos m / 2 ^ (- e))%Z in if s then (- v)%Z else v
  | _ => 0%Z
  end.
Definition duration_hours (us : Z) : spec_float :=
  SFadd 53 1024 (float_of_Z (Z.quot us hour_us))
    (SFdiv 53 1024 (float_of_Z (Z.rem us hour_us * 1000)) (float_of_Z (60 * 60 * Second))).
Definition whole_days (remaining : Z) : Z := SF_trunc (SFdiv 53 1024 (duration_hours remaining) (float_of_Z 24)).

(** Title and body; [remaining] in microseconds *)
Definition dunningNotice (status : string) (remaining : Z) : option (string * string) :=
  let capped := (remaining <=? 0)%Z in
  if String.eqb status "past_due" then
    Some ("Payment failed — subscription past due",
      if capped then
        "A subscription payment is still outstanding and the grace period has ended. " +:+
        "Your existing servers, deploys and backups keep running, but new servers and resources are paused. " +:+
        "Update the payment method in the customer portal to restore them."
      else
        "A subscription payment failed. Update the payment method in Billing; your servers keep running " +:+
        "for the next " +:+ dec (whole_days remaining) +:+ " days, nothing is paused. After that, new servers and resources are paused — existing ones keep running.")
  else if String.eqb status "canceled" then
    Some ("Subscription canceled",
      if capped then
        "This organization's subscription is canceled and the grace period has ended. " +:+
        "Existing servers, deploys and backups keep running, but new servers and resources are paused. " +:+
        "Subscribe again from the Billing page to restore them."
      else
        "This organization's subscription was canceled. Everything keeps running for the next " +:+ dec (whole_days remaining) +:+ " days; " +:+
        "after that, new servers and resources are paused (existing ones keep running). Subscribe again from the Billing page to avoid it.")
  else None.

Definition AlertPaymentFailed := "payment_failed".

(** *** Events *)

(** The row an event leaves in place of [old] *)
Definition billed_row (orgID : string) (inp : BillingStatus) (occurredAt now : Z) (old : option billing_row) : billing_row :=
  match old with
  | None => mkBilling orgID (bs_CustomerID inp) (bs_SubscriptionID inp) (bs_Status inp) (bs_Quantity inp) (Some occurredAt)
              now None None None now
  | Some b =>
      let changed := negb (String.eqb (ob_status b) (bs_Status inp)) in
      mkBilling (ob_org b) (bs_CustomerID inp)
        (if String.eqb (bs_SubscriptionID inp) "" then ob_subscription b else bs_SubscriptionID inp)
        (bs_Status inp) (bs_Quantity inp) (Some occurredAt)
        (if changed then now else ob_status_since b)
        (if changed then None else ob_dunning_last_at b)
        (ob_synced_quantity b) (ob_quantity_synced_at b) now
  end.

(** [occurredAt.Before(prev)], of a NULL that precedes everything *)
Definition stale_event (occurredAt : Z) (prev : option Z) : bool :=
  match prev with Some at_ => (occurredAt <? at_)%Z | None => false end.

Definition update_billing (orgID : string) (f : billing_row -> billing_row) : tables -> tables :=
  set_billing (map (fun b => if String.eqb (ob_org b) orgID then f b else b)).

(** [INSERT ... ON CONFLICT (org_id) DO UPDATE ... WHERE]: whether a row was
    written *)
Definition write_subscription (orgID : string) (inp : BillingStatus) (occurredAt : Z) : io cp bool :=
  exec (fun now t =>
    match billing_of orgID t with
    | None => Ok (true, set_billing (fun l => l ++ [billed_row orgID inp occurredAt now None])%list t)
    | Some b =>
        if stale_event occurredAt (ob_last_event_at b) then Ok (false, t)
        else Ok (true, update_billing orgID (fun b => billed_row orgID inp occurredAt now (Some b)) t)
    end).

Definition reminded (at_ : Z) (b : billing_row) : billing_row :=
  mkBilling (ob_org b) (ob_customer b) (ob_subscription b) (ob_status b) (ob_quantity b) (ob_last_event_at b)
    (ob_status_since b) (Some at_) (ob_synced_quantity b) (ob_quantity_synced_at b) (ob_updated_at b).

Definition upsertSubscriptionTx (orgID : string) (inp : BillingStatus) (actor : string) (occurredAt : Z) : io cp unit :=
  prev <- query (fun _ t => billing_of orgID t) ;;
  let prevStatus := default "none" (ob_status <$> prev) in
  if stale_event occurredAt (prev ≫= ob_last_event_at) then ret tt
  else
    written <- write_subscription orgID inp occurredAt ;;
    if negb written then ret tt
    else
      _ <- auditTx orgID actor ("Subscription " +:+ bs_Status inp) (bs_SubscriptionID inp) ;;
      if String.eqb (bs_Status inp) prevStatus then ret tt
      else match dunningNotice (bs_Status inp) BillingGracePeriod with
      | None => ret tt
      | Some (title, body) =>
          _ <- enqueueAlertTx orgID AlertPaymentFailed (dunningDedupKey (bs_SubscriptionID inp) (bs_Status inp) [])
                 BillingDunningInterval title body ;;
          update (fun now => update_billing orgID (reminded now))
      end.

Definition UpsertSubscription (orgID : string) (inp : BillingStatus) (actor : string) : io cp unit :=
  transaction (now <- clock ;; upsertSubscriptionTx orgID inp actor now).

Definition ApplyPaddleWebhook (deliveryID orgID : string) (inp : BillingStatus) (actor : string) (occurredAt : Z) : io cp bool :=
  transaction
    (fresh <- record_delivery deliveryID ;;
     if negb fresh then ret false
     else
       _ <- upsertSubscriptionTx orgID inp actor occurredAt ;;
       ret true).

(** *** What the operator sees *)

Definition delinquent_row (now units : Z) (t : tables) (b : billing_row) : DelinquentOrg :=
  let grace := (ob_status_since b + BillingGracePeriod)%Z in
  mkDelinquent (ob_org b) (ob_status b) (ob_subscription b) (ob_status_since b) grace (negb (now <? grace)%Z)
    (Z.of_nat (length (connected_of (ob_org b) t))) units (BillableQuantity units false * BillingUnitPrice) BillingCurrency.

Definition DelinquentOrgs (now : Z) : io cp (list DelinquentOrg) :=
  query (fun _ t =>
    map (fun b => delinquent_row now (billedUnitsSQL (ob_org b) (now - quantitySyncWindow) t) t b)
      (order_by ob_status_since (List.filter (fun b => billingDelinquent (ob_status b)) (org_billing (estate t))))).

(** The organisations with a live server, or with metered hours *)
Definition tenants (since : Z) (t : tables) : list string :=
  remove_dups (map sv_org (List.filter (fun s => negb (sv_deleted s)) (servers (machines t))) ++
               map sh_org (List.filter (fun h => (since <=? sh_hour h)%Z) (server_hours (estate t))))%list.

Definition unbilled_row (now : Z) (t : tables) (orgID : string) : DelinquentOrg :=
  let units := billedUnitsSQL orgID (now - quantitySyncWindow) t in
  mkDelinquent orgID (default "none" (ob_status <$> billing_of orgID t)) (default "" (ob_subscription <$> billing_of orgID t))
    now now true (Z.of_nat (length (connected_of orgID t))) units (BillableQuantity units false * BillingUnitPrice) BillingCurrency.

(** Ties on the units are left open. *)
Definition UnbilledOrgs (now : Z) : io cp (list DelinquentOrg) :=
  query (fun _ t =>
    let free orgID := negb (has_string ["active"; "trialing"; "paused"] (default "none" (ob_status <$> billing_of orgID t))) in
    List.filter (fun d => negb (dq_Units d <=? BillingFreeTier)%Z)
      (order_by (fun d => - dq_Units d)%Z
        (map (unbilled_row now t) (List.filter free (tenants (now - quantitySyncWindow) t))))).

Definition reminder_due (now : Z) (b : billing_row) : bool :=
  billingDelinquent (ob_status b) &&
  match ob_dunning_last_at b with None => true | Some at_ => (at_ <=? now - BillingDunningInterval)%Z end.

(** One organisation's reminder, a transaction *)
Definition remind (now : Z) (b : billing_row) (title body : string) : io cp unit :=
  transaction
    (_ <- enqueueAlertTx (ob_org b) AlertPaymentFailed (dunningDedupKey (ob_subscription b) (ob_status b) ["dunning"])
            BillingDunningInterval title body ;;
     update (fun _ => update_billing (ob_org b) (reminded now))).

Fixpoint remind_all (now : Z) (pending : list billing_row) (count : Z) : io cp Z :=
  match pending with
  | [] => ret count
  | b :: pending =>
      match dunningNotice (ob_status b) (ob_status_since b + BillingGracePeriod - now)%Z with
      | None => remind_all now pending count
      | Some (title, body) => _ <- remind now b title body ;; remind_all now pending (count + 1)
      end
  end.

Definition SweepBillingDunning (now : Z) : io cp Z :=
  pending <- query (fun _ t => order_by ob_status_since (List.filter (reminder_due now) (org_billing (estate t)))) ;;
  remind_all now pending 0.

(** *** The caps *)

Definition ErrBillingCapped (status : string) (since graceUntil : Z) : string :=
  if String.eqb status statusOverFreeTier then
    "this organization is using all " +:+ dec BillingFreeTier +:+ " free units and has no active subscription — " +:+
    "everything already running keeps running, but adding another server needs a subscription " +:+
    "(start one from Settings → Billing)"
  else
    let what := if String.eqb status "canceled" then "the subscription was canceled" else "payment is past due" in
    "billing is not current for this organization (" +:+ what +:+ " since " +:+ day_text (runDayUTC since) +:+
    "; the grace period ended " +:+ day_text (runDayUTC graceUntil) +:+ ") — " +:+
    "existing servers, deploys and backups keep running, but new servers and resources are paused until billing is restored in the customer portal".

Definition assertBillingNotCappedTx (orgID : string) (now : Z) : io cp unit :=
  row <- query (fun _ => billing_of orgID) ;;
  match row with
  | None => ret tt
  | Some b =>
      if negb (billingDelinquent (ob_status b)) then ret tt
      else
        let graceUntil := (ob_status_since b + BillingGracePeriod)%Z in
        if (now <? graceUntil)%Z then ret tt
        else fail (ErrBillingCapped (ob_status b) (ob_status_since b) graceUntil)
  end.

(** What counts toward the free tier: a server that may yet run a workload *)
Definition holds_unit (s : server_row) : bool :=
  negb (sv_deleted s) && has_string [ServerStatusProvisioning; ServerStatusRunning; ServerStatusUnreachable] (sv_status s).
Definition admitted_units (orgID : string) (t : tables) : Z :=
  sumZ (map (fun s => ServerUnitWeight (sv_type s))
    (List.filter (fun s => String.eqb (sv_org s) orgID && holds_unit s) (servers (machines t)))).

Definition assertFreeTierNotExhaustedTx (orgID newType : string) (now : Z) (billingConfigured : bool) : io cp unit :=
  if negb billingConfigured then ret tt
  else
    row <- query (fun _ => billing_of orgID) ;;
    let subscribed := match row with
      | None => false
      | Some b => billingDelinquent (ob_status b) || negb (String.eqb (ob_status b) "")
      end in
    if subscribed then ret tt
    else
      units <- query (fun _ => admitted_units orgID) ;;
      if (units + ServerUnitWeight newType <=? BillingFreeTier)%Z then ret tt
      else fail (ErrBillingCapped statusOverFreeTier now now).

(** ** Drift *)

(** A row of [counts] whose quantity must be pushed, with the quantity *)
Definition drift_of (now : Z) (t : tables) (b : billing_row) : option SubscriptionDrift :=
  let want := billableQuantitySQL (billedUnitsSQL (ob_org b) (now - quantitySyncWindow) t) in
  if String.eqb (ob_status b) "active" && negb (String.eqb (ob_subscription b) "")
     && negb (want =? ob_quantity b)%Z
     && (match ob_quantity_synced_at b with None => true | Some at_ => (at_ <? now - quantitySyncDebounce)%Z end
         || negb (bool_decide (ob_synced_quantity b = Some want)))
  then Some (mkDrift (ob_org b) (ob_subscription b) (ob_quantity b) want)
  else None.

Definition SubscriptionsNeedingQuantitySync (now : Z) : io cp (list SubscriptionDrift) :=
  query (fun _ t => order_by (fun _ => 0%Z) (omap (drift_of now t) (org_billing (estate t)))).

Definition synced (quantity now : Z) (b : billing_row) : billing_row :=
  mkBilling (ob_org b) (ob_customer b) (ob_subscription b) (ob_status b) (ob_quantity b) (ob_last_event_at b)
    (ob_status_since b) (ob_dunning_last_at b) (Some quantity) (Some now) now.

Definition RecordQuantitySynced (orgID : string) (quantity : Z) (actor : string) : io cp unit :=
  transaction
    (_ <- update (fun now => update_billing orgID (synced quantity now)) ;;
     auditTx orgID actor "Subscription quantity synced" (dec quantity)).

(** ** The readout *)

(** The first day of [now]'s month, and the month *)
Definition month_start (now : Z) : Z :=
  let day := runDayUTC now in
  let '(_, _, d) := civil day in ((day - (d - 1)) * day_length)%Z.
Definition month_text (now : Z) : string :=
  let '(y, m, _) := civil (runDayUTC now) in dec_pad 4 y +:+ "-" +:+ dec_pad 2 m.

Definition BillingSummaryForOrg (orgID : string) (now : Z) (configured : bool) : io cp BillingSummary :=
  live <- ConnectedServerUnits orgID ;;
  let '(breakdown, connected, units) := live in
  billedUnits <- BilledUnitsForOrg orgID now ;;
  hours <- query (fun _ t => Z.of_nat (length (hours_since orgID (month_start now) t))) ;;
  sub <- GetBillingStatus orgID ;;
  let billable := BillableQuantity billedUnits (SubscriptionHoldsMinimum sub) in
  ret (mkSummary configured connected units billedUnits (quantitySyncWindow / hour_us) billable breakdown BillingFreeTier
         BillingUnitPrice BillingCurrency (billable * BillingUnitPrice) hours (month_text now) sub).

End billing.
