(* ===== verification/BillingClaims.v ===== *)
(** * What billing guarantees

    The state of a subscription does not depend on the order in which Paddle's
    events arrive, on how often they do, or on the database failing in between;
    the price on the dashboard, at the checkout and in the sweep is one number;
    the meter is written once and prices a peak for a day; a delinquent tenant
    is capped when its grace period ends, and not before. *)

From S2P Require Import Prelude GoStrings Json CpDb Deploy RenderDoc Engines DsdReports Backups ServerCatalog Billing.

Local Open Scope string_scope.
Local Open Scope io_scope.

(** ** Rows of [org_billing] *)

Lemma find_update {A} (key : A -> string) (f : A -> A) k k' (l : list A) :
  (forall x, key (f x) = key x) ->
  List.find (fun x => String.eqb (key x) k) (map (fun x => if String.eqb (key x) k' then f x else x) l) =
  (fun x => if String.eqb k k' then f x else x) <$> List.find (fun x => String.eqb (key x) k) l.
Proof.
  intros Hf. induction l as [|x l IH]; cbn; [done|].
  destruct (String.eqb_spec (key x) k') as [E'|E'].
  - rewrite Hf. destruct (String.eqb_spec (key x) k) as [E|E]; [|exact IH]. cbn. by subst; rewrite String.eqb_refl.
  - destruct (String.eqb_spec (key x) k) as [E|E]; [|exact IH]. cbn. subst.
    by destruct (String.eqb_spec (key x) k').
Qed.

Lemma billing_of_update org org' f t : (forall b, ob_org (f b) = ob_org b) ->
  billing_of org (update_billing org' f t) = (fun b => if String.eqb org org' then f b else b) <$> billing_of org t.
Proof. intros Hf. by apply find_update. Qed.

Lemma billing_of_snoc org b t :
  billing_of org (set_billing (fun l => l ++ [b])%list t) =
  match billing_of org t with Some b' => Some b' | None => if String.eqb (ob_org b) org then Some b else None end.
Proof.
  unfold billing_of. cbn. induction (org_billing (estate t)) as [|x l IH]; cbn; [done|]. by destruct (String.eqb (ob_org x) org).
Qed.

Lemma billing_of_org org t b : billing_of org t = Some b -> ob_org b = org.
Proof. intros [_ E]%find_some. by apply String.eqb_eq. Qed.

(** ** Events *)

(** An event as [handlePaddleWebhook] hands it to the store *)
Record delivery := mkDelivery { dl_id : string; dl_org : string; dl_state : BillingStatus; dl_at : Z }.

(** What the events tell of a subscription: customer, status, quantity and when *)
Definition told_state : Type := string * string * Z * option Z.
Definition told (t : tables) (org : string) : option told_state :=
  (fun b => (ob_customer b, ob_status b, ob_quantity b, ob_last_event_at b)) <$> billing_of org t.

Definition state_of (e : delivery) : told_state :=
  (bs_CustomerID (dl_state e), bs_Status (dl_state e), bs_Quantity (dl_state e), Some (dl_at e)).

Definition outdated (e : delivery) (s : option told_state) : bool := stale_event (dl_at e) (s ≫= snd).

Definition tell (e : delivery) (s : option told_state) (org : string) : option told_state :=
  if String.eqb (dl_org e) org && negb (outdated e s) then Some (state_of e) else s.

Definition seen (e : delivery) (t : tables) : bool := has_string (webhook_deliveries (estate t)) (dl_id e).

Section events.
Context {pg : Postgres}.

Definition deliver_event (e : delivery) : io cp bool := ApplyPaddleWebhook (dl_id e) (dl_org e) (dl_state e) "paddle-webhook" (dl_at e).

(** What a delivery leaves *)
Definition tells (e : delivery) (t0 t : tables) : Prop :=
  webhook_deliveries (estate t) = (webhook_deliveries (estate t0) ++ if seen e t0 then [] else [dl_id e])%list /\
  (forall org, told t org = if seen e t0 then told t0 org else tell e (told t0 org) org) /\
  forall org b, billing_of org t0 = Some b -> exists b', billing_of org t = Some b' /\
    (ob_status b' = ob_status b -> ob_status_since b' = ob_status_since b).

Definition in_billing (now : Z) (P : tables -> Prop) : assertion := fun n t => n = now /\ P t.

(** Statements that leave [estate] alone *)
Definition estate_only (P : tables -> Prop) : Prop := forall t t', estate t' = estate t -> P t -> P t'.

Lemma does_audit_estate now P org actor action target : estate_only P ->
  does (in_billing now P) (auditTx org actor action target) (fun _ => in_billing now P) (at_time now).
Proof. intros HP. apply does_wrapping, does_update; intros n t [-> Ht]; [done|]. split; [done|]. by apply (HP t). Qed.

Lemma does_enqueue_estate now P org event key window title body : estate_only P ->
  does (in_billing now P) (enqueueAlertTx org event key window title body) (fun _ => in_billing now P) (at_time now).
Proof.
  intros HP. eapply does_bind.
  - apply does_wrapping, does_query. by intros n t [? ?].
  - intros u. eapply does_wrapping, does_update; intros n t [[-> Ht] _]; [done|]. split; [done|]. by apply (HP t).
Qed.

Lemma told_reminded now org t : forall o, told (update_billing org (reminded now) t) o = told t o.
Proof.
  intros o. unfold told. rewrite billing_of_update by done.
  destruct (billing_of o t); cbn; [|done]. by destruct (String.eqb o org).
Qed.

Lemma tells_estate e t0 : estate_only (tells e t0).
Proof.
  intros t t' E (H1 & H2 & H3). assert (Hb : forall org, billing_of org t' = billing_of org t) by (intros; unfold billing_of; by rewrite E).
  split_and!; [by rewrite E| |]; intros org; [rewrite <- H2; unfold told; by rewrite Hb|]. intros b. rewrite Hb. apply H3.
Qed.

(** The delivery is on record, the subscription not yet touched. *)
Definition recorded (e : delivery) (t0 t : tables) : Prop :=
  webhook_deliveries (estate t) = (webhook_deliveries (estate t0) ++ [dl_id e])%list /\ forall org, billing_of org t = billing_of org t0.

Lemma recorded_stale e t0 t : seen e t0 = false -> recorded e t0 t ->
  stale_event (dl_at e) (billing_of (dl_org e) t0 ≫= ob_last_event_at) = true -> tells e t0 t.
Proof.
  intros Hs [E1 E2] H. split_and!; [by rewrite E1, Hs| |].
  2:{ intros org b Eb. exists b. by rewrite E2. }
  intros org. unfold told. rewrite E2, Hs. unfold tell, outdated.
  destruct (String.eqb_spec (dl_org e) org) as [<-|]; [|done]. destruct (billing_of (dl_org e) t0); [|done]. cbn in *. by rewrite H.
Qed.

Lemma tells_written e t0 t now : seen e t0 = false -> recorded e t0 t ->
  stale_event (dl_at e) (billing_of (dl_org e) t0 ≫= ob_last_event_at) = false ->
  tells e t0 (match billing_of (dl_org e) t with
    | None => set_billing (fun l => l ++ [billed_row (dl_org e) (dl_state e) (dl_at e) now None])%list t
    | Some _ => update_billing (dl_org e) (fun b => billed_row (dl_org e) (dl_state e) (dl_at e) now (Some b)) t
    end).
Proof.
  intros Hs [E1 E2] H. split_and!; [destruct (billing_of (dl_org e) t); cbn; by rewrite E1, Hs| |].
  2:{ intros org b Eb. destruct (billing_of (dl_org e) t) as [b0|] eqn:E0.
      - rewrite billing_of_update, E2, Eb by done. eexists. split; [reflexivity|].
        destruct (String.eqb org (dl_org e)); [|done]. cbn. intros ->. by rewrite String.eqb_refl.
      - rewrite billing_of_snoc, E2, Eb. by exists b. }
  intros org. rewrite Hs. unfold told, tell, outdated. destruct (billing_of (dl_org e) t) as [b|] eqn:Eb.
  - rewrite billing_of_update by done. rewrite E2. rewrite E2 in Eb.
    destruct (String.eqb_spec (dl_org e) org) as [<-|Hne].
    + rewrite Eb in *. cbn in *. rewrite H, String.eqb_refl. done.
    + assert (String.eqb org (dl_org e) = false) as -> by (apply String.eqb_neq; congruence). by destruct (billing_of org t0).
  - rewrite billing_of_snoc, E2. rewrite E2 in Eb. cbn [ob_org billed_row].
    destruct (String.eqb_spec (dl_org e) org) as [<-|Hne]; [|by destruct (billing_of org t0)].
    by rewrite Eb.
Qed.

Lemma deliver_tells e t0 now :
  does (from t0 now) (deliver_event e) (fun _ => in_billing now (tells e t0)) (from t0 now).
Proof.
  apply does_transaction; [|by intros a n t []].
  eapply (does_bind _ _ _ (fun fresh => in_billing now (fun t => fresh = negb (seen e t0) /\
    if fresh then recorded e t0 t else t = t0))).
  - apply does_exec; [by intros n t [-> _]|]. intros n t [-> ->]. unfold seen.
    destruct (has_string _ _) eqn:E; repeat split.
  - intros fresh. destruct fresh; cbn [negb].
    2:{ apply does_ret. intros n t (-> & Hs & ->). split; [done|]. destruct (seen e t0) eqn:E; [|done].
        split_and!; [by rewrite E, app_nil_r|intros org; by rewrite E|intros org b Eb; by exists b]. }
    eapply (does_bind _ _ _ (fun _ => in_billing now (tells e t0))); [|intros u; by apply does_ret].
    unfold upsertSubscriptionTx. eapply does_bind; [apply does_query; by intros n t (-> & _)|]. intros prev. cbv zeta.
    destruct (stale_event _ _) eqn:Est.
    + apply does_ret. intros n t ((-> & Hs & Hr) & ->). split; [done|]. symmetry in Hs. apply negb_true_iff in Hs.
      eapply recorded_stale; [done|done|]. destruct Hr as [_ E2]. by rewrite <- E2.
    + eapply (does_bind _ _ _ (fun written => in_billing now (fun t => tells e t0 t /\ written = true))).
      * apply does_exec; [by intros n t ((-> & _) & _)|]. intros n t ((-> & Hs & Hr) & ->).
        symmetry in Hs. apply negb_true_iff in Hs. pose proof Hr as [_ E2].
        assert (Est' : stale_event (dl_at e) (billing_of (dl_org e) t0 ≫= ob_last_event_at) = false) by (by rewrite <- E2).
        pose proof (tells_written e t0 t now Hs Hr Est') as Hw.
        destruct (billing_of (dl_org e) t) as [b|] eqn:Eb; [|done]. cbn in Est. rewrite Est. done.
      * intros written. destruct written; cbn [negb]; [|apply does_ret; by intros n t (_ & _ & ?)].
        apply (does_pre _ (in_billing now (tells e t0))); [|by intros n t (-> & Ht & _)].
        eapply does_bind; [by apply does_audit_estate, tells_estate|]. intros u.
        destruct (String.eqb _ _); [by apply does_ret|]. destruct (dunningNotice _ _) as [[title body]|]; [|by apply does_ret].
        eapply does_bind; [by apply does_enqueue_estate, tells_estate|]. intros u'.
        apply does_update; [by intros n t [-> _]|]. intros n t [-> (H1 & H2 & H3)]. split; [done|].
        split_and!; [done|intros org; by rewrite told_reminded|]. intros org b (b' & Eb & H)%H3.
        rewrite billing_of_update, Eb by done. eexists. split; [reflexivity|]. by destruct (String.eqb org (dl_org e)).
Qed.

(** *** Schedules of deliveries

    Each arrives at some time; Paddle learns which were applied, and sends the
    others again. *)

Definition at_clock (now : Z) (d : cp) : cp := mkCp (cp_tables d) now (cp_faults d) (cp_rand d) (cp_drawn d) (cp_memory d).

Fixpoint run_deliveries (l : list (Z * delivery)) (d : cp) : list delivery * cp :=
  match l with
  | [] => ([], d)
  | (now, e) :: l =>
      let '(r, d1) := deliver_event e (at_clock now d) in
      let '(acked, d2) := run_deliveries l d1 in
      (if is_ok r then e :: acked else acked, d2)
  end.

(** [s] is what the newest of the events [es] left, on top of [s0]. *)
Definition newest_of (es : list delivery) (org : string) (s0 s : option told_state) : Prop :=
  (s = s0 /\ forall e, e ∈ es -> dl_org e = org -> outdated e s0 = true) \/
  exists e, e ∈ es /\ dl_org e = org /\ s = Some (state_of e) /\ outdated e s0 = false /\
    forall e', e' ∈ es -> dl_org e' = org -> (dl_at e' <= dl_at e)%Z.

Lemma outdated_state e e' : outdated e (Some (state_of e')) = (dl_at e <? dl_at e')%Z.
Proof. done. Qed.

Lemma outdated_le e e' s0 : (dl_at e' <= dl_at e)%Z -> outdated e s0 = true -> outdated e' s0 = true.
Proof. unfold outdated, stale_event. destruct (s0 ≫= snd); [|done]. lia. Qed.

Lemma newest_tell es org s0 s e : newest_of es org s0 s -> newest_of (es ++ [e]) org s0 (tell e s org).
Proof.
  intros H. unfold tell. destruct (String.eqb_spec (dl_org e) org) as [Eo|Eo]; cbn [andb].
  2:{ destruct H as [[-> H]|(m & Hm & Em & -> & Hn & H)]; [left; split; [done|]|right; exists m; split_and!; try done].
      - intros x [Hx| ->]%elem_of_snoc Ex; [by apply H|done].
      - apply elem_of_snoc. by left.
      - intros x [Hx| ->]%elem_of_snoc Ex; [by apply H|done]. }
  destruct (outdated e s) eqn:Es; cbn [negb].
  - destruct H as [[-> H]|(m & Hm & Em & -> & Hn & H)]; [left; split; [done|]|right; exists m; split_and!; try done].
    + intros x [Hx| ->]%elem_of_snoc Ex; [by apply H|done].
    + apply elem_of_snoc. by left.
    + rewrite outdated_state in Es. intros x [Hx| ->]%elem_of_snoc Ex; [by apply H|lia].
  - right. exists e. split_and!; [apply elem_of_snoc; by right|done|done| |].
    + destruct H as [[-> H]|(m & Hm & Em & -> & Hn & H)]; [done|]. rewrite outdated_state in Es.
      destruct (outdated e s0) eqn:E0; [|done]. apply (outdated_le _ m) in E0; [congruence|lia].
    + destruct H as [[-> H]|(m & Hm & Em & -> & Hn & H)]; intros x [Hx| ->]%elem_of_snoc Ex; [|lia| |lia].
      * specialize (H x Hx Ex). unfold outdated, stale_event in *. destruct (s0 ≫= snd); [lia|done].
      * rewrite outdated_state in Es. specialize (H x Hx Ex). lia.
Qed.

Lemma newest_again es org s0 s e : e ∈ es -> newest_of es org s0 s -> newest_of (es ++ [e]) org s0 s.
Proof.
  intros He [[-> H]|(m & Hm & Em & -> & Hn & H)]; [left; split; [done|]|right; exists m; split_and!; try done].
  - intros x [Hx| ->]%elem_of_snoc; by apply H.
  - apply elem_of_snoc. by left.
  - intros x [Hx| ->]%elem_of_snoc; by apply H.
Qed.

(** One identifier, one event; and no two events of an organisation at one instant *)
Definition distinguished (es : list delivery) : Prop :=
  (forall e e', e ∈ es -> e' ∈ es -> dl_id e = dl_id e' -> e = e') /\
  (forall e e', e ∈ es -> e' ∈ es -> dl_org e = dl_org e' -> dl_at e = dl_at e' -> e = e').

Lemma newest_unique es es' org s0 s s' : distinguished es -> (forall e, e ∈ es <-> e ∈ es') ->
  newest_of es org s0 s -> newest_of es' org s0 s' -> s = s'.
Proof.
  intros [_ Hd] Heq [[-> H]|(m & Hm & Em & -> & Hn & H)] [[-> H']|(m' & Hm' & Em' & -> & Hn' & H')]; [done| | |].
  - apply Heq in Hm'. rewrite (H m' Hm' Em') in Hn'. done.
  - apply Heq in Hm. rewrite (H' m Hm Em) in Hn. done.
  - apply Heq in Hm'. assert (m = m') as ->; [|done]. apply Hd; [done|done|congruence|].
    pose proof (H m' Hm' Em'). apply Heq in Hm. pose proof (H' m Hm Em). lia.
Qed.

Definition caught_up (t0 t : tables) (es : list delivery) : Prop :=
  (forall id, id ∈ webhook_deliveries (estate t) <-> id ∈ webhook_deliveries (estate t0) \/ id ∈ map dl_id es) /\
  forall org, newest_of es org (told t0 org) (told t org).

Lemma has_string_elem l x : has_string l x = true <-> x ∈ l.
Proof.
  unfold has_string. rewrite existsb_elem. split; [intros (y & Hy & ->%String.eqb_eq); done|].
  intros H. exists x. split; [done|apply String.eqb_refl].
Qed.

Lemma tells_caught_up t0 t t' es e : caught_up t0 t es -> tells e t t' -> seen e t0 = false ->
  (forall e', e' ∈ es -> dl_id e = dl_id e' -> e = e') -> caught_up t0 t' (es ++ [e]).
Proof.
  intros [Hi Hs] (E1 & E2 & _) Hf Hd. split.
  - intros id. rewrite E1, map_app, !elem_of_app, Hi. unfold seen.
    cbn [map]. destruct (has_string _ _) eqn:E; rewrite ?elem_of_cons, ?elem_of_nil; [|tauto].
    apply has_string_elem, Hi in E. split; [tauto|]. intros [?|[?|[->|[]]]]; tauto.
  - intros org. rewrite E2. destruct (seen e t) eqn:E; [|by apply newest_tell].
    apply newest_again; [|done]. apply has_string_elem, Hi in E as [E|(e' & E & He')%list_elem_of_fmap].
    + apply has_string_elem in E. unfold seen in Hf. congruence.
    + by rewrite (Hd e' He' E).
Qed.

Lemma run_deliveries_caught_up l : forall d t0 es acked d',
  run_deliveries l d = (acked, d') -> caught_up t0 (cp_tables d) es -> distinguished (es ++ acked) ->
  (forall e, e ∈ acked -> seen e t0 = false) -> caught_up t0 (cp_tables d') (es ++ acked).
Proof.
  induction l as [|[now e] l IH]; cbn [run_deliveries]; intros d t0 es acked d' Er Hc Hd Hf.
  { injection Er as <- <-. by rewrite app_nil_r. }
  destruct (deliver_event e (at_clock now d)) as [r d1] eqn:E1. destruct (run_deliveries l d1) as [acked' d2] eqn:E2.
  pose proof (does_run _ _ _ _ _ _ _ (deliver_tells e (cp_tables d) now) (conj eq_refl eq_refl : hold _ (at_clock now d)) E1) as H.
  injection Er as <- <-. destruct r as [b|x]; cbn [is_ok] in *.
  - destruct H as [_ H]. rewrite cons_middle, app_assoc in Hd |- *.
    apply (IH d1 t0 (es ++ [e])%list acked' d2 E2); [|done|intros x Hx; apply Hf; by right].
    eapply tells_caught_up; [exact Hc|exact H|apply Hf; left|].
    intros e' He' E. apply (proj1 Hd); [| |done]; apply elem_of_app; left; apply elem_of_snoc; [by right|by left].
  - destruct H as [_ H]. apply (IH d1 t0 es acked' d2 E2); [by rewrite H|done|done].
Qed.


(** ** The price *)

Lemma billableQuantity_sql units : billableQuantitySQL units = BillableQuantity units true.
Proof.
  unfold billableQuantitySQL, BillableQuantity, SubscriptionMinQuantity, BillingFreeTier. cbn [andb].
  destruct (Z.ltb_spec (units - 3) 0); [|destruct (Z.ltb_spec (units - 3) 1)]; cbn; lia.
Qed.

Lemma sumZ_perm l l' : l ≡ₚ l' -> sumZ l = sumZ l'.
Proof. unfold sumZ. induction 1; cbn; lia. Qed.

Lemma sumZ_add {A} (f g : A -> Z) l : sumZ (map (fun x => f x + g x)%Z l) = (sumZ (map f l) + sumZ (map g l))%Z.
Proof. unfold sumZ. induction l; cbn; lia. Qed.

Lemma sumZ_one (c : string -> Z) ty ts : NoDup ts ->
  sumZ (map (fun x => if String.eqb ty x then c x else 0%Z) ts) = if bool_decide (ty ∈ ts) then c ty else 0%Z.
Proof.
  induction 1 as [|x ts Hx Hn IH]; [done|]. cbn [map sumZ fold_right]. fold (sumZ (map (fun x => if String.eqb ty x then c x else 0%Z) ts)).
  rewrite IH. destruct (String.eqb_spec ty x) as [->|Hne].
  - rewrite (bool_decide_eq_false_2 (x ∈ ts)) by done. rewrite bool_decide_eq_true_2 by left. lia.
  - destruct (decide (ty ∈ ts)); [rewrite !bool_decide_eq_true_2 by (by right || done)|rewrite !bool_decide_eq_false_2]; try lia; [|done].
    intros [|]%elem_of_cons; done.
Qed.

Lemma unit_line_units l ts : NoDup ts -> (forall s, s ∈ l -> sv_type s ∈ ts) ->
  sumZ (map (fun ty => ul_Units (unit_line l ty)) ts) = sumZ (map (fun s => ServerUnitWeight (sv_type s)) l).
Proof.
  intros Hn. induction l as [|s l IH]; intros Hin.
  - clear. induction ts as [|x ts IH]; [done|]. unfold sumZ in *. cbn in *. lia.
  - assert (E : forall ty, ul_Units (unit_line (s :: l) ty) =
      ((if String.eqb (sv_type s) ty then ServerUnitWeight ty else 0) + ul_Units (unit_line l ty))%Z).
    { intros ty. cbn [unit_line ul_Units List.filter]. destruct (String.eqb (sv_type s) ty); cbn [length]; lia. }
    rewrite (map_ext _ _ E), sumZ_add, sumZ_one by done. rewrite bool_decide_eq_true_2 by (apply Hin; left).
    rewrite IH by (intros; apply Hin; by right). done.
Qed.

Lemma unit_lines_units l : sumZ (map ul_Units (unit_lines l)) = sumZ (map (fun s => ServerUnitWeight (sv_type s)) l).
Proof.
  unfold unit_lines. rewrite map_map. unfold sort_strings. rewrite (sumZ_perm _ (map (fun ty => ul_Units (unit_line l ty)) (remove_dups (map sv_type l)))).
  - apply unit_line_units; [apply NoDup_remove_dups|]. intros s Hs. apply elem_of_remove_dups. by apply list_elem_of_fmap_2.
  - apply Permutation_map, sorting.merge_sort_Permutation.
Qed.

(** The reminder of the debounce: a quantity pushed less than half an hour ago is not pushed again. *)
Definition debounced (now want : Z) (b : billing_row) : Prop :=
  ob_synced_quantity b = Some want /\ exists at_, ob_quantity_synced_at b = Some at_ /\ (now - quantitySyncDebounce <= at_)%Z.

Definition subscribed (b : billing_row) : Prop := ob_status b = "active" /\ ob_subscription b <> "".

Lemma drift_spec now t b want : want = billableQuantitySQL (billedUnitsSQL (ob_org b) (now - quantitySyncWindow) t) ->
  drift_of now t b = Some (mkDrift (ob_org b) (ob_subscription b) (ob_quantity b) want) /\
    subscribed b /\ want <> ob_quantity b /\ ~ debounced now want b \/
  drift_of now t b = None /\ (~ subscribed b \/ want = ob_quantity b \/ debounced now want b).
Proof.
  intros ->. unfold drift_of, subscribed, debounced. set (want := billableQuantitySQL _).
  destruct (String.eqb_spec (ob_status b) "active"); cbn [andb]; [|right; split; [done|left; by intros []]].
  destruct (String.eqb_spec (ob_subscription b) ""); cbn [andb negb]; [right; split; [done|left; by intros []]|].
  destruct (Z.eqb_spec want (ob_quantity b)) as [E|E]; cbn [andb negb]; [right; split; [done|by right; left]|].
  destruct (bool_decide_reflect (ob_synced_quantity b = Some want)) as [Es|Es]; cbn [negb];
    [rewrite orb_false_r|rewrite orb_true_r].
  - destruct (ob_quantity_synced_at b) as [at_|] eqn:Ea.
    + destruct (Z.ltb_spec at_ (now - quantitySyncDebounce)).
      * left. split_and!; [done..|]. intros (_ & x & [= <-] & ?). lia.
      * right. split; [done|right; right]. split; [done|]. by exists at_.
    + left. split_and!; [done..|]. by intros (_ & x & ? & ?).
  - left. split_and!; [done..|]. by intros (? & _).
Qed.


(** ** The grace period *)

Definition delinquent_past (now : Z) (b : billing_row) : bool :=
  billingDelinquent (ob_status b) && (ob_status_since b + BillingGracePeriod <=? now)%Z.

Lemma capped_spec orgID now d : quiet d ->
  exists r, assertBillingNotCappedTx orgID now d = (r, d) /\
    (is_ok r = false <-> exists b, billing_of orgID (cp_tables d) = Some b /\ delinquent_past now b = true).
Proof.
  intros Hq. unfold assertBillingNotCappedTx. rewrite query_bind by done.
  destruct (billing_of orgID (cp_tables d)) as [b|]; [|eexists; split; [reflexivity|split; [done|by intros (? & ? & _)]]].
  unfold delinquent_past. destruct (billingDelinquent (ob_status b)) eqn:Ed; cbn [negb].
  2:{ eexists; split; [reflexivity|split; [done|]]. intros (? & [= <-] & H). by rewrite Ed in H. }
  cbv zeta. destruct (Z.ltb_spec now (ob_status_since b + BillingGracePeriod)); eexists; (split; [reflexivity|split; [try done|]]).
  - intros (? & [= <-] & [_ Hx]%andb_true_iff). lia.
  - intros _. exists b. split; [done|]. rewrite Ed. cbn. lia.
  - done.
Qed.

Lemma run_deliveries_since orgID st l : forall d acked d' b,
  run_deliveries l d = (acked, d') -> billing_of orgID (cp_tables d) = Some b -> ob_status b = st ->
  (forall e, e ∈ map snd l -> dl_org e = orgID -> bs_Status (dl_state e) = st) ->
  exists b', billing_of orgID (cp_tables d') = Some b' /\ ob_status b' = st /\ ob_status_since b' = ob_status_since b.
Proof.
  induction l as [|[now e] l IH]; cbn [run_deliveries map snd]; intros d acked d' b Er Eb Es Hst.
  { injection Er as <- <-. by exists b. }
  destruct (deliver_event e (at_clock now d)) as [r d1] eqn:E1. destruct (run_deliveries l d1) as [acked' d2] eqn:E2. injection Er as <- <-.
  pose proof (does_run _ _ _ _ _ _ _ (deliver_tells e (cp_tables d) now) (conj eq_refl eq_refl : hold _ (at_clock now d)) E1) as H.
  assert (exists b1, billing_of orgID (cp_tables d1) = Some b1 /\ ob_status b1 = st /\ ob_status_since b1 = ob_status_since b)
    as (b1 & Eb1 & Es1 & <-).
  { destruct r as [a|x]; [|destruct H as [_ H]; rewrite H; by exists b].
    destruct H as (_ & _ & H2 & H3). destruct (H3 _ _ Eb) as (b1 & Eb1 & Hk). exists b1.
    assert (Es1 : ob_status b1 = st); [|split_and!; [done..|apply Hk; congruence]].
    specialize (H2 orgID). unfold told in H2. rewrite Eb1, Eb in H2. cbn in H2.
    destruct (seen e (cp_tables d)); [congruence|]. unfold tell in H2.
    destruct (String.eqb_spec (dl_org e) orgID) as [Eo|]; cbn [andb] in H2; [|congruence].
    destruct (negb _); [|congruence]. injection H2 as _ H2 _ _. rewrite H2. apply Hst; [left|done]. }
  eapply IH; [exact E2|exact Eb1|done|]. intros x Hx. apply Hst. by right.
Qed.


(** ** The meter *)

Definition hour_key (h : hour_row) : string * Z := (sh_server h, sh_hour h).

Lemma same_hour_key a b : same_hour a b = true <-> hour_key a = hour_key b.
Proof.
  unfold same_hour, hour_key. rewrite andb_true_iff, String.eqb_eq, Z.eqb_eq. split; [intros [-> ->]; done|by intros [= -> ->]].
Qed.

Lemma insert_hours_spec new : forall l, NoDup (map hour_key l) ->
  exists more, insert_hours new l = (l ++ more)%list /\ NoDup (map hour_key (l ++ more)) /\
    (forall h, h ∈ more -> h ∈ new) /\
    (forall h, h ∈ new -> exists h', h' ∈ (l ++ more)%list /\ hour_key h' = hour_key h) /\
    (NoDup (map hour_key new) -> forall h, h ∈ new -> hour_key h ∉ map hour_key l -> h ∈ more).
Proof.
  induction new as [|x new IH]; intros l Hl; cbn [insert_hours].
  { exists []. rewrite app_nil_r. split_and!; [done|done|done|by intros h ?%elem_of_nil|by intros _ h ?%elem_of_nil]. }
  destruct (existsb (same_hour x) l) eqn:E.
  - apply existsb_elem in E as (y & Hy & Ek%same_hour_key). destruct (IH l Hl) as (more & -> & H1 & H2 & H3 & H4).
    exists more. split_and!; [done|done|intros; right; auto| |].
    + intros h [->|Hh]%elem_of_cons; [exists y; split; [apply elem_of_app; by left|done]|auto].
    + intros [_ Hn]%NoDup_cons h [->|Hh]%elem_of_cons Hk; [|auto]. exfalso. apply Hk. rewrite Ek. by apply list_elem_of_fmap_2.
  - assert (Hx : hour_key x ∉ map hour_key l).
    { intros (y & Ey & Hy)%list_elem_of_fmap. apply not_true_iff_false in E. apply E. apply existsb_elem. exists y.
      split; [done|]. by apply same_hour_key. }
    destruct (IH (l ++ [x])%list) as (more & -> & H1 & H2 & H3 & H4).
    { rewrite map_app. apply NoDup_app. split_and!; [done| |apply NoDup_singleton].
      intros k Hk [->|[]%elem_of_nil]%elem_of_cons. done. }
    exists (x :: more). rewrite <- app_assoc in *. cbn in *. split_and!; [done|done| | |].
    + intros h [->|Hh]%elem_of_cons; [left|right; auto].
    + intros h [->|Hh]%elem_of_cons; [exists x; split; [apply elem_of_app; right; left|done]|auto].
    + intros [Hnx Hn]%NoDup_cons h [->|Hh]%elem_of_cons Hk; [left|]. right. apply H4; [done|done|].
      rewrite map_app. intros [?|[Ek|[]%elem_of_nil]%elem_of_cons]%elem_of_app; [done|]. apply Hnx. rewrite <- Ek. by apply list_elem_of_fmap_2.
Qed.

Lemma has_key_spec (l : list hour_row) k : (exists h, h ∈ l /\ hour_key h = k) -> k ∈ map hour_key l.
Proof. intros (h & Hh & <-). by apply list_elem_of_fmap_2. Qed.

(** Sums over sub-lists *)
Lemma sumZ_sub (f : string -> Z) (l l' : list string) : NoDup l -> (forall x, x ∈ l -> x ∈ l') -> (forall x, (0 <= f x)%Z) ->
  (sumZ (map f l) <= sumZ (map f l'))%Z.
Proof.
  intros Hn. revert l'. induction Hn as [|x l Hx Hn IH]; intros l' Hsub Hf.
  - cbn. clear -Hf. induction l' as [|y l' IH]; unfold sumZ in *; cbn in *; [lia|]. specialize (Hf y). lia.
  - destruct (list_elem_of_split l' x (Hsub x ltac:(left))) as (a & b & ->).
    assert (Hsub' : forall y, y ∈ l -> y ∈ (a ++ b)%list).
    { intros y Hy. assert (y <> x) by (by intros ->). specialize (Hsub y ltac:(by right)). rewrite elem_of_app, elem_of_cons in Hsub.
      apply elem_of_app. tauto. }
    specialize (IH _ Hsub' Hf). rewrite (sumZ_perm (map f (a ++ x :: b)) (map f (x :: a ++ b))).
    + unfold sumZ in *. cbn [map fold_right]. lia.
    + by rewrite Permutation_middle.
Qed.

Lemma peak_weight_ge l h : h ∈ l -> (sh_weight h <= peak_weight l (sh_server h))%Z.
Proof.
  intros Hh. unfold peak_weight. assert (Hin : h ∈ List.filter (fun x => String.eqb (sh_server x) (sh_server h)) l).
  { apply filter_elem. split; [done|apply String.eqb_refl]. }
  induction (List.filter _ l) as [|y m IH]; [by apply elem_of_nil in Hin|]. cbn. apply elem_of_cons in Hin as [->|Hin]; [lia|].
  specialize (IH Hin). lia.
Qed.

Lemma peak_weight_nonneg l s : (0 <= peak_weight l s)%Z.
Proof. unfold peak_weight. induction (map sh_weight _); cbn; lia. Qed.

(** The meter of connected hours is written once and its peak is what a
    day is priced on.  A sweep only appends: each connected server gets a row
    for the hour, with the weight of the type it has, unless it has one
    already, and the rows stay unique by server and hour.  Whatever becomes of
    the fleet and of its types in the twenty-four hours that follow — as long
    as the metered rows are kept — the organisation is billed for no less than
    the servers that sweep found connected. *)
Theorem meter_prices_the_peak now d orgID :
  quiet d -> NoDup (map hour_key (server_hours (estate (cp_tables d)))) ->
  NoDup (map sv_id (servers (machines (cp_tables d)))) ->
  exists n more, let d' := with_tables (set_hours (fun l => l ++ more)%list (cp_tables d)) d in
    SweepServerHours now d = (Ok n, d') /\ n = Z.of_nat (length more) /\
    NoDup (map hour_key (server_hours (estate (cp_tables d')))) /\
    (forall s, s ∈ servers (machines (cp_tables d)) -> connected s = true ->
       (sv_id s, trunc_hour now) ∈ map hour_key (server_hours (estate (cp_tables d')))) /\
    (forall h, h ∈ more -> exists s, s ∈ servers (machines (cp_tables d)) /\ connected s = true /\ h = metered (trunc_hour now) s) /\
    ((forall s, s ∈ servers (machines (cp_tables d)) ->
        (sv_id s, trunc_hour now) ∉ map hour_key (server_hours (estate (cp_tables d)))) ->
     forall t later, server_hours (estate (cp_tables d')) ⊆ server_hours (estate t) ->
       (later <= trunc_hour now + quantitySyncWindow)%Z ->
       (sumZ (map (fun s => ServerUnitWeight (sv_type s)) (connected_of orgID (cp_tables d)))
          <= billedUnitsSQL orgID (later - quantitySyncWindow) t)%Z).
Proof.
  intros Hq Hh Hs. set (t0 := cp_tables d) in *. set (live := List.filter connected (servers (machines t0))).
  destruct (insert_hours_spec (map (metered (trunc_hour now)) live) _ Hh) as (more & E & H1 & H2 & H3 & H4).
  assert (Ht : set_hours (fun _ => server_hours (estate t0) ++ more)%list t0 = set_hours (fun l => l ++ more)%list t0) by done.
  eexists (Z.of_nat (length more)), more. cbv zeta. split_and!.
  - unfold SweepServerHours. rewrite exec_quiet by done. cbv zeta. fold t0 live. rewrite E, Ht. do 2 f_equal. rewrite length_app. lia.
  - done.
  - exact H1.
  - intros s Hin Hc. change (sv_id s, trunc_hour now) with (hour_key (metered (trunc_hour now) s)). apply has_key_spec, H3.
    apply list_elem_of_fmap_2. by apply filter_elem.
  - intros h (s & -> & [Hin Hc]%filter_elem)%H2%list_elem_of_fmap. by exists s.
  - intros Hfresh t later Hsub Hle. unfold billedUnitsSQL. cbv zeta. set (hours := hours_since orgID _ t).
    etransitivity; [|apply Z.le_max_r].
    assert (Hrows : forall s, s ∈ connected_of orgID t0 -> metered (trunc_hour now) s ∈ hours).
    { intros s [Hin [Ho%String.eqb_eq Hc]%andb_true_iff]%filter_elem. apply filter_elem. split.
      - apply Hsub. cbn. apply elem_of_app. right. apply H4; [|by apply list_elem_of_fmap_2, filter_elem|by apply Hfresh].
        rewrite map_map. cbn. pose proof (NoDup_map_filter _ connected _ Hs) as Hl. fold live in Hl.
        rewrite <- (map_map sv_id (fun i => (i, trunc_hour now))). by apply (NoDup_fmap_2 (fun i => (i, trunc_hour now))).
      - cbn. rewrite Ho, String.eqb_refl. cbn. lia. }
    assert (Hle' : (sumZ (map (fun s => ServerUnitWeight (sv_type s)) (connected_of orgID t0)) <=
       sumZ (map (peak_weight hours) (map sv_id (connected_of orgID t0))))%Z).
    { clear -Hrows. induction (connected_of orgID t0) as [|s l IH]; [done|]. unfold sumZ in *. cbn [map fold_right].
      pose proof (peak_weight_ge hours _ (Hrows s ltac:(left))) as Hp. cbn in Hp.
      specialize (IH ltac:(intros; apply Hrows; by right)). lia. }
    etransitivity; [exact Hle'|]. apply sumZ_sub; [| |apply peak_weight_nonneg].
    2:{ intros x (s & -> & Hin)%list_elem_of_fmap. apply elem_of_remove_dups.
        by apply (list_elem_of_fmap_2 sh_server _ (metered (trunc_hour now) s)), Hrows. }
    by apply NoDup_map_filter.
Qed.

(** ** Reminders *)

(** A channel has heard of [key] within the last [window]. *)
Definition heard_lately (t : tables) (now window : Z) (key : string) (r : alert_rule) : Prop :=
  exists o, o ∈ alert_outbox t /\ al_channel o = ar_channel r /\ al_dedup_key o = key /\ (now - window < al_created_at o)%Z.

Lemma enqueue_heard orgID event key window title body d : quiet d -> (0 < window)%Z ->
  exists o, enqueueAlertTx orgID event key window title body d =
      (Ok tt, with_tables (set_outbox (fun l => l ++ o)%list (cp_tables d)) d) /\
    forall r, listening (cp_tables d) orgID event r ->
      heard_lately (set_outbox (fun l => l ++ o)%list (cp_tables d)) (cp_now d) window key r.
Proof.
  intros Hq Hw. unfold enqueueAlertTx, wrapping.
  erewrite bind_run by (unfold advisory_lock; rewrite query_quiet by done; done).
  rewrite update_quiet by done. cbv zeta.
  match goal with |- context [map ?row (order_by ?k (List.filter ?due _))] => set (R := row); set (D := due); set (K := k) end.
  exists (map R (order_by K (List.filter D (alert_rules (cp_tables d))))). split; [done|].
  intros r (Hin & Ho & He & Hc). destruct (alert_due (cp_now d) window key (alert_outbox (cp_tables d)) r) eqn:Ed.
  - exists (R r). split_and!; [|done|done|cbn; lia]. cbn. apply elem_of_app. right. apply list_elem_of_fmap_2.
    rewrite order_by_perm. apply filter_elem. split; [done|]. unfold D. by rewrite <- Ho, <- He, !String.eqb_refl, Hc, Ed.
  - unfold alert_due in Ed. apply negb_false_iff, existsb_elem in Ed as (o & Hio & Hk).
    rewrite !andb_true_iff, orb_true_iff, !String.eqb_eq in Hk. destruct Hk as [[Ec Ek] [?|?]]; [lia|].
    exists o. cbn. split_and!; [apply elem_of_app; by left|done|done|lia].
Qed.

Definition after_reminder (now : Z) (orgs : list string) (b : billing_row) : billing_row :=
  if bool_decide (ob_org b ∈ orgs) then reminded now b else b.

Definition reminder_key (b : billing_row) : string := dunningDedupKey (ob_subscription b) (ob_status b) ["dunning"].

Lemma remind_run now b title body d : quiet d ->
  exists d', remind now b title body d = (Ok tt, d') /\ quiet d' /\ cp_now d' = cp_now d /\
    alert_rules (cp_tables d') = alert_rules (cp_tables d) /\ alert_channels (cp_tables d') = alert_channels (cp_tables d) /\
    alert_outbox (cp_tables d) ⊆ alert_outbox (cp_tables d') /\
    org_billing (estate (cp_tables d')) = map (after_reminder now [ob_org b]) (org_billing (estate (cp_tables d))) /\
    forall r, listening (cp_tables d) (ob_org b) AlertPaymentFailed r ->
      heard_lately (cp_tables d') (cp_now d) BillingDunningInterval (reminder_key b) r.
Proof.
  intros Hq. destruct (enqueue_heard (ob_org b) AlertPaymentFailed (reminder_key b) BillingDunningInterval title body d Hq ltac:(done))
    as (o & Eo & Ho).
  eexists. unfold remind. split.
  { apply transaction_ok; [done| |]; [|shelve]. erewrite bind_run by exact Eo. rewrite update_quiet by done. reflexivity. }
  Unshelve. 2: done. split_and!; [done|done|done|done| | |].
  - cbn. intros x Hx. apply elem_of_app. by left.
  - cbn. apply map_ext. intros x. unfold after_reminder. destruct (String.eqb_spec (ob_org x) (ob_org b)) as [E|E].
    + rewrite bool_decide_eq_true_2; [done|]. rewrite E. left.
    + rewrite bool_decide_eq_false_2; [done|]. by intros [|[]%elem_of_nil]%elem_of_cons.
  - intros r Hr. destruct (Ho r Hr) as (x & Hx & ?). by exists x.
Qed.

Lemma delinquent_notice st rem : billingDelinquent st = true -> exists tb, dunningNotice st rem = Some tb.
Proof.
  unfold billingDelinquent, dunningNotice. destruct (String.eqb st "past_due"); [by eexists|]. cbn. intros ->. by eexists.
Qed.

Lemma remind_all_run now pending : forall n d, quiet d -> (forall b, b ∈ pending -> billingDelinquent (ob_status b) = true) ->
  exists d', remind_all now pending n d = (Ok (n + Z.of_nat (length pending))%Z, d') /\ quiet d' /\ cp_now d' = cp_now d /\
    alert_rules (cp_tables d') = alert_rules (cp_tables d) /\ alert_channels (cp_tables d') = alert_channels (cp_tables d) /\
    alert_outbox (cp_tables d) ⊆ alert_outbox (cp_tables d') /\
    org_billing (estate (cp_tables d')) = map (after_reminder now (map ob_org pending)) (org_billing (estate (cp_tables d))) /\
    forall b r, b ∈ pending -> listening (cp_tables d) (ob_org b) AlertPaymentFailed r ->
      heard_lately (cp_tables d') (cp_now d) BillingDunningInterval (reminder_key b) r.
Proof.
  induction pending as [|b l IH]; intros n d Hq Hdel; cbn [remind_all].
  - exists d. rewrite Z.add_0_r. split_and!; try done; [|by intros b r ?%elem_of_nil].
    rewrite <- (map_id (org_billing _)) at 1. apply map_ext. intros b. unfold after_reminder. by rewrite bool_decide_eq_false_2 by (by intros ?%elem_of_nil).
  - destruct (delinquent_notice _ (ob_status_since b + BillingGracePeriod - now) (Hdel b ltac:(left))) as ([title body] & ->).
    destruct (remind_run now b title body d Hq) as (d1 & E1 & Hq1 & Hn1 & Hr1 & Hc1 & Ho1 & Hb1 & Hh1).
    erewrite bind_run by exact E1. destruct (IH (n + 1)%Z d1 Hq1) as (d2 & E2 & Hq2 & Hn2 & Hr2 & Hc2 & Ho2 & Hb2 & Hh2).
    { intros x Hx. apply Hdel. by right. }
    exists d2. split_and!; [rewrite E2; do 2 f_equal; cbn [length]; lia|done|congruence|congruence|congruence|by etransitivity| |].
    + rewrite Hb2, Hb1, map_map. apply map_ext. intros x. unfold after_reminder. cbn [map].
      destruct (decide (ob_org x = ob_org b)) as [E|E].
      * rewrite (bool_decide_eq_true_2 (ob_org x ∈ [ob_org b])) by (rewrite E; left).
        rewrite (bool_decide_eq_true_2 (ob_org x ∈ ob_org b :: _)) by (rewrite E; left). by destruct (bool_decide _).
      * rewrite (bool_decide_eq_false_2 (ob_org x ∈ [ob_org b])) by (by intros [|[]%elem_of_nil]%elem_of_cons).
        rewrite !(bool_decide_ext (ob_org x ∈ ob_org b :: map ob_org l) (ob_org x ∈ map ob_org l)) by (rewrite elem_of_cons; tauto). done.
    + intros x r [->|Hx]%elem_of_cons Hl.
      * destruct (Hh1 r Hl) as (o & Hio & Hok). exists o. split; [by apply Ho2|done].
      * rewrite <- Hn1. apply Hh2; [done|]. destruct Hl as (Hin & Hl). split; [by rewrite Hr1|].
        destruct Hl as (Hl1 & Hl2 & Hl3). by rewrite Hc1.
Qed.

(** A tenant that does not pay is reminded every three days.  A dunning
    sweep reminds exactly the delinquent subscriptions that were not reminded
    in the last seventy-two hours and returns their number; afterwards none is
    due, and every enabled channel that subscribes to failed payments has an
    alert for that subscription no older than the interval. *)
Theorem delinquents_are_reminded now d : quiet d -> NoDup (map ob_org (org_billing (estate (cp_tables d)))) ->
  let rows := org_billing (estate (cp_tables d)) in
  let due := List.filter (reminder_due now) rows in
  exists d', SweepBillingDunning now d = (Ok (Z.of_nat (length due)), d') /\
    org_billing (estate (cp_tables d')) = map (fun b => if reminder_due now b then reminded now b else b) rows /\
    (forall b, b ∈ org_billing (estate (cp_tables d')) -> reminder_due now b = false) /\
    forall b r, b ∈ due -> listening (cp_tables d) (ob_org b) AlertPaymentFailed r ->
      heard_lately (cp_tables d') (cp_now d) BillingDunningInterval (reminder_key b) r.
Proof.
  intros Hq Hn rows due. unfold SweepBillingDunning. rewrite query_bind by done. fold rows due.
  destruct (remind_all_run now (order_by ob_status_since due) 0 d Hq) as (d' & E & _ & _ & _ & _ & _ & Hb & Hh).
  { intros b. rewrite order_by_perm. intros [_ [H _]%andb_true_iff]%filter_elem. done. }
  exists d'. rewrite E, order_by_perm. fold rows in Hb.
  assert (Hrows : org_billing (estate (cp_tables d')) = map (fun b => if reminder_due now b then reminded now b else b) rows).
  { rewrite Hb. apply map_ext_in. intros b Hb'%list_elem_of_In. unfold after_reminder. destruct (reminder_due now b) eqn:Ed.
    - rewrite bool_decide_eq_true_2; [done|]. apply list_elem_of_fmap_2. rewrite order_by_perm. by apply filter_elem.
    - rewrite bool_decide_eq_false_2; [done|]. intros (x & Ex & Hx)%list_elem_of_fmap. rewrite order_by_perm in Hx.
      apply filter_elem in Hx as [Hx Hdx]. rewrite (NoDup_map_inj ob_org rows b x) in Ed by done. congruence. }
  split_and!; [done|done| |].
  - rewrite Hrows. intros x (b & -> & Hin)%list_elem_of_fmap. destruct (reminder_due now b) eqn:Ed; [|done].
    unfold reminder_due. cbn. destruct (billingDelinquent _); [|done]. cbn. unfold BillingDunningInterval, hour_us. lia.
  - intros b r Hin. apply Hh. by rewrite order_by_perm.
Qed.

End events.
