(* ===== verification/Paddle.v ===== *)
(** * Paddle's webhooks ([cp/internal/paddle/paddle.go], [cp/internal/api/billing.go])

    The signature that guards the receiver, the event it carries and how it is
    matched to an organisation and applied.  The outbound client only sends
    requests; the one call the receiver makes of it is part of its answer. *)

From Stdlib Require Import Ascii NArith.
From S2P Require Import Prelude GoStrings Json Naming CpDb RenderCluster RenderDoc Vault Billing.

Local Open Scope string_scope.

(** ** [hmac.New(sha256.New, key)] *)

Fixpoint of_bytes (l : list N) : string :=
  match l with [] => EmptyString | b :: l => String (ascii_of_N b) (of_bytes l) end.

Definition hmac_pad (x : N) (key : list N) : string :=
  of_bytes (map (N.lxor x) (key ++ repeat 0%N (64 - length key))).

Definition hmac_sha256 (key msg : string) : list N :=
  let k := if (64 <? String.length key)%nat then sha256_sum key else string_bytes key in
  sha256_sum (hmac_pad 92 k +:+ of_bytes (sha256_sum (hmac_pad 54 k +:+ msg))).

Example hmac_rfc4231 :
  hex_encode (hmac_sha256 "Jefe" "what do ya want for nothing?") =
  "5bdcc146bf60754e6a042426089575c75a003f089d2739839dec58b964ec3843".
Proof. vm_compute. reflexivity. Qed.

(** [hex.DecodeString] *)
Definition hex_val (c : ascii) : option N :=
  if is_digit c then Some (N_of_ascii c - 48)%N
  else if in_range "a"%char "f"%char c then Some (N_of_ascii c - 87)%N
  else if in_range "A"%char "F"%char c then Some (N_of_ascii c - 55)%N
  else None.
Fixpoint hex_decode (s : string) : option (list N) :=
  match s with
  | EmptyString => Some []
  | String h (String l s) => x ← hex_val h; y ← hex_val l; r ← hex_decode s; Some (x * 16 + y :: r)%N
  | _ => None
  end.

(** [strconv.ParseInt(s, 10, 64)] *)
Definition parse_digits (s : string) : option Z :=
  if negb (String.eqb s "") && sforall is_digit s then Some (Z.of_N (digits_val 0 s)) else None.
Definition ParseInt (s : string) : option Z :=
  v ← match s with
      | String "-" r => Z.opp <$> parse_digits r
      | String "+" r => parse_digits r
      | _ => parse_digits s
      end;
  if ((int64_min <=? v) && (v <=? int64_max))%Z then Some v else None.

(** ** Signatures *)

Definition paddle_Sign (secret : string) (ts : Z) (body : string) : string :=
  "ts=" +:+ dec ts +:+ ";h1=" +:+ hex_encode (hmac_sha256 secret (dec ts +:+ ":" +:+ body)).

(** The last value of each key: [ts] and [h1] *)
Definition header_part (acc : string * string) (part : string) : string * string :=
  match cut part "="%char with
  | None => acc
  | Some (k, v) => if String.eqb k "ts" then (v, acc.2) else if String.eqb k "h1" then (acc.1, v) else acc
  end.

(** Within [maxSkew] nanoseconds, on the int64s of [time.Duration] *)
Definition recent (ts now maxSkew : Z) : bool :=
  let delta := wrap64 (now - ts) in
  let delta := if (delta <? 0)%Z then wrap64 (- delta) else delta in
  negb (maxSkew <? wrap64 (delta * Second))%Z.

Definition VerifySignature (secret body header : string) (now maxSkew : Z) : bool :=
  if String.eqb secret "" then false
  else
    let '(ts, h1) := fold_left header_part (split_at ";"%char header) ("", "") in
    if String.eqb ts "" || String.eqb h1 "" then false
    else match ParseInt ts with
    | None => false
    | Some t =>
        if negb (recent t now maxSkew) then false
        else match hex_decode h1 with
        | None => false
        | Some want => bool_decide (want = hmac_sha256 secret (ts +:+ ":" +:+ body))
        end
    end.

(** ** Events *)

Record paddleEvent := mkPaddleEvent {
  pe_EventID : string;
  pe_EventType : string;
  pe_OccurredAt : string;
  pe_DataID : string;
  pe_CustomerID : string;
  pe_Status : string;
  pe_CustomData : option json;
  pe_SubscriptionID : string;
  pe_Items : list Z;             (* their quantities *)
}.

Definition dec_item : json -> option Z := dec_struct (fun fs => dec_int (jget fs "quantity")).

Definition dec_event : json -> option paddleEvent := dec_struct (fun fs =>
  id ← dec_str (jget fs "event_id"); ty ← dec_str (jget fs "event_type"); at_ ← dec_str (jget fs "occurred_at");
  dec_struct_field (fun ds =>
    did ← dec_str (jget ds "id"); cust ← dec_str (jget ds "customer_id"); st ← dec_str (jget ds "status");
    sub ← dec_str (jget ds "subscription_id"); items ← dec_list dec_item (jget ds "items");
    Some (mkPaddleEvent id ty at_ did cust st (jget ds "custom_data") sub items)) (jget fs "data")).

Definition paddleSubscriptionID (ev : paddleEvent) : string :=
  if has_prefix (pe_EventType ev) "transaction." then pe_SubscriptionID ev else pe_DataID ev.

(** The error of [json.Unmarshal] is ignored. *)
Definition paddleOrgID (custom : option json) : string :=
  default "" (custom ≫= dec_struct (fun fs => dec_str (jget fs "orgId"))).

Definition paddleSubStatus (eventType dataStatus : string) : string :=
  let typed x := String.eqb eventType x in
  if typed "subscription.created" || typed "subscription.activated" || typed "subscription.updated" || typed "subscription.resumed" then
    if String.eqb dataStatus "active" || String.eqb dataStatus "trialing" then "active"
    else if String.eqb dataStatus "past_due" then "past_due"
    else if String.eqb dataStatus "paused" then "paused"
    else if String.eqb dataStatus "canceled" then "canceled"
    else "active"
  else if typed "subscription.paused" then "paused"
  else if typed "subscription.past_due" then "past_due"
  else if typed "subscription.canceled" then "canceled"
  else if typed "transaction.payment_failed" then "past_due"
  else "".

(** ** [time.Parse(time.RFC3339, s)], in microseconds *)

Definition two_digits (s : string) : option (Z * string) :=
  match s with
  | String a (String b r) => if is_digit a && is_digit b then Some (Z.of_N (digits_val 0 (String a (String b ""))), r) else None
  | _ => None
  end.
Definition expect (c : ascii) (s : string) : option string :=
  match s with String b r => if Ascii.eqb b c then Some r else None | _ => None end.

(** An hour may have one digit. *)
Definition hour_digits (s : string) : option (Z * string) :=
  match two_digits s with
  | Some x => Some x
  | None => match s with
            | String a r => if is_digit a then Some (Z.of_N (digit_val a), r) else None
            | _ => None
            end
  end.

Fixpoint span_digits (s : string) : string * string :=
  match s with
  | String c r => if is_digit c then let '(d, rest) := span_digits r in (String c d, rest) else ("", s)
  | _ => ("", "")
  end.

(** The nanoseconds of a fraction, its digits beyond the ninth dropped *)
Definition nanos (digits : string) : Z :=
  Z.of_N (digits_val 0 (stake 9 (digits +:+ repeat_byte 9 "0"%char))).
Definition fraction (s : string) : Z * string :=
  match s with
  | String c (String d r) =>
      if (Ascii.eqb c "." || Ascii.eqb c ",")%char && is_digit d
      then let '(ds, rest) := span_digits (String d r) in (nanos ds, rest)
      else (0%Z, s)
  | _ => (0%Z, s)
  end.

Definition zone (s : string) : option Z :=
  match s with
  | String "Z" "" => Some 0%Z
  | String c r =>
      if (Ascii.eqb c "+" || Ascii.eqb c "-")%char then
        '(h, r) ← two_digits r; r ← expect ":" r; '(m, r) ← two_digits r;
        if String.eqb r "" && ((h <=? 24) && (m <? 60))%Z
        then Some (if Ascii.eqb c "+" then h * 3600 + m * 60 else - (h * 3600 + m * 60))%Z else None
      else None
  | _ => None
  end.

Definition leap (y : Z) : bool := ((y mod 4 =? 0) && (negb (y mod 100 =? 0) || (y mod 400 =? 0)))%Z.
Definition days_in (y m : Z) : Z :=
  if (m =? 2)%Z then if leap y then 29 else 28
  else if ((m =? 4) || (m =? 6) || (m =? 9) || (m =? 11))%Z then 30 else 31.

(** The day number of a civil date, the inverse of [civil] *)
Definition days_from_civil (y m d : Z) : Z :=
  (let y := if m <=? 2 then y - 1 else y in
   let era := y / 400 in
   let yoe := y mod 400 in
   let doy := (153 * (if m <=? 2 then m + 9 else m - 3) + 2) / 5 + d - 1 in
   era * 146097 + (yoe * 365 + yoe / 4 - yoe / 100 + doy) - 719468)%Z.

Definition parse_rfc3339 (s : string) : option Z :=
  '(y1, s) ← two_digits s; '(y2, s) ← two_digits s; s ← expect "-" s;
  '(mo, s) ← two_digits s; s ← expect "-" s; '(d, s) ← two_digits s; s ← expect "T" s;
  '(h, s) ← hour_digits s; s ← expect ":" s; '(mi, s) ← two_digits s; s ← expect ":" s; '(se, s) ← two_digits s;
  let '(ns, s) := fraction s in
  off ← zone s;
  let y := (y1 * 100 + y2)%Z in
  if ((1 <=? mo) && (mo <=? 12) && (1 <=? d) && (d <=? days_in y mo) && (h <? 24) && (mi <? 60) && (se <? 60))%Z
  then Some (((days_from_civil y mo d * 86400 + h * 3600 + mi * 60 + se - off) * 1000000 + ns / 1000)%Z)
  else None.

Example parse_epoch_day : parse_rfc3339 "2026-03-01T12:30:45.25Z" = Some 1772368245250000%Z.
Proof. vm_compute. reflexivity. Qed.
Example parse_offset : parse_rfc3339 "2024-02-29T00:15:00+01:00" = parse_rfc3339 "2024-02-28T23:15:00Z".
Proof. vm_compute. reflexivity. Qed.
Example parse_refuses : map parse_rfc3339 ["2023-02-29T00:00:00Z"; "2026-03-01 12:30:45Z"; "2026-13-01T00:00:00Z"; ""] = [None; None; None; None].
Proof. vm_compute. reflexivity. Qed.

(** ** The receiver *)

Inductive hook_response : Type :=
| Respond (code : Z) (status : string)
| StoreErr (err op : string).              (* [writeStoreErr] *)

(** The answer, and the [orgId] it stamps on a subscription *)
Record hook_answer := mkHookAnswer { ha_response : hook_response; ha_stamped : option (string * string) }.

(** [handleBillingCheckout]: what is refused, and the quantity a checkout opens at *)
Inductive checkout_response : Type :=
| Refused (code : Z) (status : string)
| CheckoutErr (err : string)
| OpenCheckout (quantity : Z) (customerID orgID : string).

Definition fiveMinutes : Z := 5 * Minute.

Local Open Scope io_scope.

Section receiver.
Context {pg : Postgres} {jr : JsonReader}.
Variables (webhookSecret : string) (paddleConfigured : bool).

Definition hook_done (code : Z) (status : string) : io cp hook_answer := ret (mkHookAnswer (Respond code status) None).

(** From the event on, with the organisation it is of *)
Definition apply_event (ev : paddleEvent) (orgID : string) (stamped : option (string * string)) : io cp hook_answer :=
  let answer r := ret (mkHookAnswer r stamped) in
  if String.eqb orgID "" then answer (Respond 200 "ignored")
  else
    let status := paddleSubStatus (pe_EventType ev) (pe_Status ev) in
    if String.eqb status "" then answer (Respond 200 "ignored")
    else
      let qty := match pe_Items ev with q :: _ => q | [] => 0%Z end in
      now <- Backups.clock ;;
      let occurredAt := if String.eqb (pe_OccurredAt ev) "" then now else default now (parse_rfc3339 (pe_OccurredAt ev)) in
      r <- attempt (ApplyPaddleWebhook (pe_EventID ev) orgID
             (mkBillingStatus orgID (pe_CustomerID ev) (paddleSubscriptionID ev) status qty) "paddle-webhook" occurredAt) ;;
      match r with
      | Err e => answer (StoreErr e "paddle webhook apply")
      | Ok false => answer (Respond 200 "duplicate")
      | Ok true => answer (Respond 200 "ok")
      end.

(** [body] is the request's body as read, [unix] the seconds of [time.Now()] *)
Definition handlePaddleWebhook (body header : string) (unix : Z) : io cp hook_answer :=
  if String.eqb webhookSecret "" then hook_done 503 "billing webhooks are not configured"
  else if negb (VerifySignature webhookSecret body header unix fiveMinutes) then hook_done 401 "invalid signature"
  else match json_parse body ≫= dec_event with
  | None => hook_done 400 "invalid event"
  | Some ev =>
      if String.eqb (pe_EventID ev) "" then hook_done 400 "invalid event"
      else
        let subID := paddleSubscriptionID ev in
        let orgID := paddleOrgID (pe_CustomData ev) in
        if negb (String.eqb orgID "") then apply_event ev orgID None
        else
          r <- attempt (OrgForPaddleIDs subID (pe_CustomerID ev)) ;;
          match r with
          | Err e => ret (mkHookAnswer (StoreErr e "paddle webhook correlate") None)
          | Ok orgID =>
              apply_event ev orgID
                (if negb (String.eqb orgID "") && negb (String.eqb subID "") && paddleConfigured then Some (subID, orgID) else None)
          end
  end.

Definition handleBillingCheckout (orgID : string) : io cp checkout_response :=
  if negb paddleConfigured then ret (Refused 503 "")
  else
    r <- attempt (GetBillingStatus orgID) ;;
    match r with
    | Err e => ret (CheckoutErr e)
    | Ok existing =>
        if negb (String.eqb (bs_SubscriptionID existing) "") && negb (String.eqb (bs_Status existing) "canceled")
           && negb (String.eqb (bs_Status existing) "none")
        then ret (Refused 409 (bs_Status existing))
        else
          now <- Backups.clock ;;
          r <- attempt (BillingSummaryForOrg orgID now true) ;;
          match r with
          | Err e => ret (CheckoutErr e)
          | Ok summary =>
              let qty := BillableQuantity (bm_BilledUnits summary) true in
              if (qty <? 1)%Z then ret (Refused 422 "")
              else ret (OpenCheckout qty (bs_CustomerID (bm_Subscription summary)) orgID)
          end
    end.

End receiver.
