(* ===== verification/NetAddr.v ===== *)
(** * Network addresses

    [net.ParseIP], [net.SplitHostPort] and the predicates of [net.IP] the
    control plane judges addresses by.  An address is its sixteen bytes, as
    [ParseIP] returns it; an IPv4 address has the mapped form. *)

From S2P Require Import Prelude GoStrings Naming RenderCluster Paddle.
From Stdlib Require Import Ascii.

Local Open Scope string_scope.

(** ** Addresses *)

Definition ip := list Z.

Definition v4_mapped (a b c d : Z) : ip := [0; 0; 0; 0; 0; 0; 0; 0; 0; 0; 255; 255; a; b; c; d]%Z.

Definition To4 (x : ip) : option (Z * Z * Z * Z) :=
  match x with
  | [0; 0; 0; 0; 0; 0; 0; 0; 0; 0; 255; 255; a; b; c; d]%Z => Some (a, b, c, d)
  | _ => None
  end.

(** An octet has no leading zero and no sign. *)
Definition parse_octet (s : string) : option Z :=
  if negb (sforall is_digit s) || String.eqb s "" || (3 <? String.length s)%nat then None
  else if (1 <? String.length s)%nat && has_prefix s "0" then None
  else let z := Z.of_N (digits_val 0 s) in if (255 <? z)%Z then None else Some z.

Definition parse_v4 (s : string) : option (Z * Z * Z * Z) :=
  match split_at "."%char s with
  | [a; b; c; d] =>
      a ← parse_octet a; b ← parse_octet b; c ← parse_octet c; d ← parse_octet d; Some (a, b, c, d)
  | _ => None
  end.

Definition hex_digit_val (b : ascii) : option Z :=
  if is_digit b then Some (Z.of_N (N_of_ascii b) - 48)%Z
  else if in_range "a"%char "f"%char b then Some (Z.of_N (N_of_ascii b) - 87)%Z
  else if in_range "A"%char "F"%char b then Some (Z.of_N (N_of_ascii b) - 55)%Z
  else None.

(** The hexadecimal digits at the head of [s], four at most: [None] when there
    are more. *)
Fixpoint hex_group (n : nat) (acc : Z) (s : string) : option (nat * Z * string) :=
  match s with
  | String b s' =>
      match hex_digit_val b with
      | None => Some (n, acc, s)
      | Some v => if (3 <? n)%nat then None else hex_group (S n) (acc * 16 + v)%Z s'
      end
  | EmptyString => Some (n, acc, s)
  end.

(** The loop of [parseIPv6]: the bytes read, where the ellipsis stands among
    them, and the rest of the text.  It ends after eight groups. *)
Fixpoint groups (fuel : nat) (acc : list Z) (ellipsis : option nat) (s : string) : option (list Z * option nat * string) :=
  match fuel with
  | O => Some (acc, ellipsis, s)
  | S fuel =>
      '(off, v, rest) ← hex_group 0 0 s;
      if (off =? 0)%nat then None
      else if has_prefix rest "." then
        if match ellipsis with None => negb (length acc =? 12)%nat | Some _ => false end then None
        else if (16 <? length acc + 4)%nat then None
        else '(a, b, c, d) ← parse_v4 s; Some ((acc ++ [a; b; c; d])%list, ellipsis, "")
      else
        let acc := (acc ++ [v / 256; v mod 256]%Z)%list in
        match rest with
        | EmptyString => Some (acc, ellipsis, "")
        | String c rest =>
            if negb (Ascii.eqb c ":"%char) || String.eqb rest "" then None
            else if has_prefix rest ":" then
              match ellipsis with
              | Some _ => None
              | None =>
                  let rest := sdrop 1 rest in
                  if String.eqb rest "" then Some (acc, Some (length acc), "")
                  else groups fuel acc (Some (length acc)) rest
              end
            else groups fuel acc ellipsis rest
        end
  end.

Definition expand (acc : list Z) (ellipsis : option nat) : option ip :=
  match ellipsis with
  | None => if (length acc =? 16)%nat then Some acc else None
  | Some e => if (length acc <? 16)%nat then Some (take e acc ++ replicate (16 - length acc) 0%Z ++ drop e acc)%list else None
  end.

Definition parse_v6 (s : string) : option ip :=
  if String.eqb s "::" then Some (replicate 16 0%Z)
  else
    '(acc, ellipsis, rest) ← (if has_prefix s "::" then groups 8 [] (Some 0%nat) (sdrop 2 s) else groups 8 [] None s);
    if String.eqb rest "" then expand acc ellipsis else None.

(** An address with a zone is none. *)
Fixpoint address_kind (s : string) : option ascii :=
  match s with
  | EmptyString => None
  | String b s => if Ascii.eqb b "."%char || Ascii.eqb b ":"%char || Ascii.eqb b "%"%char then Some b else address_kind s
  end.

Definition ParseIP (s : string) : option ip :=
  match address_kind s with
  | Some "."%char => '(a, b, c, d) ← parse_v4 s; Some (v4_mapped a b c d)
  | Some ":"%char => if has_char s "%"%char then None else parse_v6 s
  | _ => None
  end.

Definition v4_text (x : Z * Z * Z * Z) : string :=
  let '(a, b, c, d) := x in dec a +:+ "." +:+ dec b +:+ "." +:+ dec c +:+ "." +:+ dec d.

Definition SplitHostPort (hostport : string) : option (string * string) :=
  '(l, port) ← cut_last hostport ":"%char;
  if has_prefix hostport "[" then
    '(h, r) ← cut hostport "]"%char;
    if negb (String.eqb r (":" +:+ port)) then None
    else if has_char (sdrop 1 hostport) "["%char || has_char r "]"%char then None
    else Some (sdrop 1 h, port)
  else if has_char l ":"%char || has_char hostport "["%char || has_char hostport "]"%char then None
  else Some (l, port).

(** ** The predicates of [net.IP] *)

Definition octet_at (x : ip) (n : nat) : Z := default 0%Z (x !! n).

Fixpoint ip_eqb (x y : ip) : bool :=
  match x, y with
  | [], [] => true
  | a :: x, b :: y => (a =? b)%Z && ip_eqb x y
  | _, _ => false
  end.

Definition IsUnspecified (x : ip) : bool :=
  ip_eqb x (replicate 16 0%Z) || ip_eqb x (v4_mapped 0 0 0 0).
Definition IsLoopback (x : ip) : bool :=
  match To4 x with
  | Some (a, _, _, _) => (a =? 127)%Z
  | None => ip_eqb x (replicate 15 0%Z ++ [1%Z])%list
  end.
Definition IsPrivate (x : ip) : bool :=
  match To4 x with
  | Some (a, b, _, _) => (a =? 10)%Z || (a =? 172)%Z && (Z.land b 240 =? 16)%Z || (a =? 192)%Z && (b =? 168)%Z
  | None => (Z.land (octet_at x 0) 254 =? 252)%Z
  end.
Definition IsMulticast (x : ip) : bool :=
  match To4 x with
  | Some (a, _, _, _) => (Z.land a 240 =? 224)%Z
  | None => (octet_at x 0 =? 255)%Z
  end.
Definition IsLinkLocalUnicast (x : ip) : bool :=
  match To4 x with
  | Some (a, b, _, _) => (a =? 169)%Z && (b =? 254)%Z
  | None => (octet_at x 0 =? 254)%Z && (Z.land (octet_at x 1) 192 =? 128)%Z
  end.
Definition IsLinkLocalMulticast (x : ip) : bool :=
  match To4 x with
  | Some (a, b, c, _) => (a =? 224)%Z && (b =? 0)%Z && (c =? 0)%Z
  | None => (octet_at x 0 =? 255)%Z && (Z.land (octet_at x 1) 15 =? 2)%Z
  end.
Definition IsInterfaceLocalMulticast (x : ip) : bool :=
  (octet_at x 0 =? 255)%Z && (Z.land (octet_at x 1) 15 =? 1)%Z.
Definition IsGlobalUnicast (x : ip) : bool :=
  negb (ip_eqb x (v4_mapped 255 255 255 255)) && negb (IsUnspecified x) && negb (IsLoopback x) &&
  negb (IsMulticast x) && negb (IsLinkLocalUnicast x).

Example parses_addresses :
  map ParseIP ["203.0.113.7"; "01.2.3.4"; "256.1.1.1"; "1.2.3"; "fe80::1%eth0"; "1.2.3.4.5"; ":"; "1::2::3"; "2001:db8:1:2:3:4:5:6:7"] =
    [Some (v4_mapped 203 0 113 7); None; None; None; None; None; None; None; None] /\
  ParseIP "::1" = Some (replicate 15 0 ++ [1])%list%Z /\
  ParseIP "::ffff:10.0.0.1" = Some (v4_mapped 10 0 0 1) /\
  ParseIP "2001:DB8::a:b" = Some [32; 1; 13; 184; 0; 0; 0; 0; 0; 0; 0; 0; 0; 10; 0; 11]%Z /\
  ParseIP "1:2:3:4:5:6:7::" = Some [0; 1; 0; 2; 0; 3; 0; 4; 0; 5; 0; 6; 0; 7; 0; 0]%Z.
Proof. vm_compute. repeat split. Qed.

Example splits_hosts :
  map SplitHostPort ["1.2.3.4:51820"; "[::1]:22"; "host"; "::1"; "[::1]"; "a:b:c"; "[a]b:1"; ":80"] =
    [Some ("1.2.3.4", "51820"); Some ("::1", "22"); None; None; None; None; None; Some ("", "80")].
Proof. vm_compute. reflexivity. Qed.
