(* ===== verification/PaddleClaims.v ===== *)
(** * What the receiver of Paddle's webhooks guarantees

    A signature made with the secret is accepted within the window and one made
    otherwise is not; an event that is acknowledged is one that was applied, or
    was applied before, or belongs to nobody. *)

From stdpp Require Import pretty.
From Stdlib Require Import Ascii NArith.
From S2P Require Import Prelude GoStrings Json Backups Naming CpDb Deploy RenderCluster RenderDoc Vault ServerCatalog Billing BillingClaims Paddle.

Local Open Scope string_scope.
Local Open Scope io_scope.

#[local] Arguments String.append !_ _ / : simpl nomatch.

(** ** Signatures *)

Lemma byte_small (p : N -> bool) : forallb (fun n => p (N.of_nat n)) (seq 0 256) = true -> forall x, (x < 256)%N -> p x = true.
Proof.
  intros H x Hx. rewrite forallb_forall in H. specialize (H (N.to_nat x)). rewrite N2Nat.id in H. apply H.
  apply in_seq. lia.
Qed.

Definition hex_back (x : N) : option N :=
  a ← hex_val (hex_digit (N.to_nat (x / 16 mod 16))); b ← hex_val (hex_digit (N.to_nat (x mod 16))); Some (a * 16 + b)%N.

Lemma hex_pair x : (x < 256)%N -> hex_back x = Some x.
Proof.
  intros Hx. pose proof (byte_small (fun x => match hex_back x with Some y => (y =? x)%N | None => false end)
    ltac:(vm_compute; reflexivity) x Hx) as H. cbv beta in H. destruct (hex_back x); [|done]. by apply N.eqb_eq in H as ->.
Qed.

Lemma hex_roundtrip l : Forall (fun x => (x < 256)%N) l -> hex_decode (hex_encode l) = Some l.
Proof.
  induction 1 as [|x l Hx Hl IH]; [done|]. cbn [hex_encode hex_decode]. pose proof (hex_pair x Hx) as H. unfold hex_back in H.
  destruct (hex_val (hex_digit (N.to_nat (x / 16 mod 16)))) as [a|]; [|done]. cbn in *.
  destruct (hex_val (hex_digit (N.to_nat (x mod 16)))) as [b|]; [|done]. cbn in *. rewrite IH. cbn. congruence.
Qed.

Lemma be_bytes_small n x : Forall (fun b => (b < 256)%N) (be_bytes n x).
Proof.
  revert x. induction n as [|n IH]; intros x; cbn [be_bytes]; [constructor|]. apply Forall_app. split; [apply IH|].
  constructor; [by apply N.mod_lt|constructor].
Qed.

Lemma sha256_bytes s : Forall (fun b => (b < 256)%N) (sha256_sum s).
Proof. unfold sha256_sum. apply Forall_bind, Forall_true. intros x. apply be_bytes_small. Qed.

Lemma split_at_free c s : sforall (fun b => negb (Ascii.eqb b c)) s = true -> split_at c s = [s].
Proof.
  induction s as [|b s IH]; [done|]. cbn [split_at sforall]. intros [Hb Hs]%andb_true_iff. apply negb_true_iff in Hb. by rewrite Hb, IH.
Qed.

Lemma split_at_sep c s r : sforall (fun b => negb (Ascii.eqb b c)) s = true ->
  split_at c (s +:+ String c r) = s :: split_at c r.
Proof.
  induction s as [|b s IH]; cbn [split_at String.append sforall]; [by rewrite Ascii.eqb_refl|].
  intros [Hb Hs]%andb_true_iff. apply negb_true_iff in Hb. by rewrite Hb, IH.
Qed.

Definition signed_digit (b : ascii) : bool := is_digit b || Ascii.eqb b "-".

Lemma dec_chars z : sforall signed_digit (dec z) = true.
Proof.
  destruct z as [|p|p]; [done| |].
  - apply (sforall_impl is_digit); [intros b Hb; unfold signed_digit; by rewrite Hb|]. apply (pretty_N_digits (N.pos p)).
  - unfold dec. cbn [pretty pretty_Z]. cbn [sforall String.append]. rewrite andb_true_iff. split; [done|].
    apply (sforall_impl is_digit); [intros b Hb; unfold signed_digit; by rewrite Hb|]. apply (pretty_N_digits (N.pos p)).
Qed.

Lemma parse_digits_pretty (n : N) : parse_digits (pretty n) = Some (Z.of_N n).
Proof.
  unfold parse_digits. rewrite pretty_N_digits, digits_val_pretty.
  destruct (String.eqb_spec (pretty n) "") as [E|]; [|done]. exfalso.
  pose proof (digits_val_pretty n) as H. rewrite E in H. cbn in H. by subst n.
Qed.

Lemma parse_digits_dec z : (0 <= z)%Z -> parse_digits (dec z) = Some z.
Proof.
  intros Hz. replace (dec z) with (pretty (Z.to_N z)) by (destruct z; [done|done|lia]).
  rewrite parse_digits_pretty, Z2N.id by done. done.
Qed.

Lemma parse_dec z : in_int64 z -> ParseInt (dec z) = Some z.
Proof.
  intros Hz. unfold ParseInt. pose proof parse_digits_pretty as Hd.
  assert (E : match dec z with String "-" r => Z.opp <$> parse_digits r | String "+" r => parse_digits r | _ => parse_digits (dec z) end = Some z).
  { destruct z as [|p|p]; [done| |].
    - pose proof (Hd (N.pos p)) as H. pose proof (pretty_N_digits (N.pos p)) as Hc. unfold dec.
      change (pretty (Z.pos p)) with (pretty (N.pos p)). destruct (pretty (N.pos p)) as [|c r]; [done|].
      cbn in Hc. apply andb_true_iff in Hc as [Hc _]. destruct (Ascii.eqb_spec c "-"); [by subst|]. destruct (Ascii.eqb_spec c "+"); [by subst|].
      transitivity (parse_digits (String c r)); [|exact H]. destruct c as [[] [] [] [] [] [] [] []]; done.
    - unfold dec. change (pretty (Z.neg p)) with (String "-" (pretty (N.pos p))). cbv iota. by rewrite Hd. }
  rewrite E. cbn. unfold in_int64 in Hz. destruct (Z.leb_spec int64_min z), (Z.leb_spec z int64_max); cbn; done || lia.
Qed.

Lemma signed_free c s : sforall signed_digit s = true -> signed_digit c = false -> sforall (fun b => negb (Ascii.eqb b c)) s = true.
Proof.
  intros H Hc. revert H. apply sforall_impl. intros b Hb. apply negb_true_iff. destruct (Ascii.eqb_spec b c); [|done]. congruence.
Qed.

Lemma hex_free l c : label_char c = false -> sforall (fun b => negb (Ascii.eqb b c)) (hex_encode l) = true.
Proof.
  intros Hc. pose proof (hex_encode_label l) as H. revert H. apply sforall_impl. intros b Hb. apply negb_true_iff.
  destruct (Ascii.eqb_spec b c); [|done]. congruence.
Qed.

(** The window, where the difference fits a [time.Duration] *)
Lemma recent_spec ts now skew : (Z.abs (now - ts) <= 9223372036)%Z -> recent ts now skew = (Z.abs (now - ts) * Second <=? skew)%Z.
Proof.
  intros H. unfold recent, Second. cbv zeta.
  assert (Hin : forall z, (Z.abs z <= 9223372036000000000)%Z -> in_int64 z) by (unfold in_int64, int64_min, int64_max; lia).
  rewrite (wrap64_id (now - ts)) by (apply Hin; lia).
  assert (E : (if now - ts <? 0 then wrap64 (- (now - ts)) else now - ts)%Z = Z.abs (now - ts)).
  { destruct (Z.ltb_spec (now - ts) 0); [rewrite wrap64_id by (apply Hin; lia)|]; lia. }
  rewrite E, wrap64_id by (apply Hin; lia). rewrite Z.leb_antisym. done.
Qed.

(** A webhook signed with the secret is accepted exactly while its
    timestamp is within the window.  [paddle_Sign] and [VerifySignature] agree on
    every secret, body and 64-bit timestamp, as long as the clock is less than
    292 years away from it (beyond, the [time.Duration] wraps around). *)
Theorem signature_roundtrip secret ts body now skew :
  secret <> "" -> in_int64 ts -> (Z.abs (now - ts) <= 9223372036)%Z ->
  VerifySignature secret body (paddle_Sign secret ts body) now skew = (Z.abs (now - ts) * Second <=? skew)%Z.
Proof.
  intros Hs Ht Hn. unfold VerifySignature, paddle_Sign. destruct (String.eqb_spec secret ""); [done|].
  set (mac := hmac_sha256 secret (dec ts +:+ ":" +:+ body)).
  assert (Esplit : split_at ";"%char ("ts=" +:+ dec ts +:+ ";h1=" +:+ hex_encode mac) = ["ts=" +:+ dec ts; "h1=" +:+ hex_encode mac]).
  { change ("ts=" +:+ dec ts +:+ ";h1=" +:+ hex_encode mac) with
      ("ts=" +:+ (dec ts +:+ String ";" ("h1=" +:+ hex_encode mac))).
    rewrite <- app_assoc_str, split_at_sep, split_at_free; [done| |].
    - rewrite sforall_app. by rewrite hex_free.
    - rewrite sforall_app. by rewrite (signed_free ";"%char (dec ts) (dec_chars ts)). }
  rewrite Esplit. change (fold_left header_part _ _) with (dec ts, hex_encode mac). cbv iota beta.
  assert (Hd : String.eqb (dec ts) "" = false).
  { apply String.eqb_neq. intros E. pose proof (parse_dec ts Ht) as H. rewrite E in H. discriminate H. }
  assert (Hm : String.eqb (hex_encode mac) "" = false).
  { assert (Hl : (0 < length mac)%nat) by (unfold mac, hmac_sha256; rewrite sha256_length; lia). clearbody mac. destruct mac; [cbn in Hl; lia|done]. }
  rewrite Hd, Hm, parse_dec, recent_spec, hex_roundtrip by (done || apply sha256_bytes). cbn [orb].
  rewrite bool_decide_eq_true_2 by done. by destruct (_ <=? _)%Z.
Qed.

(** ** The receiver *)

Section receiver.
Context {pg : Postgres} {jr : JsonReader}.

Lemma deliver_applied e t0 now :
  does (from t0 now) (deliver_event e) (fun applied _ _ => applied = negb (seen e t0)) (fun _ _ => True).
Proof.
  intros d [Hn Ht]. unfold hold, deliver_event, ApplyPaddleWebhook, transaction in *.
  assert (H : forall d1 r d2, cp_tables d1 = t0 -> (_ <- query (fun _ _ => tt) ;; a <- (fresh <- record_delivery (dl_id e) ;;
      if negb fresh then ret false
      else _ <- upsertSubscriptionTx (dl_org e) (dl_state e) "paddle-webhook" (dl_at e) ;; ret true) ;;
      _ <- query (fun _ _ => tt) ;; ret a) d1 = (Ok r, d2) -> r = negb (seen e t0)).
  { intros d1 r d2 E1 E. apply bind_ok in E as (u & d3 & Eq & E).
    assert (Et : cp_tables d3 = t0).
    { unfold query, exec in Eq. destruct (cp_faults d1) as [|[]]; injection Eq as _ <-; done. }
    apply bind_ok in E as (a & d4 & E & E'). apply bind_ok in E' as (u' & d5 & _ & [= -> _]).
    apply bind_ok in E as (fresh & d6 & Ef & E). unfold record_delivery, exec in Ef. unfold seen. rewrite <- Et.
    destruct (cp_faults d3) as [|[]]; destruct (has_string _ _); try discriminate Ef; injection Ef as Ef _; subst fresh; cbn [negb] in E;
      first [apply bind_ok in E as (? & ? & _ & E) | idtac]; by injection E as <- _. }
  match goal with |- match match ?m with _ => _ end with _ => _ end => destruct m as [[r|x] d2] eqn:E end; [|done].
  by eapply H.
Qed.

(** The row carries an id of the event. *)
Definition carries (ev : paddleEvent) (b : billing_row) : Prop :=
  (paddleSubscriptionID ev <> "" /\ ob_subscription b = paddleSubscriptionID ev) \/
  (pe_CustomerID ev <> "" /\ ob_customer b = pe_CustomerID ev).

(** Whose event it is: the organisation it names, or else one whose row carries
    an id of it *)
Definition belongs (ev : paddleEvent) (t : tables) (orgID : string) : Prop :=
  let named := paddleOrgID (pe_CustomData ev) in
  if String.eqb named "" then exists b, b ∈ org_billing (estate t) /\ carries ev b /\ ob_org b = orgID else orgID = named.

(** Nobody's: it names no organisation, and no row carries an id of it. *)
Definition nobodys (ev : paddleEvent) (t : tables) : Prop :=
  paddleOrgID (pe_CustomData ev) = "" /\ forall b, b ∈ org_billing (estate t) -> ~ carries ev b.

Definition as_delivery (ev : paddleEvent) (orgID : string) (at_ : Z) : delivery :=
  mkDelivery (pe_EventID ev) orgID
    (mkBillingStatus orgID (pe_CustomerID ev) (paddleSubscriptionID ev) (paddleSubStatus (pe_EventType ev) (pe_Status ev))
       (match pe_Items ev with q :: _ => q | [] => 0%Z end)) at_.

(** When it happened, or now *)
Definition happened (ev : paddleEvent) (now : Z) : Z :=
  if String.eqb (pe_OccurredAt ev) "" then now else default now (parse_rfc3339 (pe_OccurredAt ev)).

(** What an answer means for an event *)
Definition accounted (ev : paddleEvent) (now : Z) (t t' : tables) (r : hook_response) : Prop :=
  match r with
  | StoreErr _ _ => t' = t
  | Respond 200 "ignored" => t' = t /\ (nobodys ev t \/ paddleSubStatus (pe_EventType ev) (pe_Status ev) = "")
  | Respond 200 "ok" => exists org, belongs ev t org /\ let e := as_delivery ev org (happened ev now) in seen e t = false /\ tells e t t'
  | Respond 200 "duplicate" => exists org, belongs ev t org /\ let e := as_delivery ev org (happened ev now) in seen e t = true /\ tells e t t'
  | _ => False
  end.

Lemma attempt_total {D A} (m : io D A) d : exists r d', attempt m d = (Ok r, d') /\ m d = (r, d').
Proof. unfold attempt. destruct (m d) as [r d']. by exists r, d'. Qed.

Lemma apply_event_accounts ev org stamped d t now : cp_tables d = t -> cp_now d = now ->
  (org <> "" -> belongs ev t org) -> (org = "" -> nobodys ev t) ->
  exists ans d', apply_event ev org stamped d = (Ok ans, d') /\ accounted ev now t (cp_tables d') (ha_response ans).
Proof.
  intros Ht Hn Hb Hno. unfold apply_event. destruct (String.eqb_spec org "") as [->|Hne].
  { eexists _, d. split; [reflexivity|]. cbn. split; [done|left; auto]. }
  destruct (String.eqb_spec (paddleSubStatus (pe_EventType ev) (pe_Status ev)) "") as [Es|Hs].
  { eexists _, d. split; [reflexivity|]. cbn. split; [done|by right]. }
  erewrite (bind_run Backups.clock) by reflexivity. rewrite Hn. cbv zeta. fold (happened ev now).
  set (e := as_delivery ev org (happened ev now)).
  destruct (attempt_total (deliver_event e) d) as (r & d' & Ea & Er). unfold deliver_event, e in Ea. cbn [dl_id dl_org dl_state dl_at as_delivery] in Ea.
  rewrite (bind_run _ _ _ _ _ Ea).
  pose proof (deliver_tells e t now d (conj Hn Ht)) as H1. pose proof (deliver_applied e t now d (conj Hn Ht)) as H2. rewrite Er in H1, H2.
  destruct r as [[]|x]; eexists _, d'; (split; [reflexivity|]); cbn.
  - exists org. split; [auto|]. split; [|apply H1]. unfold hold in H2. symmetry in H2. by apply negb_true_iff in H2.
  - exists org. split; [auto|]. split; [|apply H1]. unfold hold in H2. symmetry in H2. by apply negb_false_iff in H2.
  - apply H1.
Qed.

Lemma correlate_total ev d : exists r d', OrgForPaddleIDs (paddleSubscriptionID ev) (pe_CustomerID ev) d = (r, d') /\
  cp_tables d' = cp_tables d /\ cp_now d' = cp_now d /\
  match r with
  | Ok "" => (forall b, b ∈ org_billing (estate (cp_tables d)) -> ob_org b <> "") ->
      forall b, b ∈ org_billing (estate (cp_tables d)) -> ~ carries ev b
  | Ok org => exists b, b ∈ org_billing (estate (cp_tables d)) /\ carries ev b /\ ob_org b = org
  | Err _ => True
  end.
Proof.
  unfold OrgForPaddleIDs. destruct (_ && _) eqn:E0.
  { apply andb_true_iff in E0 as [E1%String.eqb_eq E2%String.eqb_eq]. eexists _, d. split_and!; [reflexivity|done|done|].
    intros _ b _ [[? _]|[? _]]; done. }
  unfold query, exec. set (sub := paddleSubscriptionID ev). set (cust := pe_CustomerID ev).
  set (org := default "" _).
  assert (H : match org with
    | "" => (forall b, b ∈ org_billing (estate (cp_tables d)) -> ob_org b <> "") ->
              forall b, b ∈ org_billing (estate (cp_tables d)) -> ~ carries ev b
    | _ => exists b, b ∈ org_billing (estate (cp_tables d)) /\ carries ev b /\ ob_org b = org
    end).
  { set (hit b := (negb (String.eqb sub "") && String.eqb (ob_subscription b) sub) || (negb (String.eqb cust "") && String.eqb (ob_customer b) cust)).
    assert (Hhit : forall b, hit b = true <-> carries ev b).
    { intros b. unfold hit, carries. fold sub cust. rewrite orb_true_iff, !andb_true_iff, !negb_true_iff, !String.eqb_neq, !String.eqb_eq. done. }
    set (l := (order_by _ _ ++ order_by _ _)%list) in org.
    assert (Hl : forall b, b ∈ l <-> b ∈ org_billing (estate (cp_tables d)) /\ hit b = true).
    { intros b. unfold l. rewrite elem_of_app, !order_by_perm, !filter_elem. fold (hit b). rewrite negb_true_iff.
      destruct (String.eqb (ob_subscription b) sub); naive_solver. }
    destruct l as [|b0 l'] eqn:El.
    - cbn in org. unfold org. intros _ b Hb Hc%Hhit. assert (Hin : b ∈ @nil billing_row) by (by apply Hl). by apply elem_of_nil in Hin.
    - cbn in org. destruct (proj1 (Hl b0) ltac:(left)) as [Hb0 Hh0%Hhit]. destruct org as [|c s] eqn:Eo.
      + intros Hne. exfalso. by apply (Hne b0).
      + by exists b0. }
  destruct (cp_faults d) as [|[]]; eexists _, _; (split; [reflexivity|]); done.
Qed.


End receiver.
