(* ===== verification/PublicHost.v ===== *)
(** * Public addresses and public names

    Models [checkPublicIP] of [cp/internal/store/alerts_store.go], the rule for
    every address the control plane is pointed at or gives away, and
    [cp/internal/store/public_host.go], the name a resource has before its owner
    brings a domain. *)

From S2P Require Import Prelude GoStrings Naming RenderCluster Paddle PaddleClaims NetAddr.
From stdpp Require Import pretty.
From Stdlib Require Import Ascii.

Local Open Scope string_scope.

(** ** The rule *)

Definition internal_v4 (x : Z * Z * Z * Z) : bool :=
  let '(a, b, c, _) := x in
  (a =? 100)%Z && (64 <=? b)%Z && (b <=? 127)%Z || (a =? 192)%Z && (b =? 0)%Z && (c =? 0)%Z ||
  (a =? 198)%Z && ((b =? 18)%Z || (b =? 19)%Z).

Definition internal (x : ip) : bool :=
  let plain := IsLoopback x || IsUnspecified x || IsPrivate x || IsLinkLocalUnicast x || IsLinkLocalMulticast x ||
               IsInterfaceLocalMulticast x || IsMulticast x || negb (IsGlobalUnicast x) in
  match To4 x with
  | Some v4 => plain || internal_v4 v4
  | None => plain
  end.

Definition checkPublicIP (shown : string) (x : ip) : res unit :=
  if internal x
  then Err ("destination " +:+ shown +:+ " is an internal address; alert channels must point at a public endpoint")
  else Ok tt.

(** ** The name *)

Definition publicLabelStemMax : nat := 40.

Definition stem_rune (r : N) : bool := ((97 <=? r) && (r <=? 122))%N || ((48 <=? r) && (r <=? 57))%N.

(** [nonLabelChars.ReplaceAllString(_, "-")]: a run becomes one dash. *)
Fixpoint dashed (in_run : bool) (rs : list N) : string :=
  match rs with
  | [] => ""
  | r :: rs =>
      if stem_rune r then String (ascii_of_N r) (dashed false rs)
      else if in_run then dashed true rs else String "-"%char (dashed true rs)
  end.

Definition stem_of (s : string) : string := trim (is_byte "-"%char) (dashed false (map lower_rune (runes s))).

Definition PublicLabel (name kind resourceID : string) : string :=
  let stem := stem_of name in
  let stem := if String.eqb stem "" then stem_of kind else stem in
  let stem := if String.eqb stem "" then "app" else stem in
  let stem := if (publicLabelStemMax <? String.length stem)%nat
              then trim (is_byte "-"%char) (stake publicLabelStemMax stem) else stem in
  let suffix := if (8 <? String.length resourceID)%nat then sdrop (String.length resourceID - 8) resourceID else resourceID in
  stem +:+ "-" +:+ suffix.

Definition publicIPv4 (endpoint : string) : string :=
  let host := trim_space endpoint in
  if String.eqb host "" then ""
  else
    let host := match SplitHostPort host with Some (h, _) => h | None => host end in
    match ParseIP host with
    | None => ""
    | Some x => match To4 x with
                | None => ""
                | Some v4 => if is_ok (checkPublicIP host x) then v4_text v4 else ""
                end
    end.

Definition dot_to_dash (b : ascii) : ascii := if Ascii.eqb b "."%char then "-"%char else b.

Definition PublicHost (label appsDomain serverEndpoint : string) : string :=
  if String.eqb label "" then ""
  else
    let d := trim (is_byte "."%char) (trim_space appsDomain) in
    if negb (String.eqb d "") then label +:+ "." +:+ d
    else
      let ip := publicIPv4 serverEndpoint in
      if String.eqb ip "" then "" else label +:+ "-" +:+ smap dot_to_dash ip +:+ ".sslip.io".

(** ** Which addresses are public *)

Definition is_octet (z : Z) : Prop := (0 <= z < 256)%Z.
Definition v4_number (a b c d : Z) : Z := (((a * 256 + b) * 256 + c) * 256 + d)%Z.

(** An address block: its first address and the length of its prefix. *)
Definition block_4 (a b c d : Z) (len : Z) : Z * Z := (v4_number a b c d, 2 ^ (32 - len))%Z.
Definition in_block (n : Z) (blk : Z * Z) : Prop := (blk.1 <= n < blk.1 + blk.2)%Z.

Definition internal_blocks : list (Z * Z) :=
  [block_4 0 0 0 0 32; block_4 10 0 0 0 8; block_4 100 64 0 0 10; block_4 127 0 0 0 8; block_4 169 254 0 0 16;
   block_4 172 16 0 0 12; block_4 192 0 0 0 24; block_4 192 168 0 0 16; block_4 198 18 0 0 15; block_4 224 0 0 0 4;
   block_4 255 255 255 255 32].

Lemma To4_mapped a b c d : To4 (v4_mapped a b c d) = Some (a, b, c, d).
Proof. done. Qed.

Lemma octets_all (P : Z -> bool) : forallb P (map Z.of_nat (seq 0 256)) = true -> forall z, is_octet z -> P z = true.
Proof.
  intros H z Hz. rewrite forallb_forall in H. apply H. apply in_map_iff. exists (Z.to_nat z). split; [unfold is_octet in Hz; lia|].
  apply in_seq. unfold is_octet in Hz. lia.
Qed.

Lemma land_240_16 b : is_octet b -> (Z.land b 240 =? 16)%Z = (16 <=? b)%Z && (b <=? 31)%Z.
Proof. intros Hb. apply Bool.eqb_prop, (octets_all (fun b => Bool.eqb (Z.land b 240 =? 16)%Z ((16 <=? b)%Z && (b <=? 31)%Z))); [by vm_compute|done]. Qed.
Lemma land_240_224 a : is_octet a -> (Z.land a 240 =? 224)%Z = (224 <=? a)%Z && (a <=? 239)%Z.
Proof. intros Ha. apply Bool.eqb_prop, (octets_all (fun a => Bool.eqb (Z.land a 240 =? 224)%Z ((224 <=? a)%Z && (a <=? 239)%Z))); [by vm_compute|done]. Qed.

Lemma mapped_eqb a b c d a' b' c' d' :
  ip_eqb (v4_mapped a b c d) (v4_mapped a' b' c' d') = ((a =? a') && ((b =? b') && ((c =? c') && ((d =? d') && true))))%Z.
Proof. done. Qed.
Lemma mapped_not_zero a b c d : ip_eqb (v4_mapped a b c d) (replicate 16 0%Z) = false.
Proof. done. Qed.

Lemma internal_blocks_are : internal_blocks =
  [(0, 1); (167772160, 16777216); (1681915904, 4194304); (2130706432, 16777216); (2851995648, 65536); (2886729728, 1048576);
   (3221225472, 256); (3232235520, 65536); (3323068416, 131072); (3758096384, 268435456); (4294967295, 1)]%Z.
Proof. vm_compute. reflexivity. Qed.

Lemma refused_iff (x : bool) (e : string) : (if x then Err e else Ok tt) = Ok tt <-> x = false.
Proof. by destruct x. Qed.

(** The octets of the blocks *)
Definition internal_octets (a b c d : Z) : Prop :=
  (a = 0 /\ b = 0 /\ c = 0 /\ d = 0 \/ a = 10 \/ a = 100 /\ 64 <= b <= 127 \/ a = 127 \/ a = 169 /\ b = 254 \/
   a = 172 /\ 16 <= b <= 31 \/ a = 192 /\ b = 0 /\ c = 0 \/ a = 192 /\ b = 168 \/ a = 198 /\ 18 <= b <= 19 \/
   224 <= a <= 239 \/ a = 255 /\ b = 255 /\ c = 255 /\ d = 255)%Z.

Lemma blocks_octets a b c d : is_octet a -> is_octet b -> is_octet c -> is_octet d ->
  Exists (in_block (v4_number a b c d)) internal_blocks <-> internal_octets a b c d.
Proof.
  intros Ha Hb Hc Hd. rewrite internal_blocks_are, !Exists_cons, Exists_nil. unfold is_octet, internal_octets in *.
  assert (H8 : forall x, in_block (v4_number a b c d) (x * 16777216, 16777216)%Z <-> a = x) by (unfold in_block, v4_number; cbn [fst snd]; lia).
  assert (H0 : in_block (v4_number a b c d) (0, 1)%Z <-> a = 0%Z /\ b = 0%Z /\ c = 0%Z /\ d = 0%Z) by (unfold in_block, v4_number; cbn [fst snd]; lia).
  assert (H1 : in_block (v4_number a b c d) (1681915904, 4194304)%Z <-> a = 100%Z /\ (64 <= b <= 127)%Z) by (unfold in_block, v4_number; cbn [fst snd]; lia).
  assert (H2 : in_block (v4_number a b c d) (2851995648, 65536)%Z <-> a = 169%Z /\ b = 254%Z) by (unfold in_block, v4_number; cbn [fst snd]; lia).
  assert (H3 : in_block (v4_number a b c d) (2886729728, 1048576)%Z <-> a = 172%Z /\ (16 <= b <= 31)%Z) by (unfold in_block, v4_number; cbn [fst snd]; lia).
  assert (H4 : in_block (v4_number a b c d) (3221225472, 256)%Z <-> a = 192%Z /\ b = 0%Z /\ c = 0%Z) by (unfold in_block, v4_number; cbn [fst snd]; lia).
  assert (H5 : in_block (v4_number a b c d) (3232235520, 65536)%Z <-> a = 192%Z /\ b = 168%Z) by (unfold in_block, v4_number; cbn [fst snd]; lia).
  assert (H6 : in_block (v4_number a b c d) (3323068416, 131072)%Z <-> a = 198%Z /\ (18 <= b <= 19)%Z) by (unfold in_block, v4_number; cbn [fst snd]; lia).
  assert (H7 : in_block (v4_number a b c d) (3758096384, 268435456)%Z <-> (224 <= a <= 239)%Z) by (unfold in_block, v4_number; cbn [fst snd]; lia).
  assert (H9 : in_block (v4_number a b c d) (4294967295, 1)%Z <-> a = 255%Z /\ b = 255%Z /\ c = 255%Z /\ d = 255%Z) by (unfold in_block, v4_number; cbn [fst snd]; lia).
  change 167772160%Z with (10 * 16777216)%Z. change 2130706432%Z with (127 * 16777216)%Z.
  rewrite !H8, H0, H1, H2, H3, H4, H5, H6, H7, H9. tauto.
Qed.

Lemma internal_is a b c d : is_octet a -> is_octet b -> is_octet c -> is_octet d ->
  internal (v4_mapped a b c d) = true <-> internal_octets a b c d.
Proof.
  intros Ha Hb Hc Hd. unfold internal, IsGlobalUnicast, IsUnspecified, IsLoopback, IsPrivate,
    IsLinkLocalUnicast, IsLinkLocalMulticast, IsMulticast, internal_v4. rewrite To4_mapped.
  rewrite !mapped_not_zero, !mapped_eqb, !land_240_16, !land_240_224 by done.
  change (IsInterfaceLocalMulticast _) with false.
  rewrite ?orb_true_iff, ?negb_true_iff, ?andb_false_iff, ?negb_false_iff, ?orb_true_iff, ?andb_true_iff, ?orb_false_r, ?Z.eqb_eq, ?Z.leb_le.
  assert (Hb' : (b =? 18)%Z || (b =? 19)%Z = true <-> (18 <= b <= 19)%Z) by (rewrite orb_true_iff, !Z.eqb_eq; lia).
  assert (Hm : (a = 224%Z /\ b = 0%Z) /\ c = 0%Z -> (224 <= a <= 239)%Z) by lia.
  assert (Hf : false = true <-> False) by done.
  rewrite Hb', Hf. unfold internal_octets. tauto.
Qed.

(** C39: the rule for IPv4 is a list of blocks.  An address is refused exactly
    when it lies in one of them: unspecified, private, carrier NAT, loopback,
    link-local, protocol assignments, benchmarking, multicast and broadcast. *)
Theorem public_addresses shown a b c d : is_octet a -> is_octet b -> is_octet c -> is_octet d ->
  checkPublicIP shown (v4_mapped a b c d) = Ok tt <-> Forall (fun blk => ~ in_block (v4_number a b c d) blk) internal_blocks.
Proof.
  intros Ha Hb Hc Hd. unfold checkPublicIP. rewrite refused_iff, <- not_true_iff_false, internal_is, <- blocks_octets by done.
  rewrite <- Forall_Exists_neg. done.
Qed.

(** ** The label of a resource *)

Lemma stem_rune_char r : stem_rune r = true -> label_char (ascii_of_N r) = true.
Proof.
  intros H. assert (Hr : (r < 128)%N) by (unfold stem_rune in H; rewrite orb_true_iff, !andb_true_iff, !N.leb_le in H; lia).
  assert (A : forallb (fun n => implb (stem_rune (N.of_nat n)) (label_char (ascii_of_N (N.of_nat n)))) (seq 0 128) = true) by (vm_compute; done).
  rewrite forallb_forall in A. specialize (A (N.to_nat r)). rewrite N2Nat.id, H in A. apply A, in_seq. lia.
Qed.

Lemma dashed_label in_run rs : sforall label_char (dashed in_run rs) = true.
Proof.
  revert in_run. induction rs as [|r rs IH]; intros in_run; cbn [dashed]; [done|].
  destruct (stem_rune r) eqn:E; [|destruct in_run; [apply IH|cbn [sforall]; by rewrite IH]].
  cbn [sforall]. by rewrite IH, stem_rune_char.
Qed.

(** What is left of a stem: no dash at either end. *)
Definition stem_ok (s : string) : Prop :=
  s <> "" /\ sforall label_char s = true /\ (forall t, s <> String "-"%char t) /\ (forall t, s <> t +:+ "-").

Lemma trimmed_ok s : sforall label_char s = true -> trim (is_byte "-"%char) s <> "" -> stem_ok (trim (is_byte "-"%char) s).
Proof.
  intros Hs Hne. split_and!; [done|by apply trim_sforall| |].
  - intros t E. apply trim_head in E. discriminate.
  - intros t E. apply trim_last in E. discriminate.
Qed.

Lemma stake_head n s c t : stake n s = String c t -> exists u, s = String c u.
Proof. destruct n, s; cbn; try done. intros [= -> _]. eauto. Qed.

Lemma stake_sforall f n s : sforall f s = true -> sforall f (stake n s) = true.
Proof.
  revert s. induction n as [|n IH]; intros [|b s]; cbn; try done. intros [Hb Hs]%andb_true_iff. by rewrite Hb, IH.
Qed.

(** Cutting a stem leaves one. *)
Lemma cut_ok n s : (0 < n)%nat -> stem_ok s -> stem_ok (trim (is_byte "-"%char) (stake n s)).
Proof.
  intros Hn (Hne & Hc & Hf & _). apply trimmed_ok; [by apply stake_sforall|]. destruct s as [|c s]; [done|]. destruct n as [|n]; [lia|].
  cbn [stake]. assert (Ec : is_byte "-"%char c = false).
  { unfold is_byte. destruct (Ascii.eqb_spec c "-"%char) as [->|]; [by destruct (Hf s)|done]. }
  unfold trim. cbn [trim_left]. rewrite Ec. by rewrite trim_right_cons.
Qed.

Lemma stem_of_ok s : stem_of s <> "" -> stem_ok (stem_of s).
Proof. apply trimmed_ok, dashed_label. Qed.

Definition final_stem (name kind : string) : string :=
  let stem := stem_of name in
  let stem := if String.eqb stem "" then stem_of kind else stem in
  let stem := if String.eqb stem "" then "app" else stem in
  if (publicLabelStemMax <? String.length stem)%nat then trim (is_byte "-"%char) (stake publicLabelStemMax stem) else stem.

Lemma final_stem_ok name kind : stem_ok (final_stem name kind) /\ (String.length (final_stem name kind) <= 40)%nat.
Proof.
  unfold final_stem. cbv zeta.
  set (s := if String.eqb _ "" then "app" else _).
  assert (Hs : stem_ok s).
  { unfold s. destruct (String.eqb_spec (stem_of name) "") as [E|E].
    - destruct (String.eqb_spec (stem_of kind) "") as [E'|E']; [|by apply stem_of_ok].
      split_and!; [done|done|done|]. intros t Et. by destruct t as [|? [|? [|? []]]].
    - destruct (String.eqb_spec (stem_of name) "") as [E'|_]; [done|by apply stem_of_ok]. }
  clearbody s. destruct (Nat.ltb_spec publicLabelStemMax (String.length s)) as [H|H]; [|by split].
  split; [apply cut_ok; [unfold publicLabelStemMax; lia|done]|].
  etransitivity; [apply trim_length|]. rewrite length_stake. unfold publicLabelStemMax. lia.
Qed.

Lemma suffix_is p h : String.length h = 8%nat ->
  (if (8 <? String.length (p +:+ h))%nat then sdrop (String.length (p +:+ h) - 8) (p +:+ h) else p +:+ h) = h.
Proof.
  intros Hh. rewrite length_app_str, Hh. destruct (Nat.ltb_spec 8 (String.length p + 8)) as [H|H].
  - replace (String.length p + 8 - 8)%nat with (String.length p) by lia. apply sdrop_app.
  - by destruct p; cbn in *; [|lia].
Qed.

(** C40: every resource has a name DNS accepts.  Whatever the user typed - blanks,
    punctuation, another script, nothing, five hundred letters - the label of
    the resource is an RFC 1123 label of at most forty-nine bytes that ends in
    the last eight characters of the resource's id. *)
Theorem labels_are_labels name kind p h :
  String.length h = 8%nat -> sforall label_char h = true -> (forall t, h <> t +:+ "-") ->
  rfc1123_label (PublicLabel name kind (p +:+ h)) /\ (String.length (PublicLabel name kind (p +:+ h)) <= 49)%nat /\
  exists stem, PublicLabel name kind (p +:+ h) = stem +:+ "-" +:+ h.
Proof.
  intros Hl Hc Hlast. assert (E : PublicLabel name kind (p +:+ h) = final_stem name kind +:+ "-" +:+ h).
  { unfold PublicLabel. cbv zeta. by rewrite suffix_is. }
  destruct (final_stem_ok name kind) as [(Hne & Hsc & Hf & _) Hlen]. rewrite E.
  assert (Hlen' : (String.length (final_stem name kind +:+ "-" +:+ h) <= 49)%nat).
  { rewrite !length_app_str, Hl. cbn [String.length]. lia. }
  split; [|by split; [|eexists]]. split.
  - by destruct (final_stem name kind).
  - lia.
  - by rewrite !sforall_app, Hsc, Hc.
  - intros t Et. destruct (final_stem name kind) as [|c s]; [done|]. injection Et as -> Et. by apply (Hf s).
  - intros t Et. destruct (str_last h) as [->|(u & c & ->)]; [done|]. rewrite <- !app_assoc_str in Et.
    apply app_last_inj in Et as ->. by apply (Hlast u).
Qed.

(** ** The address a name leads to *)

Lemma To4_inv x a b c d : To4 x = Some (a, b, c, d) -> x = v4_mapped a b c d.
Proof. unfold To4. intros H. repeat case_match; try discriminate. by simplify_eq. Qed.

Lemma parse_octet_octet s z : parse_octet s = Some z -> is_octet z.
Proof.
  unfold parse_octet, is_octet. destruct (_ || _); [done|]. destruct (_ && _); [done|].
  destruct (Z.ltb_spec 255 (Z.of_N (digits_val 0 s))); [done|]. intros [= <-]. lia.
Qed.

Lemma parse_v4_octets s a b c d : parse_v4 s = Some (a, b, c, d) -> is_octet a /\ is_octet b /\ is_octet c /\ is_octet d.
Proof.
  unfold parse_v4. intros H. destruct (split_at _ s) as [|x1 [|x2 [|x3 [|x4 [|x5 l]]]]]; try done.
  apply bind_Some in H as (a' & Ha%parse_octet_octet & H). apply bind_Some in H as (b' & Hb%parse_octet_octet & H).
  apply bind_Some in H as (c' & Hc%parse_octet_octet & H). apply bind_Some in H as (d' & Hd%parse_octet_octet & H). by simplify_eq.
Qed.

Lemma hex_digit_bound b v : hex_digit_val b = Some v -> (0 <= v < 16)%Z.
Proof.
  assert (A : forallb (fun n => match hex_digit_val (ascii_of_nat n) with Some v => (0 <=? v)%Z && (v <? 16)%Z | None => true end) (seq 0 256) = true)
    by (vm_compute; done).
  rewrite forallb_forall in A. specialize (A (nat_of_ascii b)). rewrite ascii_nat_embedding in A. intros E. rewrite E in A.
  assert (In (nat_of_ascii b) (seq 0 256)) as HI.
  { apply in_seq. split; [lia|]. apply nat_ascii_bounded. }
  specialize (A HI). lia.
Qed.

Lemma hex_group_bound s : forall n acc off v rest, (n <= 4)%nat -> (0 <= acc < 16 ^ Z.of_nat n)%Z ->
  hex_group n acc s = Some (off, v, rest) -> (0 <= v < 65536)%Z.
Proof.
  induction s as [|b s IH]; intros n acc off v rest Hn Hacc; cbn [hex_group].
  - intros [= <- <- <-]. assert (16 ^ Z.of_nat n <= 16 ^ 4)%Z by (apply Z.pow_le_mono_r; lia). lia.
  - destruct (hex_digit_val b) as [x|] eqn:Eb.
    + apply hex_digit_bound in Eb. destruct (Nat.ltb_spec 3 n); [done|]. apply IH; [lia|].
      rewrite Nat2Z.inj_succ, Z.pow_succ_r by lia. lia.
    + intros [= <- <- <-]. assert (16 ^ Z.of_nat n <= 16 ^ 4)%Z by (apply Z.pow_le_mono_r; lia). lia.
Qed.

Lemma groups_octets fuel : forall acc e s acc' e' r, Forall is_octet acc -> groups fuel acc e s = Some (acc', e', r) -> Forall is_octet acc'.
Proof.
  induction fuel as [|fuel IH]; intros acc e s acc' e' r Hacc; cbn [groups]; [by intros [= <- <- <-]|].
  intros H. apply bind_Some in H as ([[off v] rest] & Eg & H). apply hex_group_bound in Eg; [|lia|lia].
  destruct (off =? 0)%nat; [done|].
  assert (Hv : Forall is_octet (acc ++ [v / 256; v mod 256]%Z)).
  { apply Forall_app. split; [done|]. assert (0 <= v / 256 < 256)%Z by (split; [apply Z.div_pos|apply Z.div_lt_upper_bound]; lia).
    repeat constructor; unfold is_octet; try lia; by apply Z.mod_pos_bound. }
  destruct (has_prefix rest ".").
  - destruct (match e with None => _ | Some _ => _ end); [done|]. destruct (_ <? _)%nat; [done|].
    apply bind_Some in H as ([[[a b] c] d] & (G1 & G2 & G3 & G4)%parse_v4_octets & H). injection H as <- <- <-.
    apply Forall_app. split; [done|by rewrite !Forall_cons].
  - cbv zeta in H. destruct rest as [|ch rest]; [by injection H as <- <- <-|]. destruct (_ || _); [done|].
    destruct (has_prefix rest ":"); [|by eapply IH]. destruct e; [done|].
    destruct (String.eqb _ ""); [by injection H as <- <- <-|by eapply IH].
Qed.

Lemma ParseIP_octets s x : ParseIP s = Some x -> Forall is_octet x.
Proof.
  assert (Z0 : is_octet 0) by (unfold is_octet; lia). assert (Z255 : is_octet 255) by (unfold is_octet; lia).
  unfold ParseIP. intros H.
  assert (H4 : ('(a, b, c, d) ← parse_v4 s; Some (v4_mapped a b c d)) = Some x -> Forall is_octet x).
  { intros Hx. apply bind_Some in Hx as ([[[a b] c] d] & (G1 & G2 & G3 & G4)%parse_v4_octets & Hx). injection Hx as <-. unfold v4_mapped. by rewrite !Forall_cons. }
  assert (H6 : parse_v6 s = Some x -> Forall is_octet x).
  { unfold parse_v6. destruct (String.eqb s "::"); [intros [= <-]; by rewrite !Forall_cons|].
    intros Hx. apply bind_Some in Hx as ([[acc e] r] & Eg & Hx). destruct (String.eqb r ""); [|done].
    assert (Ha : Forall is_octet acc) by (destruct (has_prefix s "::"); by eapply groups_octets in Eg).
    unfold expand in Hx. destruct e as [e|]; destruct (_ <? _)%nat || destruct (_ =? _)%nat; simplify_eq; try done.
    apply Forall_app. split; [by apply Forall_take|]. apply Forall_app. split; [by apply Forall_replicate|by apply Forall_drop]. }
  destruct (address_kind s) as [c|]; [|done]. repeat case_match; try done; auto.
Qed.

(** A name leads to the internet or is not given.  Where the installation
    has no domain of its own, the name of a resource is its label and the
    address of its server, which is an IPv4 address outside every internal
    block. *)
Theorem given_names_are_public label e :
  PublicHost label "" e <> "" -> exists a b c d, is_octet a /\ is_octet b /\ is_octet c /\ is_octet d /\
    Forall (fun blk => ~ in_block (v4_number a b c d) blk) internal_blocks /\
    PublicHost label "" e = label +:+ "-" +:+ smap dot_to_dash (v4_text (a, b, c, d)) +:+ ".sslip.io".
Proof.
  unfold PublicHost. destruct (String.eqb label ""); [done|]. change (trim (is_byte ".") (trim_space "")) with "". cbn [String.eqb negb].
  destruct (String.eqb_spec (publicIPv4 e) "") as [E|E]; [done|]. intros _. unfold publicIPv4 in E |- *. cbv zeta in *.
  destruct (String.eqb (trim_space e) ""); [done|]. set (host := match SplitHostPort _ with Some _ => _ | None => _ end) in *.
  destruct (ParseIP host) as [x|] eqn:Ep; [|done]. destruct (To4 x) as [[[[a b] c] d]|] eqn:E4; [|done].
  destruct (checkPublicIP host x) as [u|] eqn:Ec; [|done]. apply ParseIP_octets in Ep. apply To4_inv in E4 as ->.
  unfold v4_mapped in Ep. rewrite !Forall_cons in Ep. destruct Ep as (_ & _ & _ & _ & _ & _ & _ & _ & _ & _ & _ & _ & Ha & Hb & Hc & Hd & _).
  exists a, b, c, d. split_and!; try done. apply public_addresses with (shown := host); try done. by destruct u.
Qed.

(** A given name may be too long for DNS.  The label of a resource is
    kept within 49 bytes so that it fits the 63 a DNS label has, and the address
    is then appended to the label itself: with a long name on a server whose
    address has fourteen digits and dots or more, the first label of the host
    that is shown to the user and routed has 64 bytes or 65, and no resolver will look
    it up. *)
Theorem long_names_do_not_resolve :
  let label := PublicLabel "Customer portal frontend (production, EU west)" "app" "res_0123456789abcdef" in
  label = "customer-portal-frontend-production-eu-w-89abcdef" /\
  PublicHost label "" "203.113.115.120:51820" = label +:+ "-203-113-115-120.sslip.io" /\
  (match cut (PublicHost label "" "203.113.115.120:51820") "."%char with Some (l, _) => String.length l | None => 0%nat end) = 65%nat.
Proof. vm_compute. repeat split. Qed.

(** The ranges reserved for documentation pass as public. *)
Example documentation_ranges_are_public :
  map publicIPv4 ["192.0.2.1"; "198.51.100.1"; "203.0.113.1"] = ["192.0.2.1"; "198.51.100.1"; "203.0.113.1"].
Proof. vm_compute. reflexivity. Qed.

Lemma public_addresses_witness : checkPublicIP "metadata" (v4_mapped 169 254 169 254) <> Ok tt /\ checkPublicIP "web" (v4_mapped 93 184 216 34) = Ok tt.
Proof.
  split.
  - rewrite public_addresses by (unfold is_octet; lia). rewrite internal_blocks_are, !Forall_cons. unfold in_block, v4_number. cbn [fst snd]. lia.
  - apply public_addresses; [unfold is_octet; lia..|]. rewrite internal_blocks_are. repeat constructor; unfold in_block, v4_number; cbn [fst snd]; lia.
Defined.

Lemma labels_are_labels_witness : rfc1123_label (PublicLabel "  " "!!" "res_0123456789abcdef").
Proof.
  apply (labels_are_labels "  " "!!" "res_01234567" "89abcdef"); [done|by vm_compute|].
  intros t E. by repeat (destruct t as [|? t]; cbn in E; try discriminate E; injection E as ? E).
Defined.

Lemma given_names_are_public_witness : exists a b c d, is_octet a /\ is_octet b /\ is_octet c /\ is_octet d /\
  PublicHost "web-1" "" "93.184.216.34" = "web-1" +:+ "-" +:+ smap dot_to_dash (v4_text (a, b, c, d)) +:+ ".sslip.io".
Proof.
  destruct (given_names_are_public "web-1" "93.184.216.34" ltac:(by vm_compute)) as (a & b & c & d & Ha & Hb & Hc & Hd & _ & E).
  by exists a, b, c, d.
Defined.
