(* ===== verification/BillingDemo.v ===== *)
(** * Billing at work

    The theorems of [BillingClaims] and [PaddleClaims] on a small tenant, and an
    event that is told in vain. *)

From S2P Require Import Prelude GoStrings Json Backups Naming CpDb Deploy DeployPipeline DsdReports RenderDoc Vault ServerCatalog Billing BillingClaims Paddle PaddleClaims.

Local Open Scope string_scope.
Local Open Scope io_scope.

#[local] Existing Instance pg_stable.

Definition gpu_columns : server_columns :=
  mkColumns "gpu" "running" false "1.0" ∅ None None None None false None [] None false "" None None None.

Definition tenant_tables (rows : list billing_row) : tables :=
  mkTables [] [] [] [] [] [] [] [mkAlertRule "org" AlertPaymentFailed "ch_1"] [mkAlertChannel "ch_1" true no_channel_columns] [] [] []
    (mkFleet [mkServer "srv_1" "org" "web-1" false 1 gpu_columns] ∅ [] ∅) no_vault no_backups
    (mkEstate [] [] [] [] rows [] [] [] []).

Definition tenant (rows : list billing_row) (faults : list bool) : cp :=
  mkCp (tenant_tables rows) 1772368245250000 faults demo_rand 0 (mkMemory ∅ []).

Definition created : delivery := mkDelivery "evt_1" "org" (mkBillingStatus "org" "ctm_1" "sub_1" "active" 2) 10.
Definition unpaid : delivery := mkDelivery "evt_2" "org" (mkBillingStatus "org" "ctm_1" "" "past_due" 0) 20.
Definition unpaid_again : delivery := mkDelivery "evt_3" "org" (mkBillingStatus "org" "ctm_1" "sub_1" "past_due" 2) 30.

Definition in_order : list (Z * delivery) := [(100, created); (200, unpaid)]%Z.
(** The first attempts fail; what arrives again was seen. *)
Definition disordered : list (Z * delivery) := [(100, unpaid); (150, unpaid); (200, created); (300, unpaid)]%Z.

Definition after_order : cp := Eval vm_compute in (run_deliveries in_order (tenant [] [])).2.
Definition after_disorder : cp := Eval vm_compute in (run_deliveries disordered (tenant [] [true])).2.


(** The subscription's id, unlike its state, depends on the order of the
    events: where the creation of a subscription arrives behind a younger
    payment failure that names none, it is dropped as stale and its id with it.
    The same two events, acknowledged in either order, leave the same status,
    but in one the checkout refuses a second subscription and in the other it
    opens one. *)
Theorem late_creation_loses_the_subscription :
  let behind := (run_deliveries [(100%Z, unpaid); (200%Z, created)] (tenant [] [])).2 in
  (run_deliveries [(100%Z, unpaid); (200%Z, created)] (tenant [] [])).1 = [unpaid; created] /\
  (run_deliveries in_order (tenant [] [])).1 = [created; unpaid] /\
  told (cp_tables behind) "org" = told (cp_tables after_order) "org" /\
  (ob_subscription <$> billing_of "org" (cp_tables after_order)) = Some "sub_1" /\
  (ob_subscription <$> billing_of "org" (cp_tables behind)) = Some "" /\
  (handleBillingCheckout true "org" after_order).1 = Ok (Refused 409 "past_due") /\
  (handleBillingCheckout true "org" behind).1 = Ok (OpenCheckout 1 "ctm_1" "org").
Proof. vm_compute. repeat split. Qed.


Definition subscriber : billing_row := mkBilling "org" "ctm_1" "sub_1" "active" 7 (Some 10%Z) 0 None None None 0.


Lemma meter_prices_the_peak_witness : exists n more,
  SweepServerHours 1772368245250000 (tenant [] []) =
    (Ok n, with_tables (set_hours (fun l => l ++ more)%list (tenant_tables [])) (tenant [] [])) /\
  more = [mkHour "org" "srv_1" 1772366400000000 4].
Proof.
  destruct (meter_prices_the_peak 1772368245250000 (tenant [] []) "org") as (n & more & E & _).
  - reflexivity.
  - by apply NoDup_nil_2.
  - by apply NoDup_singleton.
  - exists n, more. split; [exact E|]. vm_compute in E. injection E as _ E. by rewrite <- E.
Defined.

Definition debtor : billing_row := mkBilling "org" "ctm_1" "sub_1" "past_due" 2 (Some 10%Z) 0 (Some 5%Z) None None 0.

Lemma delinquents_are_reminded_witness : exists d',
  SweepBillingDunning 1772368245250000 (tenant [debtor] []) = (Ok 1%Z, d') /\
  heard_lately (cp_tables d') 1772368245250000 BillingDunningInterval "billing:sub_1:past_due:dunning" (mkAlertRule "org" AlertPaymentFailed "ch_1").
Proof.
  destruct (delinquents_are_reminded 1772368245250000 (tenant [debtor] [])) as (d' & E & _ & _ & H).
  - reflexivity.
  - by apply NoDup_singleton.
  - exists d'. split; [exact E|]. apply (H debtor); [left|]. by split; [left|].
Defined.

Lemma signature_roundtrip_witness :
  VerifySignature "whsec" "{}" (paddle_Sign "whsec" 1772368245 "{}") 1772368545 fiveMinutes = true /\
  VerifySignature "whsec" "{}" (paddle_Sign "whsec" 1772368245 "{}") 1772368546 fiveMinutes = false.
Proof.
  split; rewrite (signature_roundtrip "whsec" 1772368245 "{}"); try done; by vm_compute.
Defined.

#[local] Instance one_event : JsonReader := {
  json_parse s := if String.eqb s "a failed renewal" then
      Some (JObj [("event_id", JStr "evt_9"); ("event_type", JStr "transaction.payment_failed");
        ("occurred_at", JStr "2026-03-01T12:30:45.25Z"); ("data", JObj [("id", JStr "txn_1"); ("subscription_id", JStr "sub_1")])])
    else None }.

