(* ===== verification/BillingSync.v ===== *)
(** * The quantity sweep ([cp/internal/billingsync/billingsync.go])

    Each pass pushes the drifted quantities to Paddle, one subscription at a
    time: a subscription that keeps failing is skipped for a growing number of
    passes, and a pass is reported as failed when every push of a population
    has failed for three passes in a row.  What Paddle answers is an argument
    of the pass. *)

From S2P Require Import Prelude GoStrings Json CpDb Deploy Backups Billing.

Local Open Scope string_scope.
Local Open Scope io_scope.

Definition minSystemicPopulation : nat := 3.
Definition systemicPasses : Z := 3.
Definition maxCooldownPasses : Z := 8.

Record orgState := mkOrgState { og_failures : Z; og_cooldown : Z }.

(** The state a [Syncer] keeps between passes *)
Record Syncer := mkSyncer { sy_orgs : gmap string orgState; sy_streak : Z }.

(** What a pass has counted so far *)
Record tally := mkPass {
  ps_orgs : gmap string orgState;
  ps_synced : Z;
  ps_failed : Z;
  ps_deferred : Z;
  ps_failedNow : list string;
}.

(** The turn of one subscription: skipped, failed, or pushed; [recorded] is
    whether the store took note *)
Inductive push_turn : Type := Deferred | PushFailed | Pushed (recorded : bool).

Definition count_turn (x : SubscriptionDrift) (o : push_turn) (p : tally) : tally :=
  let org := dr_OrgID x in
  let st := ps_orgs p !! org in
  match o with
  | Deferred =>
      mkPass (alter (fun st => mkOrgState (og_failures st) (og_cooldown st - 1)) org (ps_orgs p))
        (ps_synced p) (ps_failed p) (ps_deferred p + 1) (ps_failedNow p)
  | PushFailed =>
      let st := default (mkOrgState 0 0) st in
      mkPass (<[org := mkOrgState (og_failures st + 1) (og_cooldown st)]> (ps_orgs p))
        (ps_synced p) (ps_failed p + 1) (ps_deferred p) (ps_failedNow p ++ [org])
  | Pushed recorded =>
      mkPass (delete org (ps_orgs p)) (if recorded then ps_synced p + 1 else ps_synced p)
        (ps_failed p) (ps_deferred p) (ps_failedNow p)
  end.

Definition cooling (orgs : gmap string orgState) (org : string) : bool :=
  match orgs !! org with Some st => (0 <? og_cooldown st)%Z | None => false end.

Section sync.
Variable push : SubscriptionDrift -> bool.
Variable actor : string.

Definition take_turn (x : SubscriptionDrift) (p : tally) : io cp tally :=
  if cooling (ps_orgs p) (dr_OrgID x) then ret (count_turn x Deferred p)
  else if negb (push x) then ret (count_turn x PushFailed p)
  else
    r <- attempt (RecordQuantitySynced (dr_OrgID x) (dr_Want x) actor) ;;
    ret (count_turn x (Pushed (is_ok r)) p).

Fixpoint take_turns (drifted : list SubscriptionDrift) (p : tally) : io cp tally :=
  match drifted with
  | [] => ret p
  | x :: drifted => p <- take_turn x p ;; take_turns drifted p
  end.

(** An organisation that no longer drifts is forgotten. *)
Definition still_drifting (drifted : list SubscriptionDrift) (orgs : gmap string orgState) : gmap string orgState :=
  filter (fun kv => kv.1 ∈ map dr_OrgID drifted) orgs.

Definition unanimous (drifted : list SubscriptionDrift) (p : tally) : bool :=
  (0 <? ps_synced p + ps_failed p)%Z && (ps_synced p =? 0)%Z && (minSystemicPopulation <=? length drifted)%nat.

(** [1 << k] of a Go int, for [k >= 0] *)
Definition shift_one (k : Z) : Z := wrap64 (Z.shiftl 1 k).

Definition back_off (orgs : gmap string orgState) (org : string) : gmap string orgState :=
  alter (fun st =>
    if (1 <? og_failures st)%Z
    then mkOrgState (og_failures st) (Z.min (shift_one (og_failures st - 2)) maxCooldownPasses)
    else st) org orgs.

(** The end of a pass: the state it leaves, and its verdict *)
Definition finish (drifted : list SubscriptionDrift) (streak : Z) (p : tally) : res Z * Syncer :=
  let orgs := still_drifting drifted (ps_orgs p) in
  if unanimous drifted p then
    let streak := (streak + 1)%Z in
    (if (systemicPasses <=? streak)%Z
     then Err ("billing sync: all " +:+ dec (ps_failed p) +:+ " attempted subscription update(s) failed on " +:+ dec streak +:+
               " consecutive passes — check CP_PADDLE_API_KEY and CP_PADDLE_PRICE_ID")
     else Ok (ps_synced p), mkSyncer orgs streak)
  else (Ok (ps_synced p), mkSyncer (fold_left back_off (ps_failedNow p) orgs) 0).

End sync.

(** [None]: no Paddle client, or no price *)
Definition Sync `{!Postgres} (paddle : option (SubscriptionDrift -> bool)) (actor : string) (now : Z) (s : Syncer) : io cp (res Z * Syncer) :=
  match paddle with
  | None => ret (Ok 0%Z, s)
  | Some push =>
      drifted <- attempt (SubscriptionsNeedingQuantitySync now) ;;
      match drifted with
      | Err e => ret (Err e, s)
      | Ok drifted =>
          let actor := if String.eqb actor "" then "system:billing-sync" else actor in
          p <- take_turns push actor drifted (mkPass (sy_orgs s) 0 0 0 []) ;;
          ret (finish drifted (sy_streak s) p)
      end
  end.
