(* ===== verification/BillingSyncClaims.v ===== *)
(** * What the quantity sweep guarantees

    A subscription that drifts is pushed at least every ninth pass, however
    often it failed; a Paddle that rejects everything is reported within eleven
    passes, and only a pass like it is. *)

From S2P Require Import Prelude GoStrings Json CpDb Deploy Backups Billing BillingSync.

Local Open Scope string_scope.
Local Open Scope io_scope.

(** ** Passes *)

Definition orgs_of (l : list SubscriptionDrift) : list string := map dr_OrgID l.

(** The turns of a pass, whatever the store answers *)
Inductive turns (push : SubscriptionDrift -> bool) : list SubscriptionDrift -> tally -> tally -> Prop :=
| turns_nil p : turns push [] p p
| turns_deferred x l p p' : cooling (ps_orgs p) (dr_OrgID x) = true ->
    turns push l (count_turn x Deferred p) p' -> turns push (x :: l) p p'
| turns_failed x l p p' : cooling (ps_orgs p) (dr_OrgID x) = false -> push x = false ->
    turns push l (count_turn x PushFailed p) p' -> turns push (x :: l) p p'
| turns_pushed x l p p' recorded : cooling (ps_orgs p) (dr_OrgID x) = false -> push x = true ->
    turns push l (count_turn x (Pushed recorded) p) p' -> turns push (x :: l) p p'.

Lemma take_turns_turns push actor l : forall p d, exists p' d', take_turns push actor l p d = (Ok p', d') /\ turns push l p p'.
Proof.
  induction l as [|x l IH]; intros p d; cbn [take_turns]; [exists p, d; split; [done|constructor]|].
  unfold take_turn. destruct (cooling _ _) eqn:Ec.
  { destruct (IH (count_turn x Deferred p) d) as (p' & d' & E & H). exists p', d'. split; [exact E|by constructor]. }
  destruct (push x) eqn:Ep; cbn [negb].
  2:{ destruct (IH (count_turn x PushFailed p) d) as (p' & d' & E & H). exists p', d'. split; [exact E|by constructor]. }
  unfold bind, attempt. destruct (RecordQuantitySynced _ _ _ d) as [r d1].
  destruct (IH (count_turn x (Pushed (is_ok r)) p) d1) as (p' & d' & E & H). exists p', d'. split; [exact E|by econstructor].
Qed.

(** What a pass does to the memory of a drifting organisation *)
Definition turned (push : SubscriptionDrift -> bool) (x : SubscriptionDrift) (orgs : gmap string orgState) : option orgState :=
  let st := orgs !! dr_OrgID x in
  if cooling orgs (dr_OrgID x) then (fun st => mkOrgState (og_failures st) (og_cooldown st - 1)) <$> st
  else if push x then None
  else let st := default (mkOrgState 0 0) st in Some (mkOrgState (og_failures st + 1) (og_cooldown st)).

Definition attempts_failing (push : SubscriptionDrift -> bool) (orgs : gmap string orgState) (x : SubscriptionDrift) : bool :=
  negb (cooling orgs (dr_OrgID x)) && negb (push x).

Definition same_at (l : list string) (o o' : gmap string orgState) : Prop := forall k, k ∈ l -> o !! k = o' !! k.

Lemma cooling_same l o o' k : same_at l o o' -> k ∈ l -> cooling o k = cooling o' k.
Proof. intros H Hk. unfold cooling. by rewrite (H k Hk). Qed.

Lemma turned_same push l o o' x : same_at l o o' -> dr_OrgID x ∈ l -> turned push x o = turned push x o'.
Proof. intros H Hk. unfold turned. by rewrite (cooling_same _ _ _ _ H Hk), (H _ Hk). Qed.

Lemma count_turn_orgs x o p k : k <> dr_OrgID x -> ps_orgs (count_turn x o p) !! k = ps_orgs p !! k.
Proof. intros H. destruct o; cbn; [by rewrite lookup_alter_ne|by rewrite lookup_insert_ne|by rewrite lookup_delete_ne]. Qed.

Record turned_all (push : SubscriptionDrift -> bool) (l : list SubscriptionDrift) (p p' : tally) : Prop := {
  ta_orgs x : x ∈ l -> ps_orgs p' !! dr_OrgID x = turned push x (ps_orgs p);
  ta_others k : k ∉ orgs_of l -> ps_orgs p' !! k = ps_orgs p !! k;
  ta_failed : ps_failedNow p' = (ps_failedNow p ++ orgs_of (List.filter (attempts_failing push (ps_orgs p)) l))%list;
  ta_count : (ps_failed p' = ps_failed p + Z.of_nat (length (List.filter (attempts_failing push (ps_orgs p)) l)))%Z;
  ta_synced : (ps_synced p <= ps_synced p')%Z;
  ta_none : (forall x, x ∈ l -> push x = false) -> ps_synced p' = ps_synced p;
}.

Lemma turn_one push x o p : (o = Deferred /\ cooling (ps_orgs p) (dr_OrgID x) = true) \/
    (o = PushFailed /\ cooling (ps_orgs p) (dr_OrgID x) = false /\ push x = false) \/
    (exists b, o = Pushed b /\ cooling (ps_orgs p) (dr_OrgID x) = false /\ push x = true) ->
  NoDup [dr_OrgID x] -> turned_all push [x] p (count_turn x o p).
Proof.
  intros H _. assert (Hin : forall y, y ∈ [x] -> y = x) by (by intros y [->|[]%elem_of_nil]%elem_of_cons).
  split.
  - intros y ->%Hin. unfold turned. destruct H as [(-> & ->)|[(-> & -> & ->)|(b & -> & -> & ->)]]; cbn;
      [apply lookup_alter_eq|apply lookup_insert_eq|apply lookup_delete_eq].
  - intros k Hk. apply count_turn_orgs. intros ->. apply Hk. left.
  - unfold attempts_failing. cbn. destruct H as [(-> & ->)|[(-> & -> & ->)|(b & -> & -> & ->)]]; cbn; by rewrite ?app_nil_r.
  - unfold attempts_failing. cbn. destruct H as [(-> & ->)|[(-> & -> & ->)|(b & -> & -> & ->)]]; cbn; lia.
  - destruct H as [(-> & _)|[(-> & _)|([] & -> & _)]]; cbn; lia.
  - intros Hp. specialize (Hp x ltac:(left)). destruct H as [(-> & _)|[(-> & _)|(b & -> & _ & H)]]; [done|done|congruence].
Qed.

Lemma turns_trans push x l p p1 p' : dr_OrgID x ∉ orgs_of l -> turned_all push [x] p p1 -> turned_all push l p1 p' ->
  turned_all push (x :: l) p p'.
Proof.
  intros Hx [A1 A2 A3 A4 A5 A6] [B1 B2 B3 B4 B5 B6].
  assert (Hs : same_at (orgs_of l) (ps_orgs p1) (ps_orgs p)).
  { intros k Hk. apply A2. cbn. by intros [->|[]%elem_of_nil]%elem_of_cons. }
  assert (Hf : List.filter (attempts_failing push (ps_orgs p1)) l = List.filter (attempts_failing push (ps_orgs p)) l).
  { apply filter_ext_in. intros y Hy%list_elem_of_In. unfold attempts_failing.
    rewrite (cooling_same _ _ _ _ Hs); [done|]. by apply (list_elem_of_fmap_2 dr_OrgID). }
  rewrite Hf in *. assert (Hc : List.filter (attempts_failing push (ps_orgs p)) (x :: l) =
    (List.filter (attempts_failing push (ps_orgs p)) [x] ++ List.filter (attempts_failing push (ps_orgs p)) l)%list) by
    (cbn; by destruct (attempts_failing push (ps_orgs p) x)).
  split.
  - intros y [->|Hy]%elem_of_cons; [rewrite B2 by done; apply A1; left|].
    rewrite B1 by done. apply (turned_same _ (orgs_of l)); [done|]. by apply (list_elem_of_fmap_2 dr_OrgID).
  - intros k Hk. cbn in Hk. rewrite not_elem_of_cons in Hk. rewrite B2 by tauto. apply A2. cbn. intros [?|[]%elem_of_nil]%elem_of_cons. tauto.
  - rewrite B3, A3, Hc. unfold orgs_of. by rewrite map_app, app_assoc.
  - rewrite B4, A4, Hc, length_app. lia.
  - lia.
  - intros Hp. rewrite B6, A6; [done| |]; intros y Hy; apply Hp; [|by right]. apply elem_of_cons in Hy as [->|[]%elem_of_nil]. left.
Qed.

Lemma turns_spec push l p p' : turns push l p p' -> NoDup (orgs_of l) -> turned_all push l p p'.
Proof.
  induction 1 as [p|x l p p' Hc H IH|x l p p' Hc Hp H IH|x l p p' b Hc Hp H IH]; intros Hn.
  { split; cbn; [by intros x ?%elem_of_nil|done|by rewrite app_nil_r|lia|lia|done]. }
  all: apply NoDup_cons in Hn as [Hx Hn]; eapply turns_trans; [done| |by apply IH]; apply turn_one; [|apply NoDup_singleton].
  - by left.
  - right. by left.
  - right. right. by exists b.
Qed.

(** A pass of the sweep over drifted subscriptions, one for an organisation *)
Definition passes (push : SubscriptionDrift -> bool) (l : list SubscriptionDrift) (s : Syncer) (r : res Z) (s' : Syncer) : Prop :=
  exists p, turns push l (mkPass (sy_orgs s) 0 0 0 []) p /\ finish l (sy_streak s) p = (r, s').

Section sync.
Context {pg : Postgres}.

Lemma Sync_passes push actor now s d : quiet d ->
  let drifted := order_by (fun _ => 0%Z) (omap (drift_of now (cp_tables d)) (org_billing (estate (cp_tables d)))) in
  exists r s' d', Sync (Some push) actor now s d = (Ok (r, s'), d') /\ passes push drifted s r s'.
Proof.
  intros Hq drifted. unfold Sync. rewrite (bind_run _ _ _ (Ok drifted) d).
  2:{ apply attempt_run. unfold SubscriptionsNeedingQuantitySync. by rewrite query_quiet. }
  cbv zeta. destruct (take_turns_turns push (if String.eqb actor "" then "system:billing-sync" else actor) drifted
    (mkPass (sy_orgs s) 0 0 0 []) d) as (p & d' & E & H).
  rewrite (bind_run _ _ _ _ _ E). destruct (finish drifted (sy_streak s) p) as [r s'] eqn:Ef.
  exists r, s', d'. split; [done|]. by exists p.
Qed.

End sync.

(** ** The memory *)

Lemma back_off_other l : forall orgs k, k ∉ l -> fold_left back_off l orgs !! k = orgs !! k.
Proof.
  induction l as [|x l IH]; intros orgs k Hk; cbn; [done|]. rewrite not_elem_of_cons in Hk. rewrite IH by tauto.
  unfold back_off. rewrite lookup_alter_ne by (intros ->; tauto). done.
Qed.

Definition bounded (orgs : gmap string orgState) : Prop := forall k st, orgs !! k = Some st -> (og_cooldown st <= maxCooldownPasses)%Z.

Lemma back_off_bounded l : forall orgs, bounded orgs -> bounded (fold_left back_off l orgs).
Proof.
  induction l as [|x l IH]; intros orgs H; cbn; [done|]. apply IH. intros k st. unfold back_off.
  rewrite lookup_alter. case_decide as E; [|apply H]. subst. destruct (orgs !! k) as [o|] eqn:Eo; cbn; [|done]. intros [= <-].
  destruct (1 <? og_failures o)%Z; [cbn; lia|by eapply H].
Qed.

Lemma still_drifting_lookup l orgs k : still_drifting l orgs !! k = if bool_decide (k ∈ orgs_of l) then orgs !! k else None.
Proof.
  unfold still_drifting. destruct (bool_decide_reflect (k ∈ orgs_of l)) as [H|H]; destruct (orgs !! k) as [st|] eqn:E.
  - apply map_lookup_filter_Some. by split.
  - apply map_lookup_filter_None. by left.
  - apply map_lookup_filter_None. right. intros st' _ H'. done.
  - apply map_lookup_filter_None. by left.
Qed.

Section effects.
Context (push : SubscriptionDrift -> bool) (l : list SubscriptionDrift) (s : Syncer) (r : res Z) (s' : Syncer).
Context (Hp : passes push l s r s') (Hn : NoDup (orgs_of l)).

Lemma pass_turned : exists p, turned_all push l (mkPass (sy_orgs s) 0 0 0 []) p /\ finish l (sy_streak s) p = (r, s').
Proof using Hp Hn. destruct Hp as (p & Ht & Ef). exists p. split; [by apply turns_spec|done]. Qed.

Lemma pass_bounded : bounded (sy_orgs s) -> bounded (sy_orgs s').
Proof using Hp Hn.
  intros Hb. destruct pass_turned as (p & [T1 T2 _ _ _ _] & Ef).
  assert (H : bounded (still_drifting l (ps_orgs p))).
  { intros k st. rewrite still_drifting_lookup. destruct (bool_decide_reflect (k ∈ orgs_of l)) as [Hk|]; [|done].
    apply list_elem_of_fmap in Hk as (x & -> & Hx). rewrite (T1 x Hx). unfold turned. cbn [ps_orgs].
    destruct (cooling _ _); [|destruct (push x); [done|]].
    - destruct (sy_orgs s !! dr_OrgID x) as [o|] eqn:Eo; cbn; [|done]. intros [= <-]. cbn. pose proof (Hb _ _ Eo). lia.
    - intros [= <-]. cbn. destruct (sy_orgs s !! dr_OrgID x) as [o|] eqn:Eo; cbn; [by eapply Hb|done]. }
  unfold finish in Ef. destruct (unanimous l p); injection Ef as _ <-; cbn; [done|by apply back_off_bounded].
Qed.

Lemma pass_deferred x st : x ∈ l -> sy_orgs s !! dr_OrgID x = Some st -> (0 < og_cooldown st)%Z ->
  sy_orgs s' !! dr_OrgID x = Some (mkOrgState (og_failures st) (og_cooldown st - 1)).
Proof using Hp Hn.
  intros Hx Est Hc. destruct pass_turned as (p & [T1 T2 T3 _ _ _] & Ef).
  assert (Hcool : cooling (sy_orgs s) (dr_OrgID x) = true) by (unfold cooling; rewrite Est; lia).
  assert (E : still_drifting l (ps_orgs p) !! dr_OrgID x = Some (mkOrgState (og_failures st) (og_cooldown st - 1))).
  { rewrite still_drifting_lookup, bool_decide_eq_true_2 by (by apply list_elem_of_fmap_2). rewrite T1 by done.
    unfold turned. cbn [ps_orgs]. rewrite Hcool, Est. done. }
  unfold finish in Ef. destruct (unanimous l p); injection Ef as _ <-; cbn; [done|].
  rewrite back_off_other; [done|]. rewrite T3. cbn. intros (y & Ey & [_ Hy]%filter_elem)%list_elem_of_fmap.
  unfold attempts_failing in Hy. cbn in Hy. rewrite <- Ey, Hcool in Hy. done.
Qed.

(** Passes in which Paddle rejects everything *)
Context (Hout : forall x, x ∈ l -> push x = false) (Hpop : (minSystemicPopulation <= length l)%nat).

Lemma outage_tried k : k ∈ orgs_of l -> cooling (sy_orgs s) k = false ->
  sy_streak s' = (sy_streak s + 1)%Z /\ is_ok r = negb (systemicPasses <=? sy_streak s + 1)%Z /\ cooling (sy_orgs s') k = false.
Proof using Hp Hn Hout Hpop.
  intros (x & -> & Hx)%list_elem_of_fmap Hc. destruct pass_turned as (p & [T1 _ _ T4 _ T6] & Ef).
  assert (Hu : unanimous l p = true).
  { unfold unanimous. rewrite T4, T6 by done. cbn [ps_synced ps_failed].
    assert (Hin : x ∈ List.filter (attempts_failing push (sy_orgs s)) l).
    { apply filter_elem. split; [done|]. unfold attempts_failing. by rewrite Hc, Hout. }
    cbn [ps_orgs]. destruct (List.filter _ l) as [|y m]; [by apply elem_of_nil in Hin|]. cbn [length].
    destruct (Nat.leb_spec minSystemicPopulation (length l)); [|lia]. cbn.
    destruct (Z.ltb_spec 0 (Z.pos (Pos.of_succ_nat (length m)))); [done|lia]. }
  unfold finish in Ef. rewrite Hu in Ef. cbv zeta in Ef. injection Ef as <- <-. cbn [sy_streak sy_orgs].
  split_and!; [done|by destruct (_ <=? _)%Z|]. unfold cooling. rewrite still_drifting_lookup, bool_decide_eq_true_2 by (by apply list_elem_of_fmap_2).
  rewrite T1 by done. unfold turned. cbn [ps_orgs]. rewrite Hc, Hout by done. cbn. unfold cooling in Hc.
  destruct (sy_orgs s !! dr_OrgID x); cbn in *; done.
Qed.

Lemma outage_idle : (forall k, k ∈ orgs_of l -> cooling (sy_orgs s) k = true) -> sy_streak s' = 0%Z.
Proof using Hp Hn Hout Hpop.
  intros Hc. destruct pass_turned as (p & [_ _ _ T4 _ T6] & Ef).
  assert (Hu : unanimous l p = false).
  { unfold unanimous. rewrite T4, T6 by done. cbn [ps_synced ps_failed ps_orgs].
    assert (List.filter (attempts_failing push (sy_orgs s)) l = []) as ->; [|done].
    apply elem_of_nil_inv. intros x [Hx Ha]%filter_elem. unfold attempts_failing in Ha.
    by rewrite Hc in Ha by (by apply list_elem_of_fmap_2). }
  unfold finish in Ef. rewrite Hu in Ef. by injection Ef as _ <-.
Qed.

End effects.

(** ** Passes in a row *)

Record sweep_pass := mkSweepPass { sp_before : Syncer; sp_push : SubscriptionDrift -> bool; sp_drifted : list SubscriptionDrift; sp_result : res Z }.

Inductive sweeps : Syncer -> list sweep_pass -> Syncer -> Prop :=
| sweeps_nil s : sweeps s [] s
| sweeps_cons s push l r s1 h s' : passes push l s r s1 -> NoDup (orgs_of l) -> sweeps s1 h s' ->
    sweeps s (mkSweepPass s push l r :: h) s'.

Definition cooldown_of (s : Syncer) (org : string) : Z := match sy_orgs s !! org with Some st => og_cooldown st | None => 0%Z end.

Lemma cooling_cooldown s org : cooling (sy_orgs s) org = (0 <? cooldown_of s org)%Z.
Proof. unfold cooling, cooldown_of. by destruct (sy_orgs s !! org). Qed.

Lemma pass_cooldown push l s r s' org : passes push l s r s' -> NoDup (orgs_of l) -> org ∈ orgs_of l ->
  cooling (sy_orgs s) org = true -> cooldown_of s' org = (cooldown_of s org - 1)%Z.
Proof.
  intros Hp Hn (x & -> & Hx)%list_elem_of_fmap Hc. rewrite cooling_cooldown in Hc. unfold cooldown_of in *.
  destruct (sy_orgs s !! dr_OrgID x) as [st|] eqn:E; [|lia]. erewrite pass_deferred; [|exact Hp|exact Hn|exact Hx|exact E|lia]. done.
Qed.

(** No subscription is given up on.  However often its updates were
    rejected, an organisation whose subscription keeps drifting is pushed at
    least once in any nine consecutive passes of the sweep. *)
Theorem nobody_is_starved s h s' org : sweeps s h s' -> bounded (sy_orgs s) -> (9 <= length h)%nat ->
  (forall e, e ∈ h -> org ∈ orgs_of (sp_drifted e)) ->
  exists e, e ∈ h /\ cooling (sy_orgs (sp_before e)) org = false.
Proof.
  intros Hh Hb Hl Horg.
  assert (Hc : (cooldown_of s org < Z.of_nat (length h))%Z).
  { unfold cooldown_of. destruct (sy_orgs s !! org) as [st|] eqn:E; [|lia]. specialize (Hb _ _ E). unfold maxCooldownPasses in Hb. lia. }
  assert (Hl' : (0 < length h)%nat) by lia. clear Hb Hl.
  induction Hh as [s|s push l r s1 h s' Hp Hn Hh IH]; cbn [length] in *; [lia|].
  destruct (cooling (sy_orgs s) org) eqn:Ec; [|eexists; split; [left|exact Ec]].
  pose proof (Horg _ ltac:(left)) as Ho. cbn in Ho. pose proof (pass_cooldown _ _ _ _ _ _ Hp Hn Ho Ec) as E.
  rewrite cooling_cooldown in Ec. destruct IH as (e & He & H); [intros e He; apply Horg; by right|lia|lia|].
  exists e. split; [by right|done].
Qed.

(** A pass in which Paddle rejects every push, over the subscriptions of [orgs] *)
Definition outage (orgs : list string) (e : sweep_pass) : Prop :=
  (forall x, x ∈ sp_drifted e -> sp_push e x = false) /\ forall k, k ∈ orgs_of (sp_drifted e) <-> k ∈ orgs.

(** [n] passes into an outage *)
Definition progress (orgs : list string) (n : Z) (s : Syncer) : Prop :=
  (exists k, k ∈ orgs /\ cooling (sy_orgs s) k = false /\ (n - 8 <= sy_streak s)%Z) \/
  (forall k, k ∈ orgs -> cooling (sy_orgs s) k = true) /\ exists k, k ∈ orgs /\ (cooldown_of s k <= 8 - n)%Z.

Lemma outage_step orgs n push l s r s' : progress orgs n s -> (0 <= sy_streak s)%Z -> (minSystemicPopulation <= length orgs)%nat -> NoDup orgs ->
  passes push l s r s' -> NoDup (orgs_of l) -> outage orgs (mkSweepPass s push l r) ->
  progress orgs (n + 1) s' /\ (0 <= sy_streak s')%Z /\ (10 <= n -> is_ok r = false)%Z.
Proof.
  intros Hpr Hst Hpop Hno Hp Hn [Hout Ho]. cbn in Hout, Ho.
  assert (Hlen : (minSystemicPopulation <= length l)%nat).
  { etransitivity; [exact Hpop|]. rewrite <- (length_map dr_OrgID). apply NoDup_incl_length; [by apply NoDup_ListNoDup|].
    intros k Hk%list_elem_of_In. by apply list_elem_of_In, Ho. }
  destruct Hpr as [(k & Hk & Hc & Hs)|[Hall (k & Hk & Hc)]].
  - apply Ho in Hk as Hk'. destruct (outage_tried _ _ _ _ _ Hp Hn Hout Hlen k Hk' Hc) as (E1 & E2 & E3).
    split_and!; [left; exists k; split_and!; [done|done|lia]|lia|]. intros H10. rewrite E2. unfold systemicPasses.
    destruct (Z.leb_spec 3 (sy_streak s + 1)); [done|lia].
  - assert (E : sy_streak s' = 0%Z) by (apply (outage_idle _ _ _ _ _ Hp Hn Hout Hlen); intros j Hj%Ho; auto).
    pose proof (pass_cooldown _ _ _ _ _ _ Hp Hn (proj2 (Ho k) Hk) (Hall k Hk)) as Ek.
    pose proof (Hall k Hk) as Hck. rewrite cooling_cooldown in Hck.
    split_and!; [|lia|lia]. destruct (existsb (fun j => negb (cooling (sy_orgs s') j)) orgs) eqn:Ex.
    + left. apply existsb_elem in Ex as (j & Hj & Hcj). exists j. split_and!; [done|by apply negb_true_iff|lia].
    + right. split; [|exists k; split; [done|lia]]. intros j Hj. destruct (cooling (sy_orgs s') j) eqn:Ecj; [done|].
      assert (existsb (fun j => negb (cooling (sy_orgs s') j)) orgs = true); [|congruence].
      apply existsb_elem. exists j. by rewrite Ecj.
Qed.

(** An outage is heard of.  While Paddle rejects every push of three
    subscriptions or more, the eleventh pass and every later one report a
    failure — whatever backing off went before. *)
Theorem outage_is_reported orgs s h s' e : sweeps s (h ++ [e]) s' -> bounded (sy_orgs s) -> (0 <= sy_streak s)%Z ->
  NoDup orgs -> (minSystemicPopulation <= length orgs)%nat -> (forall x, x ∈ (h ++ [e])%list -> outage orgs x) ->
  (10 <= length h)%nat -> is_ok (sp_result e) = false.
Proof.
  intros Hh Hb Hst Hno Hpop Hout Hlen.
  assert (Hpr : progress orgs 0 s).
  { destruct (existsb (fun j => negb (cooling (sy_orgs s) j)) orgs) eqn:Ex.
    - left. apply existsb_elem in Ex as (j & Hj & Hcj). exists j. split_and!; [done|by apply negb_true_iff|lia].
    - right. split.
      + intros j Hj. destruct (cooling (sy_orgs s) j) eqn:Ecj; [done|].
        assert (existsb (fun j => negb (cooling (sy_orgs s) j)) orgs = true); [|congruence]. apply existsb_elem. exists j. by rewrite Ecj.
      + destruct orgs as [|k orgs]; [cbn in Hpop; unfold minSystemicPopulation in Hpop; lia|]. exists k. split; [left|].
        unfold cooldown_of. destruct (sy_orgs s !! k) as [st|] eqn:E; [|lia]. specialize (Hb _ _ E). unfold maxCooldownPasses in Hb. lia. }
  assert (Hn : (10 <= 0 + Z.of_nat (length h))%Z) by lia. clear Hlen Hb. revert Hpr Hn. generalize 0%Z as n. intros n Hpr Hn.
  remember (h ++ [e])%list as he eqn:Ehe. revert h n Ehe Hpr Hn. induction Hh as [s|s push l r s1 he s' Hp Hnl Hh IH]; intros h n Ehe Hpr Hn.
  { by destruct h. }
  destruct (outage_step _ _ _ _ _ _ _ Hpr Hst Hpop Hno Hp Hnl (Hout _ ltac:(left))) as (Hpr' & Hst' & Hr).
  destruct h as [|e0 h]; injection Ehe as <- Ehe.
  - apply Hr. cbn in Hn. lia.
  - apply (IH Hst' ltac:(intros x Hx; apply Hout; by right) h (n + 1)%Z Ehe Hpr'). cbn [length] in Hn. lia.
Qed.

(** What makes a pass unanimous *)
Definition rejected (e : sweep_pass) : Prop :=
  (minSystemicPopulation <= length (sp_drifted e))%nat /\ exists y, y ∈ sp_drifted e /\ sp_push e y = false.

Lemma pass_streak push l s r s' : passes push l s r s' -> NoDup (orgs_of l) ->
  (sy_streak s' = 0%Z \/ sy_streak s' = (sy_streak s + 1)%Z /\ rejected (mkSweepPass s push l r)) /\
  (is_ok r = false -> rejected (mkSweepPass s push l r) /\ (systemicPasses <= sy_streak s + 1)%Z).
Proof.
  intros Hp Hn. destruct (pass_turned _ _ _ _ _ Hp Hn) as (p & [_ _ _ T4 T5 _] & Ef). unfold finish in Ef.
  destruct (unanimous l p) eqn:Eu; [|injection Ef as <- <-; by split; [left|]].
  assert (Hr : rejected (mkSweepPass s push l r)).
  { unfold unanimous in Eu. apply andb_true_iff in Eu as [[E1 E2]%andb_true_iff E3]. split; [by apply Nat.leb_le|].
    cbn [sp_drifted sp_push ps_failed ps_orgs] in *. destruct (List.filter _ l) as [|y m] eqn:Efl; [cbn in T4; lia|].
    assert (Hy : y ∈ List.filter (attempts_failing push (sy_orgs s)) l) by (rewrite Efl; left).
    apply filter_elem in Hy as [Hy [_ Ha]%andb_true_iff]. exists y. split; [done|by apply negb_true_iff]. }
  cbv zeta in Ef. destruct (Z.leb_spec systemicPasses (sy_streak s + 1)); injection Ef as <- <-; (split; [by right|]); [|done].
  intros _. done.
Qed.

Lemma sweeps_snoc s h e s' : sweeps s (h ++ [e]) s' -> sweeps s h (sp_before e) /\
  passes (sp_push e) (sp_drifted e) (sp_before e) (sp_result e) s' /\ NoDup (orgs_of (sp_drifted e)).
Proof.
  revert s. induction h as [|e0 h IH]; intros s H; inversion H as [|s0 push l r s1 h' s2 Hp Hn Hh]; subst.
  - inversion Hh; subst. cbn. by split; [constructor|].
  - destruct (IH _ Hh) as (H1 & H2). split; [by econstructor|done].
Qed.

Lemma streak_is_rejected s h s' : sweeps s h s' -> sy_streak s = 0%Z ->
  exists h0 tl, h = (h0 ++ tl)%list /\ Z.of_nat (length tl) = sy_streak s' /\ forall x, x ∈ tl -> rejected x.
Proof.
  intros Hh H0. revert s' Hh. induction h as [|e h IH] using rev_ind; intros s' Hh.
  { inversion Hh; subst. exists [], []. rewrite H0. split_and!; [done|done|by intros x ?%elem_of_nil]. }
  apply sweeps_snoc in Hh as (Hh & Hp & Hn). destruct (IH _ Hh) as (h0 & tl & -> & El & Hr).
  destruct (pass_streak _ _ _ _ _ Hp Hn) as [[E|[E Hre]] _].
  - exists ((h0 ++ tl) ++ [e])%list, []. rewrite app_nil_r, E. split_and!; [done|done|by intros x ?%elem_of_nil].
  - exists h0, (tl ++ [e])%list. rewrite app_assoc, length_app, E. split_and!; [done|cbn; lia|].
    intros x [Hx| ->]%elem_of_snoc; [auto|]. by destruct e.
Qed.

(** A failure is reported only of an outage: the pass that reports it and
    the two before it each had three drifted subscriptions or more and had a
    push rejected.  A single subscription that Paddle will not accept never
    fails a pass. *)
Theorem alarm_means_outage s h s' e : sweeps s (h ++ [e]) s' -> sy_streak s = 0%Z -> is_ok (sp_result e) = false ->
  exists h0 e1 e2, h = (h0 ++ [e1; e2])%list /\ rejected e1 /\ rejected e2 /\ rejected e.
Proof.
  intros Hh H0 He. apply sweeps_snoc in Hh as (Hh & Hp & Hn). destruct (streak_is_rejected _ _ _ Hh H0) as (h0 & tl & -> & El & Hr).
  destruct (proj2 (pass_streak _ _ _ _ _ Hp Hn) He) as [Hre Hs]. unfold systemicPasses in Hs.
  destruct tl as [|e2 tl _] using rev_ind; [cbn in El; lia|]. destruct tl as [|e1 tl _] using rev_ind; [cbn in El; lia|].
  exists (h0 ++ tl)%list, e1, e2. rewrite <- !app_assoc. cbn. split_and!; [done| | |by destruct e].
  - apply Hr. apply elem_of_app. left. apply elem_of_snoc. by right.
  - apply Hr. apply elem_of_snoc. by right.
Qed.

(** Backing off ends in a bound and in an overflow.  A subscription that
    has failed between twice and sixty-four times in a row is skipped for
    [min (2 ^ (failures - 2)) 8] passes; from its sixty-fifth failure on the
    shift leaves the range of an [int] and it is never skipped again. *)
Theorem backoff_wraps orgs org f c : orgs !! org = Some (mkOrgState f c) ->
  exists c', back_off orgs org !! org = Some (mkOrgState f c') /\
    ((2 <= f <= 64)%Z -> c' = Z.min (2 ^ (f - 2)) maxCooldownPasses) /\
    ((65 <= f)%Z -> cooling (back_off orgs org) org = false).
Proof.
  intros E. assert (Es : (shift_one (f - 2) = if (f - 2 <? 63)%Z then (if (f - 2 <? 0)%Z then shift_one (f - 2) else 2 ^ (f - 2)) else
    if (f - 2 =? 63)%Z then - 2 ^ 63 else 0)%Z).
  { unfold shift_one. destruct (Z.ltb_spec (f - 2) 63) as [H|H].
    - destruct (Z.ltb_spec (f - 2) 0); [done|]. rewrite Z.shiftl_1_l. apply wrap64_id. unfold in_int64, int64_min, int64_max.
      pose proof (Z.pow_le_mono_r 2 (f - 2) 62 ltac:(lia) ltac:(lia)). pose proof (Z.pow_nonneg 2 (f - 2)). lia.
    - destruct (Z.eqb_spec (f - 2) 63) as [->|Hne]; [done|]. rewrite Z.shiftl_1_l. unfold wrap64.
      replace (2 ^ (f - 2))%Z with (2 ^ (f - 66) * 2 ^ 64)%Z by (rewrite <- Z.pow_add_r by lia; f_equal; lia).
      rewrite Z.add_comm, Z.mod_add by done. done. }
  unfold back_off at 1. rewrite lookup_alter_eq, E. cbn [fmap option_fmap option_map og_failures og_cooldown].
  destruct (Z.ltb_spec 1 f); eexists; (split; [reflexivity|]); (split; [intros Hf|intros Hf]); try lia.
  - rewrite Es. destruct (Z.ltb_spec (f - 2) 63); [|lia]. destruct (Z.ltb_spec (f - 2) 0); [lia|done].
  - unfold cooling, back_off. rewrite lookup_alter_eq, E. cbn. destruct (Z.ltb_spec 1 f); [|lia]. cbn. rewrite Es.
    destruct (Z.ltb_spec (f - 2) 63); [lia|]. destruct (f - 2 =? 63)%Z; done.
Qed.

(** ** At work *)

Definition rejecting : SubscriptionDrift -> bool := fun _ => false.
Definition three : list SubscriptionDrift := [mkDrift "a" "sub_a" 1 2; mkDrift "b" "sub_b" 1 2; mkDrift "c" "sub_c" 1 2].

(** Every push of a pass fails, skipped subscriptions apart. *)
Fixpoint all_rejected (l : list SubscriptionDrift) (p : tally) : tally :=
  match l with
  | [] => p
  | x :: l => all_rejected l (count_turn x (if cooling (ps_orgs p) (dr_OrgID x) then Deferred else PushFailed) p)
  end.

Lemma all_rejected_turns l : forall p, turns rejecting l p (all_rejected l p).
Proof.
  induction l as [|x l IH]; intros p; [constructor|]. cbn [all_rejected]. destruct (cooling _ _) eqn:E; [by apply turns_deferred|by apply turns_failed].
Qed.

Definition rejected_pass (l : list SubscriptionDrift) (s : Syncer) : res Z * Syncer :=
  finish l (sy_streak s) (all_rejected l (mkPass (sy_orgs s) 0 0 0 [])).

Fixpoint rejected_passes (n : nat) (l : list SubscriptionDrift) (s : Syncer) : list sweep_pass * Syncer :=
  match n with
  | O => ([], s)
  | S n => let '(r, s1) := rejected_pass l s in
           let '(h, s') := rejected_passes n l s1 in (mkSweepPass s rejecting l r :: h, s')
  end.

Lemma rejected_sweeps n l : NoDup (orgs_of l) -> forall s, sweeps s (rejected_passes n l s).1 (rejected_passes n l s).2.
Proof.
  intros Hn. induction n as [|n IH]; intros s; cbn [rejected_passes]; [constructor|].
  destruct (rejected_pass l s) as [r s1] eqn:E. specialize (IH s1). destruct (rejected_passes n l s1) as [h s'] eqn:Eh. cbn in *.
  econstructor; [|done|exact IH]. exists (all_rejected l (mkPass (sy_orgs s) 0 0 0 [])). split; [apply all_rejected_turns|exact E].
Qed.

(** Two subscriptions were backing off when the outage began. *)
Definition backing_off : Syncer := mkSyncer (<["a" := mkOrgState 9 8]> (<["b" := mkOrgState 9 8]> (<["c" := mkOrgState 9 8]> ∅))) 0.

Lemma backing_off_bounded : bounded (sy_orgs backing_off).
Proof.
  intros k st. cbn. rewrite !lookup_insert. repeat case_decide; intros Hk; try (injection Hk as <-; done). done.
Qed.

Lemma three_distinct : NoDup (orgs_of three).
Proof. by apply (bool_decide_unpack _). Qed.

Lemma rejected_passes_outage n l : forall s e, e ∈ (rejected_passes n l s).1 -> outage (orgs_of l) e.
Proof.
  induction n as [|n IH]; intros s e; cbn [rejected_passes]; [by intros ?%elem_of_nil|].
  destruct (rejected_pass l s) as [r s1]. specialize (IH s1). destruct (rejected_passes n l s1) as [h s'].
  intros [->|H]%elem_of_cons; [done|by apply IH].
Qed.

Lemma outage_is_reported_witness : exists h e, (rejected_passes 11 three backing_off).1 = (h ++ [e])%list /\ length h = 10%nat /\ is_ok (sp_result e) = false.
Proof.
  set (all := (rejected_passes 11 three backing_off).1).
  assert (E : all = (take 10 all ++ [default (mkSweepPass backing_off rejecting [] (Ok 0%Z)) (all !! 10%nat)])%list) by reflexivity.
  eexists (take 10 all), _. split; [exact E|]. split; [reflexivity|].
  apply (outage_is_reported (orgs_of three) backing_off (take 10 all) (rejected_passes 11 three backing_off).2).
  - rewrite <- E. apply rejected_sweeps, three_distinct.
  - apply backing_off_bounded.
  - reflexivity.
  - apply three_distinct.
  - cbn. unfold minSystemicPopulation. lia.
  - rewrite <- E. intros x Hx. by eapply rejected_passes_outage.
  - by apply Nat.leb_le.
Defined.

Lemma nobody_is_starved_witness : exists e, e ∈ (rejected_passes 9 three backing_off).1 /\ cooling (sy_orgs (sp_before e)) "b" = false.
Proof.
  apply (nobody_is_starved backing_off _ (rejected_passes 9 three backing_off).2 "b").
  - apply rejected_sweeps, three_distinct.
  - apply backing_off_bounded.
  - done.
  - intros e He. apply rejected_passes_outage in He as [_ H]. apply H. right. left.
Defined.

Lemma alarm_means_outage_witness : exists h e h0 e1 e2, (rejected_passes 3 three (mkSyncer ∅ 0)).1 = (h ++ [e])%list /\ is_ok (sp_result e) = false /\ h = (h0 ++ [e1; e2])%list /\ rejected e1.
Proof.
  set (all := (rejected_passes 3 three (mkSyncer ∅ 0)).1).
  assert (E : all = (take 2 all ++ [default (mkSweepPass backing_off rejecting [] (Ok 0%Z)) (all !! 2%nat)])%list) by reflexivity.
  destruct (alarm_means_outage (mkSyncer ∅ 0) (take 2 all) (rejected_passes 3 three (mkSyncer ∅ 0)).2
    (default (mkSweepPass backing_off rejecting [] (Ok 0%Z)) (all !! 2%nat))) as (h0 & e1 & e2 & Eh & Hr & _).
  - rewrite <- E. apply rejected_sweeps, three_distinct.
  - reflexivity.
  - reflexivity.
  - exists (take 2 all), (default (mkSweepPass backing_off rejecting [] (Ok 0%Z)) (all !! 2%nat)), h0, e1, e2. split; [exact E|]. split; [reflexivity|].
    by split.
Defined.

Lemma backoff_wraps_witness : exists c', back_off {["a" := mkOrgState 65 0]} "a" !! "a" = Some (mkOrgState 65 c') /\ cooling (back_off {["a" := mkOrgState 65 0]} "a") "a" = false.
Proof.
  destruct (backoff_wraps {["a" := mkOrgState 65 0]} "a" 65 0) as (c' & E & _ & H).
  - reflexivity.
  - exists c'. split; [exact E|]. apply H. lia.
Defined.
