(* ===== verification/Servers.v ===== *)
(** * The server registry ([registry.go], [heartbeat.go] and [mesh.go] of [cp/internal/store])

    How a machine enters the fleet and stays in it: its row and mesh address
    are made before its agent exists, a bootstrap token that is good for one
    registration ties the two together, and every heartbeat updates what is
    known of it and decides its status. *)

From S2P Require Import Backups Prelude GoStrings Json Naming RenderCluster RenderDoc CpDb Deploy DsdStore Kms Vault ServerCatalog Billing Paddle.
From Stdlib Require Import Ascii SpecFloat.

Local Open Scope string_scope.
Local Open Scope io_scope.

Definition ErrTokenInvalid := "bootstrap token invalid".
Definition ErrUnsupportedDistro := "unsupported distro".

(** ** Rows *)

Definition with_columns (f : server_columns -> server_columns) (s : server_row) : server_row :=
  mkServer (sv_id s) (sv_org s) (sv_name s) (sv_deleted s) (sv_created_at s) (f (sv_cols s)).

Definition update_server (id : string) (f : server_row -> server_row) : tables -> tables :=
  set_servers (map (fun s => if String.eqb (sv_id s) id then f s else s)).

(** [WHERE org_id = ... AND id = ... AND deleted_at IS NULL] *)
Definition live_server (t : tables) (orgID serverID : string) : option server_row :=
  List.find (fun s => String.eqb (sv_org s) orgID && String.eqb (sv_id s) serverID && negb (sv_deleted s))
    (servers (machines t)).
Definition live_by_id (t : tables) (serverID : string) : option server_row :=
  List.find (fun s => String.eqb (sv_id s) serverID && negb (sv_deleted s)) (servers (machines t)).

(** [status] and [incompatible_reasons] *)
Definition with_verdict (status : string) (fails : list FailedRequirement) (c : server_columns) : server_columns :=
  mkColumns (col_type c) status (col_name_auto c) (col_agent_version c) (col_facts c) (col_distro c) (col_pubkey c)
    (col_mesh_ip c) (col_endpoint c) (col_proxy_role c) (col_last_seen c) fails (col_decommission c) (col_purge c)
    (col_actor c) (col_hardening c) (col_mesh_sync c) (col_bootstrap_pubkey c).

(** [COALESCE(NULLIF(s, ''), old)] *)
Definition nonempty_or {A} (f : string -> A) (s : string) (old : A) : A := if String.eqb s "" then old else f s.

(** ** Tokens *)

Section tokens.
Variable pepper : string.

Definition hashToken (tok : string) : string :=
  of_bytes (if String.eqb pepper "" then sha256_sum tok else hmac_sha256 pepper tok).

Definition newToken (prefix : string) : io cp (string * string) :=
  b <- rand_bytes 24 ;;
  let tok := prefix +:+ "_" +:+ hex_encode (string_bytes b) in
  ret (tok, hashToken tok).

(** [INSERT]s under the keys of the tables *)
Definition insert_bootstrap (r : bootstrap_token) : io cp unit :=
  exec (fun _ t =>
    if existsb (fun o => String.eqb (bt_id o) (bt_id r) || String.eqb (bt_hash o) (bt_hash r)) (bootstrap_tokens (estate t))
    then Err ErrUnique else Ok (tt, set_bootstrap (fun l => l ++ [r])%list t)).

Definition insert_agent_token (r : agent_token) : io cp unit :=
  exec (fun _ t =>
    if existsb (fun o => String.eqb (tok_id o) (tok_id r) || String.eqb (tok_hash o) (tok_hash r)) (agent_tokens (estate t))
    then Err ErrUnique else Ok (tt, set_agent_tokens (fun l => l ++ [r])%list t)).

Definition issueTokenTx (orgID serverID serverName createdBy : string) (expiresAt : Z) : io cp string :=
  td <- newToken "sbt" ;;
  id <- newID "bt" ;;
  _ <- wrapping "insert bootstrap token: " (insert_bootstrap (mkBootstrapToken id orgID td.2 serverID None expiresAt)) ;;
  _ <- auditTx orgID createdBy "Bootstrap token issued" serverName ;;
  ret td.1.

(** The single-use claim: the organisation and server of an unused token that
    has not expired *)
Definition usable_token (now : Z) (hash : string) (r : bootstrap_token) : bool :=
  String.eqb (bt_hash r) hash && match bt_used_at r with None => true | Some _ => false end && (now <? bt_expires_at r)%Z.

Definition used_token (now : Z) (r : bootstrap_token) : bootstrap_token :=
  mkBootstrapToken (bt_id r) (bt_org r) (bt_hash r) (bt_server r) (Some now) (bt_expires_at r).

Definition claim_token (tok : string) : io cp (option (string * string)) :=
  exec (fun now t =>
    let usable := usable_token now (hashToken tok) in
    Ok ((fun r => (bt_org r, bt_server r)) <$> List.find usable (bootstrap_tokens (estate t)),
        set_bootstrap (map (fun r => if usable r then used_token now r else r)) t)).

(** [ServerByAgentToken] *)
Definition live_token (hash : string) (r : agent_token) : bool :=
  String.eqb (tok_hash r) hash && match tok_revoked_at r with None => true | Some _ => false end.

Definition ServerByAgentToken (token : string) : io cp server_row :=
  row <- query (fun _ t =>
    head (omap (fun r => if live_token (hashToken token) r then live_by_id t (tok_server r) else None)
      (agent_tokens (estate t)))) ;;
  match row with Some s => ret s | None => fail ErrNotFound end.

End tokens.

(** ** Mesh addresses *)

Definition meshOffsetMax : Z := 65534.

(** [split_part(ip, '.', n)::int] *)
Definition octet (ip : string) (n : nat) : option Z := parse_digits (default "" (split_at "."%char ip !! n)).
Definition mesh_offset (ip : string) : option Z :=
  a ← octet ip 2; b ← octet ip 3; Some (a * 256 + b)%Z.

Definition mesh_ips (orgID : string) (l : list server_row) : list string :=
  omap (fun s => if String.eqb (sv_org s) orgID then col_mesh_ip (sv_cols s) else None) l.

(** [COALESCE(MAX(...), 0)]; a cast that fails fails the statement *)
Fixpoint max_offset (ips : list string) : option Z :=
  match ips with
  | [] => Some 0%Z
  | ip :: ips => a ← mesh_offset ip; b ← max_offset ips; Some (Z.max a b)
  end.

Definition mesh_address (offset : Z) : string := "10.8." +:+ dec (offset / 256) +:+ "." +:+ dec (offset mod 256).

Definition allocateMeshIP (orgID : string) : io cp string :=
  _ <- wrapping "mesh lock: " (advisory_lock ("mesh:" +:+ orgID)) ;;
  maxOffset <- wrapping "mesh max offset: " (exec (fun _ t =>
    match max_offset (mesh_ips orgID (servers (machines t))) with
    | Some z => Ok (z, t)
    | None => Err "invalid input syntax for type integer"
    end)) ;;
  let next := (maxOffset + 1)%Z in
  if (meshOffsetMax <? next)%Z then fail ("mesh address space exhausted for org " +:+ orgID)
  else ret (mesh_address next).

Record MeshPeer := mkMeshPeer {
  mp_ServerID : string;
  mp_Name : string;
  mp_Pubkey : string;
  mp_MeshIP : string;
  mp_Endpoint : option string;
}.

Definition mesh_peer (s : server_row) : option MeshPeer :=
  k ← col_pubkey (sv_cols s); ip ← col_mesh_ip (sv_cols s);
  Some (mkMeshPeer (sv_id s) (sv_name s) k ip (col_endpoint (sv_cols s))).

Definition MeshPeers `{!Postgres} (orgID selfServerID : string) : io cp (list MeshPeer) :=
  query (fun _ t => omap mesh_peer (order_by sv_created_at
    (List.filter (fun s => String.eqb (sv_org s) orgID && negb (String.eqb (sv_id s) selfServerID) && negb (sv_deleted s))
      (servers (machines t))))).

(** [readinessExpr] *)
Definition dialable (s : server_row) : bool :=
  match mesh_peer s, col_endpoint (sv_cols s) with Some _, Some _ => true | _, _ => false end.
Definition ready (t : tables) (s : server_row) : bool :=
  String.eqb (sv_status s) "running" && bool_decide (col_mesh_sync (sv_cols s) <> None) &&
  bool_decide (mesh_peer s <> None) &&
  existsb (fun p => String.eqb (sv_org p) (sv_org s) && negb (String.eqb (sv_id p) (sv_id s)) && negb (sv_deleted p) && dialable p)
    (servers (machines t)).

(** ** Enrolment *)

Record ProvisionInput := mkProvision {
  pv_Name : string;
  pv_Type : string;
  pv_ProxyRole : bool;
  pv_Distro : string;
  pv_HostIP : string;
}.

Record ProvisionResult := mkProvisionResult {
  pr_ServerID : string;
  pr_Token : string;
  pr_ExpiresAt : Z;
  pr_BootstrapPubkey : string;
}.

(** [PRIMARY KEY (id)] and [servers_org_mesh_ip_idx] *)
Definition server_clash (r o : server_row) : bool :=
  String.eqb (sv_id o) (sv_id r) ||
  String.eqb (sv_org o) (sv_org r) && bool_decide (col_mesh_ip (sv_cols o) = col_mesh_ip (sv_cols r)) &&
    bool_decide (col_mesh_ip (sv_cols r) <> None).

Definition insert_server (f : Z -> server_row) : io cp unit :=
  exec (fun now t =>
    if existsb (server_clash (f now)) (servers (machines t)) then Err ErrUnique
    else Ok (tt, set_servers (fun l => l ++ [f now])%list t)).

(** The row of a machine that has not spoken yet *)
Definition provisioned (id orgID name : string) (nameAuto : bool) (typ meshIP : string) (inp : ProvisionInput) (now : Z) : server_row :=
  mkServer id orgID name false now
    (mkColumns typ ServerStatusProvisioning nameAuto "" ∅ (nullif (pv_Distro inp)) None (Some meshIP)
      (nullif (trim_space (pv_HostIP inp))) (pv_ProxyRole inp) None [] None false "" None None None).

Definition precreateServerTx (billingConfigured : bool) (orgID : string) (inp : ProvisionInput) : io cp (string * string) :=
  if negb (String.eqb (pv_Distro inp) "") && negb (DistroSupported (pv_Distro inp)) then fail ErrUnsupportedDistro
  else
    now <- clock ;;
    _ <- assertBillingNotCappedTx orgID now ;;
    let nameAuto := String.eqb (pv_Name inp) "" in
    let placeholder := trim_space (pv_HostIP inp) in
    let name := if nameAuto then (if String.eqb placeholder "" then "server" else placeholder) else pv_Name inp in
    let typ := if String.eqb (pv_Type inp) "" then "general" else pv_Type inp in
    if negb (IsServerType typ) then
      fail ("unknown server type " +:+ quote typ +:+ "; expected one of " +:+ join_with ", " ServerTypes)
    else
      _ <- assertFreeTierNotExhaustedTx orgID typ now billingConfigured ;;
      meshIP <- allocateMeshIP orgID ;;
      id <- newID "srv" ;;
      _ <- wrapping "pre-create server: " (insert_server (provisioned id orgID name nameAuto typ meshIP inp)) ;;
      ret (id, name).

(** The column [bootstrap_key_wrapped] is a row of [envelopes]. *)
Definition put_envelope (tbl key orgID w : string) (t : tables) : tables :=
  if existsb (fun r => String.eqb (wr_table r) tbl && String.eqb (wr_key r) key) (envelopes (vaulted t))
  then set_envelope tbl key w t
  else set_envelopes (fun l => l ++ [mkWrapped tbl key orgID (Some w)])%list t.

Definition with_bootstrap_key (pub : string) (c : server_columns) : server_columns :=
  mkColumns (col_type c) (col_status c) (col_name_auto c) (col_agent_version c) (col_facts c) (col_distro c) (col_pubkey c)
    (col_mesh_ip c) (col_endpoint c) (col_proxy_role c) (col_last_seen c) (col_incompatible c) (col_decommission c)
    (col_purge c) (col_actor c) (col_hardening c) (col_mesh_sync c) (Some pub).

Definition store_bootstrap_key (orgID serverID pub wrapped : string) : io cp unit :=
  wrapping "store bootstrap key: " (update (fun _ t =>
    put_envelope "servers" serverID orgID wrapped (update_server serverID (with_columns (with_bootstrap_key pub)) t))).

(** [ssh-ed25519] in the wire format of RFC 4253: strings with their length *)
Definition be32 (n : nat) : string :=
  of_bytes (map (fun k => N.of_nat (n / 2 ^ k mod 256)) [24; 16; 8; 0]%nat).
Definition writeSSHString (s : string) : string := be32 (String.length s) +:+ s.
Definition sshEd25519AuthorizedKey (pub : string) : string :=
  "ssh-ed25519 " +:+ b64_std (writeSSHString "ssh-ed25519" +:+ writeSSHString pub) +:+ " sigmahub-bootstrap".

Section registry.
Context {pg : Postgres} {kc : KeyCustody} {js : JsonSize} {ft : FloatText}.
Variables (pepper : string) (billingConfigured : bool).
(** The public key of an Ed25519 seed *)
Variable public_of_seed : string -> string.

Definition IssueBootstrapToken (orgID serverName serverType createdBy : string) (ttl : Z) : io cp (string * string * Z) :=
  now <- clock ;;
  let expiresAt := (now + ttl)%Z in
  transaction
    (sv <- precreateServerTx billingConfigured orgID (mkProvision serverName serverType false "" "") ;;
     token <- issueTokenTx pepper orgID sv.1 sv.2 createdBy expiresAt ;;
     ret (token, sv.1, expiresAt)).

(** [generateEd25519Seed] *)
Definition generateEd25519Seed : io cp (string * string) :=
  seed <- rand_bytes 32 ;; ret (public_of_seed seed, seed).

Definition bootstrap_purpose (orgID : string) : string := "srv_bootstrap:" +:+ orgID.

Definition ProvisionServer (orgID : string) (inp : ProvisionInput) (createdBy : string) (ttl : Z) : io cp ProvisionResult :=
  if negb (String.eqb (pv_Distro inp) "") && negb (DistroSupported (pv_Distro inp)) then fail ErrUnsupportedDistro
  else
    ks <- generateEd25519Seed ;;
    wrapped <- wrapping "wrap bootstrap key: " (Wrap (bootstrap_purpose orgID) ks.2) ;;
    let authorizedKey := sshEd25519AuthorizedKey ks.1 in
    now <- clock ;;
    let expiresAt := (now + ttl)%Z in
    transaction
      (sv <- precreateServerTx billingConfigured orgID inp ;;
       _ <- store_bootstrap_key orgID sv.1 authorizedKey wrapped ;;
       token <- issueTokenTx pepper orgID sv.1 sv.2 createdBy expiresAt ;;
       ret (mkProvisionResult sv.1 token expiresAt authorizedKey)).

Definition unredeemed (serverID : string) (r : bootstrap_token) : bool :=
  String.eqb (bt_server r) serverID && match bt_used_at r with None => true | Some _ => false end.

Definition ReissueBootstrapToken (orgID serverID createdBy : string) (ttl : Z) : io cp ProvisionResult :=
  ks <- generateEd25519Seed ;;
  wrapped <- wrapping "wrap bootstrap key: " (Wrap (bootstrap_purpose orgID) ks.2) ;;
  let authorizedKey := sshEd25519AuthorizedKey ks.1 in
  now <- clock ;;
  let expiresAt := (now + ttl)%Z in
  transaction
    (row <- wrapping "load server: " (query (fun _ t => live_server t orgID serverID)) ;;
     match row with
     | None => fail ErrNotFound
     | Some s =>
         if negb (String.eqb (sv_status s) "provisioning") then
           fail (ErrConflict +:+ ": server " +:+ quote (sv_name s) +:+ " is " +:+ sv_status s +:+
                 " — a new install command can only be issued while it is still provisioning")
         else
           _ <- wrapping "invalidate old tokens: " (update (fun _ =>
             set_bootstrap (List.filter (fun r => negb (unredeemed serverID r))))) ;;
           _ <- store_bootstrap_key orgID serverID authorizedKey wrapped ;;
           token <- issueTokenTx pepper orgID serverID (sv_name s) createdBy expiresAt ;;
           ret (mkProvisionResult serverID token expiresAt authorizedKey)
     end).

(** *** Registration *)

Definition writeCompatibilityTx (serverID status : string) (fails : list FailedRequirement) : io cp unit :=
  wrapping "record compatibility: " (update (fun _ => update_server serverID (with_columns (with_verdict status fails)))).

(** The row a registration leaves: [m] is the normalised payload *)
Definition registered_row (agentVersion : string) (m : facts) (pubkey distro hostname : string) (s : server_row) : server_row :=
  let c := sv_cols s in
  let renamed := col_name_auto c && negb (String.eqb hostname "") in
  mkServer (sv_id s) (sv_org s) (if renamed then hostname else sv_name s) (sv_deleted s) (sv_created_at s)
    (mkColumns (col_type c) (col_status c) (if renamed then false else col_name_auto c) agentVersion
      (m ∪ col_facts c) (nonempty_or Some distro (col_distro c)) (nullif pubkey)
      (col_mesh_ip c) (col_endpoint c) (col_proxy_role c) (col_last_seen c) (col_incompatible c) (col_decommission c)
      (col_purge c) (col_actor c) (col_hardening c) (col_mesh_sync c) (col_bootstrap_pubkey c)).

(** [UPDATE ... RETURNING] of the live row an update finds: it as it was and as
    it is *)
Definition update_live (found : tables -> option server_row) (f : Z -> server_row -> server_row) :
    io cp (option (server_row * server_row)) :=
  exec (fun now t =>
    match found t with
    | None => Ok (None, t)
    | Some s => Ok (Some (s, f now s), update_server (sv_id s) (f now) t)
    end).

Definition RegisterServer (bootstrapToken agentVersion : string) (payload : option json) (pubkey : string) :
    io cp (server_row * string) :=
  transaction
    (claimed <- wrapping "claim bootstrap token: " (claim_token pepper bootstrapToken) ;;
     match claimed with
     | None => fail ErrTokenInvalid
     | Some (orgID, serverID) =>
         if String.eqb serverID "" then fail ErrTokenInvalid
         else
           let m := normalizeFacts payload in
           let reported := ParseHostFacts m in
           row <- wrapping "update server: " (update_live (fun t => live_server t orgID serverID)
                    (fun _ => registered_row agentVersion m pubkey (hf_Distro reported) (reportedHostname m))) ;;
           match row with
           | None => fail ErrTokenInvalid
           | Some (_, srv) =>
               let fails := CheckServerCompatibility (sv_type srv) (ParseHostFacts (col_facts (sv_cols srv))) in
               let status := compatibilityStatus (sv_status srv) fails false in
               _ <- writeCompatibilityTx (sv_id srv) status fails ;;
               _ <- (match fails with
                     | [] => ret tt
                     | _ => auditTx orgID "sigmad" ("Server incompatible — " +:+ IncompatibilitySummary fails) (sv_name srv)
                     end) ;;
               td <- newToken pepper "sat" ;;
               id <- newID "at" ;;
               _ <- wrapping "insert agent token: " (insert_agent_token (mkAgentToken id (sv_id srv) td.2 None)) ;;
               _ <- auditTx orgID "sigmad" "Server registered" (sv_name srv) ;;
               ret (with_columns (with_verdict status fails) srv, td.1)
           end
     end).

(** ** Heartbeats *)

Record HeartbeatInput := mkHeartbeat {
  hb_AgentVersion : string;
  hb_Facts : option json;
  hb_Pubkey : string;
  hb_Endpoint : string;
  hb_Metrics : option (spec_float * spec_float * spec_float * spec_float);
  hb_Hardening : option (Z * bool * bool);
  hb_MeshApplied : bool;
  hb_MeshPeerCount : Z;
}.

Definition AlertServerRecovered := "server_recovered".
Definition AlertServerUnreachable := "server_unreachable".
Definition thirtyMinutes : Z := 30 * 60000000.

Definition beaten (inp : HeartbeatInput) (m : facts) (distro : string) (now : Z) (s : server_row) : server_row :=
  with_columns (fun c =>
    mkColumns (col_type c) (col_status c) (col_name_auto c) (nonempty_or id (hb_AgentVersion inp) (col_agent_version c))
      (m ∪ col_facts c) (nonempty_or Some distro (col_distro c)) (nonempty_or Some (hb_Pubkey inp) (col_pubkey c))
      (col_mesh_ip c) (nonempty_or Some (hb_Endpoint inp) (col_endpoint c)) (col_proxy_role c) (Some now)
      (col_incompatible c) (col_decommission c) (col_purge c) (col_actor c) (col_hardening c) (col_mesh_sync c)
      (col_bootstrap_pubkey c)) s.

Definition with_hardening (h : Z * bool * bool) (now : Z) (c : server_columns) : server_columns :=
  mkColumns (col_type c) (col_status c) (col_name_auto c) (col_agent_version c) (col_facts c) (col_distro c) (col_pubkey c)
    (col_mesh_ip c) (col_endpoint c) (col_proxy_role c) (col_last_seen c) (col_incompatible c) (col_decommission c)
    (col_purge c) (col_actor c) (Some (h.1.1, h.1.2, h.2, now)) (col_mesh_sync c) (col_bootstrap_pubkey c).

Definition with_mesh_sync (peers now : Z) (c : server_columns) : server_columns :=
  mkColumns (col_type c) (col_status c) (col_name_auto c) (col_agent_version c) (col_facts c) (col_distro c) (col_pubkey c)
    (col_mesh_ip c) (col_endpoint c) (col_proxy_role c) (col_last_seen c) (col_incompatible c) (col_decommission c)
    (col_purge c) (col_actor c) (col_hardening c) (Some (now, peers)) (col_bootstrap_pubkey c).

(** A flip is told: audited, and a recovery is an alert. *)
Definition tell_flip (orgID serverID name prevStatus status : string) (fails : list FailedRequirement) : io cp unit :=
  if String.eqb prevStatus status then ret tt
  else
    let action := if String.eqb status ServerStatusIncompatible then "Server incompatible — " +:+ IncompatibilitySummary fails
                  else "Server running" in
    _ <- auditTx orgID "sigmad" action name ;;
    if String.eqb prevStatus ServerStatusUnreachable && String.eqb status ServerStatusRunning then
      enqueueAlertTx orgID AlertServerRecovered ("srv:" +:+ serverID +:+ ":recovered") thirtyMinutes
        ("Server " +:+ name +:+ " recovered")
        ("Server " +:+ name +:+ " is heartbeating again and is back to running.")
    else ret tt.

Definition RecordHeartbeat (serverID : string) (inp : HeartbeatInput) : io cp unit :=
  let m := normalizeFacts (hb_Facts inp) in
  let reported := ParseHostFacts m in
  transaction
    (row <- wrapping "record heartbeat: " (update_live (fun t => live_by_id t serverID) (beaten inp m (hf_Distro reported))) ;;
     match row with
     | None => fail ErrNotFound
     | Some (old, s) =>
         let fails := CheckServerCompatibility (sv_type s) (ParseHostFacts (col_facts (sv_cols s))) in
         let status := compatibilityStatus (sv_status old) fails true in
         _ <- writeCompatibilityTx serverID status fails ;;
         _ <- tell_flip (sv_org s) serverID (sv_name s) (sv_status old) status fails ;;
         _ <- match hb_Metrics inp with
              | None => ret tt
              | Some x => wrapping "insert metric: " (update (fun now => set_metrics (fun l => l ++ [mkMetric serverID x now])%list))
              end ;;
         _ <- match hb_Hardening inp with
              | None => ret tt
              | Some h => wrapping "record hardening posture: " (update (fun now =>
                            update_server serverID (with_columns (with_hardening h now))))
              end ;;
         if hb_MeshApplied inp then
           wrapping "record mesh sync: " (update (fun now =>
             update_server serverID (with_columns (with_mesh_sync (hb_MeshPeerCount inp) now))))
         else ret tt
     end).

(** *** The sweeper's half: [threshold] in whole seconds *)

Definition gone_stale (now threshold : Z) (s : server_row) : bool :=
  String.eqb (sv_status s) "running" && negb (sv_deleted s) &&
  match col_last_seen (sv_cols s) with None => true | Some at_ => (at_ <? now - threshold * 1000000)%Z end.

Definition unreachable_alert (threshold now : Z) (s : server_row) (channel : string) : alert_row :=
  mkAlert (sv_org s) channel AlertServerUnreachable ("srv:" +:+ sv_id s +:+ ":unreachable")
    ("Server " +:+ sv_name s +:+ " is unreachable")
    ("Server " +:+ sv_name s +:+ " missed heartbeats for over " +:+ dec threshold +:+
     "s and was marked unreachable. Workloads on it keep running; the control plane just cannot manage it until the agent reconnects.")
    now (queued_delivery now).

Definition unreachable_alerts (threshold now : Z) (flipped : list server_row) (t : tables) : list alert_row :=
  s ← flipped;
  map (fun r => unreachable_alert threshold now s (ar_channel r))
    (List.filter (fun r => String.eqb (ar_org r) (sv_org s) && String.eqb (ar_event r) AlertServerUnreachable &&
       existsb (fun c => String.eqb (ac_id c) (ar_channel r) && ac_enabled c) (alert_channels t) &&
       alert_due now thirtyMinutes ("srv:" +:+ sv_id s +:+ ":unreachable") (alert_outbox t) r) (alert_rules t)).

(** One statement: the rows of the outbox it looks at are those of its start. *)
Definition MarkStaleUnreachable (threshold : Z) : io cp Z :=
  exec (fun now t =>
    let flipped := List.filter (gone_stale now threshold) (servers (machines t)) in
    let t1 := set_servers (map (fun s =>
      if gone_stale now threshold s
      then with_columns (fun c => with_verdict ServerStatusUnreachable (col_incompatible c) c) s else s)) t in
    let t2 := set_audit (fun l => l ++ map (fun s => mkAudit (sv_org s) "sweeper" "Server unreachable" (sv_name s)) flipped)%list t1 in
    Ok (Z.of_nat (length flipped), set_outbox (fun o => o ++ order_by (fun _ => 0%Z) (unreachable_alerts threshold now flipped t))%list t2)).

(** ** By hand *)

Definition CountServers (orgID : string) : io cp Z :=
  query (fun _ t => Z.of_nat (length (List.filter (fun s => String.eqb (sv_org s) orgID && negb (sv_deleted s)) (servers (machines t))))).

Definition renamed (name : string) (s : server_row) : server_row :=
  let c := sv_cols s in
  mkServer (sv_id s) (sv_org s) name (sv_deleted s) (sv_created_at s)
    (mkColumns (col_type c) (col_status c) false (col_agent_version c) (col_facts c) (col_distro c) (col_pubkey c)
      (col_mesh_ip c) (col_endpoint c) (col_proxy_role c) (col_last_seen c) (col_incompatible c) (col_decommission c)
      (col_purge c) (col_actor c) (col_hardening c) (col_mesh_sync c) (col_bootstrap_pubkey c)).

Definition RenameServer (orgID serverID name actor : string) : io cp unit :=
  let name := sanitizeServerName name in
  if String.eqb name "" then fail "a server name is required"
  else transaction
    (row <- wrapping "rename server: " (update_live (fun t => live_server t orgID serverID) (fun _ => renamed name)) ;;
     match row with
     | None => fail ErrNotFound
     | Some (old, _) =>
         if String.eqb (sv_name old) name then ret tt
         else auditTx orgID actor ("Server renamed to " +:+ name) (sv_name old)
     end).

End registry.
