(* ===== verification/Lifecycle.v ===== *)
(** * The end of a server, and what binds it ([lifecycle.go], [decommission.go], [clusters.go] of [cp/internal/store])

    A disconnect is asked for, carried out by the agent and completed by its
    acknowledgement, by a timeout, or by force; what a server runs, builds or is
    a node of refuses it.  [AttachServer], [DetachServer] and [SetServerType]
    are those of [domain.go]. *)

From stdpp Require Import sorting.
From S2P Require Import Backups Prelude GoStrings Json Naming RenderCluster RenderDoc CpDb Deploy DsdStore Kms Vault ServerCatalog Billing Paddle Servers.
From Stdlib Require Import Ascii.

Local Open Scope string_scope.
Local Open Scope io_scope.

(** ** What binds a server *)

Definition ErrBoundResources (names : list string) : string :=
  ErrConflict +:+ ": server has " +:+ dec (Z.of_nat (length names)) +:+ " bound resource(s): " +:+ join_with ", " names.

Definition lockServerForDecommission (orgID serverID : string) : io cp string :=
  row <- wrapping "load server: " (query (fun _ t => live_server t orgID serverID)) ;;
  match row with Some s => ret (sv_name s) | None => fail ErrNotFound end.

Definition bound_resources (orgID serverID : string) (t : tables) : list string :=
  sort_strings (map rs_name
    (List.filter (fun r => String.eqb (rs_org r) orgID && ResourceHostedHere t serverID r) (resources t))).
Definition boundResourcesTx (orgID serverID : string) : io cp (list string) :=
  wrapping "list bound resources: " (query (fun _ => bound_resources orgID serverID)).

(** The builds in flight on a server, and the branches that build there *)
Definition building_on (orgID serverID : string) (d : deployment) : bool :=
  String.eqb (dp_org d) orgID && is_server (rl_build_server (dp_release d)) serverID && deployInFlight (dp_status d).
Definition builds_branch (orgID serverID : string) (t : tables) (m : branch_map_row) : bool :=
  is_server (bm_build_server m) serverID &&
  existsb (fun c => String.eqb (gc_id c) (bm_connection m) && String.eqb (gc_org c) orgID) (git_connections t).

Definition buildServerUseTx (orgID serverID : string) : io cp string :=
  n <- wrapping "check build server use: " (query (fun _ t =>
    (Z.of_nat (length (List.filter (building_on orgID serverID) (deployments t))),
     Z.of_nat (length (List.filter (builds_branch orgID serverID t) (git_branch_map t)))))) ;;
  let '(deployments, branches) := n in
  if ((0 <? deployments) && (0 <? branches))%Z then
    ret (dec deployments +:+ " deployment(s) are building on it and " +:+ dec branches +:+ " branch(es) are configured to build on it")
  else if (0 <? deployments)%Z then ret (dec deployments +:+ " deployment(s) are building on it")
  else if (0 <? branches)%Z then ret (dec branches +:+ " branch(es) are configured to build on it")
  else ret "".

Definition refuseIfBuildServerTx (orgID serverID : string) : io cp unit :=
  use <- buildServerUseTx orgID serverID ;;
  if String.eqb use "" then ret tt
  else fail (ErrConflict +:+ ": this server is a build server — " +:+ use +:+ "; point them at another server first").

Definition membership (orgID serverID : string) (t : tables) : option string :=
  head (omap (fun n =>
    if String.eqb (nd_server n) serverID
    then cl_name <$> List.find (fun c => String.eqb (cl_id c) (nd_cluster n) && String.eqb (cl_org c) orgID) (clusters (estate t))
    else None) (cluster_nodes t)).
Definition clusterMembershipTx (orgID serverID : string) : io cp string :=
  wrapping "check cluster membership: " (query (fun _ t => default "" (membership orgID serverID t))).

(** ** The tombstone *)

Definition tombstoned (s : server_row) : server_row :=
  mkServer (sv_id s) (sv_org s) (sv_name s) true (sv_created_at s) (sv_cols s).

Definition revoked (serverID : string) (now : Z) (r : agent_token) : agent_token :=
  if String.eqb (tok_server r) serverID && bool_decide (tok_revoked_at r = None)
  then mkAgentToken (tok_id r) (tok_server r) (tok_hash r) (Some now) else r.

Definition revoke_tokens (serverID : string) (now : Z) : tables -> tables :=
  set_agent_tokens (map (revoked serverID now)).

Definition detach_env (serverID : string) : tables -> tables :=
  set_env_servers (List.filter (fun e => negb (String.eqb e.2 serverID))).

Definition tombstoneServerTx (orgID serverID name actor action : string) : io cp unit :=
  _ <- wrapping "tombstone server: " (update (fun _ => update_server serverID tombstoned)) ;;
  _ <- wrapping "revoke agent tokens: " (update (revoke_tokens serverID)) ;;
  _ <- wrapping "detach env: " (update (fun _ => detach_env serverID)) ;;
  _ <- wrapping "detach cluster: " (update (fun _ =>
    set_nodes (List.filter (fun n => negb (String.eqb (nd_server n) serverID))))) ;;
  auditTx orgID actor action name.

Definition DeleteServer (orgID serverID actor : string) : io cp unit :=
  transaction
    (name <- lockServerForDecommission orgID serverID ;;
     bound <- boundResourcesTx orgID serverID ;;
     match bound with
     | _ :: _ => fail (ErrBoundResources bound)
     | [] =>
         _ <- refuseIfBuildServerTx orgID serverID ;;
         tombstoneServerTx orgID serverID name actor "Server deleted"
     end).

Definition RevokeAgentToken (orgID serverID actor : string) : io cp unit :=
  transaction
    (row <- query (fun _ t => live_server t orgID serverID) ;;
     match row with
     | None => fail ErrNotFound
     | Some s =>
         _ <- wrapping "revoke agent token: " (update (revoke_tokens serverID)) ;;
         auditTx orgID actor "Agent token revoked" (sv_name s)
     end).

(** ** The graceful disconnect *)

Record DecommissionState := mkDecommission {
  dc_ServerID : string;
  dc_Name : string;
  dc_Status : string;
  dc_PurgeVolumes : bool;
  dc_StartedAt : option Z;
  dc_Removed : bool;
}.

Definition with_decommission (purge : bool) (actor : string) (now : Z) (c : server_columns) : server_columns :=
  mkColumns (col_type c) ServerStatusDecommissioning (col_name_auto c) (col_agent_version c) (col_facts c) (col_distro c)
    (col_pubkey c) (col_mesh_ip c) (col_endpoint c) (col_proxy_role c) (col_last_seen c) (col_incompatible c)
    (Some (default now (col_decommission c))) purge actor (col_hardening c) (col_mesh_sync c) (col_bootstrap_pubkey c).

Definition BeginDecommission (orgID serverID : string) (purgeVolumes : bool) (actor : string) : io cp DecommissionState :=
  transaction
    (name <- lockServerForDecommission orgID serverID ;;
     cluster <- clusterMembershipTx orgID serverID ;;
     if negb (String.eqb cluster "") then
       fail (ErrConflict +:+ ": this server is a node of the " +:+ cluster +:+ " cluster — remove it from the cluster before disconnecting it")
     else
       bound <- boundResourcesTx orgID serverID ;;
       match bound with
       | _ :: _ => fail (ErrBoundResources bound)
       | [] =>
           _ <- refuseIfBuildServerTx orgID serverID ;;
           version <- wrapping "read agent enrolment: " (exec (fun _ t =>
             match server_by_id t serverID with
             | Some s => Ok (col_agent_version (sv_cols s), t)
             | None => Err ErrNoRows
             end)) ;;
           if String.eqb version "" then
             _ <- tombstoneServerTx orgID serverID name actor
                    "Server disconnected before its agent ever registered — nothing was installed to remove" ;;
             ret (mkDecommission serverID name ServerStatusDecommissioning false None true)
           else
             startedAt <- wrapping "mark decommissioning: " (exec (fun now t =>
               match server_by_id t serverID with
               | Some s => Ok (default now (col_decommission (sv_cols s)),
                               update_server serverID (with_columns (with_decommission purgeVolumes actor now)) t)
               | None => Err ErrNoRows
               end)) ;;
             let action := if purgeVolumes then "Server decommissioning (application data included)" else "Server decommissioning" in
             _ <- auditTx orgID actor action name ;;
             ret (mkDecommission serverID name ServerStatusDecommissioning purgeVolumes (Some startedAt) false)
       end).

Definition CompleteDecommission (serverID : string) (ok : bool) (detail : string) : io cp unit :=
  transaction
    (row <- query (fun _ t => live_by_id t serverID) ;;
     match row with
     | None => fail ErrNotFound
     | Some s =>
         match col_decommission (sv_cols s) with
         | None => fail (ErrConflict +:+ ": server " +:+ serverID +:+ " is not decommissioning")
         | Some _ =>
             let actor := nonempty_or id (col_actor (sv_cols s)) "sigmad" in
             let action := if ok then "Server decommissioned" else "Server decommissioned with errors — " +:+ clipFact detail in
             tombstoneServerTx (sv_org s) serverID (sv_name s) actor action
         end
     end).

Record DecommissionTimedOut := mkTimedOut { dt_ServerID : string; dt_OrgID : string; dt_Name : string; dt_Actor : string }.

Definition AlertDecommissionTimedOut := "decommission_timed_out".

Definition decommissionTimeoutAlertBody (d : DecommissionTimedOut) : string :=
  "SigmaHub gave up waiting for " +:+ dt_Name d +:+ " (" +:+ dt_ServerID d +:+ ") to confirm the teardown " +:+
  "started by " +:+ dt_Actor d +:+ ", and has removed it from the fleet." +:+ newline +:+ newline +:+
  "The host was never confirmed clean: sigmad, its systemd unit, its mesh tunnel and every " +:+
  "managed container are still installed, and Docker restarts the containers on boot. " +:+
  "Run agent/packaging/uninstall.sh on that machine (sudo bash uninstall.sh, or " +:+
  "--purge-volumes to delete application data too) to finish removing it.".

(** [timeout] in whole seconds *)
Definition overdue (now timeout : Z) (s : server_row) : bool :=
  String.eqb (sv_status s) ServerStatusDecommissioning && negb (sv_deleted s) &&
  match col_decommission (sv_cols s) with Some at_ => (at_ <? now - timeout * 1000000)%Z | None => false end.

Definition timed_out_of (s : server_row) : DecommissionTimedOut :=
  mkTimedOut (sv_id s) (sv_org s) (sv_name s) (nonempty_or id (col_actor (sv_cols s)) "sweeper").

Definition timeout_audit (d : DecommissionTimedOut) : audit_row :=
  mkAudit (dt_OrgID d) (dt_Actor d) "Server decommission timed out — removed without the agent's confirmation" (dt_Name d).

Section lifecycle.
Context {pg : Postgres} {kc : KeyCustody} {js : JsonSize} {ft : FloatText}.

Definition alert_timeout (d : DecommissionTimedOut) : io cp unit :=
  enqueueAlertTx (dt_OrgID d) AlertDecommissionTimedOut ("decomto:" +:+ dt_ServerID d) 0
    ("Decommission timed out: " +:+ dt_Name d) (decommissionTimeoutAlertBody d).

(** The four changes of the statement, in the order it lists them *)
Definition remove_overdue (timeout : Z) (now : Z) (t : tables) : list DecommissionTimedOut * tables :=
  let stale := order_by (fun _ => 0%Z) (List.filter (overdue now timeout) (servers (machines t))) in
  let ids := map sv_id stale in
  let t1 := set_servers (map (fun s => if overdue now timeout s then tombstoned s else s)) t in
  let t2 := set_agent_tokens (map (fun r => if bool_decide (tok_server r ∈ ids) then revoked (tok_server r) now r else r)) t1 in
  let t3 := set_env_servers (List.filter (fun e => negb (bool_decide (e.2 ∈ ids)))) t2 in
  (map timed_out_of stale, set_audit (fun l => l ++ map timeout_audit (map timed_out_of stale))%list t3).

Definition TimeoutStaleDecommissions (timeout : Z) : io cp (list DecommissionTimedOut) :=
  transaction
    (out <- exec (fun now t => Ok (remove_overdue timeout now t)) ;;
     _ <- for_each out alert_timeout ;;
     ret out).

(** ** Environments and types *)

Definition env_of_org (t : tables) (orgID envID : string) : option environment_row :=
  List.find (fun e => String.eqb (en_id e) envID && has_pair (projects (vaulted t)) (en_project e) orgID)
    (environments (vaulted t)).

Definition AttachServer (orgID envID serverID actor : string) : io cp unit :=
  transaction
    (env <- query (fun _ t => env_of_org t orgID envID) ;;
     match env with
     | None => fail ErrNotFound
     | Some e =>
         row <- query (fun _ t => live_server t orgID serverID) ;;
         match row with
         | None => fail ErrNotFound
         | Some s =>
             _ <- wrapping "attach server: " (update (fun _ => set_env_servers (fun l =>
               if existsb (fun x => String.eqb x.1.2 envID && String.eqb x.2 serverID) l then l
               else l ++ [(orgID, envID, serverID)])%list)) ;;
             auditTx orgID actor "Server attached" (sv_name s +:+ " -> " +:+ en_name e)
         end
     end).

Definition attachment (orgID envID serverID : string) (x : string * string * string) : bool :=
  String.eqb x.1.1 orgID && String.eqb x.1.2 envID && String.eqb x.2 serverID.

Definition DetachServer (orgID envID serverID actor : string) : io cp unit :=
  transaction
    (found <- wrapping "detach server: " (exec (fun _ t =>
       Ok (existsb (attachment orgID envID serverID) (env_servers (estate t)),
           set_env_servers (List.filter (fun x => negb (attachment orgID envID serverID x))) t))) ;;
     if negb found then fail ErrNotFound
     else auditTx orgID actor "Server detached" (serverID +:+ " x " +:+ envID)).

Definition with_type (newType : string) (c : server_columns) : server_columns :=
  mkColumns newType (col_status c) (col_name_auto c) (col_agent_version c) (col_facts c) (col_distro c) (col_pubkey c)
    (col_mesh_ip c) (col_endpoint c) (col_proxy_role c) (col_last_seen c) (col_incompatible c) (col_decommission c)
    (col_purge c) (col_actor c) (col_hardening c) (col_mesh_sync c) (col_bootstrap_pubkey c).

Definition resource_name_le (a b : resource_row) : Prop := str_le (rs_name a) (rs_name b).
#[local] Instance resource_name_le_dec a b : Decision (resource_name_le a b).
Proof. unfold resource_name_le, str_le. apply _. Defined.

Definition stranded (orgID serverID newType : string) (t : tables) : list string :=
  map (fun r => rs_name r +:+ " (" +:+ ResourceKindLabel (rs_kind r) +:+ ")")
    (List.filter (fun r => negb (CanHost newType (rs_kind r)))
      (merge_sort resource_name_le
        (List.filter (fun r => String.eqb (rs_org r) orgID && is_server (rs_server r) serverID) (resources t)))).

Definition SetServerType (orgID serverID newType actor : string) : io cp unit :=
  if negb (IsServerType newType) then
    fail ("unknown server type " +:+ quote newType +:+ "; expected one of " +:+ join_with ", " ServerTypes)
  else transaction
    (row <- wrapping "load server: " (query (fun _ t => live_server t orgID serverID)) ;;
     match row with
     | None => fail ErrNotFound
     | Some s =>
         if String.eqb (sv_status s) ServerStatusDecommissioning then
           fail (ErrConflict +:+ ": " +:+ sv_name s +:+ " is being decommissioned — its type can no longer be changed")
         else
           cluster <- clusterMembershipTx orgID serverID ;;
           if negb (String.eqb cluster "") then
             fail (ErrConflict +:+ ": this server is a node of the " +:+ cluster +:+ " cluster — remove it from the cluster before changing its type")
           else
             left_behind <- wrapping "list hosted resources: " (query (fun _ => stranded orgID serverID newType)) ;;
             match left_behind with
             | _ :: rest =>
                 fail (ErrConflict +:+ ": a " +:+ newType +:+ " server cannot host " +:+ joinOr left_behind +:+ " — move or delete " +:+
                       (match rest with [] => "it" | _ => "them" end) +:+ " first")
             | [] =>
                 _ <- wrapping "set server type: " (update (fun _ => update_server serverID (with_columns (with_type newType)))) ;;
                 now <- clock ;;
                 let c := sv_cols s in
                 let fails := CheckServerCompatibility newType (ParseHostFacts (col_facts c)) in
                 _ <- writeCompatibilityTx serverID
                        (statusAfterTypeChange (col_status c) fails (col_last_seen c) now DefaultStaleAfter) fails ;;
                 if String.eqb (col_type c) newType then ret tt
                 else auditTx orgID actor ("Server type changed from " +:+ col_type c +:+ " to " +:+ newType) (sv_name s)
             end
     end).

End lifecycle.
