(* ===== verification/Clusters.v ===== *)
(** * Clusters ([cp/internal/store/clusters.go])

    A cluster is a set of the organisation's servers: one control plane and
    workers.  Its status is derived from what its nodes report. *)

From S2P Require Import Backups Prelude GoStrings Json Naming RenderCluster RenderDoc CpDb Deploy DsdStore Kms Vault ServerCatalog Billing Paddle Servers Lifecycle.
From Stdlib Require Import Ascii.

Local Open Scope string_scope.
Local Open Scope io_scope.

Definition NodeRoleWorker := "worker".
Definition NodeStatusPending := "pending".
Definition NodeStatusReady := "ready".
Definition NodeStatusError := "error".

Definition ErrControlPlaneNode := "the control-plane node cannot be removed; delete the cluster instead".
Definition ErrClusterWorkloads (names : list string) : string :=
  ErrConflict +:+ ": cluster still runs " +:+ dec (Z.of_nat (length names)) +:+ " workload(s): " +:+ join_with ", " names.

Definition ClusterExcludedKinds : list string :=
  List.filter (fun kind => negb (ClusterKindAllowed kind)) (map (fun k => k.1.1) resourceKinds).

Definition clusterTokenPurpose (orgID : string) : string := "cluster_token:" +:+ orgID.

Record CreateClusterInput := mkCreateCluster { cc_EnvironmentID : string; cc_Name : string; cc_ControlPlaneID : string }.

(** ** Rows *)

Definition cluster_of (t : tables) (orgID clusterID : string) : option cluster_row :=
  List.find (fun c => String.eqb (cl_org c) orgID && String.eqb (cl_id c) clusterID) (clusters (estate t)).

(** The keys of [clusters] and of [cluster_nodes]; the column
    [join_token_wrapped] is a row of [envelopes]. *)
Definition insert_cluster (c : Z -> cluster_row) (wrapped : string) : io cp Z :=
  exec (fun now t =>
    if existsb (fun o => String.eqb (cl_id o) (cl_id (c now)) || String.eqb (cl_environment o) (cl_environment (c now))) (clusters (estate t))
    then Err ErrUnique
    else Ok (now, put_envelope "clusters" (cl_id (c now)) (cl_org (c now)) wrapped (set_clusters (fun l => l ++ [c now])%list t))).

Definition node_clash (n o : node_row) : bool :=
  String.eqb (nd_server o) (nd_server n) ||
  String.eqb (nd_cluster o) (nd_cluster n) && String.eqb (nd_role o) NodeRoleControlPlane && String.eqb (nd_role n) NodeRoleControlPlane.

Definition new_node (clusterID serverID role : string) : node_row := mkNode clusterID serverID role NodeStatusPending "" None.

Definition insert_node (n : node_row) : io cp unit :=
  exec (fun _ t =>
    if existsb (node_clash n) (cluster_nodes t) then Err ErrUnique else Ok (tt, set_nodes (fun l => l ++ [n])%list t)).

(** [ON CONFLICT (cluster_id, server_id) DO NOTHING] *)
Definition insert_node_once (n : node_row) : io cp unit :=
  exec (fun _ t =>
    if existsb (fun o => String.eqb (nd_cluster o) (nd_cluster n) && String.eqb (nd_server o) (nd_server n)) (cluster_nodes t)
    then Ok (tt, t)
    else if existsb (node_clash n) (cluster_nodes t) then Err ErrUnique
    else Ok (tt, set_nodes (fun l => l ++ [n])%list t)).

(** An error that is a violated key becomes a conflict. *)
Definition conflicting {A} (msg : string) (m : io cp A) : io cp A :=
  r <- attempt m ;;
  match r with
  | Ok a => ret a
  | Err e => fail (if String.eqb e ErrUnique then ErrConflict +:+ ": " +:+ msg else e)
  end.

Definition assertServerInOrg (orgID serverID : string) : io cp unit :=
  row <- query (fun _ t => live_server t orgID serverID) ;;
  match row with Some _ => ret tt | None => fail ErrNotFound end.

Definition assertClusterInOrg (orgID clusterID : string) : io cp unit :=
  row <- query (fun _ t => cluster_of t orgID clusterID) ;;
  match row with Some _ => ret tt | None => fail ErrNotFound end.

(** ** Status *)

Definition nodes_of (clusterID : string) (t : tables) : list node_row :=
  List.filter (fun n => String.eqb (nd_cluster n) clusterID) (cluster_nodes t).

Definition derived_status (nodes : list node_row) : string :=
  let cpReady := existsb (fun n => String.eqb (nd_role n) NodeRoleControlPlane && String.eqb (nd_status n) NodeStatusReady) nodes in
  let notReady := length (List.filter (fun n => negb (String.eqb (nd_status n) NodeStatusReady)) nodes) in
  if cpReady && (notReady =? 0)%nat then "ready" else if cpReady then "degraded" else "provisioning".

Definition with_status (status : string) (now : Z) (c : cluster_row) : cluster_row :=
  mkCluster (cl_id c) (cl_org c) (cl_environment c) (cl_name c) status (cl_api_endpoint c) (cl_version c) (cl_created_by c)
    (cl_created_at c) now.

Definition update_cluster (clusterID : string) (f : cluster_row -> cluster_row) : tables -> tables :=
  set_clusters (map (fun c => if String.eqb (cl_id c) clusterID then f c else c)).

Definition rederiveClusterStatusTx (clusterID : string) : io cp string :=
  status <- query (fun _ t => derived_status (nodes_of clusterID t)) ;;
  _ <- update (fun now => update_cluster clusterID (with_status status now)) ;;
  ret status.

Section clusters.
Context {pg : Postgres} {kc : KeyCustody}.

(** ** Making and unmaking *)

Definition CreateCluster (orgID : string) (inp : CreateClusterInput) (actor : string) : io cp cluster_row :=
  let name := trim_space (cc_Name inp) in
  if String.eqb name "" || String.eqb (trim_space (cc_EnvironmentID inp)) "" || String.eqb (trim_space (cc_ControlPlaneID inp)) "" then
    fail "name, environmentId and controlPlaneId are required"
  else
    raw <- rand_bytes 32 ;;
    let token := hex_encode (string_bytes raw) in
    wrapped <- wrapping "wrap cluster token: " (Wrap (clusterTokenPurpose orgID) token) ;;
    transaction
      (env <- query (fun _ t => env_of_org t orgID (cc_EnvironmentID inp)) ;;
       match env with
       | None => fail ErrNotFound
       | Some _ =>
           _ <- assertServerInOrg orgID (cc_ControlPlaneID inp) ;;
           id <- newID "cls" ;;
           let c now := mkCluster id orgID (cc_EnvironmentID inp) name "provisioning" "" "" actor now now in
           now <- conflicting "this environment already has a cluster" (insert_cluster c wrapped) ;;
           _ <- conflicting "that server already belongs to a cluster"
                  (insert_node (new_node id (cc_ControlPlaneID inp) NodeRoleControlPlane)) ;;
           _ <- auditTx orgID actor "Cluster created" name ;;
           ret (c now)
       end).

Definition AddClusterNode (orgID clusterID serverID actor : string) : io cp unit :=
  transaction
    (_ <- assertClusterInOrg orgID clusterID ;;
     _ <- assertServerInOrg orgID serverID ;;
     _ <- conflicting "that server already belongs to a cluster" (insert_node_once (new_node clusterID serverID NodeRoleWorker)) ;;
     auditTx orgID actor "Cluster node added" serverID).

Definition same_node (clusterID serverID : string) (n : node_row) : bool :=
  String.eqb (nd_cluster n) clusterID && String.eqb (nd_server n) serverID.

Definition RemoveClusterNode (orgID clusterID serverID actor : string) : io cp unit :=
  transaction
    (_ <- assertClusterInOrg orgID clusterID ;;
     row <- query (fun _ t => List.find (same_node clusterID serverID) (cluster_nodes t)) ;;
     match row with
     | None => fail ErrNotFound
     | Some n =>
         if String.eqb (nd_role n) NodeRoleControlPlane then fail ErrControlPlaneNode
         else
           _ <- update (fun _ => set_nodes (List.filter (fun n => negb (same_node clusterID serverID n)))) ;;
           auditTx orgID actor "Cluster node removed" serverID
     end).

Definition ControlPlaneServerForCluster (orgID clusterID : string) : io cp string :=
  row <- query (fun _ t =>
    match cluster_of t orgID clusterID with
    | None => None
    | Some _ => nd_server <$> List.find (fun n => String.eqb (nd_role n) NodeRoleControlPlane) (nodes_of clusterID t)
    end) ;;
  match row with Some id => ret id | None => fail ErrNotFound end.

(** The names of what is deployed into a cluster *)
Definition deployed_into (orgID clusterID : string) (t : tables) : list string :=
  sort_strings (map rs_name (List.filter (fun r =>
    String.eqb (rs_org r) orgID && bool_decide (rs_cluster r = Some clusterID)) (resources t))).

(** [DELETE FROM clusters]: its nodes and its token go with it, and a resource
    still in it would lose its target. *)
Definition drop_cluster (clusterID : string) (t : tables) : tables :=
  set_envelopes (List.filter (fun r => negb (String.eqb (wr_table r) "clusters" && String.eqb (wr_key r) clusterID)))
    (set_nodes (List.filter (fun n => negb (String.eqb (nd_cluster n) clusterID)))
      (set_clusters (List.filter (fun c => negb (String.eqb (cl_id c) clusterID))) t)).

Definition DeleteCluster (orgID clusterID actor : string) : io cp (list string) :=
  transaction
    (_ <- assertClusterInOrg orgID clusterID ;;
     members <- query (fun _ t => order_by (fun _ => 0%Z) (map nd_server (nodes_of clusterID t))) ;;
     deployed <- query (fun _ => deployed_into orgID clusterID) ;;
     match deployed with
     | _ :: _ => fail (ErrClusterWorkloads deployed)
     | [] =>
         _ <- update (fun _ => drop_cluster clusterID) ;;
         _ <- auditTx orgID actor "Cluster deleted" clusterID ;;
         ret members
     end).

(** ** Reports *)

Record ClusterNodeReport := mkNodeReport {
  cr_Ready : bool;
  cr_Message : string;
  cr_APIEndpoint : string;
  cr_Version : string;
}.

Definition reported_node (rep : ClusterNodeReport) (now : Z) (n : node_row) : node_row :=
  mkNode (nd_cluster n) (nd_server n) (nd_role n) (if cr_Ready rep then NodeStatusReady else NodeStatusError)
    (trim_space (cr_Message rep)) (Some now).

Definition described (rep : ClusterNodeReport) (c : cluster_row) : cluster_row :=
  mkCluster (cl_id c) (cl_org c) (cl_environment c) (cl_name c) (cl_status c)
    (nonempty_or id (trim_space (cr_APIEndpoint rep)) (cl_api_endpoint c))
    (nonempty_or id (trim_space (cr_Version rep)) (cl_version c)) (cl_created_by c) (cl_created_at c) (cl_updated_at c).

Definition ReportClusterNode (serverID : string) (rep : ClusterNodeReport) : io cp (string * string) :=
  transaction
    (row <- query (fun _ t => List.find (fun n => String.eqb (nd_server n) serverID) (cluster_nodes t)) ;;
     match row with
     | None => fail ErrNotFound
     | Some n =>
         let clusterID := nd_cluster n in
         _ <- update (fun now => set_nodes (map (fun n =>
                if same_node clusterID serverID n then reported_node rep now n else n))) ;;
         _ <- (if String.eqb (nd_role n) NodeRoleControlPlane && cr_Ready rep
               then update (fun _ => update_cluster clusterID (described rep)) else ret tt) ;;
         status <- rederiveClusterStatusTx clusterID ;;
         ret (clusterID, status)
     end).

End clusters.
