(* ===== verification/FleetRuns.v ===== *)
(** * The fleet over time

    What every operation of [Servers], [Lifecycle] and [Clusters] keeps true of
    the registry: mesh addresses, the tokens and attachments of live servers,
    the history of tombstones, of spent tokens and of decommissions. *)

From S2P Require Import Backups Prelude GoStrings Json Naming RenderCluster RenderDoc CpDb Deploy DsdStore Kms Vault VaultSpec BackupRuns ServerCatalog Billing Paddle PaddleClaims Servers Lifecycle Clusters.
From Stdlib Require Import Ascii.

Local Open Scope string_scope.
Local Open Scope io_scope.

Local Abbreviation rows t := (servers (machines t)).
Local Abbreviation tokens t := (agent_tokens (estate t)).
Local Abbreviation bootstraps t := (bootstrap_tokens (estate t)).
Local Abbreviation attached t := (env_servers (estate t)).

Definition mesh_ip_of (s : server_row) : option string := col_mesh_ip (sv_cols s).
Definition started_at (s : server_row) : option Z := col_decommission (sv_cols s).

(** ** The registry in order *)

Definition alive (l : list server_row) (id : string) : Prop := exists s, s ∈ l /\ sv_id s = id /\ sv_deleted s = false.

Definition sound_address (ip : string) : Prop := exists o, (1 <= o <= meshOffsetMax)%Z /\ ip = mesh_address o.

Record rows_ok (l : list server_row) : Prop := {
  ro_ids : NoDup (map sv_id l);
  ro_mesh s1 s2 ip : s1 ∈ l -> s2 ∈ l -> sv_org s1 = sv_org s2 -> mesh_ip_of s1 = Some ip -> mesh_ip_of s2 = Some ip -> sv_id s1 = sv_id s2;
  ro_address s ip : s ∈ l -> mesh_ip_of s = Some ip -> sound_address ip;
  ro_started s : s ∈ l -> sv_status s = ServerStatusDecommissioning -> started_at s <> None;
}.

Record fleet_ok (t : tables) : Prop := {
  fo_rows : rows_ok (rows t);
  fo_tokens r : r ∈ tokens t -> tok_revoked_at r = None -> alive (rows t) (tok_server r);
  fo_attached e : e ∈ attached t -> alive (rows t) e.2;
  fo_bootstraps : NoDup (map bt_hash (bootstraps t));
}.

(** What a row keeps *)
Record row_ext (s s' : server_row) : Prop := {
  re_id : sv_id s' = sv_id s;
  re_org : sv_org s' = sv_org s;
  re_mesh : mesh_ip_of s' = mesh_ip_of s;
  re_deleted : sv_deleted s = true -> sv_deleted s' = true;
  re_started a : started_at s = Some a -> started_at s' = Some a;
  re_leaving : sv_status s = ServerStatusDecommissioning -> sv_status s' = ServerStatusDecommissioning;
}.

#[export] Instance row_ext_preorder : PreOrder row_ext.
Proof.
  split; [by intros s|]. intros s1 s2 s3 [] []. split; try congruence; auto.
Qed.

Definition spent (r : bootstrap_token) : Prop := bt_used_at r <> None.

(** What the registry remembers *)
Record hist (t t' : tables) : Prop := {
  hi_rows s : s ∈ rows t -> exists s', s' ∈ rows t' /\ row_ext s s';
  hi_spent r : r ∈ bootstraps t -> spent r -> r ∈ bootstraps t';
}.

#[export] Instance hist_preorder : PreOrder hist.
Proof.
  split; [intros t; split; [intros s Hs; exists s; split; [done|reflexivity]|done]|].
  intros t1 t2 t3 [H12 B12] [H23 B23]. split; [|by auto].
  intros s (s2 & H2 & E2)%H12. destruct (H23 _ H2) as (s3 & H3 & E3). exists s3. split; [done|by etransitivity].
Qed.

Definition keeps (t t' : tables) : Prop := fleet_ok t -> fleet_ok t' /\ hist t t'.

#[export] Instance keeps_preorder : PreOrder keeps.
Proof.
  split; [intros t H; split; [done|reflexivity]|].
  intros t1 t2 t3 H12 H23 H. destruct (H12 H) as [H2 E2]. destruct (H23 H2) as [H3 E3]. split; [done|by etransitivity].
Qed.

(** A change elsewhere in the database *)
Lemma keeps_elsewhere t t' : rows t' = rows t -> tokens t' = tokens t -> bootstraps t' = bootstraps t -> attached t' = attached t -> keeps t t'.
Proof.
  intros Er Et Eb Ea [H1 H2 H3 H4]. split; [split; rewrite ?Er, ?Et, ?Eb, ?Ea; auto|split; rewrite ?Er, ?Eb; [|auto]].
  intros s Hs. exists s. split; [done|reflexivity].
Qed.

(** ** Rows rewritten in place *)

Record row_step (s s' : server_row) : Prop := {
  rs_ext : row_ext s s';
  rs_alive : sv_deleted s' = sv_deleted s;
  rs_started : (sv_status s = ServerStatusDecommissioning -> started_at s <> None) ->
               sv_status s' = ServerStatusDecommissioning -> started_at s' <> None;
}.

Lemma row_step_refl s : row_step s s.
Proof. split; [reflexivity|done|auto]. Qed.

Lemma alive_map (g : server_row -> server_row) l id : (forall s, s ∈ l -> sv_id (g s) = sv_id s /\ (sv_deleted (g s) = sv_deleted s)) ->
  alive l id -> alive (map g l) id.
Proof.
  intros Hg (s & Hs & <- & Hd). destruct (Hg s Hs) as [Ei Ed]. exists (g s). split_and!; [by apply list_elem_of_fmap_2|done|congruence].
Qed.

Lemma rows_ok_map (g : server_row -> server_row) l : (forall s, s ∈ l -> row_ext s (g s)) ->
  (forall s, s ∈ l -> (sv_status s = ServerStatusDecommissioning -> started_at s <> None) ->
     sv_status (g s) = ServerStatusDecommissioning -> started_at (g s) <> None) ->
  rows_ok l -> rows_ok (map g l).
Proof.
  intros Hg Hst [H1 H2 H3 H4]. split.
  - rewrite map_map. replace (map (fun x => sv_id (g x)) l) with (map sv_id l); [done|].
    apply map_ext_in. intros s Hs%list_elem_of_In. by destruct (Hg s Hs).
  - intros s1 s2 ip (x1 & -> & Hx1)%list_elem_of_fmap (x2 & -> & Hx2)%list_elem_of_fmap.
    destruct (Hg x1 Hx1) as [-> -> -> _ _ _], (Hg x2 Hx2) as [-> -> -> _ _ _]. by apply H2.
  - intros s ip (x & -> & Hx)%list_elem_of_fmap. destruct (Hg x Hx) as [_ _ -> _ _ _]. by apply H3.
  - intros s (x & -> & Hx)%list_elem_of_fmap. apply (Hst x Hx), (H4 x Hx).
Qed.

Lemma hist_map (g : server_row -> server_row) t t' : (forall s, s ∈ rows t -> row_ext s (g s)) ->
  rows t' = map g (rows t) -> (forall r, r ∈ bootstraps t -> spent r -> r ∈ bootstraps t') -> hist t t'.
Proof.
  intros Hg Er Hb. split; [|done]. intros s Hs. exists (g s). rewrite Er. split; [by apply list_elem_of_fmap_2|by apply Hg].
Qed.

Lemma keeps_map (g : server_row -> server_row) t : (forall s, s ∈ rows t -> row_step s (g s)) -> keeps t (set_servers (map g) t).
Proof.
  intros Hg [H1 H2 H3 H4].
  assert (Ha : forall id, alive (rows t) id -> alive (map g (rows t)) id).
  { intros id. apply alive_map. intros s Hs. by destruct (Hg s Hs) as [[] ?]. }
  split; [split; [|by auto..]|apply (hist_map g); [|done|done]].
  - cbn. apply rows_ok_map; [|by intros s Hs; apply Hg|done]. intros s Hs. by apply Hg.
  - intros s Hs. by apply Hg.
Qed.

Lemma keeps_update id f t : (forall s, s ∈ rows t -> sv_id s = id -> row_step s (f s)) -> keeps t (update_server id f t).
Proof.
  intros Hf. apply keeps_map. intros s Hs. destruct (String.eqb_spec (sv_id s) id); [by apply Hf|apply row_step_refl].
Qed.

(** A column change that leaves the status and the request alone *)
Lemma columns_step f s :
  col_mesh_ip (f (sv_cols s)) = col_mesh_ip (sv_cols s) ->
  (forall a, col_decommission (sv_cols s) = Some a -> col_decommission (f (sv_cols s)) = Some a) ->
  (sv_status s = ServerStatusDecommissioning -> col_status (f (sv_cols s)) = ServerStatusDecommissioning) ->
  (col_status (f (sv_cols s)) = ServerStatusDecommissioning ->
   sv_status s = ServerStatusDecommissioning \/ col_decommission (f (sv_cols s)) <> None) ->
  row_step s (with_columns f s).
Proof.
  intros Hm Hd Hs Ho. split; [split; done|done|].
  intros H E. destruct (Ho E) as [E'|E']; [|exact E']. specialize (H E').
  unfold started_at in *. cbn. destruct (col_decommission (sv_cols s)) as [a|]; [by rewrite (Hd a)|done].
Qed.

(** ** Tombstones *)

Lemma revoked_elim id now r : tok_revoked_at (revoked id now r) = None -> revoked id now r = r /\ (tok_server r <> id).
Proof.
  unfold revoked. destruct (String.eqb_spec (tok_server r) id) as [E|E]; cbn; [|done].
  case_bool_decide; done.
Qed.

(** What the four statements of a tombstone make of the registry *)
Record buried (ids : list string) (t t' : tables) : Prop := {
  bu_rows : rows t' = map (fun s => if bool_decide (sv_id s ∈ ids) then tombstoned s else s) (rows t);
  bu_tokens r : r ∈ tokens t' -> tok_revoked_at r = None -> r ∈ tokens t /\ tok_server r ∉ ids;
  bu_attached e : e ∈ attached t' -> e ∈ attached t /\ e.2 ∉ ids;
  bu_bootstraps : bootstraps t' = bootstraps t;
}.

Lemma tombstoned_ext s : row_ext s (tombstoned s).
Proof. by split. Qed.

Lemma keeps_buried ids t t' : buried ids t t' -> keeps t t'.
Proof.
  intros [Er Ht Ha Eb] [H1 H2 H3 H4].
  set (g := fun s => if bool_decide (sv_id s ∈ ids) then tombstoned s else s) in Er.
  assert (Hg : forall s, s ∈ rows t -> row_ext s (g s)).
  { intros s _. unfold g. case_bool_decide; [apply tombstoned_ext|reflexivity]. }
  assert (Hal : forall id, id ∉ ids -> alive (rows t) id -> alive (map g (rows t)) id).
  { intros id Hid (s & Hs & E & Hd). exists (g s). unfold g. rewrite bool_decide_false by congruence.
    split_and!; [|done|done]. apply list_elem_of_fmap. exists s. by rewrite bool_decide_false by congruence. }
  split; [split|apply (hist_map g); [exact Hg|exact Er|by rewrite Eb]].
  - rewrite Er. apply rows_ok_map; [exact Hg| |exact H1]. intros s _. unfold g. by case_bool_decide.
  - intros r Hr Hn. rewrite Er. destruct (Ht r Hr Hn) as [Hr' Hid]. by apply Hal, H2.
  - intros e He. rewrite Er. destruct (Ha e He) as [He' Hid]. by apply Hal, H3.
  - by rewrite Eb.
Qed.

Section runs.
Context {pg : Postgres} {kc : KeyCustody} {js : JsonSize} {ft : FloatText}.
Context (t0 : tables).

(** From a registry in order on *)
Definition on_course : assertion := fun _ t => fleet_ok t /\ hist t0 t.
Definition anywhere : assertion := fun _ _ => True.

Lemma on_course_to n t t' : on_course n t -> keeps t t' -> on_course n t'.
Proof. intros [H1 H2] H'. destruct (H' H1) as [H3 H4]. split; [done|by etransitivity]. Qed.

#[local] Instance on_course_insensitive : Insensitive on_course.
Proof. split; intros n t f H; eapply on_course_to; [exact H| |exact H| |exact H|]; by apply keeps_elsewhere. Qed.

Lemma steady_transaction_of {A} (m : io cp A) : does on_course m (fun _ => on_course) anywhere -> steady on_course (transaction m).
Proof.
  intros H. by apply does_transaction_any.
Qed.

Lemma steady_loose {A} (m : io cp A) : steady on_course m -> does on_course m (fun _ => on_course) anywhere.
Proof. intros H. by apply steady_does. Qed.

Lemma steady_keeps {A} (f : Z -> tables -> res (A * tables)) :
  (forall n t a t', f n t = Ok (a, t') -> keeps t t') -> steady on_course (exec f).
Proof.
  intros Hf. apply steady_does_exec. intros n t H. destruct (f n t) as [[a t']|e] eqn:E; [|done].
  eapply on_course_to; [exact H|by eapply Hf].
Qed.

Lemma steady_keeps_update f : (forall n t, keeps t (f n t)) -> steady on_course (update f).
Proof. intros Hf. apply steady_keeps. by intros n t a t' [= <- <-]. Qed.

Lemma steady_clock : steady on_course clock.
Proof. by intros d. Qed.

Lemma steady_tx {A} (m : io cp A) : steady on_course m -> steady on_course (transaction m).
Proof. intros H. by apply steady_transaction_of, steady_loose. Qed.

(** *** The statements *)

Lemma tombstone_does org id name actor action :
  does on_course (tombstoneServerTx org id name actor action) (fun _ => on_course) anywhere.
Proof.
  unfold tombstoneServerTx.
  eapply (does_bind _ _ _ (fun _ n t => exists t1, on_course n t1 /\ t = update_server id tombstoned t1)).
  { apply does_wrapping, does_update; [done|]. intros n t H. by exists t. }
  intros u. eapply (does_bind _ _ _ (fun _ n t => exists t1 n1, on_course n t1 /\ t = revoke_tokens id n1 (update_server id tombstoned t1))).
  { apply does_wrapping, does_update; [done|]. intros n t (t1 & H & ->). by exists t1, n. }
  intros u'. eapply (does_bind _ _ _ (fun _ => on_course)).
  { apply does_wrapping, does_update; [done|]. intros n t (t1 & n1 & H & ->).
    eapply on_course_to; [exact H|]. apply (keeps_buried [id]). split; [cbn| | |done].
    - apply map_ext. intros s. by destruct (String.eqb_spec (sv_id s) id) as [E|E];
        [rewrite bool_decide_true by (rewrite E; by apply list_elem_of_singleton)
        |rewrite bool_decide_false by by rewrite list_elem_of_singleton].
    - cbn. intros r (r' & -> & Hr)%list_elem_of_fmap Hn. apply revoked_elim in Hn as [-> Hn]. by rewrite list_elem_of_singleton.
    - cbn. intros e (He & Hn)%list_elem_of_In%filter_In. rewrite list_elem_of_singleton.
      destruct (String.eqb_spec e.2 id); [done|]. split; [by apply list_elem_of_In|done]. }
  intros u''. apply steady_then; [|done|].
  { apply steady_wrapping, steady_keeps_update. intros n t. by apply keeps_elsewhere. }
  intros u'''. apply steady_loose, steady_audit; apply _.
Qed.

(** A statement that changes nothing of the registry *)
Ltac elsewhere := idtac;
  match goal with
  | |- steady _ clock => apply steady_clock
  | |- steady _ (rand_bytes _) => apply steady_rand
  | |- steady _ (Wrap _ _) => eapply steady_custody, Wrap_spec
  | |- steady _ (update _) => apply steady_keeps_update; intros ? ?; by apply keeps_elsewhere
  | |- steady _ (exec _) => apply steady_keeps; intros ? ? ? ? ?; repeat case_match; simplify_eq; by apply keeps_elsewhere
  end.

Lemma assertBilling_steady org now : steady on_course (assertBillingNotCappedTx org now).
Proof. unfold assertBillingNotCappedTx. steady elsewhere. Qed.

Lemma assertFreeTier_steady org ty now b : steady on_course (assertFreeTierNotExhaustedTx org ty now b).
Proof. unfold assertFreeTierNotExhaustedTx. steady elsewhere. Qed.

Lemma max_offset_nonneg ips z : max_offset ips = Some z -> (0 <= z)%Z.
Proof.
  revert z. induction ips as [|ip ips IH]; cbn; intros z; [by intros [= <-]|].
  destruct (mesh_offset ip) as [a|]; [|done]. cbn. destruct (max_offset ips) as [b|]; [|done]. cbn. intros [= <-].
  specialize (IH b eq_refl). lia.
Qed.

Lemma allocate_does org : does on_course (allocateMeshIP org) (fun ip n t => on_course n t /\ sound_address ip) anywhere.
Proof.
  unfold allocateMeshIP. apply steady_then; [apply steady_wrapping, steady_query|done|]. intros u.
  eapply (does_bind _ _ _ (fun z n t => on_course n t /\ (0 <= z)%Z)).
  - apply does_wrapping, does_exec; [done|]. intros n t H. destruct (max_offset _) as [z|] eqn:E; [|done].
    split; [done|]. by apply max_offset_nonneg in E.
  - intros z. apply does_pure. intros Hz. cbv zeta. destruct (Z.ltb_spec meshOffsetMax (z + 1)); [by apply does_fail|].
    apply does_ret. intros n t H'. split; [done|]. exists (z + 1)%Z. split; [lia|done].
Qed.

Lemma keeps_insert r t : existsb (server_clash r) (rows t) = false -> sv_status r <> ServerStatusDecommissioning ->
  (forall ip, mesh_ip_of r = Some ip -> sound_address ip) -> keeps t (set_servers (fun l => l ++ [r])%list t).
Proof.
  intros Hc Hst Hip [[H1 H2 H3 H4] H5 H6 H7].
  assert (Hno : forall o, o ∈ rows t -> sv_id o <> sv_id r /\
    (sv_org o = sv_org r -> mesh_ip_of r <> None -> mesh_ip_of o <> mesh_ip_of r)).
  { intros o Ho%list_elem_of_In. assert (Hf : server_clash r o = false).
    { destruct (server_clash r o) eqn:E; [|done]. assert (existsb (server_clash r) (rows t) = true) by (apply existsb_exists; eauto). congruence. }
    unfold server_clash in Hf. apply orb_false_iff in Hf as [Hi Hm]. apply String.eqb_neq in Hi. split; [done|].
    intros Eo Hn Em. rewrite Eo, String.eqb_refl in Hm. unfold mesh_ip_of in *. cbn in Hm.
    rewrite bool_decide_true in Hm by done. by rewrite bool_decide_true in Hm. }
  assert (Ha : forall id, alive (rows t) id -> alive (rows t ++ [r]) id).
  { intros id (s & Hs & ?). exists s. split; [apply elem_of_app; by left|done]. }
  split; [split; [split|..]|split; [|done]]; cbn.
  - rewrite map_app. apply NoDup_app. split_and!; [done| |by apply NoDup_singleton].
    intros x (o & -> & Ho)%list_elem_of_fmap E%list_elem_of_singleton. by destruct (Hno o Ho) as [? _].
  - intros s1 s2 ip [Hs1| ->]%elem_of_snoc [Hs2| ->]%elem_of_snoc Eo E1 E2; [by eapply H2| | |done].
    + exfalso. apply (proj2 (Hno s1 Hs1)); congruence.
    + exfalso. apply (proj2 (Hno s2 Hs2)); congruence.
  - intros s ip [Hs| ->]%elem_of_snoc E; [by eapply H3|by apply Hip].
  - intros s [Hs| ->]%elem_of_snoc; [by apply H4|done].
  - intros x Hx Hn. by apply Ha, H5.
  - intros e He. by apply Ha, H6.
  - done.
  - intros s Hs. exists s. split; [apply elem_of_app; by left|reflexivity].
Qed.

Lemma precreate_does b org inp : does on_course (precreateServerTx b org inp) (fun _ => on_course) anywhere.
Proof.
  unfold precreateServerTx. destruct (_ && _); [by apply does_fail|].
  apply steady_then; [apply steady_clock|done|]. intros now.
  apply steady_then; [apply assertBilling_steady|done|]. intros u. cbv zeta.
  destruct (negb _); [by apply does_fail|]. apply steady_then; [apply assertFreeTier_steady|done|]. intros u'.
  eapply does_bind; [apply allocate_does|]. intros ip. apply does_pure. intros Hip.
  apply steady_loose. steady idtac. apply steady_keeps. intros n t x t'. destruct (existsb _ _) eqn:E; [done|]. intros [= <- <-].
  apply keeps_insert; [done|done|]. intros ip'. cbn. by intros [= <-].
Qed.

(** *** Bootstrap tokens *)

Lemma keeps_bootstraps f t : (NoDup (map bt_hash (bootstraps t)) -> NoDup (map bt_hash (f (bootstraps t)))) ->
  (forall r, r ∈ bootstraps t -> spent r -> r ∈ f (bootstraps t)) -> keeps t (set_bootstrap f t).
Proof.
  intros Hn Hs [H1 H2 H3 H4]. split; [split; cbn; auto|split; [|exact Hs]].
  intros s Hs'. exists s. split; [done|reflexivity].
Qed.

Lemma newToken_steady pepper prefix : steady on_course (newToken pepper prefix).
Proof. unfold newToken. steady elsewhere. Qed.

Lemma insert_bootstrap_steady r : steady on_course (insert_bootstrap r).
Proof.
  apply steady_keeps. intros n t a t'. destruct (existsb _ _) eqn:E; [done|]. intros [= <- <-].
  apply keeps_bootstraps; [|intros x Hx _; apply elem_of_app; by left].
  intros Hn. rewrite map_app. apply NoDup_app. split_and!; [done| |by apply NoDup_singleton].
  intros h (o & -> & Ho%list_elem_of_In)%list_elem_of_fmap Eh%list_elem_of_singleton.
  assert (existsb (fun o => String.eqb (bt_id o) (bt_id r) || String.eqb (bt_hash o) (bt_hash r)) (bootstraps t) = true); [|congruence].
  apply existsb_exists. exists o. split; [done|]. rewrite Eh, String.eqb_refl. by rewrite orb_true_r.
Qed.

Lemma issueTokenTx_steady pepper org id name by_ at_ : steady on_course (issueTokenTx pepper org id name by_ at_).
Proof.
  unfold issueTokenTx. apply steady_bind; [apply newToken_steady|]. intros td. steady idtac. apply insert_bootstrap_steady.
Qed.

Lemma store_key_steady org id pub w : steady on_course (store_bootstrap_key org id pub w).
Proof.
  apply steady_wrapping, steady_keeps_update. intros n t. transitivity (update_server id (with_columns (with_bootstrap_key pub)) t).
  - apply keeps_update. intros s _ _. apply columns_step; cbn; auto.
  - unfold put_envelope. destruct (existsb _ _); by apply keeps_elsewhere.
Qed.

Lemma claim_token_steady pepper tok : steady on_course (claim_token pepper tok).
Proof.
  apply steady_keeps. intros n t a t' [= <- <-]. apply keeps_bootstraps; [|].
  - intros Hn. rewrite map_map. erewrite map_ext; [exact Hn|]. intros r. by destruct (usable_token _ _ _).
  - intros r Hr Hs. apply list_elem_of_fmap. exists r. split; [|done].
    destruct (usable_token n (hashToken pepper tok) r) eqn:E; [|done]. exfalso. apply Hs. unfold usable_token in E.
    by destruct (bt_used_at r); [rewrite andb_false_r in E|].
Qed.

(** *** What a transaction has read *)

Definition status_at (id st : string) (t : tables) : Prop := forall s, s ∈ rows t -> sv_id s = id -> sv_status s = st.

Definition knows (id st : string) : assertion := fun n t => on_course n t /\ alive (rows t) id /\ status_at id st t.

Lemma found_server t org id s : fleet_ok t -> live_server t org id = Some s ->
  sv_id s = id /\ alive (rows t) id /\ status_at id (sv_status s) t.
Proof.
  intros Hok [Hs%list_elem_of_In Hp]%find_some. rewrite !andb_true_iff, negb_true_iff in Hp. destruct Hp as [[_ Hi] Hd].
  apply String.eqb_eq in Hi. split_and!; [done|by exists s|].
  intros s' Hs' E. f_equal. eapply (NoDup_map_inj sv_id); [apply Hok|done|done|congruence].
Qed.

Lemma found_by_id t id s : fleet_ok t -> live_by_id t id = Some s ->
  sv_id s = id /\ alive (rows t) id /\ status_at id (sv_status s) t.
Proof.
  intros Hok [Hs%list_elem_of_In Hp]%find_some. rewrite !andb_true_iff, negb_true_iff in Hp. destruct Hp as [Hi Hd].
  apply String.eqb_eq in Hi. split_and!; [done|by exists s|].
  intros s' Hs' E. f_equal. eapply (NoDup_map_inj sv_id); [apply Hok|done|done|congruence].
Qed.

#[local] Instance knows_insensitive id st : Insensitive (knows id st).
Proof. split; intros n t f [H K]; (split; [|exact K]); [by apply ins_vault|by apply ins_audit|by apply ins_outbox]. Qed.

Lemma knows_course id st n t : knows id st n t -> on_course n t.
Proof. by intros []. Qed.

(** The verdict of a gate keeps a server that is leaving a leaving one, and
    makes no other leave. *)
Definition gating (st status : string) : Prop :=
  (st = ServerStatusDecommissioning -> status = ServerStatusDecommissioning) /\
  (status = ServerStatusDecommissioning -> st = ServerStatusDecommissioning).

Lemma compatibility_gates st fails b : gating st (compatibilityStatus st fails b).
Proof.
  unfold gating, compatibilityStatus, is_status. destruct (String.eqb_spec st ServerStatusDecommissioning) as [->|Hn]; [done|].
  destruct fails; [|done]. destruct (_ && _); [done|]. by destruct (_ && _).
Qed.

Lemma type_change_gates st fails seen now stale : gating st (statusAfterTypeChange st fails seen now stale).
Proof.
  unfold gating, statusAfterTypeChange, is_status. destruct (String.eqb_spec st ServerStatusDecommissioning) as [->|Hn]; [done|].
  destruct fails; [|done]. destruct (negb _); [done|]. destruct seen; [|done]. by destruct (_ <? _)%Z.
Qed.

Lemma writeCompatibility_does id st status fails : gating st status ->
  does (knows id st) (writeCompatibilityTx id status fails) (fun _ => knows id status) anywhere.
Proof.
  intros [G1 G2]. apply does_wrapping, does_update; [done|]. intros n t (H & Ha & Hs). split_and!.
  - eapply on_course_to; [exact H|]. apply keeps_update. intros s Hin E. specialize (Hs s Hin E).
    apply columns_step; cbn; [done|auto|rewrite Hs; exact G1|rewrite Hs; by left; auto].
  - cbn. apply alive_map; [|done]. intros s _. by destruct (String.eqb _ _).
  - intros s (x & -> & Hx)%list_elem_of_fmap. destruct (String.eqb_spec (sv_id x) id); [done|]. intros E. congruence.
Qed.

(** An update of the row that was found *)
Lemma update_live_does id (found : tables -> option server_row) (f : Z -> server_row -> server_row) :
  (forall t s, fleet_ok t -> found t = Some s -> sv_id s = id /\ alive (rows t) id /\ status_at id (sv_status s) t) ->
  (forall n s, row_step s (f n s) /\ sv_status (f n s) = sv_status s) ->
  does on_course (update_live found f)
    (fun o n t => match o with
                  | None => on_course n t
                  | Some (s, s') => knows id (sv_status s) n t /\ (sv_id s' = id /\ sv_status s' = sv_status s)
                  end) anywhere.
Proof.
  intros Hfound Hf. apply does_exec; [done|]. intros n t H. destruct (found t) as [s|] eqn:E; [|done].
  destruct (Hfound t s (proj1 H) E) as (<- & Ha & Hs). destruct (Hf n s) as [[[Ei _ _ _ _ _] _ _] Es]. split; [split_and!|done].
  - eapply on_course_to; [exact H|]. apply keeps_update. intros s' _ _. apply Hf.
  - cbn. apply alive_map; [|done]. intros x _. destruct (String.eqb _ _); [|done]. by destruct (Hf n x) as [[[] ?] _].
  - intros x (y & -> & Hy)%list_elem_of_fmap Ex. destruct (Hf n y) as [[[Ey _ _ _ _ _] _ _] Esy].
    destruct (String.eqb_spec (sv_id y) (sv_id s)) as [E'|E']; [|congruence]. rewrite Esy. by apply Hs.
Qed.

Lemma insert_token_does id st r : tok_server r = id -> does (knows id st) (insert_agent_token r) (fun _ => on_course) anywhere.
Proof.
  intros Er. apply does_exec; [done|]. intros n t (H & Ha & _). destruct (existsb _ _); [done|].
  eapply on_course_to; [exact H|]. intros [H1 H2 H3 H4]. split; [split; [done| |done|done]|split; [|done]].
  - cbn. intros x [Hx| ->]%elem_of_snoc Hn; [by apply H2|]. by rewrite Er.
  - intros s Hs. exists s. split; [done|reflexivity].
Qed.

(** *** Registration and heartbeats *)

Lemma registered_step v m pub distro host s : row_step s (registered_row v m pub distro host s) /\
  sv_status (registered_row v m pub distro host s) = sv_status s.
Proof. split; [|done]. split; [by split|done|auto]. Qed.

Lemma beaten_step inp m distro n s : row_step s (beaten inp m distro n s) /\ sv_status (beaten inp m distro n s) = sv_status s.
Proof. split; [|done]. apply columns_step; cbn; auto. Qed.

Lemma knows_newToken id st pepper prefix : steady (knows id st) (newToken pepper prefix).
Proof. unfold newToken. steady idtac. apply steady_rand. Qed.

Lemma RegisterServer_steady pepper tok v payload pub : steady on_course (RegisterServer pepper tok v payload pub).
Proof.
  apply steady_transaction_of. apply steady_then; [apply steady_wrapping, claim_token_steady|done|].
  intros [[org id]|]; [|by apply does_fail]. destruct (String.eqb id ""); [by apply does_fail|]. cbv zeta.
  eapply does_bind; [eapply does_wrapping, (update_live_does id); [intros t s; apply found_server|]|].
  { intros n s. apply registered_step. }
  intros [[s s']|]; [|by apply does_fail]. apply does_pure. intros [Ei Es]. rewrite Ei, Es.
  eapply does_bind; [apply writeCompatibility_does, compatibility_gates|]. intros u.
  apply steady_then; [|done|].
  { destruct (CheckServerCompatibility _ _); [apply steady_ret|apply steady_audit; apply _]. }
  intros u'. apply steady_then; [apply knows_newToken|done|]. intros td.
  apply steady_then; [apply steady_newID|done|]. intros tid.
  eapply does_bind; [eapply does_wrapping, insert_token_does; reflexivity|]. intros u''.
  apply steady_loose. steady elsewhere.
Qed.

Lemma tell_flip_steady org id name prev st fails : steady on_course (tell_flip org id name prev st fails).
Proof. unfold tell_flip. steady elsewhere. Qed.

Lemma update_columns_steady id (f : Z -> server_columns -> server_columns) :
  (forall n c, col_mesh_ip (f n c) = col_mesh_ip c /\ col_decommission (f n c) = col_decommission c /\ col_status (f n c) = col_status c) ->
  steady on_course (update (fun now => update_server id (with_columns (f now)))).
Proof.
  intros Hf. apply steady_keeps_update. intros n t. apply keeps_update. intros s _ _. destruct (Hf n (sv_cols s)) as (E1 & E2 & E3).
  apply columns_step; [done|by rewrite E2|by rewrite E3|rewrite E3; by left].
Qed.

Lemma RecordHeartbeat_steady id inp : steady on_course (RecordHeartbeat id inp).
Proof.
  unfold RecordHeartbeat. cbv zeta. apply steady_transaction_of.
  eapply does_bind; [eapply does_wrapping, (update_live_does id); [intros t s; apply found_by_id|]|].
  { intros n s. apply beaten_step. }
  intros [[s s']|]; [|by apply does_fail]. apply does_pure. intros [Ei Es].
  eapply does_bind; [apply writeCompatibility_does, compatibility_gates|]. intros u.
  eapply does_pre; [|intros n t; apply knows_course]. apply steady_loose.
  apply steady_bind; [apply tell_flip_steady|]. intros u'. steady elsewhere.
  - apply (update_columns_steady id (fun now => with_hardening _ now)). by intros n [].
  - apply (update_columns_steady id (fun now => with_mesh_sync _ now)). by intros n [].
Qed.

Lemma IssueBootstrapToken_steady pepper b org name ty by_ ttl : steady on_course (IssueBootstrapToken pepper b org name ty by_ ttl).
Proof.
  unfold IssueBootstrapToken. steady elsewhere. apply steady_transaction_of.
  eapply does_bind; [apply precreate_does|]. intros sv. apply steady_loose. steady elsewhere. apply issueTokenTx_steady.
Qed.

Lemma ProvisionServer_steady pepper b pub_of org inp by_ ttl : steady on_course (ProvisionServer pepper b pub_of org inp by_ ttl).
Proof.
  unfold ProvisionServer, generateEd25519Seed. steady elsewhere. apply steady_transaction_of.
  eapply does_bind; [apply precreate_does|]. intros sv. apply steady_loose. steady elsewhere;
    [apply store_key_steady|apply issueTokenTx_steady].
Qed.

Lemma drop_unredeemed_keeps id t : keeps t (set_bootstrap (List.filter (fun r => negb (unredeemed id r))) t).
Proof.
  apply keeps_bootstraps; [intros Hn; by apply NoDup_map_filter|].
  intros r Hr Hs. apply list_elem_of_In, filter_In. split; [by apply list_elem_of_In|].
  apply negb_true_iff. unfold unredeemed, spent in *. destruct (bt_used_at r); [|done]. by rewrite andb_false_r.
Qed.

Lemma ReissueBootstrapToken_steady pepper pub_of org id by_ ttl : steady on_course (ReissueBootstrapToken pepper pub_of org id by_ ttl).
Proof.
  unfold ReissueBootstrapToken, generateEd25519Seed. steady elsewhere. apply steady_tx. steady elsewhere;
    [apply steady_keeps_update; intros n t; apply drop_unredeemed_keeps|apply store_key_steady|apply issueTokenTx_steady].
Qed.

Lemma MarkStaleUnreachable_steady threshold : steady on_course (MarkStaleUnreachable threshold).
Proof.
  apply steady_keeps. intros n t a t' [= <- <-].
  transitivity (set_servers (map (fun s => if gone_stale n threshold s
    then with_columns (fun c => with_verdict ServerStatusUnreachable (col_incompatible c) c) s else s)) t); [|by apply keeps_elsewhere].
  apply keeps_map. intros s _.
  destruct (gone_stale n threshold s) eqn:E; [|apply row_step_refl]. apply columns_step; cbn; [done|auto| |done].
  intros E'. unfold gone_stale in E. by rewrite E' in E.
Qed.

Lemma update_live_steady (found : tables -> option server_row) (f : Z -> server_row -> server_row) :
  (forall n s, row_step s (f n s)) -> steady on_course (update_live found f).
Proof.
  intros Hf. apply steady_keeps. intros n t a t'. destruct (found t) as [s|]; intros [= <- <-]; [|done].
  by apply keeps_update.
Qed.

Lemma RenameServer_steady org id name actor : steady on_course (RenameServer org id name actor).
Proof.
  unfold RenameServer. steady elsewhere. apply steady_tx. steady elsewhere. apply update_live_steady. intros n s. split; [by split|done|auto].
Qed.

Lemma revoke_keeps id n t : keeps t (revoke_tokens id n t).
Proof.
  intros [H1 H2 H3 H4]. split; [split; [done| |done|done]|split; [|done]].
  - cbn. intros r (r' & -> & Hr)%list_elem_of_fmap Hn. pose proof (revoked_elim id n r' Hn) as [E _].
    rewrite E in *. by apply H2.
  - intros s Hs. exists s. split; [done|reflexivity].
Qed.

Lemma RevokeAgentToken_steady org id actor : steady on_course (RevokeAgentToken org id actor).
Proof. apply steady_tx. steady elsewhere. apply steady_keeps_update. intros n t. apply revoke_keeps. Qed.

Lemma lock_steady org id : steady on_course (lockServerForDecommission org id).
Proof. unfold lockServerForDecommission. steady elsewhere. Qed.
Lemma bound_steady org id : steady on_course (boundResourcesTx org id).
Proof. unfold boundResourcesTx. steady elsewhere. Qed.
Lemma builder_steady org id : steady on_course (refuseIfBuildServerTx org id).
Proof. unfold refuseIfBuildServerTx, buildServerUseTx. steady elsewhere. Qed.
Lemma membership_steady org id : steady on_course (clusterMembershipTx org id).
Proof. unfold clusterMembershipTx. steady elsewhere. Qed.

Lemma DeleteServer_steady org id actor : steady on_course (DeleteServer org id actor).
Proof.
  apply steady_transaction_of. apply steady_then; [apply lock_steady|done|]. intros name.
  apply steady_then; [apply bound_steady|done|]. intros [|]; [|by apply does_fail].
  apply steady_then; [apply builder_steady|done|]. intros u. apply tombstone_does.
Qed.

Lemma mark_keeps id purge actor n t : keeps t (update_server id (with_columns (with_decommission purge actor n)) t).
Proof.
  apply keeps_update. intros s _ _. apply columns_step; cbn; [done| |done|by right].
  intros a E. by rewrite E.
Qed.

Lemma BeginDecommission_steady org id purge actor : steady on_course (BeginDecommission org id purge actor).
Proof.
  apply steady_transaction_of. apply steady_then; [apply lock_steady|done|]. intros name.
  apply steady_then; [apply membership_steady|done|]. intros cluster. destruct (negb _); [by apply does_fail|].
  apply steady_then; [apply bound_steady|done|]. intros [|]; [|by apply does_fail].
  apply steady_then; [apply builder_steady|done|]. intros u.
  apply steady_then; [steady elsewhere|done|]. intros v. destruct (String.eqb v "").
  { eapply does_bind; [apply tombstone_does|]. intros u'. by apply does_ret. }
  apply steady_loose, steady_bind; [|intros at_; by destruct purge; cbv zeta; steady idtac].
  apply steady_wrapping, steady_keeps. intros n t a t'. destruct (server_by_id t id); [|done]. intros [= <- <-]. apply mark_keeps.
Qed.

Lemma CompleteDecommission_steady id ok detail : steady on_course (CompleteDecommission id ok detail).
Proof.
  apply steady_transaction_of. apply steady_then; [steady elsewhere|done|]. intros [s|]; [|by apply does_fail].
  destruct (col_decommission _); [|by apply does_fail]. apply tombstone_does.
Qed.

Lemma overdue_ids n timeout t s : fleet_ok t -> s ∈ rows t ->
  sv_id s ∈ map sv_id (order_by (fun _ => 0%Z) (List.filter (overdue n timeout) (rows t))) <-> overdue n timeout s = true.
Proof.
  intros Hok Hs. split.
  - intros (x & E & Hx)%list_elem_of_fmap. rewrite order_by_perm in Hx. apply list_elem_of_In, filter_In in Hx as [Hx Ho].
    apply list_elem_of_In in Hx. assert (x = s) as ->; [|done]. eapply (NoDup_map_inj sv_id); [apply Hok|done..].
  - intros Ho. apply list_elem_of_fmap_2. rewrite order_by_perm. apply list_elem_of_In, filter_In. split; [by apply list_elem_of_In|done].
Qed.

Lemma remove_overdue_keeps timeout n t : keeps t (remove_overdue timeout n t).2.
Proof.
  intros Hok. set (ids := map sv_id (order_by (fun _ => 0%Z) (List.filter (overdue n timeout) (rows t)))).
  apply (keeps_buried ids); [|exact Hok]. split; cbn -[overdue]; [| | |done].
  - apply map_ext_in. intros s Hs%list_elem_of_In. pose proof (overdue_ids n timeout t s Hok Hs) as Hi. fold ids in Hi.
    destruct (overdue n timeout s); [by rewrite bool_decide_true by by apply Hi|].
    rewrite bool_decide_false; [done|]. by rewrite Hi.
  - fold ids. intros r (r' & -> & Hr)%list_elem_of_fmap. case_bool_decide as Hi; [|done].
    intros [_ []]%revoked_elim. done.
  - fold ids. intros e (He & Hn)%list_elem_of_In%filter_In. case_bool_decide; [done|]. split; [by apply list_elem_of_In|done].
Qed.

Lemma TimeoutStaleDecommissions_steady timeout : steady on_course (TimeoutStaleDecommissions timeout).
Proof.
  apply steady_tx. steady elsewhere.
  - apply steady_keeps. intros n t a t' [= <- <-]. apply remove_overdue_keeps.
  - unfold alert_timeout. steady elsewhere.
Qed.

Lemma AttachServer_steady org env id actor : steady on_course (AttachServer org env id actor).
Proof.
  apply steady_transaction_of. apply steady_then; [apply steady_query|done|]. intros [e|]; [|by apply does_fail].
  eapply (does_bind _ _ _ (fun o n t => on_course n t /\ forall s, o = Some s -> alive (rows t) id)).
  { apply does_exec; [done|]. intros n t H. split; [done|]. intros s E. by destruct (found_server t org id s (proj1 H) E) as (_ & ? & _). }
  intros [s|]; [|apply does_fail; done]. apply (does_bind _ _ _ (fun _ => on_course)).
  - apply does_wrapping, does_update; [done|]. intros n t [H Ha]. eapply on_course_to; [exact H|].
    intros [H1 H2 H3 H4]. split; [split; [done|done| |done]|split; [|done]].
    + cbn. intros x. destruct (existsb _ _); [by apply H3|]. intros [Hx| ->]%elem_of_snoc; [by apply H3|by apply (Ha s)].
    + intros x Hx. exists x. split; [done|reflexivity].
  - intros u. apply steady_loose. steady elsewhere.
Qed.

Lemma DetachServer_steady org env id actor : steady on_course (DetachServer org env id actor).
Proof.
  apply steady_tx. steady elsewhere. apply steady_keeps. intros n t a t' [= <- <-] [H1 H2 H3 H4].
  split; [split; [done|done| |done]|split; [|done]].
  - cbn. intros x [Hx _]%list_elem_of_In%filter_In. by apply H3, list_elem_of_In.
  - intros x Hx. exists x. split; [done|reflexivity].
Qed.

Lemma SetServerType_steady org id ty actor : steady on_course (SetServerType org id ty actor).
Proof.
  unfold SetServerType. destruct (negb _); [apply steady_fail|]. apply steady_transaction_of.
  eapply (does_bind _ _ _ (fun o n t => on_course n t /\ forall s, o = Some s -> sv_id s = id /\ alive (rows t) id /\ status_at id (sv_status s) t)).
  { apply does_wrapping, does_exec; [done|]. intros n t H. split; [done|]. intros s E. by apply (found_server t org id s (proj1 H) E). }
  intros [s|]; [|apply does_fail; done].
  eapply (does_pre _ (knows id (sv_status s))); [|intros n t [H Hs]; split; [done|by apply (Hs s)]].
  destruct (String.eqb _ _); [by apply does_fail|].
  apply steady_then; [unfold clusterMembershipTx; apply steady_wrapping, steady_query|done|]. intros cluster.
  destruct (negb _); [by apply does_fail|].
  apply steady_then; [apply steady_wrapping, steady_query|done|]. intros [|]; [|by apply does_fail].
  apply (does_bind _ _ _ (fun _ => knows id (sv_status s))).
  { apply does_wrapping, does_update; [done|]. intros n t (H & Ha & Hs). split_and!.
    - eapply on_course_to; [exact H|]. apply keeps_update. intros x _ _. apply columns_step; cbn; auto.
    - cbn. apply alive_map; [|done]. intros x _. by destruct (String.eqb _ _).
    - intros x (y & -> & Hy)%list_elem_of_fmap. destruct (String.eqb_spec (sv_id y) id); intros E; by apply (Hs y). }
  intros u. apply steady_then; [by intros d|done|]. intros now. cbv zeta.
  eapply does_bind; [apply writeCompatibility_does, type_change_gates|]. intros u'.
  eapply does_pre; [|intros n t; apply knows_course]. apply steady_loose. steady elsewhere.
Qed.

(** *** Clusters *)

Lemma conflicting_steady {A} msg (m : io cp A) : steady on_course m -> steady on_course (conflicting msg m).
Proof. intros H. unfold conflicting. by steady elsewhere. Qed.

Ltac cluster_statement := idtac;
  match goal with
  | |- steady _ (transaction _) => apply steady_tx
  | |- steady _ (conflicting _ _) => apply conflicting_steady
  | |- steady _ (assertServerInOrg _ _) => unfold assertServerInOrg
  | |- steady _ (assertClusterInOrg _ _) => unfold assertClusterInOrg
  | |- steady _ (insert_cluster _ _) => unfold insert_cluster, put_envelope
  | |- steady _ (insert_node _) => unfold insert_node
  | |- steady _ (insert_node_once _) => unfold insert_node_once
  | |- steady _ (rederiveClusterStatusTx _) => unfold rederiveClusterStatusTx
  | |- _ => elsewhere
  end.

Lemma CreateCluster_steady org inp actor : steady on_course (CreateCluster org inp actor).
Proof. unfold CreateCluster. steady cluster_statement. Qed.
Lemma AddClusterNode_steady org c s actor : steady on_course (AddClusterNode org c s actor).
Proof. unfold AddClusterNode. steady cluster_statement. Qed.
Lemma RemoveClusterNode_steady org c s actor : steady on_course (RemoveClusterNode org c s actor).
Proof. unfold RemoveClusterNode. steady cluster_statement. Qed.
Lemma DeleteCluster_steady org c actor : steady on_course (DeleteCluster org c actor).
Proof. unfold DeleteCluster. steady cluster_statement. Qed.
Lemma ReportClusterNode_steady s rep : steady on_course (ReportClusterNode s rep).
Proof. unfold ReportClusterNode. steady cluster_statement. Qed.

End runs.
