(* ===== verification/FleetClaims.v ===== *)
(** * What the registry guarantees

    Over any sequence of operations, whatever fails in them and however much
    time passes between them: mesh addresses are never handed out twice, a
    bootstrap token registers one agent, a disconnected server is gone for good,
    a decommission that was begun ends, and a machine that speaks is running. *)

From S2P Require Import Backups Prelude GoStrings Json Naming RenderCluster RenderDoc CpDb Deploy DsdStore Kms Vault VaultSpec BackupRuns BackupClaims ServerCatalog Billing Paddle PaddleClaims Servers Lifecycle Clusters FleetRuns.
From stdpp Require Import pretty.
From Stdlib Require Import Ascii.

Local Open Scope string_scope.
Local Open Scope io_scope.

Local Abbreviation rows t := (servers (machines t)).

Inductive fleet_op : Type :=
| FIssue (org name ty by_ : string) (ttl : Z)
| FProvision (org : string) (inp : ProvisionInput) (by_ : string) (ttl : Z)
| FReissue (org server by_ : string) (ttl : Z)
| FRegister (token version : string) (payload : option json) (pubkey : string)
| FHeartbeat (server : string) (inp : HeartbeatInput)
| FStale (threshold : Z)
| FRename (org server name actor : string)
| FDelete (org server actor : string)
| FRevoke (org server actor : string)
| FBegin (org server : string) (purge : bool) (actor : string)
| FComplete (server : string) (ok : bool) (detail : string)
| FTimeout (timeout : Z)
| FAttach (org env server actor : string)
| FDetach (org env server actor : string)
| FType (org server ty actor : string)
| FCluster (org : string) (inp : CreateClusterInput) (actor : string)
| FAddNode (org cluster server actor : string)
| FRemoveNode (org cluster server actor : string)
| FDropCluster (org cluster actor : string)
| FNodeReport (server : string) (rep : ClusterNodeReport).

Section claims.
Context {pg : Postgres} {kc : KeyCustody} {js : JsonSize} {ft : FloatText}.
Variables (pepper : string) (billingConfigured : bool) (public_of_seed : string -> string).

Definition run_fleet_op (o : fleet_op) : io cp unit :=
  match o with
  | FIssue org name ty by_ ttl => forget (IssueBootstrapToken pepper billingConfigured org name ty by_ ttl)
  | FProvision org inp by_ ttl => forget (ProvisionServer pepper billingConfigured public_of_seed org inp by_ ttl)
  | FReissue org s by_ ttl => forget (ReissueBootstrapToken pepper public_of_seed org s by_ ttl)
  | FRegister tok v payload pub => forget (RegisterServer pepper tok v payload pub)
  | FHeartbeat s inp => RecordHeartbeat s inp
  | FStale th => forget (MarkStaleUnreachable th)
  | FRename org s name a => RenameServer org s name a
  | FDelete org s a => DeleteServer org s a
  | FRevoke org s a => RevokeAgentToken org s a
  | FBegin org s p a => forget (BeginDecommission org s p a)
  | FComplete s ok d => CompleteDecommission s ok d
  | FTimeout th => forget (TimeoutStaleDecommissions th)
  | FAttach org e s a => AttachServer org e s a
  | FDetach org e s a => DetachServer org e s a
  | FType org s ty a => SetServerType org s ty a
  | FCluster org inp a => forget (CreateCluster org inp a)
  | FAddNode org c s a => AddClusterNode org c s a
  | FRemoveNode org c s a => RemoveClusterNode org c s a
  | FDropCluster org c a => forget (DeleteCluster org c a)
  | FNodeReport s rep => forget (ReportClusterNode s rep)
  end.

Lemma forget_steady {A} t0 (m : io cp A) : steady (on_course t0) m -> steady (on_course t0) (forget m).
Proof. intros H. apply steady_bind; [done|]. intros a. apply steady_ret. Qed.

Lemma fleet_op_steady t0 o : steady (on_course t0) (run_fleet_op o).
Proof.
  destruct o; cbn [run_fleet_op]; try apply forget_steady;
    auto using IssueBootstrapToken_steady, ProvisionServer_steady, ReissueBootstrapToken_steady, RegisterServer_steady,
      RecordHeartbeat_steady, MarkStaleUnreachable_steady, RenameServer_steady, DeleteServer_steady, RevokeAgentToken_steady,
      BeginDecommission_steady, CompleteDecommission_steady, TimeoutStaleDecommissions_steady, AttachServer_steady,
      DetachServer_steady, SetServerType_steady, CreateCluster_steady, AddClusterNode_steady, RemoveClusterNode_steady,
      DeleteCluster_steady, ReportClusterNode_steady.
Qed.

(** One step: an operation, whatever fails in it, or anything else that leaves
    the registry's tables alone, while time goes on. *)
Inductive fleet_step (d d' : cp) : Prop :=
| fstep_op o r : run_fleet_op o d = (r, d') -> fleet_step d d'
| fstep_else : machines (cp_tables d') = machines (cp_tables d) -> estate (cp_tables d') = estate (cp_tables d) ->
    (cp_now d <= cp_now d')%Z -> fleet_step d d'.

Definition registry (d : cp) : Prop := fleet_ok (cp_tables d).

Lemma fleet_step_keeps d d' : fleet_step d d' -> keeps (cp_tables d) (cp_tables d').
Proof.
  intros [o r E|Em Ee _]; [|apply keeps_elsewhere; congruence]. intros Hok.
  pose proof (does_run _ _ _ _ d r d' (fleet_op_steady (cp_tables d) o)) as H.
  destruct r; apply H; (split; [done|reflexivity]) || done.
Qed.

Lemma fleet_run_keeps d d' : rtc fleet_step d d' -> keeps (cp_tables d) (cp_tables d').
Proof. induction 1 as [d|d1 d2 d3 H12 H23 IH]; [reflexivity|]. etransitivity; [by apply fleet_step_keeps|exact IH]. Qed.

(** ** Mesh addresses *)

Lemma dec_digits z : (0 <= z)%Z -> sforall is_digit (dec z) = true.
Proof. intros Hz. replace (dec z) with (pretty (Z.to_N z)) by (destruct z; [done|done|lia]). apply pretty_N_digits. Qed.

Lemma digits_no_dot s : sforall is_digit s = true -> sforall (fun b => negb (Ascii.eqb b ".")) s = true.
Proof. apply sforall_impl. intros b Hb. apply negb_true_iff. by destruct (Ascii.eqb_spec b ".") as [->|]. Qed.

Lemma mesh_offset_address o : (0 <= o)%Z -> mesh_offset (mesh_address o) = Some o.
Proof.
  intros Ho. assert (H1 : (0 <= o / 256)%Z) by (apply Z.div_pos; lia). assert (H2 : (0 <= o mod 256)%Z) by (apply Z.mod_pos_bound; lia).
  assert (E : split_at "." (mesh_address o) = ["10"; "8"; dec (o / 256); dec (o mod 256)]).
  { unfold mesh_address. change ("10.8." +:+ ?x) with ("10" +:+ String "." ("8" +:+ String "." x)).
    rewrite split_at_sep by done. rewrite split_at_sep by done. change ("." +:+ ?x) with (String "." x).
    rewrite split_at_sep by by apply digits_no_dot, dec_digits. by rewrite split_at_free by by apply digits_no_dot, dec_digits. }
  unfold mesh_offset, octet. rewrite E. cbn [lookup list_lookup default from_option id].
  rewrite !parse_digits_dec by done. cbn. f_equal. pose proof (Z.div_mod o 256). lia.
Qed.

Lemma max_offset_above ips z ip o : max_offset ips = Some z -> ip ∈ ips -> mesh_offset ip = Some o -> (o <= z)%Z.
Proof.
  revert z. induction ips as [|x ips IH]; intros z; [by intros _ ?%elem_of_nil|]. cbn [max_offset].
  destruct (mesh_offset x) as [a|] eqn:Ex; [|done]. cbn. destruct (max_offset ips) as [b|] eqn:Em; [|done]. cbn.
  intros [= <-] [->|Hin]%elem_of_cons Eo; [simplify_eq; lia|]. specialize (IH b eq_refl Hin Eo). lia.
Qed.


(** ** Tokens *)

Local Abbreviation bootstraps t := (bootstrap_tokens (estate t)).

Definition spent_hash (h : string) (t : tables) : Prop := exists r, r ∈ bootstraps t /\ bt_hash r = h /\ spent r.

#[local] Instance spent_insensitive h : Insensitive (fun _ t => spent_hash h t).
Proof. by split. Qed.

(** The token a registration of [s] in the tables [t0] redeems *)
Record redeems (t0 : tables) (now : Z) (tok : string) (s : server_row) (r : bootstrap_token) : Prop := {
  rd_row : r ∈ bootstraps t0;
  rd_hash : bt_hash r = hashToken pepper tok;
  rd_unused : bt_used_at r = None;
  rd_fresh : (now < bt_expires_at r)%Z;
  rd_server : bt_server r = sv_id s;
  rd_org : bt_org r = sv_org s;
  rd_alive : alive (rows t0) (sv_id s);
}.

Ltac bootstraps_alone := idtac;
  match goal with
  | |- steady _ (rand_bytes _) => apply steady_rand
  | |- steady _ (update _) => apply steady_does_update; intros ? ? H; exact H
  | |- steady _ (exec _) => apply steady_does_exec; intros ? ? H; repeat case_match; simplify_eq; first [exact I|exact H]
  | |- steady _ (newToken _ _) => unfold newToken
  | |- steady _ (insert_agent_token _) => unfold insert_agent_token
  | |- steady _ (writeCompatibilityTx _ _ _) => unfold writeCompatibilityTx
  end.

Lemma usable_spec now h r : usable_token now h r = true -> bt_hash r = h /\ bt_used_at r = None /\ (now < bt_expires_at r)%Z.
Proof.
  unfold usable_token. rewrite !andb_true_iff. intros [[Hh Hn] Hf]. split_and!; [by apply String.eqb_eq| |by apply Z.ltb_lt].
  by destruct (bt_used_at r).
Qed.

Lemma claim_does t0 now tok :
  does (from t0 now) (claim_token pepper tok)
    (fun o _ t => o <> None -> (spent_hash (hashToken pepper tok) t /\ rows t = rows t0) /\
      exists r, r ∈ bootstraps t0 /\ usable_token now (hashToken pepper tok) r = true /\ o = Some (bt_org r, bt_server r)) (fun _ _ => True).
Proof.
  apply does_exec; [done|]. intros n t [-> ->] Hn.
  destruct (List.find (usable_token now (hashToken pepper tok)) (bootstraps t0)) as [r|] eqn:E; [|done].
  apply find_some in E as [Hr%list_elem_of_In Hu]. split; [split; [|done]|by exists r].
  exists (used_token now r). split_and!; [|by destruct (usable_spec _ _ _ Hu)|done].
  apply list_elem_of_fmap. exists r. by rewrite Hu.
Qed.

Lemma RegisterServer_does t0 now tok v payload pub :
  does (from t0 now) (RegisterServer pepper tok v payload pub)
    (fun a _ t => spent_hash (hashToken pepper tok) t /\ exists r, redeems t0 now tok a.1 r) (fun _ t => t = t0).
Proof.
  apply does_transaction_any; [|by intros n n' t [_ ->]].
  eapply does_bind; [apply does_wrapping, claim_does|]. intros [[org id]|]; [|by apply does_fail].
  eapply does_pre; [|intros n t H; exact (H ltac:(done))]. apply does_pure. intros (r & Hr & Hu & [= -> ->]).
  destruct (usable_spec _ _ _ Hu) as (Hh & Hn & Hf). destruct (String.eqb _ ""); [by apply does_fail|]. cbv zeta.
  eapply (does_bind _ _ _ (fun o _ t => spent_hash (hashToken pepper tok) t /\
    forall s s', o = Some (s, s') -> sv_id s' = bt_server r /\ sv_org s' = bt_org r /\ alive (rows t0) (bt_server r))).
  { apply does_wrapping, does_exec; [done|]. intros n t [Hs Er]. destruct (live_server _ _ _) as [s|] eqn:E; [|done].
    split; [done|]. intros s1 s2 [= <- <-]. apply find_some in E as [Hin Hp]. rewrite !andb_true_iff, !String.eqb_eq, negb_true_iff in Hp.
    destruct Hp as [[Eo Ei] Hd]. split_and!; [done|done|]. exists s. split_and!; [rewrite <- Er; by apply list_elem_of_In|done|done]. }
  intros [[s s']|]; [|by apply does_fail]. apply does_pure. intros Hss. destruct (Hss s s' eq_refl) as (Ei & Eo & Ha).
  apply steady_then; [steady bootstraps_alone|done|]. intros u1.
  apply steady_then; [destruct (CheckServerCompatibility _ _); steady bootstraps_alone|done|]. intros u2.
  apply steady_then; [steady bootstraps_alone|done|]. intros td.
  apply steady_then; [apply steady_newID|done|]. intros tid.
  apply steady_then; [steady bootstraps_alone|done|]. intros u3.
  apply steady_then; [steady bootstraps_alone|done|]. intros u4. apply does_ret. intros n t H. split; [done|].
  exists r. split; cbn; done || by rewrite Ei.
Qed.

(** C31: a bootstrap token registers one agent.  A registration that succeeds
    redeems an unused token that had not expired, and registers the live server
    of the organisation it was issued for; from then on, whatever happens, every
    registration with that token fails and changes nothing. *)
Theorem one_registration_per_token tok v payload pub d s at_ d1 : registry d ->
  RegisterServer pepper tok v payload pub d = (Ok (s, at_), d1) ->
  (exists r, redeems (cp_tables d) (cp_now d) tok s r) /\
  forall d2, rtc fleet_step d1 d2 -> forall v' payload' pub', exists e d3,
    RegisterServer pepper tok v' payload' pub' d2 = (Err e, d3) /\ cp_tables d3 = cp_tables d2.
Proof.
  intros Hok E.
  destruct (does_run _ _ _ _ d _ d1 (RegisterServer_does (cp_tables d) (cp_now d) tok v payload pub) (conj eq_refl eq_refl) E) as [Hs Hr].
  split; [exact Hr|]. intros d2 Hrun v' payload' pub'.
  assert (Hok1 : registry d1).
  { apply (fleet_step_keeps d d1); [|done]. apply (fstep_op _ _ (FRegister tok v payload pub) (Ok tt)).
    cbn [run_fleet_op]. unfold forget. by erewrite bind_run. }
  destruct (fleet_run_keeps _ _ Hrun Hok1) as [Hok2 [_ Hh]]. destruct Hs as (r1 & Hr1 & Eh & Hsp). specialize (Hh r1 Hr1 Hsp).
  pose proof (RegisterServer_does (cp_tables d2) (cp_now d2) tok v' payload' pub') as H.
  destruct (RegisterServer pepper tok v' payload' pub' d2) as [[a|e] d3] eqn:E3.
  - destruct (does_run _ _ _ _ d2 _ d3 H (conj eq_refl eq_refl) E3) as [_ (r2 & [H2 Eh2 Hu2 _ _ _ _])].
    exfalso. apply Hsp. replace r1 with r2; [done|]. eapply (NoDup_map_inj bt_hash); [apply Hok2|done|done|congruence].
  - exists e, d3. split; [done|]. exact (does_run _ _ _ _ d2 _ d3 H (conj eq_refl eq_refl) E3).
Qed.

(** ** Tombstones *)

Lemma gone_by_id t s : fleet_ok t -> s ∈ rows t -> sv_deleted s = true -> live_by_id t (sv_id s) = None.
Proof.
  intros Hok Hs Hd. destruct (live_by_id t (sv_id s)) as [x|] eqn:E; [|done].
  apply find_some in E as [Hx%list_elem_of_In Hp]. rewrite andb_true_iff, negb_true_iff, String.eqb_eq in Hp. destruct Hp as [Ei Ed].
  assert (x = s) as ->; [|congruence]. by eapply (NoDup_map_inj sv_id); [apply Hok|..].
Qed.

Lemma not_alive t s : fleet_ok t -> s ∈ rows t -> sv_deleted s = true -> ~ alive (rows t) (sv_id s).
Proof.
  intros Hok Hs Hd (x & Hx & Ei & Ed). assert (x = s) as ->; [|congruence]. by eapply (NoDup_map_inj sv_id); [apply Hok|..].
Qed.

Lemma RecordHeartbeat_gone t0 id inp : live_by_id t0 id = None ->
  does (fun _ t => t = t0) (RecordHeartbeat id inp) (fun _ _ _ => False) (fun _ t => t = t0).
Proof.
  intros Hn. unfold RecordHeartbeat. cbv zeta. apply does_transaction_any; [|done].
  eapply (does_bind _ _ _ (fun o _ _ => o = None)).
  - apply does_wrapping, does_exec; [done|]. intros n t ->. by rewrite Hn.
  - intros [p|]; [|by apply does_fail]. intros d Hd. discriminate Hd.
Qed.

Lemma ServerByAgentToken_does t0 token : does (fun _ t => t = t0) (ServerByAgentToken pepper token)
  (fun s _ _ => exists r, r ∈ agent_tokens (estate t0) /\ live_by_id t0 (tok_server r) = Some s) (fun _ t => t = t0).
Proof.
  eapply does_bind; [by apply does_query|]. intros o. destruct o as [s|]; [|apply does_fail; by intros n t []].
  apply does_ret. intros n t [-> E]. symmetry in E. apply head_Some_elem_of, list_elem_of_omap in E as (r & Hr & E).
  exists r. split; [done|]. by destruct (live_token _ r).
Qed.


(** ** Decommissions end *)

Definition leaving (t : tables) (id : string) (a : Z) : Prop :=
  exists s, s ∈ rows t /\ sv_id s = id /\ (sv_deleted s = true \/ sv_status s = ServerStatusDecommissioning /\ started_at s = Some a).

Lemma leaving_kept d d' id a : registry d -> rtc fleet_step d d' ->
  (exists s, s ∈ rows (cp_tables d) /\ sv_id s = id /\ sv_status s = ServerStatusDecommissioning /\ started_at s = Some a) ->
  leaving (cp_tables d') id a.
Proof.
  intros Hok Hrun (s & Hs & Ei & Est & Ea). destruct (fleet_run_keeps _ _ Hrun Hok) as [Hok' Hh].
  destruct (hi_rows _ _ Hh s Hs) as (s' & Hs' & [Ei' _ _ _ Ha Hst]). exists s'. split_and!; [done|congruence|right; auto].
Qed.

Lemma mark_does id purge actor name :
  does (fun _ _ => True) (wrapping "mark decommissioning: " (exec (fun now t =>
       match server_by_id t id with
       | Some s => Ok (default now (col_decommission (sv_cols s)), update_server id (with_columns (with_decommission purge actor now)) t)
       | None => Err name
       end)))
    (fun a _ t => exists s, s ∈ rows t /\ sv_id s = id /\ sv_status s = ServerStatusDecommissioning /\ started_at s = Some a) (fun _ _ => True).
Proof.
  apply does_wrapping, does_exec; [done|]. intros n t _. destruct (server_by_id t id) as [s|] eqn:E; [|done].
  apply find_some in E as [Hs%list_elem_of_In Ei]. exists (with_columns (with_decommission purge actor n) s). split_and!; [|by apply String.eqb_eq|done|done].
  apply list_elem_of_fmap. exists s. by rewrite Ei.
Qed.

Lemma BeginDecommission_does org id purge actor :
  does (fun _ _ => True) (BeginDecommission org id purge actor)
    (fun st _ t => dc_Removed st = false -> exists a s, dc_StartedAt st = Some a /\
       s ∈ rows t /\ sv_id s = id /\ sv_status s = ServerStatusDecommissioning /\ started_at s = Some a) (fun _ _ => True).
Proof.
  assert (Hany : forall {A} (m : io cp A) Q, (forall a n t, Q a n t) -> does (fun _ _ => True) m Q (fun _ _ => True)).
  { intros A m Q HQ d _. destruct (m d) as [[a|e] d'']; [apply HQ|done]. }
  apply does_transaction_any; [|done].
  eapply does_bind; [apply (Hany _ _ (fun _ _ _ => True)); done|]. intros name.
  eapply does_bind; [apply (Hany _ _ (fun _ _ _ => True)); done|]. intros cluster. destruct (negb _); [by apply does_fail|].
  eapply does_bind; [apply (Hany _ _ (fun _ _ _ => True)); done|]. intros [|]; [|by apply does_fail].
  eapply does_bind; [apply (Hany _ _ (fun _ _ _ => True)); done|]. intros u.
  eapply does_bind; [apply (Hany _ _ (fun _ _ _ => True)); done|]. intros v. destruct (String.eqb v "").
  - eapply does_bind; [apply (Hany _ _ (fun _ _ _ => True)); done|]. intros u'. by apply does_ret.
  - eapply does_bind; [apply mark_does|]. intros a. cbv zeta.
    eapply (does_bind _ _ _ (fun _ _ t => exists s, s ∈ rows t /\ sv_id s = id /\ sv_status s = ServerStatusDecommissioning /\ started_at s = Some a)).
    { apply does_wrapping, does_update; [done|]. intros n t H. exact H. }
    intros u'. apply does_ret. intros n t (s & Hs) _. exists a, s. by split.
Qed.

Lemma tombstone_buries org id name actor action a :
  does (fun _ t => leaving t id a) (tombstoneServerTx org id name actor action)
    (fun _ _ t => exists s, s ∈ rows t /\ sv_id s = id /\ sv_deleted s = true) (fun _ _ => True).
Proof.
  unfold tombstoneServerTx.
  eapply (does_bind _ _ _ (fun _ _ t => exists s, s ∈ rows t /\ sv_id s = id /\ sv_deleted s = true)).
  { apply does_wrapping, does_update; [done|]. intros n t (s & Hs & Ei & _). exists (tombstoned s). split_and!; [|done|done].
    apply list_elem_of_fmap. exists s. by rewrite Ei, String.eqb_refl. }
  intros u. repeat (eapply (does_bind _ _ _ (fun _ _ t => exists s, s ∈ rows t /\ sv_id s = id /\ sv_deleted s = true)); [apply does_wrapping, does_update; [done|]; intros n t H; exact H|]; intros ?).
  apply does_wrapping, does_update; [done|]. by intros n t H.
Qed.

Lemma remove_overdue_buries t id a timeout n : (a + timeout * 1000000 < n)%Z -> leaving t id a ->
  exists s, s ∈ rows (remove_overdue timeout n t).2 /\ sv_id s = id /\ sv_deleted s = true.
Proof.
  intros Hlt (s & Hs & Ei & Hd). exists (if overdue n timeout s then tombstoned s else s). split_and!.
  - cbn -[overdue]. apply list_elem_of_fmap. by exists s.
  - by destruct (overdue n timeout s).
  - destruct (overdue n timeout s) eqn:Eo; [done|]. destruct Hd as [Hd|[Est Ea]]; [done|].
    unfold overdue in Eo. unfold started_at in Ea. rewrite Est, Ea, String.eqb_refl in Eo.
    destruct (Z.ltb_spec a (n - timeout * 1000000)); [|lia]. by destruct (sv_deleted s).
Qed.



(** ** Machines that speak *)

(** The row of a server, and nothing of any other server. *)
Definition only (t0 : tables) (id : string) (X : server_row -> Prop) (t : tables) : Prop :=
  (exists s, s ∈ rows t /\ sv_id s = id /\ X s) /\ (forall x, sv_id x <> id -> x ∈ rows t <-> x ∈ rows t0).

Lemma only_update t0 id X Y f t : (forall s, sv_id (f s) = sv_id s) -> (forall s, sv_id s = id -> X s -> Y (f s)) ->
  only t0 id X t -> only t0 id Y (update_server id f t).
Proof.
  intros Hf HXY [(s & Hs & Ei & HX) Ho]. split.
  - exists (f s). split_and!; [|by rewrite Hf|by apply HXY]. apply list_elem_of_fmap. exists s. by rewrite Ei, String.eqb_refl.
  - intros x Hx. rewrite <- Ho by done. cbn. rewrite list_elem_of_fmap. split.
    + intros (y & E & Hy). destruct (String.eqb_spec (sv_id y) id) as [E'|E']; [|by rewrite E]. exfalso. apply Hx. by rewrite E, Hf.
    + intros Hy. exists x. split; [|done]. by destruct (String.eqb_spec (sv_id x) id).
Qed.

#[local] Instance only_insensitive t0 id X : Insensitive (fun _ t => only t0 id X t).
Proof. by split. Qed.

Lemma only_columns t0 id X Y (what : string) (f : Z -> server_columns -> server_columns) :
  (forall n s, X s -> Y (with_columns (f n) s)) ->
  does (fun _ t => only t0 id X t) (wrapping what (update (fun now => update_server id (with_columns (f now)))))
    (fun _ _ t => only t0 id Y t) (fun _ _ => True).
Proof. intros HXY. apply does_wrapping, does_update; [done|]. intros n t. apply only_update; auto. Qed.

Lemma only_columns_steady t0 id X (what : string) (f : Z -> server_columns -> server_columns) :
  (forall n s, X s -> X (with_columns (f n) s)) ->
  steady (fun _ t => only t0 id X t) (wrapping what (update (fun now => update_server id (with_columns (f now))))).
Proof. intros HX. apply steady_wrapping, steady_does_update. intros n t. apply only_update; auto. Qed.

(** What a check-in at [now] leaves of a server whose row was [s]. *)
Record heard (now : Z) (inp : HeartbeatInput) (s s' : server_row) : Prop := {
  hd_seen : col_last_seen (sv_cols s') = Some now;
  hd_facts : col_facts (sv_cols s') = normalizeFacts (hb_Facts inp) ∪ col_facts (sv_cols s);
  hd_same : sv_org s' = sv_org s /\ sv_name s' = sv_name s /\ sv_type s' = sv_type s /\ sv_deleted s' = sv_deleted s /\
    col_mesh_ip (sv_cols s') = col_mesh_ip (sv_cols s) /\ col_decommission (sv_cols s') = col_decommission (sv_cols s);
}.

Definition heartbeat_verdict (inp : HeartbeatInput) (s s' : server_row) : Prop :=
  let fails := CheckServerCompatibility (sv_type s) (ParseHostFacts (normalizeFacts (hb_Facts inp) ∪ col_facts (sv_cols s))) in
  sv_status s' = compatibilityStatus (sv_status s) fails true /\ col_incompatible (sv_cols s') = fails.

Lemma heard_columns now inp s s' f : heard now inp s s' ->
  col_last_seen (f (sv_cols s')) = col_last_seen (sv_cols s') -> col_facts (f (sv_cols s')) = col_facts (sv_cols s') ->
  col_type (f (sv_cols s')) = col_type (sv_cols s') -> col_mesh_ip (f (sv_cols s')) = col_mesh_ip (sv_cols s') ->
  col_decommission (f (sv_cols s')) = col_decommission (sv_cols s') -> heard now inp s (with_columns f s').
Proof.
  intros [H1 H2 (? & ? & Ht & ? & ? & ?)] E1 E2 E3 E4 E5.
  split; cbn; [congruence|congruence|]. unfold sv_type in *. cbn. split_and!; congruence.
Qed.

Lemma RecordHeartbeat_does t0 now id inp :
  does (from t0 now) (RecordHeartbeat id inp)
    (fun _ _ t => exists s, live_by_id t0 id = Some s /\ only t0 id (fun s' => heard now inp s s' /\ heartbeat_verdict inp s s') t) (fun _ _ => True).
Proof.
  unfold RecordHeartbeat. cbv zeta. apply does_transaction_any; [|done].
  eapply (does_bind _ _ _ (fun o _ t => match o with
    | None => True
    | Some (s, s') => only t0 id (heard now inp s) t /\ live_by_id t0 id = Some s /\ s' = beaten inp (normalizeFacts (hb_Facts inp))
          (hf_Distro (ParseHostFacts (normalizeFacts (hb_Facts inp)))) now s
    end)).
  { apply does_wrapping, does_exec; [done|]. intros n t [-> ->]. destruct (live_by_id t0 id) as [s|] eqn:E; [|done].
    split_and!; [|done|done]. pose proof E as [Hs%list_elem_of_In Hp]%find_some. rewrite andb_true_iff, String.eqb_eq in Hp. destruct Hp as [Ei _].
    rewrite Ei. split.
    - exists (beaten inp (normalizeFacts (hb_Facts inp)) (hf_Distro (ParseHostFacts (normalizeFacts (hb_Facts inp)))) now s).
      split_and!; [|done|by split]. apply list_elem_of_fmap. exists s. by rewrite Ei, String.eqb_refl.
    - intros x Hx. cbn. rewrite list_elem_of_fmap. split.
      + intros (y & -> & Hy). revert Hx. destruct (String.eqb_spec (sv_id y) id); [by intros []|done].
      + intros Hy. exists x. split; [|done]. by destruct (String.eqb_spec (sv_id x) id). }
  intros [[s s']|]; [|by apply does_fail].
  apply does_pure. intros [Es ->].
  eapply (does_bind _ _ _ (fun _ _ t => only t0 id (fun s' => heard now inp s s' /\ heartbeat_verdict inp s s') t)).
  { eapply only_columns. intros n s' Hh. split; [by apply heard_columns|]. by split. }
  intros u. set (fin := fun (_ : Z) t => only t0 id (fun s' => heard now inp s s' /\ heartbeat_verdict inp s s') t).
  enough (H : forall m : io cp unit, steady fin m -> does fin m
     (fun _ _ t => exists s, live_by_id t0 id = Some s /\ only t0 id (fun s' => heard now inp s s' /\ heartbeat_verdict inp s s') t) (fun _ _ => True)).
  { apply H. apply steady_bind; [unfold tell_flip; steady idtac; apply steady_audit || apply steady_enqueue; apply only_insensitive|].
    intros u'. apply steady_bind; [destruct (hb_Metrics inp); [apply steady_wrapping, steady_does_update; by intros n t|apply steady_ret]|].
    intros u''. apply steady_bind; [destruct (hb_Hardening inp); [|apply steady_ret]|].
    - apply only_columns_steady. intros n s' [Hh [Hv1 Hv2]]. split; [by apply heard_columns|by split].
    - intros u3. destruct (hb_MeshApplied inp); [|apply steady_ret].
      apply only_columns_steady. intros n s' [Hh [Hv1 Hv2]]. split; [by apply heard_columns|by split]. }
  intros m Hm. eapply does_weaken; [exact Hm|done| |done]. intros a n t Hf. by exists s.
Qed.

Lemma compatibility_cases prev fails : prev ∈ [ServerStatusProvisioning; ServerStatusRunning; ServerStatusUnreachable; ServerStatusIncompatible; ServerStatusDecommissioning] ->
  compatibilityStatus prev fails true =
    if String.eqb prev ServerStatusDecommissioning then prev
    else match fails with [] => ServerStatusRunning | _ => ServerStatusIncompatible end.
Proof.
  intros H. unfold compatibilityStatus, is_status. destruct (String.eqb prev ServerStatusDecommissioning) eqn:Ed; [done|].
  destruct fails; [|done]. repeat (apply elem_of_cons in H as [->|H]; [done|]). set_solver.
Qed.

Lemma stale_rows threshold d n d' : MarkStaleUnreachable threshold d = (Ok n, d') ->
  rows (cp_tables d') = map (fun s => if gone_stale (cp_now d) threshold s
    then with_columns (fun c => with_verdict ServerStatusUnreachable (col_incompatible c) c) s else s) (rows (cp_tables d)).
Proof.
  intros E. refine (does_run (from (cp_tables d) (cp_now d)) _ (fun _ _ t => rows t = _) (fun _ _ => True) d _ d' _ (conj eq_refl eq_refl) E).
  apply does_exec; [done|]. by intros n0 t [-> ->].
Qed.

(** A machine that speaks is running, if it fits its type.  A heartbeat
    that is recorded touches its own server only: the server is seen now, its
    facts are what it reports over what was known, and its status is running
    exactly when those facts meet every requirement of its type, incompatible
    with the failed ones listed otherwise - unless it is being decommissioned,
    which no heartbeat ends.  The sweep leaves it alone until the threshold has
    passed, and then a running one is unreachable at once. *)
Theorem speaking_machines_run id inp d d1 :
  RecordHeartbeat id inp d = (Ok tt, d1) ->
  (forall s, s ∈ rows (cp_tables d) -> sv_status s ∈ [ServerStatusProvisioning; ServerStatusRunning; ServerStatusUnreachable; ServerStatusIncompatible; ServerStatusDecommissioning]) ->
  (forall x, sv_id x <> id -> x ∈ rows (cp_tables d1) <-> x ∈ rows (cp_tables d)) /\
  exists s s', live_by_id (cp_tables d) id = Some s /\ s' ∈ rows (cp_tables d1) /\ sv_id s' = id /\ heard (cp_now d) inp s s' /\
    (let fails := CheckServerCompatibility (sv_type s') (ParseHostFacts (col_facts (sv_cols s'))) in
     col_incompatible (sv_cols s') = fails /\
     sv_status s' = if String.eqb (sv_status s) ServerStatusDecommissioning then ServerStatusDecommissioning
                    else match fails with [] => ServerStatusRunning | _ => ServerStatusIncompatible end) /\
    forall threshold d2 n d3, rows (cp_tables d2) = rows (cp_tables d1) -> MarkStaleUnreachable threshold d2 = (Ok n, d3) ->
      if (cp_now d2 <=? cp_now d + threshold * 1000000)%Z || negb (String.eqb (sv_status s') ServerStatusRunning)
      then s' ∈ rows (cp_tables d3)
      else exists s3, s3 ∈ rows (cp_tables d3) /\ sv_id s3 = id /\ sv_status s3 = ServerStatusUnreachable.
Proof.
  intros E Hst. destruct (does_run _ _ _ _ d _ d1 (RecordHeartbeat_does (cp_tables d) (cp_now d) id inp) (conj eq_refl eq_refl) E)
    as (s & Es & (s' & Hs' & Ei & Hh & Hv1 & Hv2) & Ho).
  pose proof Es as [Hs%list_elem_of_In Hp]%find_some. rewrite andb_true_iff, negb_true_iff in Hp. destruct Hp as [_ Hlive].
  split; [exact Ho|]. exists s, s'. destruct Hh as [H1 H2 H3]. destruct H3 as (Ho1 & Ho2 & Ht & Hdel & Hr).
  split_and!; [done|done|done|by repeat split; cbn; destruct Hr| |].
  - cbv zeta. rewrite H2, Ht. split; [done|]. rewrite Hv1, compatibility_cases by auto.
    destruct (String.eqb_spec (sv_status s) ServerStatusDecommissioning) as [->|]; done.
  - intros threshold d2 n d3 Er E3.
    assert (Hin : (if gone_stale (cp_now d2) threshold s'
        then with_columns (fun c => with_verdict ServerStatusUnreachable (col_incompatible c) c) s' else s') ∈ rows (cp_tables d3)).
    { rewrite (stale_rows _ _ _ _ E3), Er. apply list_elem_of_fmap. by exists s'. }
    unfold gone_stale in Hin. rewrite H1, Hdel, Hlive in Hin. change "running" with ServerStatusRunning in Hin.
    destruct (String.eqb_spec (sv_status s') ServerStatusRunning); cbn [andb negb] in Hin; [|by rewrite orb_true_r].
    rewrite orb_false_r. destruct (Z.leb_spec (cp_now d2) (cp_now d + threshold * 1000000)), (Z.ltb_spec (cp_now d) (cp_now d2 - threshold * 1000000)); try lia; [done|].
    eexists. split; [exact Hin|]. by split.
Qed.

End claims.
