(* ===== verification/FleetDemo.v ===== *)
(** * The registry at work

    The theorems of [FleetClaims] on a small fleet, and what five of the
    registry's promises leave open. *)

From S2P Require Import Backups Prelude GoStrings Json Naming RenderCluster RenderDoc CpDb Deploy DeployPipeline Kms Vault ServerCatalog Billing Servers Lifecycle Clusters FleetRuns FleetClaims.
From Stdlib Require Import Ascii.

Local Open Scope string_scope.
Local Open Scope io_scope.

#[local] Existing Instance pg_stable.

(** A cipher and a measure for the demonstration *)
Definition toy_frame (key nonce aad : string) : string := key +:+ nonce +:+ aad.
Definition toy_Open (key nonce aad ct : string) : option string :=
  if has_prefix ct (toy_frame key nonce aad) then Some (trim_prefix ct (toy_frame key nonce aad)) else None.

Lemma framed_opens key nonce aad pt : toy_Open key nonce aad (toy_frame key nonce aad +:+ pt) = Some pt.
Proof. unfold toy_Open. by rewrite has_prefix_app, trim_prefix_app. Qed.

#[local] Instance demo_aead : Aead := {|
  aead_Seal key nonce aad pt := toy_frame key nonce aad +:+ pt;
  aead_Open := toy_Open;
  aead_sound := framed_opens;
|}.
#[local] Instance demo_custody : KeyCustody := FileCustody "0123456789abcdef0123456789abcdef" AuditUnwrapSink.
#[local] Instance demo_size : JsonSize := {| json_size _ := 100%Z |}.
#[local] Instance demo_text : FloatText := {| fmt_g _ := "1.5"; fmt_f1 _ := "1.5" |}.

Definition draw (n : nat) : string := repeat_byte n "a" +:+ "b".

Definition plane_with (billing : list billing_row) (hosted : list resource_row) (placed : list (string * string)) : cp :=
  mkCp (mkTables [] hosted [] [] [] [] placed [] [] [] [] [] (mkFleet [] ∅ [] ∅)
          (mkVault [("prj_1", "org")] [mkEnvironment "env_1" "prj_1" "production"] [] [] []) no_backups
          (mkEstate [] [] [] [] billing [] [] [] []))
    1000 [] draw 0 (mkMemory ∅ []).
Definition plane : cp := plane_with [] [] [].
Definition paying : cp := plane_with [mkBilling "org" "ctm_1" "sub_1" "active" 7 (Some 10%Z) 0 None None None 0] [] [].

Definition act (o : fleet_op) (d : cp) : cp := (run_fleet_op "pepper" true (fun s => s) o d).2.
Definition play (os : list fleet_op) (d : cp) : cp := fold_left (fun d o => act o d) os d.
Definition later (dt : Z) (d : cp) : cp :=
  mkCp (cp_tables d) (cp_now d + dt) (cp_faults d) (cp_rand d) (cp_drawn d) (cp_memory d).

Local Abbreviation step := (fleet_step "pepper" true (fun s => s)).

Lemma play_steps os d : rtc step d (play os d).
Proof.
  revert d. induction os as [|o os IH]; intros d; [apply rtc_refl|].
  eapply rtc_l; [|apply IH]. eapply (fstep_op _ _ _ _ _ o). apply surjective_pairing.
Qed.

Lemma plane_registry : registry plane.
Proof. split; cbn; [split; cbn| | |]; try (by intros; set_solver); by constructor. Qed.

Definition token : string := Eval vm_compute in
  match (IssueBootstrapToken "pepper" true "org" "web-1" "general" "alice" 1000000 plane).1 with Ok (t, _, _) => t | _ => "" end.
Definition issued : cp := Eval vm_compute in act (FIssue "org" "web-1" "general" "alice" 1000000) plane.
Definition registered_answer := Eval vm_compute in (RegisterServer "pepper" token "1.0" None "pub" issued).

Definition beat : HeartbeatInput := mkHeartbeat "1.0" None "pub" "198.51.100.7:51820" None None false 0.
Definition enrolled : cp := Eval vm_compute in play [FRegister token "1.0" None "pub"; FHeartbeat "srv_b" beat] issued.
Definition leaving_plane : cp := Eval vm_compute in play [FBegin "org" "srv_b" false "alice"] enrolled.
Definition headed : cp := Eval vm_compute in play [FCluster "org" (mkCreateCluster "env_1" "prod" "srv_b") "bob"] leaving_plane.
Definition cluster_id : string := Eval vm_compute in match clusters (estate (cp_tables headed)) with c :: _ => cl_id c | [] => "" end.

(** The timeout of a decommission is not the force path.  A server that is
    being decommissioned may still be made the control plane of a cluster, and
    the sweep that gives up on its agent, unlike a forced removal, leaves it in
    the cluster: the control plane of the cluster is then a tombstoned server. *)
Theorem timeout_leaves_a_node :
  let swept := play [FTimeout 600] (later 700000000 headed) in
  let forced := play [FDelete "org" "srv_b" "alice"] headed in
  map sv_deleted (servers (machines (cp_tables swept))) = [true] /\
  map sv_deleted (servers (machines (cp_tables forced))) = [true] /\
  (ControlPlaneServerForCluster "org" cluster_id swept).1 = Ok "srv_b" /\
  is_ok (ControlPlaneServerForCluster "org" cluster_id forced).1 = false.
Proof. vm_compute. repeat split. Qed.

(** *** What a machine says too much of *)

Definition junk (from_ : Z) : option json := Some (JObj (map (fun n => ("x" +:+ dec (from_ + Z.of_nat n), JBool true)) (seq 0 40))).
Definition plain_host : option json := Some (JObj [("distro", JStr "ubuntu-24.04"); ("arch", JStr "amd64"); ("gpu", JObj [("vendor", JStr "none"); ("count", JInt 0)])]).
Definition saying (facts : option json) : HeartbeatInput := mkHeartbeat "1.0" facts "pub" "" None None false 0.
Definition gpu_issued : cp := Eval vm_compute in act (FIssue "org" "gpu-1" "gpu" "alice" 1000000) paying.
Definition gpu_joined : cp := Eval vm_compute in play [FRegister token "1.0" plain_host "pub"; FHeartbeat "srv_b" (saying plain_host)] gpu_issued.

Definition statuses (d : cp) : list string := map sv_status (servers (machines (cp_tables d))).

(** The bound on a server's facts is a bound on each payload.  Two
    check-ins of forty facts each, none over the limit, leave more facts on the
    row than the reader accepts; it then reads the host as unknown, no
    requirement fails, and a machine without a GPU that had been held back as
    incompatible runs as a GPU server. *)
Theorem oversized_facts_blind_the_gate :
  let flooded := play [FHeartbeat "srv_b" (saying (junk 100)); FHeartbeat "srv_b" (saying (junk 200))] gpu_joined in
  statuses gpu_joined = [ServerStatusIncompatible] /\ statuses flooded = [ServerStatusRunning] /\
  map (fun s => size (col_facts (sv_cols s))) (servers (machines (cp_tables flooded))) = [83%nat] /\
  map (fun s => col_facts (sv_cols s) !! "gpu") (servers (machines (cp_tables flooded))) =
    map (fun s => col_facts (sv_cols s) !! "gpu") (servers (machines (cp_tables gpu_joined))).
Proof. vm_compute. repeat split. Qed.

(** *** Re-filing *)

(** Re-filing a server is not metered.  An organisation without a
    subscription is refused a GPU server, which weighs more than the free units,
    and gets one by connecting a general server and changing its type. *)
Theorem refiling_escapes_the_free_tier :
  is_ok (IssueBootstrapToken "pepper" true "org" "gpu-1" "gpu" "alice" 1000000 plane).1 = false /\
  let refiled := play [FType "org" "srv_b" "gpu" "alice"] enrolled in
  statuses refiled = [ServerStatusRunning] /\ admitted_units "org" (cp_tables refiled) = 4%Z /\
  (BillingFreeTier < admitted_units "org" (cp_tables refiled))%Z.
Proof. vm_compute. repeat split. Qed.

Definition shop : resource_row := mkResource "res_1" "org" "prj_1" (Some "env_1") (Some "srv_x") None "app" "shop" (JObj []).

(** A server that hosts a service of a Compose application may be re-filed
    as a type that cannot host applications: the check looks at the resources
    whose own server it is, not at the services placed on it, which the
    disconnect of the same server does find and refuse to strand. *)
Theorem refiling_strands_placements :
  let placed := play [FRegister token "1.0" None "pub"; FHeartbeat "srv_b" beat]
                  (act (FIssue "org" "web-1" "general" "alice" 1000000) (plane_with [] [shop] [("res_1", "srv_b")])) in
  CanHost "storage" "app" = false /\
  (DeleteServer "org" "srv_b" "alice" placed).1 = Err (ErrBoundResources ["shop"]) /\
  is_ok (SetServerType "org" "srv_b" "storage" "alice" placed).1 = true.
Proof. vm_compute. repeat split. Qed.

(** *** The status of a cluster *)

Definition second_token : cp := Eval vm_compute in act (FIssue "org" "web-2" "general" "alice" 1000000) enrolled.
Definition clustered : cp := Eval vm_compute in
  play [FCluster "org" (mkCreateCluster "env_1" "prod" "srv_b") "bob"; FNodeReport "srv_b" (mkNodeReport true "" "https://10.8.0.1:6443" "v1.30")] second_token.

Definition cluster_status (d : cp) : list (string * string) :=
  map (fun c => (cl_status c, derived_status (nodes_of (cl_id c) (cp_tables d)))) (clusters (estate (cp_tables d))).

(** The status of a cluster goes stale when its nodes change.  It is
    derived when a node reports, not when one is added or removed: a ready
    cluster stays ready while a worker that has never reported is added to it,
    and a cluster degraded by a worker stays degraded once it has been removed. *)
Theorem cluster_status_goes_stale :
  let name := match clusters (estate (cp_tables clustered)) with c :: _ => cl_id c | [] => "" end in
  let grown := play [FAddNode "org" name "srv_aaaaab" "bob"] clustered in
  let broken := play [FNodeReport "srv_aaaaab" (mkNodeReport false "no space" "" "")] grown in
  let shrunk := play [FRemoveNode "org" name "srv_aaaaab" "bob"] broken in
  cluster_status clustered = [("ready", "ready")] /\ cluster_status grown = [("ready", "degraded")] /\
  cluster_status broken = [("degraded", "degraded")] /\ cluster_status shrunk = [("degraded", "ready")].
Proof. vm_compute. repeat split. Qed.

(** ** The theorems at work *)

Lemma reached os d : rtc step plane d -> registry (play os d).
Proof.
  intros H. refine (proj1 (fleet_run_keeps _ _ _ plane (play os d) _ plane_registry)). etransitivity; [exact H|apply play_steps].
Qed.
Lemma play_registry os : registry (play os plane).
Proof. apply reached, rtc_refl. Qed.

Definition all_ops : list fleet_op :=
  [FIssue "org" "web-1" "general" "alice" 1000000; FRegister token "1.0" None "pub"; FHeartbeat "srv_b" beat].
Lemma enrolled_is : enrolled = play all_ops plane.
Proof. vm_compute. reflexivity. Qed.

Definition gone : cp := Eval vm_compute in play [FDelete "org" "srv_b" "alice"] enrolled.


Definition joined_plane : cp := Eval vm_compute in play [FRegister token "1.0" None "pub"] issued.
Definition joined_as : server_row * string := Eval vm_compute in
  match (RegisterServer "pepper" token "1.0" None "pub" issued).1 with Ok a => a | Err _ => (mkServer "" "" "" false 0 no_columns, "") end.

Lemma issued_registry : registry issued.
Proof.
  assert (E : issued = play [FIssue "org" "web-1" "general" "alice" 1000000] plane) by (vm_compute; reflexivity).
  rewrite E. apply play_registry.
Qed.
Lemma enrolled_registry : registry enrolled.
Proof. rewrite enrolled_is. apply play_registry. Qed.

Lemma one_registration_per_token_witness : exists e d,
  RegisterServer "pepper" token "2.0" None "other" gone = (Err e, d) /\ cp_tables d = cp_tables gone.
Proof.
  assert (E : RegisterServer "pepper" token "1.0" None "pub" issued = (Ok (joined_as.1, joined_as.2), joined_plane)) by (vm_compute; reflexivity).
  destruct (one_registration_per_token "pepper" true (fun s => s) token "1.0" None "pub" issued joined_as.1 joined_as.2 joined_plane issued_registry E) as [_ H].
  assert (Eg : gone = play [FHeartbeat "srv_b" beat; FDelete "org" "srv_b" "alice"] joined_plane) by (vm_compute; reflexivity).
  refine (H gone _ "2.0" None "other"). rewrite Eg. apply play_steps.
Defined.

Definition disconnected : server_row := Eval vm_compute in
  match servers (machines (cp_tables gone)) with s :: _ => s | [] => mkServer "" "" "" false 0 no_columns end.


Definition accepted_leave : DecommissionState := Eval vm_compute in
  match (BeginDecommission "org" "srv_b" false "alice" enrolled).1 with Ok st => st | Err _ => mkDecommission "" "" "" false None true end.

Definition swept : res (list DecommissionTimedOut) * cp := Eval vm_compute in TimeoutStaleDecommissions 600 (later 700000000 headed).


Lemma speaking_machines_run_witness : exists s,
  s ∈ servers (machines (cp_tables (MarkStaleUnreachable 90 (later 90000000 enrolled)).2)) /\ sv_status s = ServerStatusRunning.
Proof.
  assert (E : RecordHeartbeat "srv_b" beat joined_plane = (Ok tt, enrolled)) by (vm_compute; reflexivity).
  destruct (speaking_machines_run "srv_b" beat joined_plane enrolled E) as (_ & s & s' & _ & Hs' & _ & _ & _ & H).
  - intros s Hs. cbn in Hs. apply list_elem_of_singleton in Hs as ->. left.
  - assert (Em : MarkStaleUnreachable 90 (later 90000000 enrolled) = (Ok 0%Z, (MarkStaleUnreachable 90 (later 90000000 enrolled)).2)) by (vm_compute; reflexivity).
    specialize (H 90%Z (later 90000000 enrolled) _ _ eq_refl Em).
    cbn in Hs'. apply list_elem_of_singleton in Hs' as ->. eexists. split; [exact H|reflexivity].
Defined.
