(* ===== verification/Domains.v ===== *)
(** * Custom domains ([cp/internal/store/domains.go], [dns.go])

    A user attaches a domain to an application; the record DNS needs is derived
    from the server that will answer, and checked; the agent reports the state
    of the certificate; a certificate about to expire is an alert
    ([EnqueueCertExpiringAlerts] of [alerts_store.go]).  The report arrives
    through [handleAgentDomainStatus] of [cp/internal/api/agent.go]. *)

From stdpp Require Import sorting.
From S2P Require Import Backups Prelude GoStrings Json Naming RenderCluster RenderDoc CpDb Deploy DsdStore NetAddr PublicHost Servers Lifecycle Clusters.
From Stdlib Require Import Ascii.

Local Open Scope string_scope.
Local Open Scope io_scope.

(** ** What a domain looks like *)

(** [unicode.IsSpace] *)
Definition space_rune (r : N) : bool :=
  ((9 <=? r) && (r <=? 13) || (r =? 32) || (r =? 133) || (r =? 160) || (r =? 5760) || (8192 <=? r) && (r <=? 8202) ||
   (r =? 8232) || (r =? 8233) || (r =? 8239) || (r =? 8287) || (r =? 12288))%N.

Fixpoint drop_space (rs : list N) : list N :=
  match rs with
  | [] => []
  | r :: rs' => if space_rune r then drop_space rs' else rs
  end.

(** A rune outside ASCII is written as the byte 255: no domain has one. *)
Definition ascii_text (rs : list N) : string :=
  String.string_of_list_ascii (map (fun r => if (r <? 128)%N then ascii_of_N r else ascii_of_N 255) rs).

(** [strings.ToLower(strings.TrimSpace(domain))] *)
Definition normal_domain (domain : string) : string :=
  ascii_text (map lower_rune (rev (drop_space (rev (drop_space (runes domain)))))).

Definition alnum (b : ascii) : bool := is_lower b || is_digit b.

Definition hostname_label (s : string) : bool :=
  match String.list_ascii_of_string s with
  | [] => false
  | b :: _ =>
      (String.length s <=? 63)%nat && sforall label_char s && alnum b &&
      match last (String.list_ascii_of_string s) with Some e => alnum e | None => false end
  end.

Definition hostnameRe (s : string) : bool :=
  let labels := split_at "."%char s in
  (2 <=? length labels)%nat && forallb hostname_label labels.

Definition validChallengeTypes := ["http"; "tls-alpn"; "dns"].

(** ** Rows *)

Definition domain_of (t : tables) (orgID domainID : string) : option domain_row :=
  List.find (fun d => String.eqb (do_org d) orgID && String.eqb (do_id d) domainID) (domains (estate t)).

(** The primary key and the unique index on [lower(domain)] *)
Definition insert_domain (row : Z -> domain_row) : io cp Z :=
  exec (fun now t =>
    if existsb (fun o => String.eqb (do_id o) (do_id (row now)) || String.eqb (to_lower (do_domain o)) (to_lower (do_domain (row now)))) (domains (estate t))
    then Err ErrUnique
    else Ok (now, set_domains (fun l => l ++ [row now])%list t)).

Definition proxy_message := "this resource's server does not have the proxy role, so nothing on it terminates TLS or routes hostnames — turn the proxy role on for the server first, then attach the domain".

Definition assert_proxy (orgID serverID : string) : io cp unit :=
  if String.eqb serverID "" then ret tt
  else
    row <- query (fun _ t => List.find (fun s => String.eqb (sv_org s) orgID && String.eqb (sv_id s) serverID) (servers (machines t))) ;;
    match row with
    | None => fail ErrNoRows
    | Some s => if col_proxy_role (sv_cols s) then ret tt else fail proxy_message
    end.

Definition AttachDomain (orgID resourceID domain challengeType actor : string) : io cp (domain_row * string) :=
  let domain := normal_domain domain in
  if (253 <? String.length domain)%nat || negb (hostnameRe domain) then
    fail "domain must be a valid fully-qualified hostname (e.g. app.example.com); wildcards are not supported until DNS-01 (P1-12)"
  else
    let challengeType := if String.eqb challengeType "" then "http" else challengeType in
    if negb (existsb (String.eqb challengeType) validChallengeTypes) then
      fail ("challengeType must be " +:+ quote "http" +:+ ", " +:+ quote "tls-alpn" +:+ ", or " +:+ quote "dns")
    else transaction
      (row <- query (fun _ t => List.find (fun r => String.eqb (rs_org r) orgID && String.eqb (rs_id r) resourceID) (resources t)) ;;
       match row with
       | None => fail ErrNotFound
       | Some r =>
           if negb (String.eqb (rs_kind r) "app") then fail "a custom domain can only be attached to an app resource"
           else
             let serverID := default "" (rs_server r) in
             _ <- assert_proxy orgID serverID ;;
             id <- newID "dom" ;;
             let d now := mkDomainRow id orgID resourceID domain challengeType "pending" None None None actor now now in
             now <- conflicting ("domain " +:+ quote domain +:+ " is already attached") (insert_domain d) ;;
             _ <- auditTx orgID actor ("Domain attached (" +:+ domain +:+ ")") resourceID ;;
             ret (d now, serverID)
       end).

Definition DetachDomain (orgID domainID actor : string) : io cp (string * string) :=
  transaction
    (row <- query (fun _ t =>
       d ← domain_of t orgID domainID; r ← res_by_id t (do_resource d); Some (do_domain d, default "" (rs_server r), rs_id r)) ;;
     match row with
     | None => fail ErrNotFound
     | Some (domain, serverID, resourceID) =>
         _ <- update (fun _ => set_domains (List.filter (fun d => negb (String.eqb (do_org d) orgID && String.eqb (do_id d) domainID)))) ;;
         _ <- auditTx orgID actor ("Domain detached (" +:+ domain +:+ ")") domainID ;;
         ret (serverID, resourceID)
     end).

Definition domain_le (a b : domain_row) : Prop := str_le (do_domain a) (do_domain b).
#[local] Instance domain_le_dec a b : Decision (domain_le a b).
Proof. unfold domain_le, str_le. apply _. Defined.

Definition ListDomainsForResource (orgID resourceID : string) : io cp (list domain_row) :=
  query (fun _ t => merge_sort domain_le
    (List.filter (fun d => String.eqb (do_org d) orgID && String.eqb (do_resource d) resourceID) (domains (estate t)))).

Definition routed_here (t : tables) (serverID : string) (d : domain_row) : bool :=
  match res_by_id t (do_resource d) with Some r => ResourceHostedHere t serverID r | None => false end.

(** Grouped by resource, each group in the order of the domains *)
Definition DomainsForServer (serverID : string) : io cp (gmap string (list domain_row)) :=
  query (fun _ t => foldr (fun d m => <[do_resource d := d :: default [] (m !! do_resource d)]> m) ∅
    (merge_sort domain_le (List.filter (routed_here t serverID) (domains (estate t))))).

(** ** What the agent reports *)

Definition AlertCertFailed := "cert_failed".
Definition sixHours : Z := 6 * 3600000000.

Definition reported_cert (status serial : string) (expiresAt : option Z) (certErr : string) (now : Z) (d : domain_row) : domain_row :=
  mkDomainRow (do_id d) (do_org d) (do_resource d) (do_domain d) (do_challenge d) status
    (match nullif serial with Some s => Some s | None => do_cert_serial d end)
    (match expiresAt with Some e => Some e | None => do_cert_expires_at d end)
    (Some certErr) (do_created_by d) (do_created_at d) now.

Section store.
Context {pg : Postgres}.

Definition SetDomainCertStatus (serverID domain status serial : string) (expiresAt : option Z) (certErr : string) : io cp unit :=
  let domain := normal_domain domain in
  transaction
    (row <- exec (fun now t =>
       let here d := String.eqb (to_lower (do_domain d)) domain && routed_here t serverID d in
       Ok (do_org <$> List.find here (domains (estate t)),
           set_domains (map (fun d => if here d then reported_cert status serial expiresAt certErr now d else d)) t)) ;;
     match row with
     | None => fail ErrNotFound
     | Some orgID =>
         if String.eqb status "failed" then
           let body := if String.eqb certErr "" then "certificate issuance failed with no error detail" else certErr in
           enqueueAlertTx orgID AlertCertFailed ("dom:" +:+ domain +:+ ":failed") sixHours
             ("Certificate issuance failed for " +:+ domain) body
         else ret tt
     end).

Record DomainReport := mkDomainReport {
  dr_Domain : string;
  dr_Status : string;
  dr_Serial : string;
  dr_ExpiresAt : option Z;
  dr_Error : string;
}.

Definition validCertStatus := ["pending"; "issuing"; "issued"; "failed"].

(** The loop of the handler, the number of reports it has applied, and its
    answer: [None] is the internal error. *)
Fixpoint take_reports (serverID : string) (reports : list DomainReport) (applied : Z) : io cp (option Z) :=
  match reports with
  | [] => ret (Some applied)
  | d :: rest =>
      if String.eqb (trim_space (dr_Domain d)) "" || negb (existsb (String.eqb (dr_Status d)) validCertStatus)
      then take_reports serverID rest applied
      else
        r <- attempt (SetDomainCertStatus serverID (dr_Domain d) (dr_Status d) (dr_Serial d) (dr_ExpiresAt d) (dr_Error d)) ;;
        match r with
        | Ok _ => take_reports serverID rest (applied + 1)
        | Err e => if String.eqb e ErrNotFound then take_reports serverID rest applied else ret None
        end
  end.

Definition handleAgentDomainStatus (serverID : string) (reports : list DomainReport) : io cp (option Z) :=
  take_reports serverID reports 0.

(** ** Certificates about to expire *)

Definition AlertCertExpiring := "cert_expiring".
Definition second : Z := 1000000.
Definition one_day : Z := 86400 * second.

Definition expiring (now within : Z) (d : domain_row) : option (string * string * Z) :=
  match do_cert_expires_at d with
  | Some e => if String.eqb (do_cert_status d) "issued" && (now <? e)%Z && (e <? now + within)%Z
              then Some (do_org d, do_domain d, e) else None
  | None => None
  end.

Definition expiry_key (domain : string) (expires : Z) : string := "cert:" +:+ domain +:+ ":" +:+ dec (expires / second).

Definition alert_expiry (now : Z) (r : string * string * Z) : io cp unit :=
  let '(orgID, domain, expires) := r in
  enqueueAlertTx orgID AlertCertExpiring (expiry_key domain expires) 0
    ("Certificate for " +:+ domain +:+ " expires in " +:+ dec ((expires - now) / one_day) +:+ " days")
    ("The TLS certificate for " +:+ domain +:+ " expires at " +:+ rfc3339 (expires / second) +:+
     ". Automatic renewal should replace it; if this alert repeats as the date approaches, renewal is failing — check the domain's cert status.").

Definition EnqueueCertExpiringAlerts (within : Z) : io cp unit :=
  transaction
    (due <- query (fun now t => order_by (fun _ => 0%Z) (omap (expiring now within) (domains (estate t)))) ;;
     now <- clock ;;
     for_each due (alert_expiry now)).

End store.

(** ** The record DNS needs *)

Record DNSRecord := mkDNSRecord { rc_Type : string; rc_Name : string; rc_Value : string; rc_TTL : Z }.

Record DNSSetup := mkDNSSetup {
  ns_Domain : string;
  ns_Apex : bool;
  ns_Records : list DNSRecord;
  ns_Verified : bool;
  ns_Observed : list string;
  ns_Reason : string;
  ns_ProxyRole : bool;
  ns_CertStatus : string;
  ns_CheckedAt : string;
}.

Definition defaultDNSTTL : Z := 300.

Definition joinReasons (first second : string) : string :=
  if String.eqb second "" then first
  else if String.eqb first "" then second
  else first +:+ " " +:+ second.

Definition serverLabel (name : option string) : string :=
  match name with
  | None => "This resource's server"
  | Some n => if String.eqb (trim_space n) "" then "This resource's server" else n
  end.

Definition publicHost (endpoint : option string) : string :=
  match endpoint with
  | None => ""
  | Some e => if String.eqb e "" then "" else match SplitHostPort e with Some (host, _) => host | None => e end
  end.

Definition labels_of (domain : string) : list string := split_at "."%char (trim (is_byte "."%char) domain).

Definition isApexDomain (domain : string) : bool := (length (labels_of domain) =? 2)%nat.

Definition apexOf (domain : string) : string :=
  let parts := labels_of domain in
  if (length parts <? 2)%nat then domain else join_with "." (drop (length parts - 2) parts).

(** [strings.TrimSuffix] *)
Definition trim_suffix (s p : string) : string :=
  let n := (String.length s - String.length p)%nat in
  if (String.length p <=? String.length s)%nat && String.eqb (sdrop n s) p then stake n s else s.

(** The row the query of [DNSSetupForDomain] scans.  Where the resource has no
    server the join leaves NULLs, and [proxy_role] is scanned into a [bool]. *)
Definition dns_row (t : tables) (orgID domainID : string) : option (domain_row * option server_row) :=
  d ← domain_of t orgID domainID; r ← res_by_id t (do_resource d);
  Some (d, rs_server r ≫= fun s => List.find (fun x => String.eqb (sv_id x) s) (servers (machines t))).

Definition scan_null_bool := "can't scan into dest[5]: cannot scan NULL into *bool".

Definition dns_target (d : domain_row) (endpoint : string) : DNSRecord :=
  let name := if isApexDomain (do_domain d) then "@" else trim_suffix (do_domain d) ("." +:+ apexOf (do_domain d)) in
  mkDNSRecord (if contains endpoint ":" then "AAAA" else "A") name endpoint defaultDNSTTL.

(** [LookupHost]: [None] when the name does not resolve. *)
Definition DNSSetupForDomain (LookupHost : string -> option (list string)) (orgID domainID : string) : io cp DNSSetup :=
  row <- query (fun _ t => dns_row t orgID domainID) ;;
  match row with
  | None => fail ErrNotFound
  | Some (_, None) => fail scan_null_bool
  | Some (d, Some s) =>
      now <- clock ;;
      let c := sv_cols s in
      let checked := rfc3339 (now / second) in
      let proxyNote :=
        if col_proxy_role c then ""
        else serverLabel (Some (sv_name s)) +:+ " isn't marked as a proxy/edge server, so nothing terminates TLS for this domain and no certificate can be issued — turn on the Proxy / edge role on that server." in
      let setup records verified observed reason :=
        mkDNSSetup (do_domain d) (isApexDomain (do_domain d)) records verified observed reason (col_proxy_role c) (do_cert_status d) checked in
      let target := publicHost (col_endpoint c) in
      if String.eqb target "" then
        ret (setup [] false [] "This resource's server has no public address yet — it is still enrolling, or it is only reachable over the mesh. The record can't be created until it has one.")
      else
        let records := [dns_target d target] in
        match LookupHost (do_domain d) with
        | None => ret (setup records false [] (joinReasons "The domain doesn't resolve yet. Create the record below; changes can take a few minutes to propagate." proxyNote))
        | Some addrs =>
            if existsb (fun a => String.eqb a target) addrs then ret (setup records true addrs proxyNote)
            else ret (setup records false addrs (joinReasons "The domain resolves, but not to this server. Update the record to the value below." proxyNote))
        end
  end.
