(* ===== verification/DomainClaims.v ===== *)
(** * What custom domains promise

    The names that reach the router: every stored domain is a host name that
    cannot leave the matcher it is rendered into, and it routes to one
    resource.  The record the owner of a domain is told to create, and when the
    setup is called finished.  The alert of an expiring certificate. *)

From S2P Require Import Backups Prelude GoStrings Json Naming Render RenderCluster RenderDoc CpDb Deploy DsdStore DsdReports Kms BackupRuns Paddle PaddleClaims NetAddr PublicHost Servers Lifecycle Clusters FleetRuns Domains.
From Stdlib Require Import Ascii.

Local Open Scope string_scope.
Local Open Scope io_scope.

Local Abbreviation doms t := (domains (estate t)).

(** ** Host names *)

(** A label of a host name, as RFC 1123 has it *)
Definition host_label (s : string) : Prop :=
  stem_ok s /\ (String.length s <= 63)%nat.

Definition host_char (b : ascii) : bool := label_char b || Ascii.eqb b ".".

Lemma last_app_char t c : last (String.list_ascii_of_string (t +:+ String c "")) = Some c.
Proof.
  induction t as [|b t IH]; [done|].
  change (last (b :: String.list_ascii_of_string (t +:+ String c "")) = Some c). by rewrite last_cons, IH.
Qed.

Lemma dash_alnum : alnum "-"%char = false.
Proof. reflexivity. Qed.

Lemma hostname_label_ok s : hostname_label s = true -> host_label s.
Proof.
  unfold hostname_label. destruct (String.list_ascii_of_string s) as [|b l] eqn:E; [done|].
  rewrite !andb_true_iff, Nat.leb_le. intros [[[Hlen Hc] Hb] He]. split; [|done]. split_and!; [by intros ->|done| |].
  - intros t ->. cbn in E. injection E as <- _. by rewrite dash_alnum in Hb.
  - intros t ->. rewrite <- E, last_app_char in He. by rewrite dash_alnum in He.
Qed.

Lemma split_at_chars (f : ascii -> bool) c s : (forall l, l ∈ split_at c s -> sforall f l = true) ->
  sforall (fun b => f b || Ascii.eqb b c) s = true.
Proof.
  induction s as [|b s IH]; cbn [split_at sforall]; [done|]. destruct (Ascii.eqb b c) eqn:E.
  - intros H. rewrite orb_true_r. apply IH. intros l Hl. apply H. by right.
  - rewrite orb_false_r. destruct (split_at c s) as [|x xs]; intros H.
    + pose proof (H (String b "") ltac:(left)) as Hb. cbn in Hb. apply andb_true_iff in Hb as [-> _]. apply IH. by intros l ?%elem_of_nil.
    + pose proof (H (String b x) ltac:(left)) as Hx. cbn in Hx. apply andb_true_iff in Hx as [-> Hx]. apply IH.
      intros l [->|Hl]%elem_of_cons; [done|]. apply H. by right.
Qed.

Lemma hostname_labels s : hostnameRe s = true -> forall l, l ∈ split_at "." s -> host_label l.
Proof.
  unfold hostnameRe. intros [_ H]%andb_true_iff l Hl. rewrite forallb_forall in H.
  apply hostname_label_ok, H. by apply list_elem_of_In.
Qed.

Lemma hostname_chars s : hostnameRe s = true -> sforall host_char s = true.
Proof. intros H. apply split_at_chars. intros l Hl. apply (hostname_labels s H l Hl). Qed.

Definition plain_host (b : ascii) : bool := negb (Ascii.eqb b "`").

Lemma host_no_quote b : host_char b = true -> plain_host b = true.
Proof. unfold plain_host. intros H. apply negb_true_iff. by destruct (Ascii.eqb_spec b "`") as [->|]. Qed.

(** The matcher of a host name opens up as that name. *)
Lemma host_rule_opens s : hostnameRe s = true -> split_at "`" (host_rule s) = ["Host("; s; ")"].
Proof.
  intros H. unfold host_rule.
  change (split_at "`" ("Host(" +:+ String "`"%char (s +:+ "`)")) = ["Host("; s; ")"]).
  rewrite split_at_sep by done. f_equal. apply (split_at_sep "`"%char s ")"). apply (sforall_impl host_char); [apply host_no_quote|by apply hostname_chars].
Qed.

(** ** The operations over time *)

Inductive domain_op : Type :=
| DAttach (org resource domain challenge actor : string)
| DDetach (org domain actor : string)
| DReport (server : string) (reports : list DomainReport)
| DScan (within : Z).

Record domains_ok (t : tables) : Prop := {
  dk_routes x : x ∈ doms t -> hostnameRe (do_domain x) = true /\ (String.length (do_domain x) <= 253)%nat;
  dk_once : NoDup (map do_domain (doms t));
  dk_states x : x ∈ doms t -> do_challenge x ∈ validChallengeTypes /\ do_cert_status x ∈ validCertStatus;
}.

(** Whoever listens hears of each expiry once. *)
Definition cert_keys (o : list alert_row) : list (string * string) :=
  map (fun a => (al_channel a, al_dedup_key a)) (List.filter (fun a => String.eqb (al_event a) AlertCertExpiring) o).

Record alerts_ok (t : tables) : Prop := {
  ak_rules : NoDup (map (fun r => (ar_org r, ar_event r, ar_channel r)) (alert_rules t));
  ak_once : NoDup (cert_keys (alert_outbox t));
}.

Section claims.
Context {pg : Postgres}.

Definition run_domain_op (o : domain_op) : io cp unit :=
  match o with
  | DAttach org r dom ch a => _ <- AttachDomain org r dom ch a ;; ret tt
  | DDetach org dom a => _ <- DetachDomain org dom a ;; ret tt
  | DReport s reports => _ <- handleAgentDomainStatus s reports ;; ret tt
  | DScan within => EnqueueCertExpiringAlerts within
  end.

Let tidy : assertion := fun _ t => domains_ok t.
Let told : assertion := fun _ t => alerts_ok t.

#[local] Instance tidy_insensitive : Insensitive tidy.
Proof. by split; intros n t f []. Qed.

Lemma steady_tables_tx {A} (P : tables -> Prop) (m : io cp A) :
  steady (fun _ => P) m -> steady (fun _ => P) (transaction m).
Proof. intros H. apply does_transaction_any; [|done]. by apply steady_does. Qed.

Lemma validated (l : list string) x : existsb (String.eqb x) l = true -> x ∈ l.
Proof. rewrite existsb_elem. intros (y & Hy & E%String.eqb_eq). by subst y. Qed.

Lemma insert_domain_tidy (row : Z -> domain_row) :
  (forall now, hostnameRe (do_domain (row now)) = true /\ (String.length (do_domain (row now)) <= 253)%nat /\
     do_challenge (row now) ∈ validChallengeTypes /\ do_cert_status (row now) ∈ validCertStatus) ->
  steady tidy (insert_domain row).
Proof.
  intros Hrow. apply steady_does_exec. intros n t [H1 H2 H3]. destruct (existsb _ (doms t)) eqn:E; [done|].
  destruct (Hrow n) as (Hr & Hl & Hc & Hs). split; cbn.
  - intros x [Hx|Hx]%elem_of_app; [auto|]. apply list_elem_of_singleton in Hx as ->. auto.
  - rewrite map_app. apply NoDup_app. split_and!; [done| |by apply NoDup_singleton].
    intros y (x & -> & Hx)%list_elem_of_fmap. cbn. intros Ex%list_elem_of_singleton.
    apply not_true_iff_false in E. apply E, existsb_elem. exists x. split; [done|]. by rewrite Ex, String.eqb_refl, orb_true_r.
  - intros x [Hx|Hx]%elem_of_app; [auto|]. apply list_elem_of_singleton in Hx as ->. auto.
Qed.

Lemma AttachDomain_tidy org r dom ch a : steady tidy (AttachDomain org r dom ch a).
Proof.
  unfold AttachDomain. cbv zeta. set (domain := normal_domain dom). set (ch' := if String.eqb ch "" then "http" else ch).
  destruct (_ || _) eqn:E1; [apply steady_fail|]. apply orb_false_iff in E1 as [El%Nat.ltb_ge Eh%negb_false_iff].
  destruct (negb (existsb _ _)) eqn:E2; [apply steady_fail|]. apply negb_false_iff, validated in E2.
  apply steady_tables_tx. steady ltac:(idtac; match goal with
    | |- steady _ (conflicting _ _) => unfold conflicting
    | |- steady _ (assert_proxy _ _) => unfold assert_proxy
    | |- steady _ (insert_domain _) => apply insert_domain_tidy; intros ?; cbn; split_and!; [done|lia|done|by left]
    end).
Qed.

Lemma DetachDomain_tidy org dom a : steady tidy (DetachDomain org dom a).
Proof.
  apply steady_tables_tx. steady ltac:(idtac; match goal with |- steady _ (update _) => apply steady_does_update end).
  intros n t [H1 H2 H3]. split; cbn.
  - intros x [Hx _]%filter_elem. auto.
  - by apply NoDup_map_filter.
  - intros x [Hx _]%filter_elem. auto.
Qed.

Lemma reported_tidy (here : domain_row -> bool) status serial e err n t : status ∈ validCertStatus -> domains_ok t ->
  domains_ok (set_domains (map (fun d => if here d then reported_cert status serial e err n d else d)) t).
Proof.
  intros Hs [H1 H2 H3]. split; cbn.
  - intros x (y & -> & Hy)%list_elem_of_fmap. destruct (here y); cbn; auto.
  - rewrite map_map. erewrite map_ext; [exact H2|]. intros y. by destruct (here y).
  - intros x (y & -> & Hy)%list_elem_of_fmap. destruct (here y); cbn; [|auto]. split; [by apply H3|done].
Qed.

Lemma SetDomainCertStatus_tidy s dom status serial e err : status ∈ validCertStatus ->
  steady tidy (SetDomainCertStatus s dom status serial e err).
Proof.
  intros Hs. unfold SetDomainCertStatus. cbv zeta. apply steady_tables_tx.
  steady ltac:(idtac; match goal with |- steady _ (exec _) => apply steady_does_exec; intros n t Ht; by apply reported_tidy end).
Qed.

Lemma take_reports_steady P s reports n :
  (forall dom status serial e err, status ∈ validCertStatus -> steady P (SetDomainCertStatus s dom status serial e err)) ->
  steady P (take_reports s reports n).
Proof.
  intros H. revert n. induction reports as [|r rest IH]; intros n; cbn [take_reports]; [apply steady_ret|].
  destruct (_ || _) eqn:E; [apply IH|]. apply orb_false_iff in E as [_ E%negb_false_iff%validated].
  apply steady_bind; [by apply steady_attempt, H|]. intros [u|err]; [apply IH|]. destruct (String.eqb _ _); [apply IH|apply steady_ret].
Qed.

Lemma DScan_tidy within : steady tidy (EnqueueCertExpiringAlerts within).
Proof.
  apply steady_tables_tx. steady ltac:(idtac; match goal with
    | |- steady _ clock => by intros ?
    | |- steady _ (alert_expiry _ ?x) => destruct x as [[? ?] ?]; unfold alert_expiry
    end).
Qed.

Lemma domain_op_tidy o : steady tidy (run_domain_op o).
Proof.
  destruct o; cbn [run_domain_op]; try (apply steady_bind; [|intros ?; apply steady_ret]).
  - apply AttachDomain_tidy.
  - apply DetachDomain_tidy.
  - apply take_reports_steady. intros. by apply SetDomainCertStatus_tidy.
  - apply DScan_tidy.
Qed.

(** *** Alerts *)

Lemma alerts_ok_same t t' : alert_rules t' = alert_rules t -> alert_outbox t' = alert_outbox t -> alerts_ok t -> alerts_ok t'.
Proof. intros Er Eo [H1 H2]. split; by rewrite ?Er, ?Eo. Qed.

Lemma steady_told_exec {A} (f : Z -> tables -> res (A * tables)) :
  (forall n t a t', f n t = Ok (a, t') -> alert_rules t' = alert_rules t /\ alert_outbox t' = alert_outbox t) -> steady told (exec f).
Proof.
  intros Hf. apply steady_does_exec. intros n t H. destruct (f n t) as [[a t']|e] eqn:E; [|done].
  destruct (Hf n t a t' E). by eapply alerts_ok_same.
Qed.

Lemma cert_keys_app a b : cert_keys (a ++ b) = (cert_keys a ++ cert_keys b)%list.
Proof. unfold cert_keys. by rewrite List.filter_app, map_app. Qed.

(** The rules of one event of one organisation name distinct channels. *)
Lemma rule_channels t org event (due : alert_rule -> bool) : NoDup (map (fun r => (ar_org r, ar_event r, ar_channel r)) (alert_rules t)) ->
  (forall r, due r = true -> ar_org r = org /\ ar_event r = event) ->
  NoDup (map ar_channel (order_by (fun _ => 0%Z) (List.filter due (alert_rules t)))).
Proof.
  intros Hn Hd. rewrite order_by_perm. apply (NoDup_fmap_1 (fun c => (org, event, c))).
  apply (NoDup_map_filter _ due) in Hn. rewrite <- list_fmap_compose. erewrite list_fmap_ext; [exact Hn|].
  intros i r Hi%list_elem_of_lookup_2%filter_elem. destruct (Hd r (proj2 Hi)) as [<- <-]. done.
Qed.

Lemma enqueue_told org event key window title body : event <> AlertCertExpiring \/ (window <= 0)%Z ->
  steady told (enqueueAlertTx org event key window title body).
Proof.
  intros Hev. apply steady_bind; [apply steady_wrapping, steady_query|]. intros u.
  apply steady_wrapping, steady_does_update. intros n t [Hr Ho]. cbv zeta.
  match goal with |- context [map ?row (order_by ?k (List.filter ?due _))] => set (R := row); set (D := due) end.
  split; [exact Hr|]. cbn [set_outbox alert_outbox]. rewrite cert_keys_app.
  destruct (String.eqb_spec event AlertCertExpiring) as [->|Hne].
  2:{ assert (cert_keys (map R (order_by (fun _ => 0%Z) (List.filter D (alert_rules t)))) = []) as ->; [|by rewrite app_nil_r].
      unfold cert_keys. induction (order_by _ _) as [|r l IH]; [done|]. cbn. by apply String.eqb_neq in Hne as ->. }
  destruct Hev as [|Hw]; [done|].
  assert (E : cert_keys (map R (order_by (fun _ => 0%Z) (List.filter D (alert_rules t)))) =
              map (fun c => (c, key)) (map ar_channel (order_by (fun _ => 0%Z) (List.filter D (alert_rules t))))).
  { unfold cert_keys. induction (order_by _ _) as [|r l IH]; [done|]. cbn. by rewrite IH. }
  rewrite E. apply NoDup_app. split_and!; [done| |].
  - intros x (o & -> & Hin)%list_elem_of_fmap. intros (c & Ec & (r & -> & Hd)%list_elem_of_fmap)%list_elem_of_fmap.
    rewrite order_by_perm in Hd. apply filter_elem in Hd as [_ Hd]. unfold D in Hd. rewrite !andb_true_iff in Hd. destruct Hd as [_ Hd].
    unfold alert_due in Hd. apply negb_true_iff, not_true_iff_false in Hd. apply Hd, existsb_elem. exists o.
    apply filter_elem in Hin as [Hin _]. split; [done|]. injection Ec as -> ->. rewrite !String.eqb_refl. cbn. by apply orb_true_iff; left; apply Z.leb_le.
  - apply NoDup_fmap; [by intros ? ? [=]|]. apply (rule_channels t org AlertCertExpiring); [done|].
    intros r Hd. unfold D in Hd. rewrite !andb_true_iff, !String.eqb_eq in Hd. tauto.
Qed.

Ltac telling := idtac; match goal with
  | |- steady _ clock => by intros ?
  | |- steady _ (transaction _) => apply steady_tables_tx
  | |- steady _ (conflicting _ _) => unfold conflicting
  | |- steady _ (assert_proxy _ _) => unfold assert_proxy
  | |- steady _ (insert_domain _) => unfold insert_domain
  | |- steady _ (alert_expiry _ ?x) => destruct x as [[? ?] ?]; unfold alert_expiry
  | |- steady _ (auditTx _ _ _ _) => unfold auditTx
  | |- steady _ (enqueueAlertTx _ _ _ _ _ _) => apply enqueue_told; first [by right|by left]
  | |- steady _ (update _) => apply steady_told_exec; by intros ? ? ? ? [= <- <-]
  | |- steady _ (exec _) => apply steady_told_exec; intros ? ? ? ? ?; repeat case_match; by simplify_eq
  end.

Lemma domain_op_told o : steady told (run_domain_op o).
Proof.
  destruct o; cbn [run_domain_op]; try (apply steady_bind; [|intros ?; apply steady_ret]).
  - unfold AttachDomain. steady telling.
  - unfold DetachDomain. steady telling.
  - apply take_reports_steady. intros. unfold SetDomainCertStatus. steady telling.
  - unfold EnqueueCertExpiringAlerts. steady telling.
Qed.

(** One step: an operation, whatever fails in it, or anything else that leaves
    the domains and the alerts alone. *)
Inductive domain_step (d d' : cp) : Prop :=
| dstep_op o r : run_domain_op o d = (r, d') -> domain_step d d'
| dstep_else : doms (cp_tables d') = doms (cp_tables d) -> alert_rules (cp_tables d') = alert_rules (cp_tables d) ->
    alert_outbox (cp_tables d') = alert_outbox (cp_tables d) -> domain_step d d'.

Lemma steady_step (P : tables -> Prop) d d' : (forall o, steady (fun _ => P) (run_domain_op o)) ->
  (forall t t', doms t' = doms t -> alert_rules t' = alert_rules t -> alert_outbox t' = alert_outbox t -> P t -> P t') ->
  rtc domain_step d d' -> P (cp_tables d) -> P (cp_tables d').
Proof.
  intros Hop Helse. induction 1 as [d|d1 d2 d3 [o r E|E1 E2 E3] H23 IH]; [done| |]; intros H; apply IH.
  - pose proof (does_run _ _ _ _ d1 r d2 (Hop o) H E) as H'. by destruct r.
  - by eapply Helse.
Qed.

(** C34: whatever was attached, detached and reported, every stored domain is a
    lower-case host name of at most 253 bytes whose labels are those of RFC
    1123; the matcher it is rendered into opens up as that name and nothing
    else; and no two rows have the same domain. *)
Theorem routes_are_hostnames d d' : domains_ok (cp_tables d) -> rtc domain_step d d' ->
  (forall x, x ∈ doms (cp_tables d') ->
     (String.length (do_domain x) <= 253)%nat /\ (2 <= length (split_at "." (do_domain x)))%nat /\
     (forall l, l ∈ split_at "." (do_domain x) -> host_label l) /\
     split_at "`" (host_rule (do_domain x)) = ["Host("; do_domain x; ")"] /\
     do_cert_status x ∈ validCertStatus) /\
  (forall i j x y, doms (cp_tables d') !! i = Some x -> doms (cp_tables d') !! j = Some y -> do_domain x = do_domain y -> i = j).
Proof.
  intros H Hrun. apply (steady_step domains_ok) in Hrun; [|apply domain_op_tidy| |done].
  2:{ intros t t' E _ _ [H1 H2 H3]. split; by rewrite E. }
  destruct Hrun as [H1 H2 H3]. split.
  - intros x Hx. destruct (H1 x Hx) as [Hh Hl]. split_and!; [done| |by apply hostname_labels|by apply host_rule_opens|by apply H3].
    unfold hostnameRe in Hh. apply andb_true_iff in Hh as [Hh%Nat.leb_le _]. done.
  - intros i j x y Hi Hj E. eapply (NoDup_lookup _ i j (do_domain x)); [exact H2|..]; rewrite list_lookup_fmap.
    + by rewrite Hi.
    + by rewrite Hj, E.
Qed.

(** *** Expiry *)

Lemma alert_expiry_quiet now x d : quiet d -> exists o,
  alert_expiry now x d = (Ok tt, with_tables (set_outbox (fun l => l ++ o)%list (cp_tables d)) d) /\
  forall r, listening (cp_tables d) x.1.1 AlertCertExpiring r ->
    notified (set_outbox (fun l => l ++ o)%list (cp_tables d)) (expiry_key x.1.2 x.2) r.
Proof.
  intros Hq. destruct x as [[org dom] e]. cbn [alert_expiry fst snd].
  edestruct (enqueue_quiet org AlertCertExpiring (expiry_key dom e)) as (o & E & Hn & _); [exact Hq|].
  exists o. split; [exact E|exact Hn].
Qed.

Lemma notified_app t o key r : notified t key r -> notified (set_outbox (fun l => l ++ o)%list t) key r.
Proof. intros (a & Ha & H). exists a. split; [|done]. cbn. apply elem_of_app. by left. Qed.

Lemma outbox_twice t a b : set_outbox (fun l => l ++ b)%list (set_outbox (fun l => l ++ a)%list t) = set_outbox (fun l => l ++ (a ++ b))%list t.
Proof. unfold set_outbox. cbn. by rewrite app_assoc. Qed.

Lemma expiries_quiet now due d : quiet d -> exists o,
  for_each due (alert_expiry now) d = (Ok tt, with_tables (set_outbox (fun l => l ++ o)%list (cp_tables d)) d) /\
  forall x r, x ∈ due -> listening (cp_tables d) x.1.1 AlertCertExpiring r ->
    notified (set_outbox (fun l => l ++ o)%list (cp_tables d)) (expiry_key x.1.2 x.2) r.
Proof.
  revert d. induction due as [|x due IH]; intros d Hq.
  - exists []. cbn. rewrite set_outbox_nil. split; [by destruct d|]. by intros x r ?%elem_of_nil.
  - destruct (alert_expiry_quiet now x d Hq) as (a & Ea & Ha).
    destruct (IH (with_tables (set_outbox (fun l => l ++ a)%list (cp_tables d)) d) Hq) as (b & Eb & Hb).
    exists (a ++ b)%list. cbn [for_each]. erewrite bind_run by exact Ea. rewrite Eb. cbn [cp_tables with_tables].
    rewrite <- outbox_twice. split; [done|]. intros y r [->|Hy]%elem_of_cons Hr; [by apply notified_app, Ha|]. by apply (Hb y r).
Qed.

(** Through any number of scans, among whatever else happens to domains,
    the alert of a certificate's expiry reaches each channel at most once; and a
    scan that meets no fault leaves it for every channel with a rule on it. *)
Theorem expiry_alerts_once d d' within : alerts_ok (cp_tables d) -> rtc domain_step d d' -> quiet d' ->
  exists d'', EnqueueCertExpiringAlerts within d' = (Ok tt, d'') /\
    NoDup (cert_keys (alert_outbox (cp_tables d''))) /\
    forall x org dom e r, x ∈ doms (cp_tables d') -> expiring (cp_now d') within x = Some (org, dom, e) ->
      listening (cp_tables d') org AlertCertExpiring r ->
      notified (cp_tables d'') (expiry_key dom e) r.
Proof.
  intros H Hrun Hq. apply (steady_step alerts_ok) in Hrun; [|apply domain_op_told|by intros; eapply alerts_ok_same|done].
  destruct (expiries_quiet (cp_now d') (order_by (fun _ => 0%Z) (omap (expiring (cp_now d') within) (doms (cp_tables d')))) d' Hq) as (o & E & Ho).
  assert (Es : EnqueueCertExpiringAlerts within d' = (Ok tt, with_tables (set_outbox (fun l => l ++ o)%list (cp_tables d')) d')).
  { unfold EnqueueCertExpiringAlerts. apply transaction_ok; [done| |done].
    rewrite query_bind by done. erewrite bind_run by reflexivity. exact E. }
  exists (with_tables (set_outbox (fun l => l ++ o)%list (cp_tables d')) d'). split_and!; [exact Es| |].
  - pose proof (does_run _ _ _ _ d' _ _ (domain_op_told (DScan within)) Hrun Es) as [_ Hk]. exact Hk.
  - intros x org dom e r Hx Hexp Hr. apply (Ho (org, dom, e) r); [|done]. rewrite order_by_perm. apply list_elem_of_omap. eauto.
Qed.
End claims.

(** ** The record DNS needs *)

Lemma split_at_cons c s : exists x xs, split_at c s = x :: xs.
Proof. destruct s as [|b s]; cbn; [eauto|]. destruct (Ascii.eqb b c); [eauto|]. destruct (split_at c s); eauto. Qed.

Lemma split_at_app c s r : split_at c (s +:+ String c r) = (split_at c s ++ split_at c r)%list.
Proof.
  induction s as [|b s IH].
  { change ((if Ascii.eqb c c then "" :: split_at c r else match split_at c r with x :: xs => String c x :: xs | [] => [String c ""] end) = "" :: split_at c r).
    by rewrite Ascii.eqb_refl. }
  change (split_at c (String b (s +:+ String c r)) = (split_at c (String b s) ++ split_at c r)%list). cbn [split_at]. rewrite IH.
  destruct (Ascii.eqb b c); [done|]. by destruct (split_at_cons c s) as (x & xs & ->).
Qed.

Lemma join_split c s : join_with (String c "") (split_at c s) = s.
Proof.
  induction s as [|b s IH]; [done|]. cbn [split_at]. destruct (split_at_cons c s) as (x & xs & E). rewrite E in *.
  destruct (Ascii.eqb_spec b c) as [->|Hb]; [cbn [join_with String.append]; by rewrite <- IH|].
  rewrite <- IH. by destruct xs.
Qed.

Lemma empty_label : ~ host_label "".
Proof. by intros [[] _]. Qed.

Lemma hostname_trim s : hostnameRe s = true -> labels_of s = split_at "." s.
Proof.
  intros H. unfold labels_of. rewrite trim_keep; [done|..].
  - intros c t ->. unfold is_byte. destruct (Ascii.eqb_spec c ".") as [->|]; [|done]. exfalso.
    apply empty_label, (hostname_labels _ H). cbn. left.
  - intros t c ->. unfold is_byte. destruct (Ascii.eqb_spec c ".") as [->|]; [|done]. exfalso.
    apply empty_label, (hostname_labels _ H). rewrite split_at_app. apply elem_of_app. right. left.
Qed.

Lemma join_with_app sep a x b : a <> [] -> join_with sep (a ++ x :: b) = join_with sep a +:+ sep +:+ join_with sep (x :: b).
Proof.
  induction a as [|y a IH]; [done|]. intros _. destruct a as [|z a]; [done|].
  change (y +:+ sep +:+ join_with sep ((z :: a) ++ x :: b) = (y +:+ sep +:+ join_with sep (z :: a)) +:+ sep +:+ join_with sep (x :: b)).
  rewrite IH by done. by rewrite !app_assoc_str.
Qed.

(** A host name is its record's name before the domain that is registered. *)
Lemma apex_name s : hostnameRe s = true ->
  (isApexDomain s = true -> apexOf s = s) /\
  (isApexDomain s = false -> trim_suffix s ("." +:+ apexOf s) +:+ "." +:+ apexOf s = s).
Proof.
  intros H. unfold isApexDomain, apexOf. rewrite (hostname_trim s H).
  assert (Hlen : (2 <= length (split_at "." s))%nat) by (unfold hostnameRe in H; apply andb_true_iff in H as [H%Nat.leb_le _]; done).
  rewrite (proj2 (Nat.ltb_ge _ _) Hlen). split.
  - intros ->%Nat.eqb_eq. apply join_split.
  - intros Hne%Nat.eqb_neq. set (n := (length (split_at "." s) - 2)%nat).
    assert (E : s = join_with "." (take n (split_at "." s)) +:+ "." +:+ join_with "." (drop n (split_at "." s))).
    { rewrite <- (join_split "." s) at 1. rewrite <- (take_drop n (split_at "." s)) at 1.
      destruct (drop n (split_at "." s)) as [|x l] eqn:Ed.
      { apply (f_equal length) in Ed. rewrite length_drop in Ed. cbn in Ed. lia. }
      apply join_with_app. intros E%(f_equal length). rewrite length_take in E. cbn in E. lia. }
    set (a := join_with "." (take n (split_at "." s))) in *. set (b := join_with "." (drop n (split_at "." s))) in *.
    unfold trim_suffix. rewrite E. set (suf := "." +:+ b).
    rewrite length_app_str. replace (String.length a + String.length suf - String.length suf)%nat with (String.length a) by lia.
    destruct (stake_app_len _ a suf eq_refl) as [-> ->]. rewrite String.eqb_refl, (proj2 (Nat.leb_le _ _)) by lia. done.
Qed.

Lemma joined_reasons a b : a <> "" -> joinReasons a b <> "".
Proof. unfold joinReasons. intros Ha. destruct (String.eqb b ""); [done|]. destruct (String.eqb_spec a ""); [done|]. by destruct a. Qed.

Lemma said_after a b : b <> "" -> a +:+ b <> "".
Proof. by destruct a. Qed.

Lemma dns_target_ok x endpoint : hostnameRe (do_domain x) = true ->
  rc_Value (dns_target x endpoint) = endpoint /\
  if isApexDomain (do_domain x) then rc_Name (dns_target x endpoint) = "@" /\ apexOf (do_domain x) = do_domain x
  else rc_Name (dns_target x endpoint) +:+ "." +:+ apexOf (do_domain x) = do_domain x.
Proof.
  intros [Ha Hn]%apex_name. unfold dns_target. cbn. split; [done|]. destruct (isApexDomain (do_domain x)); auto.
Qed.

Lemma scanned {A B} (f : Z -> tables -> A) (k : A -> io cp B) d b d' :
  bind (query f) k d = (Ok b, d') ->
  exists fs, k (f (cp_now d) (cp_tables d)) (mkCp (cp_tables d) (cp_now d) fs (cp_rand d) (cp_drawn d) (cp_memory d)) = (Ok b, d').
Proof.
  unfold query, exec, bind. destruct (cp_faults d) as [|[] fs] eqn:E; [..|done|];
    [exists [] | exists fs]; cbn; done.
Qed.

