(* ===== verification/DomainDemo.v ===== *)
(** * Domains at work

    The theorems of [DomainClaims] on one server and one application, and what
    three comments of the code get wrong. *)

From S2P Require Import Backups Prelude GoStrings Json Naming Render RenderCluster RenderDoc CpDb Deploy DeployPipeline DsdReports NetAddr PublicHost Servers Lifecycle Clusters Domains DomainClaims.
From Stdlib Require Import Ascii.

Local Open Scope string_scope.
Local Open Scope io_scope.

#[local] Existing Instance pg_stable.

Definition edge_columns : server_columns :=
  mkColumns "general" "running" false "1.0" ∅ None None None (Some "203.0.113.9:51820") true None [] None false "" None None None.
Definition edge : server_row := mkServer "srv_1" "org" "edge-1" false 0 edge_columns.
Definition site : resource_row := mkResource "res_1" "org" "prj_1" (Some "env_1") (Some "srv_1") None "app" "site" (JObj []).
Definition workload : resource_row := mkResource "res_2" "org" "prj_1" (Some "env_1") None (Some "cls_1") "app" "workload" (JObj []).

Definition day : Z := 86400000000.
Definition fresh_plane : cp :=
  mkCp (mkTables [] [site; workload] [] [] [] [] [] [mkAlertRule "org" AlertCertExpiring "ch_1"]
          [mkAlertChannel "ch_1" true no_channel_columns] [] [] []
          (mkFleet [edge] ∅ [] ∅) (mkVault [] [] [] [] []) no_backups (mkEstate [] [] [] [] [] [] [] [] []))
    1000 [] (fun n => repeat_byte n "a" +:+ "b") 0 (mkMemory ∅ []).

Definition act (o : domain_op) (d : cp) : cp := (run_domain_op o d).2.
Definition play (os : list domain_op) (d : cp) : cp := fold_left (fun d o => act o d) os d.
Definition later (dt : Z) (d : cp) : cp :=
  mkCp (cp_tables d) (cp_now d + dt) (cp_faults d) (cp_rand d) (cp_drawn d) (cp_memory d).

Lemma later_runs dt d : rtc domain_step d (later dt d).
Proof. apply rtc_once. by apply dstep_else. Qed.

Lemma play_runs os d : rtc domain_step d (play os d).
Proof.
  revert d. induction os as [|o os IH]; intros d; [apply rtc_refl|].
  eapply rtc_l; [|apply IH]. eapply (dstep_op _ _ o). apply surjective_pairing.
Qed.

Lemma fresh_domains : domains_ok (cp_tables fresh_plane).
Proof. split; cbn; [by intros x ?%elem_of_nil|constructor|by intros x ?%elem_of_nil]. Qed.

Lemma fresh_alerts : alerts_ok (cp_tables fresh_plane).
Proof. split; cbn; [by apply NoDup_singleton|constructor]. Qed.

(** *** A domain, attached and served *)

Definition attached : cp := Eval vm_compute in
  play [DAttach "org" "res_1" " App.Example.com" "" "alice"; DAttach "org" "res_1" "evil`) || Host(`x.com" "" "mallory";
        DAttach "org" "res_2" "app.example.com" "dns" "bob"; DAttach "org" "res_1" "example.co.uk" "tls-alpn" "alice"] fresh_plane.

Definition stored (d : cp) : list (string * string) := map (fun x => (do_resource x, do_domain x)) (domains (estate (cp_tables d))).

Example attached_rows : stored attached = [("res_1", "app.example.com"); ("res_1", "example.co.uk")].
Proof. reflexivity. Qed.

Lemma routes_are_hostnames_witness :
  host_label "example" /\ split_at "`" (host_rule "app.example.com") = ["Host("; "app.example.com"; ")"].
Proof.
  destruct (routes_are_hostnames fresh_plane attached fresh_domains) as [H _].
  - exact (play_runs [DAttach "org" "res_1" " App.Example.com" "" "alice"; DAttach "org" "res_1" "evil`) || Host(`x.com" "" "mallory";
      DAttach "org" "res_2" "app.example.com" "dns" "bob"; DAttach "org" "res_1" "example.co.uk" "tls-alpn" "alice"] fresh_plane).
  - destruct (domains (estate (cp_tables attached))) as [|x l] eqn:E; [discriminate E|].
    assert (Ex : do_domain x = "app.example.com") by (vm_compute in E; injection E as <- _; reflexivity).
    destruct (H x ltac:(left)) as (_ & _ & Hl & Hs & _). rewrite Ex in Hl, Hs. split; [|exact Hs].
    apply Hl. vm_compute. right. left.
Defined.

Definition name_of (d : cp) (dom : string) : string :=
  default "" (do_id <$> List.find (fun x => String.eqb (do_domain x) dom) (domains (estate (cp_tables d)))).

Definition resolver (name : string) : option (list string) := if String.eqb name "app.example.com" then Some ["203.0.113.9"] else None.

Definition app_setup := Eval vm_compute in (DNSSetupForDomain resolver "org" (name_of attached "app.example.com") attached).1.

Lemma attached_ok : domains_ok (cp_tables attached).
Proof.
  split; cbn.
  - intros x Hx. repeat (apply elem_of_cons in Hx as [->|Hx]; [split; [reflexivity|cbn; lia]|]). by apply elem_of_nil in Hx.
  - apply (bool_decide_unpack _). by vm_compute.
  - intros x Hx. repeat (apply elem_of_cons in Hx as [->|Hx]; [split; apply (bool_decide_unpack _); by vm_compute|]). by apply elem_of_nil in Hx.
Qed.


(** *** A certificate that does not renew *)

Definition issued_cert : DomainReport := mkDomainReport "app.example.com" "issued" "01" (Some (1000 + 10 * day)%Z) "".
Definition served : cp := Eval vm_compute in act (DReport "srv_1" [issued_cert]) attached.

Lemma served_runs : rtc domain_step fresh_plane served.
Proof. exact (play_runs [DAttach "org" "res_1" " App.Example.com" "" "alice"; DAttach "org" "res_1" "evil`) || Host(`x.com" "" "mallory";
      DAttach "org" "res_2" "app.example.com" "dns" "bob"; DAttach "org" "res_1" "example.co.uk" "tls-alpn" "alice"; DReport "srv_1" [issued_cert]] fresh_plane). Qed.

Lemma expiry_alerts_once_witness :
  exists d'', EnqueueCertExpiringAlerts (14 * day)%Z served = (Ok tt, d'') /\
    notified (cp_tables d'') (expiry_key "app.example.com" (1000 + 10 * day)%Z) (mkAlertRule "org" AlertCertExpiring "ch_1").
Proof.
  destruct (expiry_alerts_once fresh_plane served (14 * day)%Z fresh_alerts served_runs eq_refl) as (d'' & E & _ & H).
  exists d''. split; [exact E|].
  destruct (domains (estate (cp_tables served))) as [|x l] eqn:Ex; [discriminate Ex|].
  apply (H x "org" "app.example.com" (1000 + 10 * day)%Z); [left| |].
  - vm_compute in Ex. injection Ex as <- _. vm_compute. reflexivity.
  - split_and!; [left|reflexivity|reflexivity|vm_compute; reflexivity].
Defined.

(** The alert of an expiring certificate does not repeat.  Its text says that
    a repeated alert means renewal is failing; scanned every day until the
    certificate expires, one that is never renewed raises it once. *)
Theorem expiry_alert_does_not_repeat :
  let scans := fold_left (fun d n => act (DScan (14 * day)%Z) (later day d)) (seq 0 9) served in
  map al_dedup_key (alert_outbox (cp_tables scans)) = [expiry_key "app.example.com" (1000 + 10 * day)%Z] /\
  omap (expiring (cp_now scans) (14 * day)%Z) (domains (estate (cp_tables scans))) = [("org", "app.example.com", (1000 + 10 * day)%Z)].
Proof. vm_compute. split; reflexivity. Qed.

(** *** Two gaps of the DNS setup *)

(** A workload of a cluster may have a domain, and has no DNS setup.
    Attaching exempts a resource without a server; the setup of its domain then
    scans the missing proxy role into a [bool] and fails, for whatever the
    resolver says. *)
Theorem cluster_domains_have_no_setup :
  let d := play [DAttach "org" "res_2" "shop.example.com" "" "bob"] fresh_plane in
  stored d = [("res_2", "shop.example.com")] /\
  forall lookup, (DNSSetupForDomain lookup "org" (name_of d "shop.example.com") d).1 = Err scan_null_bool.
Proof. split; [vm_compute; reflexivity|]. intros lookup. vm_compute. reflexivity. Qed.

(** Counting labels takes a registered domain under a public suffix of two
    labels for a subdomain: the record it suggests for [example.co.uk] is named
    [example], under [co.uk], which is nobody's zone. *)
Theorem public_suffixes_are_apexes :
  isApexDomain "example.co.uk" = false /\ apexOf "example.co.uk" = "co.uk" /\
  forall x address, do_domain x = "example.co.uk" -> rc_Name (dns_target x address) = "example".
Proof. split; [reflexivity|]. split; [reflexivity|]. intros x address E. unfold dns_target. rewrite E. reflexivity. Qed.
