(* ===== verification/Alerts.v ===== *)
(** * Alert channels and their outbox ([cp/internal/store/alerts_store.go])

    The channels of an organisation and the events they receive, what
    destination a channel may have, and the outbox between the transactions that
    raise an alert ([enqueueAlertTx], in [Deploy]) and the dispatcher: rows are
    claimed under a lease, the lease is renewed before a send, the result is
    recorded.  [url.Parse] and the resolver are parameters. *)

From S2P Require Import Backups Prelude GoStrings Json Naming RenderCluster RenderDoc CpDb Deploy DsdStore Kms Vault Paddle NetAddr PublicHost Servers Lifecycle Clusters Domains.
From Stdlib Require Import Ascii.

Local Open Scope string_scope.
Local Open Scope io_scope.

(** ** The vocabulary *)

Definition AlertEvents : list string := [
  "server_unreachable"; "server_recovered"; "decommission_timed_out"; "dsd_apply_failed"; "deploy_failed"; "backup_failed";
  "verify_failed"; "cert_failed"; "cert_expiring"; "payment_failed"].

Definition validAlertEvent (e : string) : bool := existsb (fun v => String.eqb v e) AlertEvents.

Definition alertChannelKinds : list string := ["email"; "slack"; "telegram"; "webhook"].

(** ** Destinations *)

(** [url.Parse]: scheme, [Hostname()] and [Port()]; the resolver's answer to a
    name, [None] where it fails. *)
Class Destinations := {
  url_parse : string -> option (string * string * string);
  lookup_ip : string -> option (list ip);
}.

Section destinations.
Context {ds : Destinations}.

(** [strings.HasSuffix] *)
Definition has_suffix (s p : string) : bool :=
  (String.length p <=? String.length s)%nat && String.eqb (sdrop (String.length s - String.length p) s) p.

Definition is_internal_name (host : string) : bool :=
  let lower := ascii_text (map lower_rune (runes (trim_suffix host "."))) in
  String.eqb lower "localhost" || has_suffix lower ".localhost" || has_suffix lower ".local" || has_suffix lower ".internal".

(** The first refusal among the addresses of a name *)
Fixpoint check_all (host : string) (ips : list ip) : res unit :=
  match ips with
  | [] => Ok tt
  | x :: ips => match checkPublicIP host x with Ok _ => check_all host ips | Err e => Err e end
  end.

(** What the two validations do with a host, with the beginnings of their messages *)
Definition check_host (inside unknown host : string) : res unit :=
  match ParseIP host with
  | Some x => checkPublicIP host x
  | None =>
      if is_internal_name host
      then Err (inside +:+ host +:+ " is an internal address; alert channels must point at a public endpoint")
      else
        match lookup_ip host with
        | None | Some [] => Err (unknown +:+ host +:+ " does not resolve")
        | Some ips => check_all host ips
        end
  end.

Definition ValidateAlertDestination (raw : string) : res unit :=
  match url_parse (trim_space raw) with
  | None => Err "destination must be a valid http(s) URL"
  | Some (scheme, host, port) =>
      if negb (String.eqb scheme "http") && negb (String.eqb scheme "https") then Err "destination must be an http(s) URL"
      else if String.eqb host "" then Err "destination must name a host"
      else if negb (String.eqb port "") && negb (String.eqb port "80") && negb (String.eqb port "443")
      then Err "destination port must be 80 or 443"
      else check_host "destination " "destination host " host
  end.

Definition allowedSMTPPorts : list Z := [0; 25; 465; 587]%Z.

Definition ValidateEmailDestination (host : string) (port : Z) : res unit :=
  if negb (existsb (Z.eqb port) allowedSMTPPorts) then Err "email channel port must be 25, 465 or 587"
  else
    let host := trim_space host in
    if String.eqb host "" then Err "email channel needs a host"
    else check_host "email host " "email host " host.

(** ** Configurations *)

Definition slackWebhookPrefix := "https://hooks.slack.com/".

Record emailConfig := mkEmailConfig { ec_Host : string; ec_Port : Z; ec_From : string; ec_To : list string; ec_Username : string }.

(** [json.Unmarshal] into the struct of the validation, which has no user name *)
Definition dec_email : json -> option emailConfig := dec_struct (fun fs =>
  host ← dec_str (jget fs "host"); port ← dec_int (jget fs "port"); from ← dec_str (jget fs "from");
  to ← dec_list dec_elem_str (jget fs "to");
  Some (mkEmailConfig host port from to "")).

Definition dec_one (key : string) : json -> option string := dec_struct (fun fs => dec_str (jget fs key)).

Definition validateChannelConfig (kind : string) (cfg : json) (secret : string) : res unit :=
  if String.eqb kind "slack" then
    if negb (has_prefix secret slackWebhookPrefix)
    then Err ("slack channels require an incoming-webhook URL starting with " +:+ slackWebhookPrefix) else Ok tt
  else if String.eqb kind "email" then
    match dec_email cfg with
    | None => Err "config must be a JSON object"
    | Some c =>
        if String.eqb (ec_Host c) "" || String.eqb (ec_From c) "" || (length (ec_To c) =? 0)%nat
        then Err "email channels require config.host, config.from and config.to"
        else ValidateEmailDestination (ec_Host c) (ec_Port c)
    end
  else if String.eqb kind "telegram" then
    match dec_one "chatId" cfg with
    | None => Err "config must be a JSON object"
    | Some id => if String.eqb id "" then Err "telegram channels require config.chatId" else Ok tt
    end
  else if String.eqb kind "webhook" then
    match dec_one "url" cfg with
    | None => Err "config must be a JSON object"
    | Some u =>
        if negb (has_prefix u "http://") && negb (has_prefix u "https://")
        then Err "webhook channels require an http(s) config.url"
        else ValidateAlertDestination u
    end
  else Ok tt.
End destinations.

(** ** Channels *)

Record CreateAlertChannelInput := mkCreateChannel {
  cai_Kind : string;
  cai_Name : string;
  cai_Config : option json;     (* [None]: no bytes *)
  cai_Secret : string;
}.

Record AlertChannelSend := mkChannelSend {
  cs_ID : string;
  cs_OrgID : string;
  cs_Kind : string;
  cs_Config : json;
  cs_Secret : string;
}.

Definition channel_cipher (id org : string) (sealed : option (string * string * string)) : cipher_row :=
  match sealed with
  | Some (dekID, nonce, ct) => mkCipher "alert_channels" id org [] ct nonce (Some dekID) NoMeta
  | None => mkCipher "alert_channels" id org [] "" "" None NoMeta
  end.

Definition in_channel_org (orgID channelID : string) (c : alert_channel) : bool :=
  String.eqb (ac_org (ac_cols c)) orgID && String.eqb (ac_id c) channelID.

Definition insert_channel (c : Z -> alert_channel) (s : cipher_row) : io cp Z :=
  exec (fun now t =>
    if existsb (fun x => String.eqb (ac_id x) (ac_id (c now))) (alert_channels t)
       || existsb (row_is (cr_table s) (cr_pk s)) (ciphers (vaulted t))
    then Err ErrUnique
    else Ok (now, set_ciphers (fun l => l ++ [s])%list (set_channels (fun l => l ++ [c now])%list t))).

(** The primary key of [alert_rules] *)
Definition same_rule (a b : alert_rule) : bool :=
  String.eqb (ar_org a) (ar_org b) && String.eqb (ar_event a) (ar_event b) && String.eqb (ar_channel a) (ar_channel b).

Definition insert_rule (r : alert_rule) : io cp unit :=
  exec (fun _ t => if existsb (same_rule r) (alert_rules t) then Err ErrUnique
                   else Ok (tt, set_rules (fun l => l ++ [r])%list t)).

(** [ON CONFLICT DO NOTHING] *)
Definition insert_rule_once (r : alert_rule) : io cp unit :=
  update (fun _ t => if existsb (same_rule r) (alert_rules t) then t else set_rules (fun l => l ++ [r])%list t).

Section store.
Context {pg : Postgres} {ae : Aead} {kc : KeyCustody} {ds : Destinations}.

Definition CreateAlertChannel (orgID actor : string) (inp : CreateAlertChannelInput) : io cp (alert_channel * list string) :=
  if negb (existsb (String.eqb (cai_Kind inp)) alertChannelKinds) then fail "kind must be one of email, slack, telegram, webhook"
  else if String.eqb (cai_Name inp) "" then fail "name is required"
  else if (String.eqb (cai_Kind inp) "slack" || String.eqb (cai_Kind inp) "telegram") && String.eqb (cai_Secret inp) ""
  then fail (cai_Kind inp +:+ " channels require a secret (webhook URL / bot token)")
  else
    let cfg := default (JObj []) (cai_Config inp) in
    _ <- lift (validateChannelConfig (cai_Kind inp) cfg (cai_Secret inp)) ;;
    transaction
      (id <- newID "alch" ;;
       sealed <- (if String.eqb (cai_Secret inp) "" then ret None
                  else
                    dk <- activeDEKTx orgID ;;
                    s <- gcmSeal dk.2 (alertChannelAAD orgID id) (cai_Secret inp) ;;
                    ret (Some (dk.1, s.1, s.2))) ;;
       let channel now := mkAlertChannel id true
         (mkChannelColumns orgID (cai_Kind inp) (cai_Name inp) cfg None "" actor now) in
       now <- wrapping "insert alert channel: " (insert_channel channel (channel_cipher id orgID sealed)) ;;
       _ <- for_each AlertEvents (fun ev => wrapping "insert alert rule: " (insert_rule (mkAlertRule orgID ev id))) ;;
       _ <- auditTx orgID actor "Alert channel created" (cai_Name inp +:+ " (" +:+ cai_Kind inp +:+ ")") ;;
       ret (channel now, AlertEvents)).

Definition ListAlertChannels (orgID : string) : io cp (list (alert_channel * list string)) :=
  chans <- query (fun _ t => order_by (fun c => ac_created_at (ac_cols c))
    (List.filter (fun c => String.eqb (ac_org (ac_cols c)) orgID) (alert_channels t))) ;;
  rules <- query (fun _ t => order_by (fun _ => 0%Z) (List.filter (fun r => String.eqb (ar_org r) orgID) (alert_rules t))) ;;
  ret (map (fun c => (c, map ar_event (List.filter (fun r => String.eqb (ar_channel r) (ac_id c)) rules))) chans).

(** The rules and the ciphertext go with the channel; what becomes of its rows
    of the outbox is said at [alert_row]. *)
Definition drop_channel (orgID channelID : string) (t : tables) : tables :=
  set_ciphers (List.filter (fun c => negb (row_is "alert_channels" channelID c)))
    (set_rules (List.filter (fun r => negb (String.eqb (ar_channel r) channelID)))
      (set_channels (List.filter (fun c => negb (in_channel_org orgID channelID c))) t)).

Definition DeleteAlertChannel (orgID channelID actor : string) : io cp unit :=
  transaction
    (name <- exec (fun _ t =>
       match List.find (in_channel_org orgID channelID) (alert_channels t) with
       | None => Ok (None, t)
       | Some c => Ok (Some (ac_name (ac_cols c)), drop_channel orgID channelID t)
       end) ;;
     match name with
     | None => fail ErrNotFound
     | Some n => auditTx orgID actor "Alert channel deleted" n
     end).

Definition SetAlertRules (orgID channelID : string) (events : list string) (actor : string) : io cp unit :=
  match List.find (fun ev => negb (validAlertEvent ev)) events with
  | Some ev => fail ("unknown alert event " +:+ quote ev)
  | None =>
      transaction
        (name <- query (fun _ t => List.find (in_channel_org orgID channelID) (alert_channels t)) ;;
         match name with
         | None => fail ErrNotFound
         | Some c =>
             _ <- update (fun _ => set_rules (List.filter (fun r =>
               negb (String.eqb (ar_org r) orgID && String.eqb (ar_channel r) channelID)))) ;;
             _ <- for_each events (fun ev => insert_rule_once (mkAlertRule orgID ev channelID)) ;;
             auditTx orgID actor "Alert rules updated" (ac_name (ac_cols c))
         end)
  end.

Definition AlertChannelForSend (orgID channelID : string) : io cp AlertChannelSend :=
  row <- query (fun _ t =>
    c ← List.find (in_channel_org orgID channelID) (alert_channels t);
    s ← find_cipher (row_is "alert_channels" channelID) t; Some (c, s)) ;;
  match row with
  | None => fail ErrNotFound
  | Some (c, s) =>
      let channel := mkChannelSend (ac_id c) (ac_org (ac_cols c)) (ac_kind (ac_cols c)) (ac_config (ac_cols c)) in
      match cr_dek s with
      | Some dekID =>
          if (0 <? String.length (cr_ct s))%nat then
            dek <- dekPlaintext dekID ;;
            plain <- wrapping "open channel secret: " (lift (gcmOpen dek (alertChannelAAD orgID channelID) (cr_nonce s) (cr_ct s))) ;;
            ret (channel plain)
          else ret (channel "")
      | None => ret (channel "")
      end
  end.

(** ** The outbox *)

Record AlertDelivery := mkDelivery {
  ad_ID : nat;
  ad_OrgID : string;
  ad_ChannelID : string;
  ad_Event : string;
  ad_Title : string;
  ad_Body : string;
  ad_Attempts : Z;
}.

Definition lease : Z := 300 * second.

Definition with_delivery (f : delivery_columns -> delivery_columns) (r : alert_row) : alert_row :=
  mkAlert (al_org r) (al_channel r) (al_event r) (al_dedup_key r) (al_title r) (al_body r) (al_created_at r) (f (al_delivery r)).

(** A row there is: its channel was not deleted. *)
Definition present (t : tables) (r : alert_row) : bool :=
  existsb (fun c => String.eqb (ac_id c) (al_channel r)) (alert_channels t).

Definition open_status (s : string) : bool := String.eqb s "pending" || String.eqb s "sending".

Definition delivery_due (now : Z) (t : tables) (r : alert_row) : bool :=
  present t r && open_status (dv_status (al_delivery r)) && (dv_next_attempt_at (al_delivery r) <=? now)%Z.

Definition due_rows (now : Z) (t : tables) : list (nat * alert_row) :=
  List.filter (fun p => delivery_due now t p.2) (imap pair (alert_outbox t)).

Definition claimed_columns (now : Z) (d : delivery_columns) : delivery_columns :=
  mkDeliveryColumns "sending" (dv_attempts d) (now + lease) (dv_last_error d) (dv_sent_at d).

Definition at_rows (ids : list nat) (f : delivery_columns -> delivery_columns) : tables -> tables :=
  set_outbox (imap (fun i r => if bool_decide (i ∈ ids) then with_delivery f r else r)).

Definition delivery_of (p : nat * alert_row) : AlertDelivery :=
  mkDelivery p.1 (al_org p.2) (al_channel p.2) (al_event p.2) (al_title p.2) (al_body p.2) (dv_attempts (al_delivery p.2)).

Definition DueAlertDeliveries (limit : nat) : io cp (list AlertDelivery) :=
  exec (fun now t =>
    let picked := take limit (order_by (fun p => dv_next_attempt_at (al_delivery p.2)) (due_rows now t)) in
    Ok (order_by (fun _ => 0%Z) (map delivery_of picked), at_rows (map fst picked) (claimed_columns now) t)).

(** The row, where it still is one and is being sent *)
Definition sending_row (t : tables) (id : nat) : option alert_row :=
  r ← alert_outbox t !! id;
  if present t r && String.eqb (dv_status (al_delivery r)) "sending" then Some r else None.

Definition renewed_columns (now : Z) (d : delivery_columns) : delivery_columns :=
  mkDeliveryColumns (dv_status d) (dv_attempts d) (now + lease) (dv_last_error d) (dv_sent_at d).

Definition RenewAlertDeliveryLease (id : nat) : io cp bool :=
  exec (fun now t =>
    match sending_row t id with
    | Some _ => Ok (true, at_rows [id] (renewed_columns now) t)
    | None => Ok (false, t)
    end).

(** PostgreSQL's [left(s, n)], on characters *)
Fixpoint sql_left (n : nat) (s : string) : string :=
  match s with
  | EmptyString => ""
  | String b s =>
      if in_range (ascii_of_nat 128) (ascii_of_nat 191) b then String b (sql_left n s)
      else match n with O => "" | S n => String b (sql_left n s) end
  end.

Definition sent_columns (now : Z) (d : delivery_columns) : delivery_columns :=
  mkDeliveryColumns "sent" (dv_attempts d) (dv_next_attempt_at d) "" (Some now).

Definition backoff (attempts : Z) : Z := Z.min 3600 (30 * 2 ^ attempts) * second.

Definition failed_columns (now : Z) (errText : string) (maxAttempts : Z) (d : delivery_columns) : delivery_columns :=
  mkDeliveryColumns (if (maxAttempts <=? dv_attempts d + 1)%Z then "failed" else "pending") (dv_attempts d + 1)
    (now + backoff (dv_attempts d)) (sql_left 2000 errText) (dv_sent_at d).

Definition channel_result (channelID : string) (f : channel_columns -> channel_columns) : tables -> tables :=
  set_channels (map (fun c => if String.eqb (ac_id c) channelID then mkAlertChannel (ac_id c) (ac_enabled c) (f (ac_cols c)) else c)).

Definition result_columns (okAt : option Z) (errText : string) (c : channel_columns) : channel_columns :=
  mkChannelColumns (ac_org c) (ac_kind c) (ac_name c) (ac_config c)
    (match okAt with Some n => Some n | None => ac_last_ok_at c end) errText (ac_created_by c) (ac_created_at c).

Definition SetAlertDeliveryResult (id : nat) (ok : bool) (errText : string) (maxAttempts : Z) : io cp unit :=
  transaction
    (channel <- exec (fun now t =>
       match sending_row t id with
       | None => Ok (None, t)
       | Some r => Ok (Some (al_channel r),
           at_rows [id] (if ok then sent_columns now else failed_columns now errText maxAttempts) t)
       end) ;;
     match channel with
     | None => fail ErrNotFound
     | Some c =>
         update (fun now => channel_result c
           (if ok then result_columns (Some now) "" else result_columns None (sql_left 2000 errText)))
     end).
End store.
