(* ===== verification/Dispatcher.v ===== *)
(** * Sending alerts ([cp/internal/alerts])

    The sender speaks the transport of each kind of channel and checks where it
    is going; the dispatcher claims due rows of the outbox and delivers them.
    What goes out is recorded, and answered by the network. *)

From S2P Require Import Backups Prelude GoStrings Json Naming DockerApi RenderCluster RenderDoc CpDb Deploy DsdStore Kms Vault Paddle NetAddr PublicHost Servers Lifecycle Clusters Domains Alerts.
From Stdlib Require Import Ascii.

Local Open Scope string_scope.
Local Open Scope io_scope.

(** ** What leaves the control plane *)

Inductive outgoing : Type :=
| Posted (url : string) (headers : list (string * string)) (body : string)
| Mailed (addr : string) (auth : option (string * string * string)) (from : string) (to : list string) (msg : string).

(** The answer to a request: its status code, its status line and its body; an
    SMTP conversation that succeeds answers with nothing. *)
Record http_answer := mkAnswer { an_StatusCode : Z; an_Status : string; an_Body : string }.

Class Internet := { reply : list outgoing -> outgoing -> res http_answer }.

Record desk := mkDesk { dk_cp : cp; dk_out : list outgoing }.

(** A statement of the database *)
Definition db {A} (m : io cp A) : io desk A := fun w => let '(r, c) := m (dk_cp w) in (r, mkDesk c (dk_out w)).

Definition transmit `{!Internet} (o : outgoing) : io desk http_answer := fun w =>
  (reply (dk_out w) o, mkDesk (dk_cp w) (dk_out w ++ [o])%list).

(** ** Errors and texts *)

(** [strings.ReplaceAll(s, old, new)], [old] not empty; [skip] bytes are still
    part of the last match. *)
Fixpoint replace_all (old new : string) (skip : nat) (s : string) : string :=
  match s with
  | EmptyString => ""
  | String b s' =>
      match skip with
      | S k => replace_all old new k s'
      | O => if has_prefix s old then new +:+ replace_all old new (String.length old - 1) s'
             else String b (replace_all old new 0 s')
      end
  end.

Definition scrub (s secret : string) : string :=
  if String.eqb secret "" then s else replace_all secret "[redacted]" 0 s.

Definition cr := ascii_of_nat 13.
Definition lf := ascii_of_nat 10.

Definition sanitizeHeader : string -> string := smap (fun b => if Ascii.eqb b cr || Ascii.eqb b lf then " "%char else b).

(** [time.Time.MarshalJSON]: the fraction without its trailing zeros *)
Definition json_time (us : Z) : string :=
  let whole := rfc3339 (us / second) in
  let frac := trim_right (is_byte "0"%char) (dec_pad 6 (us mod second)) in
  trim_suffix whole "Z" +:+ (if String.eqb frac "" then "" else "." +:+ frac) +:+ "Z".

(** [time.RFC1123Z] in UTC *)
Definition week_day (days : Z) : string := nth (Z.to_nat (days mod 7)) ["Thu"; "Fri"; "Sat"; "Sun"; "Mon"; "Tue"; "Wed"] "".
Definition month_name (m : Z) : string :=
  nth (Z.to_nat (m - 1)) ["Jan"; "Feb"; "Mar"; "Apr"; "May"; "Jun"; "Jul"; "Aug"; "Sep"; "Oct"; "Nov"; "Dec"] "".
Definition rfc1123z (us : Z) : string :=
  let days := (us / second / 86400)%Z in
  let '(y, m, d) := civil days in
  let s := (us / second mod 86400)%Z in
  week_day days +:+ ", " +:+ dec_pad 2 d +:+ " " +:+ month_name m +:+ " " +:+ dec_pad 4 y +:+ " " +:+
  dec_pad 2 (s / 3600) +:+ ":" +:+ dec_pad 2 (s / 60 mod 60) +:+ ":" +:+ dec_pad 2 (s mod 60) +:+ " +0000".

Example date_header : rfc1123z 1772368245250000 = "Sun, 01 Mar 2026 12:30:45 +0000".
Proof. reflexivity. Qed.
Example payload_time : json_time 1772368245250000 = "2026-03-01T12:30:45.25Z".
Proof. reflexivity. Qed.

Definition crlf := String cr (String lf "").
Definition nl := String lf "".

Definition buildEmailMessage (now : Z) (from : string) (to : list string) (title body : string) : string :=
  "From: " +:+ from +:+ crlf +:+ "To: " +:+ join_with ", " to +:+ crlf +:+
  "Subject: [SigmaHub] " +:+ sanitizeHeader title +:+ crlf +:+ "Date: " +:+ rfc1123z now +:+ crlf +:+
  "MIME-Version: 1.0" +:+ crlf +:+ "Content-Type: text/plain; charset=UTF-8" +:+ crlf +:+ crlf +:+ title +:+ nl +:+ nl +:+ body +:+ nl.

(** ** The sender *)

Definition TelegramAPIBase := "https://api.telegram.org".

(** Which address a dial is pinned to: the first of the name's that may be
    reached.  An error that there was no error to wrap has no text. *)
Definition pinned_address `{!Destinations} (host : string) : res ip :=
  match ParseIP host with
  | Some x => match checkPublicIP host x with Ok _ => Ok x | Err e => Err e end
  | None =>
      match lookup_ip host with
      | None | Some [] => Err ("resolve " +:+ host)
      | Some ips =>
          match List.find (fun x => is_ok (checkPublicIP host x)) ips with
          | Some x => Ok x
          | None => match check_all host ips with Err e => Err e | Ok _ => Err ("no public address for " +:+ host) end
          end
      end
  end.

(** [CheckRedirect]: [hops] requests were made so far. *)
Definition CheckRedirect `{!Destinations} (hops : nat) (url : string) : res unit :=
  if (5 <=? hops)%nat then Err ("stopped after " +:+ dec (Z.of_nat hops) +:+ " redirects") else ValidateAlertDestination url.

Section sender.
Context {ds : Destinations} {net : Internet} {jt : JsonText}.

Definition accepted (a : http_answer) : bool := (200 <=? an_StatusCode a)%Z && (an_StatusCode a <=? 299)%Z.

Definition content_type : string * string := ("Content-Type", "application/json").

Definition post (url : string) (payload : json) (echoBody : bool) : io desk unit :=
  a <- transmit (Posted url [content_type] (json_marshal payload)) ;;
  if accepted a then ret tt
  else if negb echoBody then fail ("status " +:+ an_Status a)
  else fail ("status " +:+ an_Status a +:+ ": " +:+ trim_space (stake 512 (an_Body a))).

(** An error whose text is rewritten *)
Definition retold {A} (f : string -> string) (m : io desk A) : io desk A := fun w =>
  match m w with (Err e, w') => (Err (f e), w') | x => x end.

Definition sendSlack (ch : AlertChannelSend) (title body : string) : io desk unit :=
  if String.eqb (cs_Secret ch) "" then fail "slack channel has no webhook URL configured"
  else retold (fun e => "slack webhook: " +:+ scrub e (cs_Secret ch))
    (_ <- lift (ValidateAlertDestination (cs_Secret ch)) ;;
     post (cs_Secret ch) (JObj [("text", JStr ("*" +:+ title +:+ "*" +:+ nl +:+ body))]) false).

(** The error of [json.Unmarshal] is dropped here: a field of the wrong type is
    its zero value, and the others are read. *)
Definition config_field (key : string) (cfg : json) : string := default "" (dec_one key cfg).

Definition email_of (cfg : json) : emailConfig :=
  mkEmailConfig (config_field "host" cfg) (default 0%Z (dec_int (jfield cfg "port"))) (config_field "from" cfg)
    (default [] (dec_list dec_elem_str (jfield cfg "to"))) (config_field "username" cfg).

Definition sendTelegram (ch : AlertChannelSend) (title body : string) : io desk unit :=
  let chat := config_field "chatId" (cs_Config ch) in
  if String.eqb (cs_Secret ch) "" || String.eqb chat "" then fail "telegram channel needs a bot token (secret) and a chatId"
  else retold (fun e => "telegram: " +:+ scrub e (cs_Secret ch))
    (post (TelegramAPIBase +:+ "/bot" +:+ PathEscape (cs_Secret ch) +:+ "/sendMessage")
       (JObj [("chat_id", JStr chat); ("text", JStr (title +:+ nl +:+ body))]) true).

Definition sendWebhook (ch : AlertChannelSend) (event title body : string) : io desk unit :=
  let url := config_field "url" (cs_Config ch) in
  if String.eqb url "" then fail "webhook channel has no url configured"
  else retold (fun e => "webhook: " +:+ e)
    (_ <- lift (ValidateAlertDestination url) ;;
     now <- db clock ;;
     let buf := json_marshal (JObj [("event", JStr event); ("title", JStr title); ("body", JStr body); ("at", JStr (json_time now))]) in
     let signature := if String.eqb (cs_Secret ch) "" then []
       else [("X-Sigmahub-Signature-256", "sha256=" +:+ hex_encode (hmac_sha256 (cs_Secret ch) buf))] in
     a <- transmit (Posted url (content_type :: signature) buf) ;;
     if accepted a then ret tt else fail ("status " +:+ an_Status a)).

Definition sendEmail (ch : AlertChannelSend) (title body : string) : io desk unit :=
  let cfg := email_of (cs_Config ch) in
  if String.eqb (ec_Host cfg) "" || String.eqb (ec_From cfg) "" || (length (ec_To cfg) =? 0)%nat
  then fail "email channel needs host, from and at least one recipient"
  else
    _ <- retold (fun e => "smtp: " +:+ e) (lift (ValidateEmailDestination (ec_Host cfg) (ec_Port cfg))) ;;
    now <- db clock ;;
    let port := if (ec_Port cfg =? 0)%Z then 587%Z else ec_Port cfg in
    let auth := if String.eqb (ec_Username cfg) "" then None else Some (ec_Username cfg, cs_Secret ch, ec_Host cfg) in
    _ <- retold (fun e => "smtp: " +:+ scrub e (cs_Secret ch))
      (transmit (Mailed (ec_Host cfg +:+ ":" +:+ dec port) auth (ec_From cfg) (ec_To cfg)
         (buildEmailMessage now (ec_From cfg) (ec_To cfg) title body))) ;;
    ret tt.

Definition Send (ch : AlertChannelSend) (event title body : string) : io desk unit :=
  if String.eqb (cs_Kind ch) "slack" then sendSlack ch title body
  else if String.eqb (cs_Kind ch) "telegram" then sendTelegram ch title body
  else if String.eqb (cs_Kind ch) "webhook" then sendWebhook ch event title body
  else if String.eqb (cs_Kind ch) "email" then sendEmail ch title body
  else fail ("unknown channel kind " +:+ quote (cs_Kind ch)).

(** ** Delivering *)

Context {pg : Postgres} {ae : Aead} {kc : KeyCustody}.
Variable MaxAttempts : Z.

(** A delivery whose context is live.  What is logged only is left out. *)
Definition deliver (d : AlertDelivery) : io desk unit :=
  ch <- attempt (db (AlertChannelForSend (ad_OrgID d) (ad_ChannelID d))) ;;
  outcome <- match ch with
    | Err e => ret (Some (Err e))
    | Ok ch =>
        held <- attempt (db (RenewAlertDeliveryLease (ad_ID d))) ;;
        match held with
        | Ok false => ret None
        | _ => r <- attempt (Send ch (ad_Event d) (ad_Title d) (ad_Body d)) ;; ret (Some r)
        end
    end ;;
  match outcome with
  | None => ret tt
  | Some r =>
      db (SetAlertDeliveryResult (ad_ID d) (is_ok r) (match r with Ok _ => "" | Err e => e end) MaxAttempts)
  end.

End sender.
