(* ===== verification/Outbox.v ===== *)
(** * The outbox under several dispatchers

    Replicas of the control plane drain one outbox at the same time.  A replica
    claims a batch, its workers take rows off the batch and deliver them in the
    four steps of [deliver], and anything may happen between two steps: another
    replica, a crash, a producer, the passing of time. *)

From S2P Require Import Backups Prelude GoStrings Json Naming DockerApi RenderCluster RenderDoc CpDb Deploy DsdStore Kms Vault VaultSpec BackupRuns Paddle NetAddr PublicHost Servers Lifecycle Clusters Domains Alerts Dispatcher.

Local Open Scope string_scope.
Local Open Scope io_scope.

(** ** Replicas *)

Inductive delivery_stage : Type :=
| Opening
| Renewing (ch : AlertChannelSend)
| Sending (ch : AlertChannelSend)
| Recording (r : res unit).

Record task := mkTask { tk_delivery : AlertDelivery; tk_stage : delivery_stage }.

(** A drain: what its loop has not handed to a worker, and what the workers do *)
Record replica := mkReplica { rp_queue : list AlertDelivery; rp_busy : list task }.

(** [sy_sends] remembers each attempt to send a row and how it ended. *)
Record sys := mkSys { sy_desk : desk; sy_replicas : list replica; sy_sends : list (nat * res unit) }.

Definition tk_id (t : task) : nat := ad_ID (tk_delivery t).

Inductive command : Type :=
| Claim (i : nat)
| Take (i : nat)
| Advance (i k : nat)
| Drop (i k : nat)      (* a delivery whose context has ended *)
| Cancel (i : nat)      (* the loop sees that its context has ended *)
| Crash (i : nat).

Section system.
Context {ds : Destinations} {net : Internet} {jt : JsonText} {pg : Postgres} {ae : Aead} {kc : KeyCustody}.
Variables (BatchSize Concurrency : nat) (MaxAttempts : Z).

(** One step of a delivery: the task left, if any, and what was sent *)
Definition deliver_step (t : task) (w : desk) : option task * desk * list (nat * res unit) :=
  let d := tk_delivery t in
  match tk_stage t with
  | Opening =>
      let '(r, w) := db (AlertChannelForSend (ad_OrgID d) (ad_ChannelID d)) w in
      (Some (mkTask d (match r with Ok ch => Renewing ch | Err e => Recording (Err e) end)), w, [])
  | Renewing ch =>
      let '(held, w) := db (RenewAlertDeliveryLease (ad_ID d)) w in
      (match held with Ok false => None | _ => Some (mkTask d (Sending ch)) end, w, [])
  | Sending ch =>
      let '(r, w) := Send ch (ad_Event d) (ad_Title d) (ad_Body d) w in
      (Some (mkTask d (Recording r)), w, [(ad_ID d, r)])
  | Recording r =>
      let '(_, w) := db (SetAlertDeliveryResult (ad_ID d) (is_ok r) (match r with Ok _ => "" | Err e => e end) MaxAttempts) w in
      (None, w, [])
  end.

Definition at_replica (i : nat) (s : sys) (f : replica -> sys) : sys :=
  match sy_replicas s !! i with Some rp => f rp | None => s end.

Definition settle (i : nat) (rp : replica) (s : sys) : sys :=
  mkSys (sy_desk s) (<[i := rp]> (sy_replicas s)) (sy_sends s).

(** A step the control plane takes by itself; a command that does not apply
    does nothing. *)
Definition obey (c : command) (s : sys) : sys :=
  match c with
  | Claim i => at_replica i s (fun rp =>
      match rp_queue rp, rp_busy rp with
      | [], [] =>
          let '(r, w) := db (DueAlertDeliveries BatchSize) (sy_desk s) in
          settle i (mkReplica (match r with Ok due => due | Err _ => [] end) []) (mkSys w (sy_replicas s) (sy_sends s))
      | _, _ => s
      end)
  | Take i => at_replica i s (fun rp =>
      match rp_queue rp with
      | d :: q => if (length (rp_busy rp) <? Concurrency)%nat
                  then settle i (mkReplica q (rp_busy rp ++ [mkTask d Opening])) s else s
      | [] => s
      end)
  | Advance i k => at_replica i s (fun rp =>
      match rp_busy rp !! k with
      | None => s
      | Some t =>
          let '(o, w, log) := deliver_step t (sy_desk s) in
          settle i (mkReplica (rp_queue rp) (match o with Some t' => <[k := t']> (rp_busy rp) | None => delete k (rp_busy rp) end))
            (mkSys w (sy_replicas s) (sy_sends s ++ log))
      end)
  | Drop i k => at_replica i s (fun rp => settle i (mkReplica (rp_queue rp) (delete k (rp_busy rp))) s)
  | Cancel i => at_replica i s (fun rp => settle i (mkReplica [] (rp_busy rp)) s)
  | Crash i => at_replica i s (fun rp => settle i (mkReplica [] []) s)
  end%list.

Definition outbox (s : sys) : list alert_row := alert_outbox (cp_tables (dk_cp (sy_desk s))).
Definition now_of (s : sys) : Z := cp_now (dk_cp (sy_desk s)).

(** What else happens to the database: time passes, alerts are raised, and
    anything is done to the other tables; which statements will fail is open. *)
Inductive world_step (s s' : sys) : Prop :=
| world_moves c' new :
    s' = mkSys (mkDesk c' (dk_out (sy_desk s))) (sy_replicas s) (sy_sends s) ->
    (now_of s <= cp_now c')%Z ->
    alert_outbox (cp_tables c') = (outbox s ++ new)%list ->
    (forall r, r ∈ new -> exists n, (n <= cp_now c')%Z /\ al_delivery r = queued_delivery n) ->
    world_step s s'.

Definition sys_step (s s' : sys) : Prop := (exists c, s' = obey c s) \/ world_step s s'.

(** ** A delivery and its steps *)

Fixpoint finish_task (n : nat) (o : option task) (w : desk) : option task * desk :=
  match n, o with
  | S n, Some t => let '(o, w, _) := deliver_step t w in finish_task n o w
  | _, _ => (o, w)
  end.

(** The four steps of a task are [deliver]: run one after the other from a
    claimed row they end, and leave what the function leaves. *)
Theorem deliver_refines d w : finish_task 4 (Some (mkTask d Opening)) w = (None, (deliver MaxAttempts d w).2).
Proof.
  unfold deliver, attempt. cbn [finish_task deliver_step tk_stage tk_delivery]. unfold bind.
  destruct (db (AlertChannelForSend _ _) w) as [[ch|e] w1]; cbn [finish_task deliver_step tk_stage tk_delivery].
  - destruct (db (RenewAlertDeliveryLease _) w1) as [[[|]|e] w2]; cbn [finish_task deliver_step tk_stage tk_delivery ret snd]; [| done |];
      (destruct (Send _ _ _ _ w2) as [r w3]; cbn [finish_task deliver_step tk_stage tk_delivery ret snd];
       by destruct (db (SetAlertDeliveryResult _ _ _ _) w3) as [[u|e'] w4]).
  - cbn [ret snd]. by destruct (db (SetAlertDeliveryResult _ _ _ _) w1) as [[u|e'] w4].
Qed.

(** ** What the statements do to the outbox *)

Definition touched (ids : list nat) (f : delivery_columns -> delivery_columns) (o : list alert_row) : list alert_row :=
  imap (fun i r => if bool_decide (i ∈ ids) then with_delivery f r else r) o.

Lemma touched_lookup ids f o i : touched ids f o !! i = (fun r => if bool_decide (i ∈ ids) then with_delivery f r else r) <$> o !! i.
Proof. apply list_lookup_imap. Qed.

Local Abbreviation box c := (alert_outbox (cp_tables c)).

Lemma exec_cases {A} (f : Z -> tables -> res (A * tables)) d r d' : exec f d = (r, d') -> cp_now d' = cp_now d /\
  ((exists e, r = Err e /\ cp_tables d' = cp_tables d) \/ (exists a, r = Ok a /\ f (cp_now d) (cp_tables d) = Ok (a, cp_tables d'))).
Proof.
  unfold exec. destruct (cp_faults d) as [|[] fs]; [|intros [= <- <-]; split; [done|left; eauto]|];
    destruct (f (cp_now d) (cp_tables d)) as [[a t]|e] eqn:E; intros [= <- <-]; (split; [done|]); cbn; eauto.
Qed.

Lemma open_frame org id d r d' : AlertChannelForSend org id d = (r, d') -> cp_now d' = cp_now d /\ cp_tables d' = cp_tables d.
Proof.
  set (P := (fun n t => n = cp_now d /\ t = cp_tables d) : assertion).
  assert (H : steady P (AlertChannelForSend org id)) by (unfold AlertChannelForSend; steady ltac:(idtac)).
  intros E. pose proof (does_run _ _ _ _ d r d' H (conj eq_refl eq_refl) E) as H'. by destruct r, H'.
Qed.

Lemma renew_cases id d r d' : RenewAlertDeliveryLease id d = (r, d') -> cp_now d' = cp_now d /\
  ((r <> Ok true /\ box d' = box d) \/
   (r = Ok true /\ is_Some (sending_row (cp_tables d) id) /\ box d' = touched [id] (renewed_columns (cp_now d)) (box d))).
Proof.
  intros [Hn [(e & -> & ->)|(a & -> & E)]]%exec_cases; (split; [done|]); [by left|].
  destruct (sending_row (cp_tables d) id) as [x|] eqn:Er; injection E as <- <-; [right; by eauto|by left].
Qed.

Lemma claim_cases limit d r d' : DueAlertDeliveries limit d = (r, d') -> cp_now d' = cp_now d /\
  ((is_ok r = false /\ box d' = box d) \/
   (exists picked due, r = Ok due /\ map ad_ID due ≡ₚ map fst picked /\
      picked = take limit (order_by (fun p => dv_next_attempt_at (al_delivery p.2)) (due_rows (cp_now d) (cp_tables d))) /\
      box d' = touched (map fst picked) (claimed_columns (cp_now d)) (box d))).
Proof.
  intros [Hn [(e & -> & ->)|(a & -> & E)]]%exec_cases; (split; [done|]); [by left|right].
  injection E as <- <-. eexists _, _. split_and!; [done| |done|done].
  rewrite order_by_perm. by rewrite map_map.
Qed.

Lemma channel_result_box c f t : alert_outbox (channel_result c f t) = alert_outbox t.
Proof. done. Qed.

Lemma result_cases id ok err d r d' : SetAlertDeliveryResult id ok err MaxAttempts d = (r, d') -> cp_now d' = cp_now d /\
  ((is_ok r = false /\ box d' = box d) \/
   (is_Some (sending_row (cp_tables d) id) /\
    box d' = touched [id] (if ok then sent_columns (cp_now d) else failed_columns (cp_now d) err MaxAttempts) (box d))).
Proof.
  set (g := if ok then sent_columns (cp_now d) else failed_columns (cp_now d) err MaxAttempts).
  set (Q := (fun _ n t => n = cp_now d /\ is_Some (sending_row (cp_tables d) id) /\ alert_outbox t = touched [id] g (box d)) : unit -> assertion).
  assert (H : does (from (cp_tables d) (cp_now d)) (SetAlertDeliveryResult id ok err MaxAttempts) Q (from (cp_tables d) (cp_now d))).
  { apply does_transaction; [|by intros a n t []].
    eapply (does_bind _ _ _ (fun c n t => n = cp_now d /\ (c <> None -> is_Some (sending_row (cp_tables d) id) /\ alert_outbox t = touched [id] g (box d)))).
    { apply does_exec; [by intros n t []|]. intros n t [-> ->]. destruct (sending_row (cp_tables d) id) as [x|]; [|done].
      split; [done|]. intros _. split; [by eauto|]. done. }
    intros [c|]; [|by apply does_fail; intros n t []]. apply does_update; [by intros n t []|].
    intros n t [-> H]. destruct (H ltac:(done)) as [? E]. split_and!; [done|done|]. by rewrite channel_result_box. }
  intros E. pose proof (does_run _ _ _ _ d r d' H (conj eq_refl eq_refl) E) as H'.
  destruct r as [u|e]; [destruct H' as (-> & ? & ?); split; [done|by right]|destruct H' as [-> ->]; split; [done|by left]].
Qed.

(** The sender leaves the database alone. *)
Definition offline {A} (m : io desk A) : Prop := forall w, dk_cp (m w).2 = dk_cp w.

Lemma offline_bind {A B} (m : io desk A) (k : A -> io desk B) : offline m -> (forall a, offline (k a)) -> offline (bind m k).
Proof.
  intros Hm Hk w. unfold bind. specialize (Hm w). destruct (m w) as [[a|e] w']; cbn in *; [|done]. by rewrite Hk.
Qed.

Lemma offline_retold {A} f (m : io desk A) : offline m -> offline (retold f m).
Proof. intros Hm w. specialize (Hm w). unfold retold. by destruct (m w) as [[a|e] w']. Qed.

Lemma offline_lift {A} (r : res A) : offline (lift r).
Proof. intros w. unfold lift. by destruct r. Qed.

Lemma offline_post url payload echo : offline (post url payload echo).
Proof. unfold post. apply offline_bind; [done|]. intros a. by repeat case_match. Qed.

Lemma Send_offline ch event title body : offline (Send ch event title body).
Proof.
  assert (Hc : offline (db clock)) by (by intros []).
  unfold Send. repeat case_match; try done.
  - unfold sendSlack. case_match; [done|]. apply offline_retold, offline_bind; [apply offline_lift|]. intros _. apply offline_post.
  - unfold sendTelegram. cbv zeta. case_match; [done|]. apply offline_retold, offline_post.
  - unfold sendWebhook. cbv zeta. case_match; [done|]. apply offline_retold, offline_bind; [apply offline_lift|]. intros _.
    apply offline_bind; [done|]. intros now. apply offline_bind; [done|]. intros a. by case_match.
  - unfold sendEmail. cbv zeta. case_match; [done|]. apply offline_bind; [apply offline_retold, offline_lift|]. intros _.
    apply offline_bind; [done|]. intros now. apply offline_bind; [by apply offline_retold|]. done.
Qed.

(** ** No alert is lost *)

Definition al_ident (r : alert_row) :=
  (al_org r, al_channel r, al_event r, al_dedup_key r, al_title r, al_body r, al_created_at r).

Definition hour : Z := 3600 * second.

(** What became of the [i]-th row: it was sent, or it failed as often as an
    alert may, or it is open and will be due again within the hour. *)
Definition settled (now : Z) (sends : list (nat * res unit)) (i : nat) (dv : delivery_columns) : Prop :=
  (0 <= dv_attempts dv)%Z /\
  ((dv_status dv = "sent" /\ (i, Ok tt) ∈ sends) \/
   (dv_status dv = "failed" /\ dv_attempts dv = MaxAttempts) \/
   (open_status (dv_status dv) = true /\ (dv_attempts dv < MaxAttempts)%Z /\ (dv_next_attempt_at dv <= now + hour)%Z)).

(** A worker about to record a success has had one. *)
Definition backed (sends : list (nat * res unit)) (t : task) : Prop :=
  match tk_stage t with Recording (Ok _) => (tk_id t, Ok tt) ∈ sends | _ => True end.

Record sane (s : sys) : Prop := {
  sn_rows i r : outbox s !! i = Some r -> settled (now_of s) (sy_sends s) i (al_delivery r);
  sn_tasks : Forall (fun rp => Forall (backed (sy_sends s)) (rp_busy rp)) (sy_replicas s);
}.

Lemma settled_later now now' sends log i dv : (now <= now')%Z -> settled now sends i dv -> settled now' (sends ++ log) i dv.
Proof.
  intros Hle [H0 H]. split; [done|]. destruct H as [[H1 H2]|[H|(H1 & H2 & H3)]]; [left|by right; left|right; right].
  - split; [done|]. apply elem_of_app. by left.
  - split_and!; [done|done|lia].
Qed.

Lemma backed_later sends log t : backed sends t -> backed (sends ++ log) t.
Proof. unfold backed. destruct (tk_stage t) as [| | |[]]; try done. intros H. apply elem_of_app. by left. Qed.

Lemma backoff_hour a : (0 <= a)%Z -> (backoff a <= hour)%Z.
Proof. intros _. unfold backoff, hour, second. lia. Qed.

Lemma lease_hour : (lease <= hour)%Z.
Proof. by vm_compute. Qed.

Lemma sending_row_spec t id : is_Some (sending_row t id) <->
  exists r, alert_outbox t !! id = Some r /\ present t r = true /\ dv_status (al_delivery r) = "sending".
Proof.
  unfold sending_row. destruct (alert_outbox t !! id) as [r|]; cbn; [|split; [by intros []|by intros (? & [=] & _)]].
  destruct (present t r && String.eqb (dv_status (al_delivery r)) "sending") eqn:E.
  - apply andb_true_iff in E as [E1 E2%String.eqb_eq]. split; [by eauto|]. by eauto.
  - split; [by intros []|]. intros (x & [= <-] & E1 & E2). by rewrite E1, E2 in E.
Qed.

(** One rewritten row, settled *)
Lemma touched_settled now sends ids f o :
  (forall i r, o !! i = Some r -> settled now sends i (al_delivery r)) ->
  (forall i r, i ∈ ids -> o !! i = Some r -> settled now sends i (al_delivery r) -> settled now sends i (f (al_delivery r))) ->
  forall i r, touched ids f o !! i = Some r -> settled now sends i (al_delivery r).
Proof.
  intros Ho Hf i r. rewrite touched_lookup. destruct (o !! i) as [x|] eqn:E; [|done]. cbn. intros [= <-].
  case_bool_decide; [|by apply Ho]. cbn. by apply Hf; [..|apply Ho].
Qed.

Lemma due_row_lookup now t p : p ∈ due_rows now t -> alert_outbox t !! p.1 = Some p.2 /\ delivery_due now t p.2 = true.
Proof.
  intros [Hin Hd]%filter_elem. split; [|done]. apply elem_of_lookup_imap in Hin as (i & x & -> & Hx). done.
Qed.

Lemma picked_due limit now t p : p ∈ take limit (order_by (fun p => dv_next_attempt_at (al_delivery p.2)) (due_rows now t)) ->
  alert_outbox t !! p.1 = Some p.2 /\ delivery_due now t p.2 = true.
Proof. intros Hp. apply due_row_lookup. rewrite <- order_by_perm.
  eapply subseteq_take; exact Hp.
Qed.

Lemma claimed_settled now sends i dv : open_status (dv_status dv) = true ->
  settled now sends i dv -> settled now sends i (claimed_columns now dv).
Proof.
  intros Ho [H0 [[E _]|[[E _]|(H1 & H2 & H3)]]]; [by rewrite E in Ho..|].
  split; [done|]. right. right. split_and!; [done|done|]. cbn. pose proof lease_hour. lia.
Qed.

Lemma renewed_settled now sends i dv : dv_status dv = "sending" -> settled now sends i dv -> settled now sends i (renewed_columns now dv).
Proof.
  intros Es [H0 [[E _]|[[E _]|(H1 & H2 & H3)]]]; [by rewrite E in Es..|].
  split; [done|]. right. right. split_and!; [done|done|]. cbn. pose proof lease_hour. lia.
Qed.

Lemma sent_settled now sends i dv : (i, Ok tt) ∈ sends -> settled now sends i dv -> settled now sends i (sent_columns now dv).
Proof. intros Hs [H0 _]. split; [done|]. by left. Qed.

Lemma failed_settled now sends i err dv : dv_status dv = "sending" -> settled now sends i dv ->
  settled now sends i (failed_columns now err MaxAttempts dv).
Proof.
  intros Es [H0 [[E _]|[[E _]|(H1 & H2 & H3)]]]; [by rewrite E in Es..|].
  split; [cbn; lia|]. right. cbn. destruct (Z.leb_spec MaxAttempts (dv_attempts dv + 1)).
  - left. split; [done|lia].
  - right. split_and!; [done|lia|]. pose proof (backoff_hour _ H0). lia.
Qed.

Lemma at_replica_elim i s f (P : sys -> Prop) : P s -> (forall rp, sy_replicas s !! i = Some rp -> P (f rp)) -> P (at_replica i s f).
Proof. intros H0 H. unfold at_replica. destruct (sy_replicas s !! i) eqn:E; [by apply H|done]. Qed.

(** A step of the control plane rewrites some rows of the outbox. *)
Record rewritten (s s' : sys) : Prop := {
  rw_now : now_of s' = now_of s;
  rw_sends : exists log, sy_sends s' = (sy_sends s ++ log)%list;
  rw_rows : (forall i r, outbox s !! i = Some r -> settled (now_of s) (sy_sends s) i (al_delivery r)) ->
    Forall (fun rp => Forall (backed (sy_sends s)) (rp_busy rp)) (sy_replicas s) ->
    forall i r, outbox s' !! i = Some r -> settled (now_of s) (sy_sends s') i (al_delivery r);
  rw_idents : map al_ident (outbox s') = map al_ident (outbox s);
}.

Lemma touched_idents ids f o : map al_ident (touched ids f o) = map al_ident o.
Proof.
  apply list_eq. intros i. rewrite !list_lookup_fmap, touched_lookup. destruct (o !! i); cbn; [|done]. by case_bool_decide.
Qed.

Lemma rewritten_same s w reps log : cp_now (dk_cp w) = now_of s -> alert_outbox (cp_tables (dk_cp w)) = outbox s ->
  rewritten s (mkSys w reps (sy_sends s ++ log)).
Proof.
  intros En Eo. split; [done|by exists log| |by unfold outbox at 1; cbn; rewrite Eo].
  intros Hr _ i r Hi. unfold outbox in Hi. cbn in Hi. rewrite Eo in Hi. by eapply settled_later, Hr.
Qed.

Lemma rewritten_touched s w reps ids f : cp_now (dk_cp w) = now_of s -> alert_outbox (cp_tables (dk_cp w)) = touched ids f (outbox s) ->
  (Forall (fun rp => Forall (backed (sy_sends s)) (rp_busy rp)) (sy_replicas s) ->
   forall i r, i ∈ ids -> outbox s !! i = Some r -> settled (now_of s) (sy_sends s) i (al_delivery r) ->
     settled (now_of s) (sy_sends s) i (f (al_delivery r))) ->
  rewritten s (mkSys w reps (sy_sends s)).
Proof.
  intros En Eo Hf. split; [done|exists []; by rewrite app_nil_r| |].
  - intros Hr Hb i r Hi. unfold outbox in Hi. cbn in Hi. rewrite Eo in Hi. eapply touched_settled; [exact Hr|by apply Hf|exact Hi].
  - unfold outbox at 1. cbn. by rewrite Eo, touched_idents.
Qed.

Lemma db_run {A} (m : io cp A) w r w' : db m w = (r, w') -> exists c, m (dk_cp w) = (r, c) /\ w' = mkDesk c (dk_out w).
Proof. unfold db. destruct (m (dk_cp w)) as [x c]. intros [= <- <-]. by eauto. Qed.

Lemma advance_rewritten s t w' log o reps : t ∈ concat (map rp_busy (sy_replicas s)) -> deliver_step t (sy_desk s) = (o, w', log) ->
  rewritten s (mkSys w' reps (sy_sends s ++ log)) /\
  forall t', o = Some t' -> backed (sy_sends s ++ log) t'.
Proof.
  intros Hin E. destruct t as [d st]. unfold deliver_step in E. cbn [tk_stage tk_delivery] in E. destruct st as [|ch|ch|res0].
  - destruct (db _ _) as [r w] eqn:Ed in E. injection E as <- <- <-. apply db_run in Ed as (c & Ed & ->).
    apply open_frame in Ed as [En Et]. split; [apply rewritten_same; cbn; [done|by rewrite Et]|].
    intros t' [= <-]. by destruct r.
  - destruct (db _ _) as [r w] eqn:Ed in E. injection E as <- <- <-. apply db_run in Ed as (c & Ed & ->).
    apply renew_cases in Ed as [En [[_ Et]|(_ & Hs & Et)]].
    + split; [by apply rewritten_same|]. intros t' Ht. by destruct r as [[]|]; simplify_eq.
    + rewrite app_nil_r. split; [eapply rewritten_touched; [exact En|exact Et|]|intros t' Ht; by destruct r as [[]|]; simplify_eq].
      intros _ i r0 ->%list_elem_of_singleton Hi. apply sending_row_spec in Hs as (x & Hx & _ & Es).
      unfold outbox in Hi. rewrite Hx in Hi. injection Hi as <-. by apply renewed_settled.
  - destruct (Send _ _ _ _ _) as [r w] eqn:Ed. injection E as <- <- <-.
    assert (Ec : dk_cp w = dk_cp (sy_desk s)) by (by rewrite <- (Send_offline ch (ad_Event d) (ad_Title d) (ad_Body d) (sy_desk s)), Ed).
    split; [apply rewritten_same; by rewrite Ec|]. intros t' [= <-]. unfold backed, tk_id. cbn.
    destruct r as [[]|]; [|done]. apply elem_of_app. right. by apply list_elem_of_singleton.
  - destruct (db _ _) as [r w] eqn:Ed in E. injection E as <- <- <-. apply db_run in Ed as (c & Ed & ->).
    apply result_cases in Ed as [En [[_ Et]|[Hs Et]]]; [split; [by apply rewritten_same|done]|].
    rewrite app_nil_r. split; [eapply rewritten_touched; [exact En|exact Et|]|done].
    intros Hb i r0 ->%list_elem_of_singleton Hi Hset. apply sending_row_spec in Hs as (x & Hx & _ & Es).
    unfold outbox in Hi. rewrite Hx in Hi. injection Hi as <-. destruct res0 as [[]|e]; cbn [is_ok]; [|by apply failed_settled].
    apply sent_settled; [|done]. rewrite Forall_forall in Hb.
    apply list_elem_of_In, in_concat in Hin as (l & (rp & <- & Hrp)%in_map_iff & Hl). apply list_elem_of_In in Hrp, Hl.
    specialize (Hb rp Hrp). rewrite Forall_forall in Hb. exact (Hb _ Hl).
Qed.

Lemma rewritten_reps s reps : rewritten s (mkSys (sy_desk s) reps (sy_sends s)).
Proof. rewrite <- (app_nil_r (sy_sends s)). by apply rewritten_same. Qed.

Lemma rewritten_refl s : rewritten s s.
Proof. destruct s. apply (rewritten_reps (mkSys _ _ _)). Qed.

Definition all_backed (s : sys) : Prop := Forall (fun rp => Forall (backed (sy_sends s)) (rp_busy rp)) (sy_replicas s).

Lemma busy_backed s i rp : all_backed s -> sy_replicas s !! i = Some rp -> Forall (backed (sy_sends s)) (rp_busy rp).
Proof. intros H Hi. exact (Forall_lookup_1 _ _ _ _ H Hi). Qed.

Lemma all_backed_settle s i rp w log : all_backed s -> Forall (backed (sy_sends s ++ log)) (rp_busy rp) ->
  all_backed (settle i rp (mkSys w (sy_replicas s) (sy_sends s ++ log))).
Proof.
  intros H Hrp. apply Forall_insert; [|done]. eapply Forall_impl; [exact H|]. intros x Hx. eapply Forall_impl; [exact Hx|].
  intros t. apply backed_later.
Qed.

Lemma all_backed_reps s i rp : all_backed s -> Forall (backed (sy_sends s)) (rp_busy rp) -> all_backed (settle i rp s).
Proof. intros H Hrp. by apply Forall_insert. Qed.

Lemma busy_task s i rp k t : sy_replicas s !! i = Some rp -> rp_busy rp !! k = Some t -> t ∈ concat (map rp_busy (sy_replicas s)).
Proof.
  intros Hi Hk. apply list_elem_of_In, in_concat. exists (rp_busy rp).
  split; [apply in_map, list_elem_of_In; by eapply list_elem_of_lookup_2|apply list_elem_of_In; by eapply list_elem_of_lookup_2].
Qed.

Lemma obey_rewritten c s : all_backed s -> rewritten s (obey c s) /\ all_backed (obey c s).
Proof.
  intros Hb. destruct c as [i|i|i k|i k|i|i]; cbn [obey];
    apply (at_replica_elim i s _ (fun s' => rewritten s s' /\ all_backed s')); try (by split; [apply rewritten_refl|]);
    intros rp Hi; pose proof (busy_backed s i rp Hb Hi) as Hrp.
  - destruct (rp_queue rp); [|by split; [apply rewritten_refl|]]. destruct (rp_busy rp); [|by split; [apply rewritten_refl|]].
    destruct (db _ _) as [r w] eqn:Ed. apply db_run in Ed as (c & Ed & ->). split.
    + apply claim_cases in Ed as [En [[_ Et]|(picked & due & -> & _ & Ep & Et)]].
      * rewrite <- (app_nil_r (sy_sends s)). by apply rewritten_same.
      * unfold settle. cbn [sy_desk sy_replicas sy_sends]. eapply rewritten_touched; [exact En|exact Et|]. intros _ j x (p & -> & Hp)%list_elem_of_fmap Hx.
        rewrite Ep in Hp. apply picked_due in Hp as [Hp Hd]. unfold outbox in Hx. rewrite Hp in Hx. injection Hx as <-.
        apply claimed_settled. unfold delivery_due in Hd. by apply andb_true_iff in Hd as [[_ ?]%andb_true_iff _].
    + rewrite <- (app_nil_r (sy_sends s)). by apply all_backed_settle.
  - destruct (rp_queue rp) as [|d q]; [by split; [apply rewritten_refl|]|].
    destruct (_ <? _)%nat; [|by split; [apply rewritten_refl|]]. split; [apply rewritten_reps|].
    apply all_backed_reps; [done|]. apply Forall_app. split; [done|]. by apply Forall_singleton.
  - destruct (rp_busy rp !! k) as [t|] eqn:Ek; [|by split; [apply rewritten_refl|]].
    destruct (deliver_step t (sy_desk s)) as [[o w] log] eqn:Ea.
    edestruct advance_rewritten as [Hrw Hb']; [by eapply busy_task|exact Ea|]. split; [exact Hrw|].
    assert (Hall : Forall (backed (sy_sends s ++ log)) (rp_busy rp)) by (eapply Forall_impl; [exact Hrp|]; intros ?; apply backed_later).
    apply all_backed_settle; [done|]. cbn [rp_busy]. destruct o as [t'|]; [apply Forall_insert; auto|by apply Forall_delete].
  - split; [apply rewritten_reps|]. apply all_backed_reps; [done|by apply Forall_delete].
  - split; [apply rewritten_reps|]. by apply all_backed_reps.
  - split; [apply rewritten_reps|]. apply all_backed_reps; [done|by constructor].
Qed.

Hypothesis HM : (0 < MaxAttempts)%Z.

Lemma step_sane s s' : sys_step s s' -> sane s ->
  sane s' /\ map al_ident (outbox s) `prefix_of` map al_ident (outbox s').
Proof.
  intros [(c & ->)|[c' new -> Hnow Eo Hnew]] [Hr Hb].
  - destruct (obey_rewritten c s Hb) as [[En Hl Hrows Hid] Hb']. split; [split; [|exact Hb']|by rewrite Hid].
    intros i r Hi. rewrite En. by apply (Hrows Hr Hb).
  - split; [split; [|exact Hb]|].
    + intros i r Hi. unfold outbox, now_of in *. cbn in Hi |- *. rewrite Eo in Hi. apply lookup_app_Some in Hi as [Hi|[_ Hi]].
      * rewrite <- (app_nil_r (sy_sends s)). by eapply settled_later, Hr.
      * apply list_elem_of_lookup_2, Hnew in Hi as (n & Hn & ->). split; [done|]. right. right. cbn. split_and!; [done|done|].
        unfold hour, second. lia.
    + unfold outbox at 2. cbn. rewrite Eo, map_app. by apply prefix_app_r.
Qed.

End system.
