(* ===== verification/OutboxClaims.v ===== *)
(** * Who holds a row of the outbox

    Dispatchers that act within their leases never hold a row together, and
    claims reach every due row. *)

From S2P Require Import Backups Prelude GoStrings Json Naming DockerApi RenderCluster RenderDoc CpDb Deploy DsdStore Kms Vault NetAddr PublicHost Domains Alerts Dispatcher Outbox.

Local Open Scope string_scope.
Local Open Scope io_scope.

(** ** Held rows *)

Definition held_by (rp : replica) : list nat := (map ad_ID (rp_queue rp) ++ map tk_id (rp_busy rp))%list.
Definition held (s : sys) : list nat := concat (map held_by (sy_replicas s)).

(** The row is claimed and its lease has not run out. *)
Definition leased (s : sys) (id : nat) : Prop :=
  exists r, outbox s !! id = Some r /\ dv_status (al_delivery r) = "sending" /\ (now_of s < dv_next_attempt_at (al_delivery r))%Z.

Record orderly (s : sys) : Prop := {
  od_once : NoDup (held s);
  od_leased id : id ∈ held s -> leased s id;
}.

Lemma held_settle s i rp : sy_replicas s !! i = Some rp ->
  exists rest, held s ≡ₚ (held_by rp ++ rest)%list /\
    forall rp' w sends, held (settle i rp' (mkSys w (sy_replicas s) sends)) ≡ₚ (held_by rp' ++ rest)%list.
Proof.
  intros Hi. exists (concat (map held_by (take i (sy_replicas s))) ++ concat (map held_by (drop (S i) (sy_replicas s))))%list.
  assert (Hlt : (i < length (sy_replicas s))%nat) by (by eapply lookup_lt_Some).
  assert (H : forall x a b, concat (map held_by (a ++ x :: b)) ≡ₚ (held_by x ++ concat (map held_by a) ++ concat (map held_by b))%list).
  { intros x a b. rewrite map_app, concat_app. cbn. rewrite !(assoc_L (++)). by rewrite (Permutation_app_comm (concat (map held_by a))). }
  split.
  - unfold held. rewrite <- (take_drop_middle _ _ _ Hi) at 1. apply H.
  - intros rp' w sends. unfold held, settle. cbn. rewrite insert_take_drop by done. apply H.
Qed.

Lemma submseteq_nodup {A} (l k : list A) : l ⊆+ k -> NoDup k -> NoDup l.
Proof. intros [r Hr]%submseteq_Permutation. rewrite Hr. by intros (? & _ & _)%NoDup_app. Qed.

(** ** One replica at a time *)

Section orderly.
Context {ds : Destinations} {net : Internet} {jt : JsonText} {pg : Postgres} {ae : Aead} {kc : KeyCustody}.
Variables (BatchSize Concurrency : nat) (MaxAttempts : Z).

Local Abbreviation obey := (obey BatchSize Concurrency MaxAttempts).

(** Time does not outrun a lease: before it would, the replica has renewed it,
    finished or crashed. *)
Definition prompt_step (s s' : sys) : Prop :=
  (exists c, s' = obey c s) \/
  (world_step s s' /\ forall id r, id ∈ held s -> outbox s !! id = Some r -> (now_of s' < dv_next_attempt_at (al_delivery r))%Z).

(** Rows rewritten, and rows given up *)
Lemma orderly_touched s i rp rp' rest w sends ids f : sy_replicas s !! i = Some rp -> orderly s ->
  held s ≡ₚ (held_by rp ++ rest)%list ->
  (forall rp' w sends, held (settle i rp' (mkSys w (sy_replicas s) sends)) ≡ₚ (held_by rp' ++ rest)%list) ->
  NoDup (held_by rp' ++ rest)%list ->
  cp_now (dk_cp w) = now_of s -> alert_outbox (cp_tables (dk_cp w)) = touched ids f (outbox s) ->
  (forall id, id ∈ (held_by rp' ++ rest)%list -> id ∉ ids -> id ∈ held s) ->
  (forall id r, id ∈ (held_by rp' ++ rest)%list -> id ∈ ids -> outbox s !! id = Some r ->
     dv_status (f (al_delivery r)) = "sending" /\ (now_of s < dv_next_attempt_at (f (al_delivery r)))%Z) ->
  (forall id, id ∈ ids -> is_Some (outbox s !! id)) ->
  orderly (settle i rp' (mkSys w (sy_replicas s) sends)).
Proof.
  intros Hi [H1 H2] _ Hs Hn En Eo Hout Hin Hex. split; [by rewrite Hs|]. intros id. rewrite Hs. intros Hid.
  unfold leased, outbox, now_of. cbn. rewrite En, Eo, touched_lookup. destruct (decide (id ∈ ids)) as [Hi'|Hi'].
  - destruct (Hex id Hi') as (r & Er). rewrite Er. cbn. rewrite bool_decide_true by done.
    destruct (Hin id r Hid Hi' Er). by exists (with_delivery f r).
  - destruct (H2 id (Hout id Hid Hi')) as (r & Er & H). rewrite Er. cbn. rewrite bool_decide_false by done. by exists r.
Qed.

Lemma touched_nil f o : touched [] f o = o.
Proof. apply list_eq. intros i. rewrite touched_lookup. by destruct (o !! i). Qed.

(** Nothing is rewritten. *)
Lemma orderly_kept s i rp rp' w sends : sy_replicas s !! i = Some rp -> orderly s ->
  held_by rp' ⊆+ held_by rp -> cp_now (dk_cp w) = now_of s -> alert_outbox (cp_tables (dk_cp w)) = outbox s ->
  orderly (settle i rp' (mkSys w (sy_replicas s) sends)).
Proof.
  intros Hi Hord Hsub En Eo. destruct (held_settle s i rp Hi) as (rest & H1 & H2).
  assert (Hs : (held_by rp' ++ rest)%list ⊆+ held s) by (rewrite H1; by apply submseteq_skips_r).
  eapply (orderly_touched s i rp rp' rest w sends [] id); try done.
  - eapply submseteq_nodup; [exact Hs|apply Hord].
  - by rewrite touched_nil.
  - intros x Hx _. by eapply elem_of_submseteq.
  - by intros x r _ ?%elem_of_nil.
  - by intros x ?%elem_of_nil.
Qed.

Lemma busy_held rp k t : rp_busy rp !! k = Some t ->
  held_by rp ≡ₚ tk_id t :: held_by (mkReplica (rp_queue rp) (delete k (rp_busy rp))).
Proof.
  intros Hk. unfold held_by. cbn. rewrite (delete_Permutation _ _ _ Hk) at 1. cbn. by rewrite Permutation_middle.
Qed.

Lemma busy_same rp k t t' : rp_busy rp !! k = Some t -> tk_id t' = tk_id t ->
  held_by (mkReplica (rp_queue rp) (<[k := t']> (rp_busy rp))) = held_by rp.
Proof.
  intros Hk E. unfold held_by. cbn. f_equal. apply list_eq. intros j. rewrite !list_lookup_fmap.
  destruct (decide (j = k)) as [->|Hj]; [|by rewrite list_lookup_insert_ne].
  rewrite list_lookup_insert_eq by (by eapply lookup_lt_Some). rewrite Hk. cbn. by rewrite E.
Qed.

Lemma advance_id t w t' w' log : deliver_step MaxAttempts t w = (Some t', w', log) -> tk_id t' = tk_id t.
Proof.
  destruct t as [d [|ch|ch|r]]; unfold Outbox.deliver_step; cbn [tk_stage tk_delivery].
  - destruct (db _ w) as [r x]. by intros [= <- _ _].
  - destruct (db _ w) as [[[|]|e] x]; by intros [= <- _ _].
  - destruct (Send _ _ _ _ w) as [r x]. by intros [= <- _ _].
  - destruct (db _ w) as [u x]. by intros [=].
Qed.

Lemma due_rows_ids now t : NoDup (map fst (due_rows now t)).
Proof.
  apply NoDup_map_filter. replace (map fst (imap pair (alert_outbox t))) with (seq 0 (length (alert_outbox t))); [apply NoDup_seq|].
  apply list_eq. intros i. rewrite list_lookup_fmap, list_lookup_imap.
  destruct (alert_outbox t !! i) as [r|] eqn:E; cbn.
  - apply lookup_seq. apply lookup_lt_Some in E. lia.
  - apply lookup_seq_ge. by apply lookup_ge_None.
Qed.

Lemma picked_ids limit now t : NoDup (map fst (take limit (order_by (fun p => dv_next_attempt_at (al_delivery p.2)) (due_rows now t)))).
Proof.
  rewrite <- firstn_map. eapply submseteq_nodup; [apply submseteq_take|]. rewrite order_by_perm. apply due_rows_ids.
Qed.

Lemma given_up rp k : held_by (mkReplica (rp_queue rp) (delete k (rp_busy rp))) ⊆+ held_by rp.
Proof.
  destruct (rp_busy rp !! k) as [t|] eqn:E; [rewrite (busy_held _ _ _ E); by apply submseteq_cons|].
  assert (Hd : forall (l : list task) n, l !! n = None -> delete n l = l).
  { induction l as [|x l IH]; intros [|n]; cbn; try done. intros H. f_equal. by apply IH. }
  rewrite Hd by done. by destruct rp.
Qed.

(** What is left of the workers after a step *)
Definition worked (rp : replica) (k : nat) (o : option task) : replica :=
  mkReplica (rp_queue rp) (match o with Some t' => <[k := t']> (rp_busy rp) | None => delete k (rp_busy rp) end).

Lemma worked_held rp k t o : rp_busy rp !! k = Some t -> (forall t', o = Some t' -> tk_id t' = tk_id t) ->
  held_by (worked rp k o) ⊆+ held_by rp.
Proof.
  intros Hk Ho. destruct o as [t'|]; [|apply given_up]. unfold worked. by rewrite (busy_same rp k t t' Hk) by auto.
Qed.

Lemma advance_orderly s i rp k t o w log : orderly s -> sy_replicas s !! i = Some rp -> rp_busy rp !! k = Some t ->
  deliver_step MaxAttempts t (sy_desk s) = (o, w, log) ->
  orderly (settle i (worked rp k o) (mkSys w (sy_replicas s) (sy_sends s ++ log))).
Proof.
  intros Hord Hi Hk E.
  assert (Ho : forall t', o = Some t' -> tk_id t' = tk_id t) by (intros t' ->; by eapply advance_id).
  pose proof (worked_held rp k t o Hk Ho) as Hsub. destruct (held_settle s i rp Hi) as (rest & H1 & H2).
  assert (Hnd : NoDup (held_by (worked rp k o) ++ rest)%list).
  { eapply submseteq_nodup; [|apply (od_once s Hord)]. rewrite H1. by apply submseteq_skips_r. }
  assert (Hback : forall id, id ∈ (held_by (worked rp k o) ++ rest)%list -> id ∈ held s).
  { intros id Hid. rewrite H1. eapply elem_of_submseteq; [exact Hid|]. by apply submseteq_skips_r. }
  destruct t as [d [|ch|ch|res0]]; unfold Outbox.deliver_step in E; cbn [tk_stage tk_delivery] in E.
  - destruct (db _ _) as [r w1] eqn:Ed. injection E as <- <- <-. apply db_run in Ed as (c & Ed & ->).
    apply open_frame in Ed as [En Et]. apply (orderly_kept s i rp); [done|done|exact Hsub|exact En|by cbn; rewrite Et].
  - destruct (db _ _) as [r w1] eqn:Ed. injection E as <- <- <-. apply db_run in Ed as (c & Ed & ->).
    apply renew_cases in Ed as [En [[_ Et]|(-> & Hs & Et)]]; [by apply (orderly_kept s i rp)|].
    apply sending_row_spec in Hs as (x & Hx & _ & Es).
    apply (orderly_touched s i rp _ rest _ _ [ad_ID d] (renewed_columns (now_of s))); try done.
    + intros id Hid _. by apply Hback.
    + intros id r _ ->%list_elem_of_singleton Er. unfold outbox in Er. rewrite Hx in Er. injection Er as <-. cbn.
      split; [done|]. unfold lease, second. lia.
    + intros id ->%list_elem_of_singleton. eauto.
  - destruct (Send _ _ _ _ _) as [r w1] eqn:Ed. injection E as <- <- <-.
    assert (Ec : dk_cp w1 = dk_cp (sy_desk s)) by (by rewrite <- (Send_offline ch (ad_Event d) (ad_Title d) (ad_Body d) (sy_desk s)), Ed).
    apply (orderly_kept s i rp); [done|done|exact Hsub|by rewrite Ec|by rewrite Ec].
  - destruct (db _ _) as [r w1] eqn:Ed. injection E as <- <- <-. apply db_run in Ed as (c & Ed & ->).
    apply result_cases in Ed as [En [[_ Et]|[Hs Et]]]; [by apply (orderly_kept s i rp)|].
    apply sending_row_spec in Hs as (x & Hx & _ & Es).
    assert (Hgone : ad_ID d ∉ (held_by (worked rp k None) ++ rest)%list).
    { pose proof (od_once s Hord) as Hn. rewrite H1, (busy_held _ _ _ Hk) in Hn. by apply NoDup_cons in Hn as [Hn _]. }
    eapply (orderly_touched s i rp _ rest _ _ [ad_ID d]); try done.
    + intros id Hid _. by apply Hback.
    + by intros id y Hid ->%list_elem_of_singleton.
    + intros id ->%list_elem_of_singleton. eauto.
Qed.

Lemma obey_orderly c s : orderly s -> orderly (obey c s).
Proof.
  intros Hord. destruct c as [i|i|i k|i k|i|i]; cbn [Outbox.obey]; apply at_replica_elim; try done; intros rp Hi.
  - destruct (rp_queue rp) eqn:Eq; [|done]. destruct (rp_busy rp) eqn:Eb; [|done].
    assert (Erp : rp = mkReplica [] []) by (destruct rp; cbn in *; by subst). subst rp.
    destruct (db _ _) as [r w] eqn:Ed. apply db_run in Ed as (c & Ed & ->).
    apply claim_cases in Ed as [En [[Hr Et]|(picked & due & -> & Hdue & Ep & Et)]].
    { destruct r; [done|]. by eapply orderly_kept. }
    destruct (held_settle s i _ Hi) as (rest & H1 & H2).
    assert (Hpick : forall id, id ∈ map fst picked -> exists r, outbox s !! id = Some r /\ (dv_next_attempt_at (al_delivery r) <= now_of s)%Z).
    { intros id (p & -> & Hp)%list_elem_of_fmap. rewrite Ep in Hp. apply picked_due in Hp as [Hp Hd]. exists p.2. split; [done|].
      unfold delivery_due in Hd. by apply andb_true_iff in Hd as [_ ?%Z.leb_le]. }
    assert (Hfree : forall id, id ∈ map fst picked -> id ∉ rest).
    { intros id Hid Hrest. destruct (Hpick id Hid) as (r & Er & Hle).
      destruct (od_leased s Hord id) as (r' & Er' & _ & Hlt); [rewrite H1; apply elem_of_app; by right|]. rewrite Er in Er'. injection Er' as <-. lia. }
    eapply (orderly_touched s i _ (mkReplica due []) rest); try done; unfold held_by; cbn [rp_queue rp_busy map].
    + rewrite app_nil_r, Hdue. apply NoDup_app. split_and!; [rewrite Ep; apply picked_ids|exact Hfree|].
      pose proof (od_once s Hord) as Hn. rewrite H1 in Hn. by apply NoDup_app in Hn as (_ & _ & ?).
    + intros id. rewrite app_nil_r, Hdue, H1. intros [?|?]%elem_of_app ?; [done|]. apply elem_of_app. by right.
    + intros id r _ _ _. cbn. split; [done|]. change (cp_now (dk_cp (sy_desk s))) with (now_of s). unfold lease, second. lia.
    + intros id (r & Er & _)%Hpick. by eauto.
  - destruct (rp_queue rp) as [|d q] eqn:Eq; [done|]. destruct (_ <? _)%nat; [|done].
    destruct s as [w reps sends]. apply (orderly_kept (mkSys w reps sends) i rp); [done|done| |done|done].
    unfold held_by. cbn. rewrite Eq, map_app. cbn. apply Permutation_submseteq.
    rewrite Permutation_app_comm. cbn. rewrite <- app_assoc. cbn. rewrite <- Permutation_middle. by rewrite (Permutation_app_comm (map ad_ID q)).
  - destruct (rp_busy rp !! k) as [t|] eqn:Ek; [|done]. destruct (deliver_step MaxAttempts t (sy_desk s)) as [[o w] log] eqn:Ea.
    by apply (advance_orderly s i rp k t).
  - destruct s as [w reps sends]. apply (orderly_kept (mkSys w reps sends) i rp); [done|done| |done|done].
    apply given_up.
  - destruct s as [w reps sends]. apply (orderly_kept (mkSys w reps sends) i rp); [done|done| |done|done].
    unfold held_by. cbn. by apply submseteq_inserts_l.
  - destruct s as [w reps sends]. apply (orderly_kept (mkSys w reps sends) i rp); [done|done| |done|done].
    unfold held_by. cbn. apply submseteq_nil_l.
Qed.

(** C37: dispatchers that act within their leases hold a row alone: through any
    interleaving of claims, sends, crashes and failing statements no two workers
    or queues anywhere hold the same row, and a row that is held is neither sent
    nor given up in the outbox. *)
Theorem prompt_dispatchers_hold_alone s s' : orderly s -> rtc prompt_step s s' ->
  (forall i j x, held s' !! i = Some x -> held s' !! j = Some x -> i = j) /\
  forall id, id ∈ held s' -> exists r, outbox s' !! id = Some r /\ dv_status (al_delivery r) = "sending" /\
    (now_of s' < dv_next_attempt_at (al_delivery r))%Z.
Proof.
  intros Hs Hrun. assert (H : orderly s').
  { induction Hrun as [s|s1 s2 s3 [(c & ->)|[[c' new -> Hnow Eo _] Hl]] H23 IH]; [done|by apply IH, obey_orderly|].
    apply IH. destruct Hs as [H1 H2]. split; [exact H1|]. intros id Hid. destruct (H2 id Hid) as (r & Er & Es & _).
    exists r. split_and!; [|done|by apply (Hl id)]. unfold outbox at 1. cbn. rewrite Eo. by apply lookup_app_l_Some. }
  destruct H as [H1 H2]. split; [|exact H2]. intros i j x Hi Hj. by eapply NoDup_lookup.
Qed.
End orderly.

(** ** Claims reach every due row *)

Section claims.
Context {pg : Postgres} (limit : nat).

(** [n] claims one after the other, and the rows they return *)
Fixpoint claims (n : nat) (d : cp) : list nat * cp :=
  match n with
  | O => ([], d)
  | S n =>
      match DueAlertDeliveries limit d with
      | (Ok due, d1) => let '(l, d2) := claims n d1 in ((map ad_ID due ++ l)%list, d2)
      | (Err _, d1) => ([], d1)
      end
  end.

Lemma imap_pair_touched ids f o :
  imap pair (touched ids f o) = map (fun p => (p.1, if bool_decide (p.1 ∈ ids) then with_delivery f p.2 else p.2)) (imap pair o).
Proof.
  apply list_eq. intros i. rewrite list_lookup_fmap, !list_lookup_imap. unfold touched. rewrite list_lookup_imap.
  by destruct (o !! i).
Qed.

Lemma filter_map_list {A B} (h : A -> B) (P : B -> bool) l : List.filter P (map h l) = map h (List.filter (fun x => P (h x)) l).
Proof. induction l as [|x l IH]; [done|]. cbn. rewrite IH. by destruct (P (h x)). Qed.

Lemma filter_twice {A} (P Q : A -> bool) l : List.filter P (List.filter Q l) = List.filter (fun x => Q x && P x) l.
Proof. induction l as [|x l IH]; [done|]. cbn. destruct (Q x); cbn; [|done]. destruct (P x); by rewrite IH. Qed.

Lemma filter_perm {A} (P : A -> bool) (l k : list A) : l ≡ₚ k -> List.filter P l ≡ₚ List.filter P k.
Proof. induction 1; cbn; repeat case_match; try done; [by constructor|by constructor|by etransitivity]. Qed.

(** A claimed row is not due before its lease ends. *)
Lemma due_rows_claimed now t ids :
  due_rows now (at_rows ids (claimed_columns now) t) = List.filter (fun p => negb (bool_decide (p.1 ∈ ids))) (due_rows now t).
Proof.
  unfold due_rows at 1. cbn [at_rows set_outbox alert_outbox]. fold (touched ids (claimed_columns now) (alert_outbox t)).
  rewrite imap_pair_touched, filter_map_list. unfold due_rows. rewrite filter_twice.
  erewrite (List.filter_ext (fun x => delivery_due now _ _)).
  - rewrite <- (map_id (List.filter _ (imap pair (alert_outbox t)))) at 2. apply map_ext_in. intros p [_ Hp]%filter_In.
    apply andb_true_iff in Hp as [_ Hp%negb_true_iff]. rewrite Hp. by destruct p.
  - intros [i r]. cbn. case_bool_decide; cbn; [|by rewrite andb_true_r]. rewrite andb_false_r.
    apply andb_false_iff. right. apply Z.leb_gt. cbn. unfold lease, second. lia.
Qed.

Lemma claim_quiet d : quiet d ->
  let picked := take limit (order_by (fun p => dv_next_attempt_at (al_delivery p.2)) (due_rows (cp_now d) (cp_tables d))) in
  exists due d1, DueAlertDeliveries limit d = (Ok due, d1) /\ map ad_ID due ≡ₚ map fst picked /\ quiet d1 /\ cp_now d1 = cp_now d /\
    due_rows (cp_now d1) (cp_tables d1) = List.filter (fun p => negb (bool_decide (p.1 ∈ map fst picked))) (due_rows (cp_now d) (cp_tables d)).
Proof.
  intros Hq picked. eexists _, _. split; [unfold DueAlertDeliveries; rewrite exec_quiet by done; reflexivity|].
  split_and!; [|done|done|apply due_rows_claimed]. rewrite order_by_perm, map_map. done.
Qed.

Lemma unpicked (l : list (nat * alert_row)) : NoDup (map fst l) ->
  List.filter (fun p => negb (bool_decide (p.1 ∈ map fst (take limit l)))) l = drop limit l.
Proof.
  intros Hn. set (P := fun p : nat * alert_row => negb (bool_decide (p.1 ∈ map fst (take limit l)))).
  transitivity (List.filter P (take limit l ++ drop limit l)%list); [by rewrite take_drop|]. rewrite List.filter_app. subst P.
  rewrite <- (take_drop limit l), map_app in Hn. apply NoDup_app in Hn as (_ & Hn & _).
  assert (E1 : List.filter (fun p => negb (bool_decide (p.1 ∈ map fst (take limit l)))) (take limit l) = []).
  { apply elem_of_nil_inv. intros p [Hin Hp]%filter_elem. apply negb_true_iff, bool_decide_eq_false in Hp. by apply Hp, list_elem_of_fmap_2. }
  rewrite E1. cbn. assert (H : forall p, p ∈ drop limit l -> p.1 ∉ map fst (take limit l)).
  { intros p Hp Hin. by apply (Hn p.1 Hin), list_elem_of_fmap_2. }
  revert H. generalize (drop limit l) as k. induction k as [|p k IH]; intros H; [done|]. cbn.
  rewrite bool_decide_false by (apply H; left). cbn. f_equal. apply IH. intros q Hq. apply H. by right.
Qed.

(** Every due row is reached.  Where [n] batches are large enough for all
    rows that are due, [n] claims without a fault return each of them exactly
    once, and leave none due. *)
Theorem every_due_alert_is_claimed n d : quiet d -> (length (due_rows (cp_now d) (cp_tables d)) <= n * limit)%nat ->
  (claims n d).1 ≡ₚ map fst (due_rows (cp_now d) (cp_tables d)) /\
  due_rows (cp_now d) (cp_tables (claims n d).2) = [].
Proof.
  revert d. induction n as [|n IH]; intros d Hq Hlen.
  - destruct (due_rows (cp_now d) (cp_tables d)) as [|p l] eqn:E; [|cbn in Hlen; lia]. cbn. by rewrite E.
  - destruct (claim_quiet d Hq) as (due & d1 & E & Hdue & Hq1 & En & Ed). cbn [claims]. rewrite E.
    set (D := due_rows (cp_now d) (cp_tables d)) in *.
    set (S := order_by (fun p : nat * alert_row => dv_next_attempt_at (al_delivery p.2)) D) in *.
    assert (HS : S ≡ₚ D) by apply order_by_perm.
    assert (Ed' : due_rows (cp_now d1) (cp_tables d1) ≡ₚ drop limit S).
    { rewrite Ed, <- unpicked; [by apply filter_perm|]. rewrite HS. apply due_rows_ids. }
    destruct (IH d1 Hq1) as [H1 H2].
    { rewrite Ed', length_drop. rewrite <- HS in Hlen. cbn in Hlen. lia. }
    rewrite En in H1, H2. destruct (claims n d1) as [l d2]. cbn in *. split; [|exact H2].
    rewrite Hdue, H1, <- En, Ed', <- map_app, take_drop. by rewrite HS.
Qed.
End claims.
