(* ===== verification/AlertClaims.v ===== *)
(** * Where alerts may go

    A request the sender makes is addressed to a public destination, whatever a
    tenant configured; what the check of a configuration misses. *)

From S2P Require Import Backups Prelude GoStrings Json Naming DockerApi RenderCluster RenderDoc CpDb Deploy DsdStore Kms Vault Paddle NetAddr PublicHost Servers Lifecycle Clusters Domains Alerts Dispatcher.
From Stdlib Require Import Ascii.

Local Open Scope string_scope.
Local Open Scope io_scope.

Section egress.
Context {ds : Destinations} {net : Internet} {jt : JsonText}.

(** An address that may be reached *)
Definition public (x : ip) : Prop := internal x = false.

(** A host is a public address, or a name all of whose addresses are. *)
Definition public_host (host : string) : Prop :=
  match ParseIP host with
  | Some x => public x
  | None => is_internal_name host = false /\ exists ips, lookup_ip host = Some ips /\ ips <> [] /\ Forall public ips
  end.

Definition public_url (url : string) : Prop :=
  exists scheme host port, url_parse (trim_space url) = Some (scheme, host, port) /\
    scheme ∈ ["http"; "https"] /\ port ∈ [""; "80"; "443"] /\ public_host host.

Lemma checked shown x : checkPublicIP shown x = Ok tt -> public x.
Proof. unfold checkPublicIP, public. by destruct (internal x). Qed.

Lemma check_all_public host ips : check_all host ips = Ok tt -> Forall public ips.
Proof.
  induction ips as [|x ips IH]; cbn; [constructor|]. destruct (checkPublicIP host x) as [[]|e] eqn:E; [|done].
  intros H. constructor; [by eapply checked|auto].
Qed.

Lemma check_host_public a b host : check_host a b host = Ok tt -> public_host host.
Proof.
  unfold check_host, public_host. destruct (ParseIP host) as [x|]; [apply checked|].
  destruct (is_internal_name host); [done|]. destruct (lookup_ip host) as [[|x ips]|] eqn:El; [done| |done].
  intros H. split; [done|]. exists (x :: ips). split_and!; [done|done|by eapply check_all_public].
Qed.

Lemma alert_destination_public url : ValidateAlertDestination url = Ok tt -> public_url url.
Proof.
  unfold ValidateAlertDestination, public_url. destruct (url_parse (trim_space url)) as [[[scheme host] port]|]; [|done].
  destruct (negb _ && negb _) eqn:Es; [done|]. destruct (String.eqb host ""); [done|].
  destruct (negb (String.eqb port "") && _ && _) eqn:Ep; [done|]. intros H%check_host_public.
  exists scheme, host, port. split_and!; [done| | |done].
  - rewrite andb_false_iff, !negb_false_iff, !String.eqb_eq in Es. set_solver.
  - rewrite !andb_false_iff, !negb_false_iff, !String.eqb_eq in Ep. set_solver.
Qed.

Lemma email_destination_public host port : ValidateEmailDestination host port = Ok tt ->
  port ∈ allowedSMTPPorts /\ public_host (trim_space host).
Proof.
  unfold ValidateEmailDestination. destruct (existsb (Z.eqb port) allowedSMTPPorts) eqn:E; [|done]. cbn [negb]. cbv zeta.
  destruct (String.eqb _ ""); [done|]. intros H%check_host_public. split; [|done].
  apply existsb_elem in E as (y & Hy & ->%Z.eqb_eq). done.
Qed.

(** What one send may add to what went out *)
Definition allowed (ch : AlertChannelSend) (o : outgoing) : Prop :=
  match o with
  | Posted url _ _ =>
      (cs_Kind ch = "telegram" /\ url = TelegramAPIBase +:+ "/bot" +:+ PathEscape (cs_Secret ch) +:+ "/sendMessage") \/ public_url url
  | Mailed addr _ _ _ _ =>
      exists host port, addr = host +:+ ":" +:+ dec port /\ port ∈ [25; 465; 587]%Z /\ public_host (trim_space host)
  end.

(** [m] sends at most one thing, and only of the kind [P]. *)
Definition sends_only {A} (P : outgoing -> Prop) (m : io desk A) : Prop :=
  forall w, exists new, dk_out (m w).2 = (dk_out w ++ new)%list /\ (length new <= 1)%nat /\ Forall P new.
Definition silent {A} (m : io desk A) : Prop := forall w, dk_out (m w).2 = dk_out w.

Lemma silent_only {A} P (m : io desk A) : silent m -> sends_only P m.
Proof. intros H w. exists []. rewrite app_nil_r. split_and!; [apply H|cbn; lia|constructor]. Qed.

Lemma silent_bind {A B} P (m : io desk A) (k : A -> io desk B) :
  silent m -> (forall a w w', m w = (Ok a, w') -> sends_only P (k a)) -> sends_only P (bind m k).
Proof.
  intros Hm Hk w. specialize (Hm w). unfold bind. destruct (m w) as [[a|e] w'] eqn:E; cbn in Hm.
  - destruct (Hk a w w' E w') as (new & H1 & H2). rewrite Hm in H1. by exists new.
  - exists []. rewrite app_nil_r. split_and!; [done|cbn; lia|constructor].
Qed.

Lemma bind_silent {A B} P (m : io desk A) (k : A -> io desk B) : sends_only P m -> (forall a, silent (k a)) -> sends_only P (bind m k).
Proof.
  intros Hm Hk w. destruct (Hm w) as (new & H1 & H). exists new. split; [|done]. unfold bind.
  destruct (m w) as [[a|e] w']; cbn in *; [by rewrite Hk|done].
Qed.

Lemma transmit_only (P : outgoing -> Prop) o : P o -> sends_only P (transmit o).
Proof. intros Ho w. exists [o]. split_and!; [done|done|by apply Forall_singleton]. Qed.

Lemma transmit_bind {B} (P : outgoing -> Prop) o (k : http_answer -> io desk B) : P o -> (forall a, silent (k a)) -> sends_only P (bind (transmit o) k).
Proof. intros Ho. by apply bind_silent, transmit_only. Qed.

Lemma retold_only {A} P f (m : io desk A) : sends_only P m -> sends_only P (retold f m).
Proof. intros H w. destruct (H w) as (new & Hn). exists new. unfold retold. by destruct (m w) as [[a|e] w']. Qed.

Lemma silent_lift {A} (r : res A) : silent (lift r).
Proof. intros w. unfold lift. by destruct r. Qed.

Lemma post_only (P : outgoing -> Prop) url payload echo : (forall h b, P (Posted url h b)) -> sends_only P (post url payload echo).
Proof. intros H. unfold post. apply transmit_bind; [apply H|]. intros a w. by repeat case_match. Qed.

Lemma silent_clock : silent (db clock).
Proof. by intros []. Qed.

End egress.
