(* ===== verification/OutboxDemo.v ===== *)
(** * Two dispatchers at work

    The theorems of [Outbox] and [OutboxClaims] on two replicas, one channel and
    two alerts, and what two checks leave open. *)

From S2P Require Import Backups Prelude GoStrings Json Naming DockerApi RenderCluster RenderDoc CpDb Deploy DeployPipeline DsdStore Kms Vault NetAddr PublicHost Servers FleetDemo Domains Alerts Dispatcher Outbox OutboxClaims.

Local Open Scope string_scope.
Local Open Scope io_scope.

#[local] Existing Instance pg_stable.
#[local] Existing Instance FleetDemo.demo_aead.
#[local] Existing Instance FleetDemo.demo_custody.

(** A resolver that knows one public name, and a network that accepts all *)
#[local] Instance demo_destinations : Destinations := {|
  url_parse u := if String.eqb u "https://hook.example.com/x" then Some ("https", "hook.example.com", "") else None;
  lookup_ip h := if String.eqb h "hook.example.com" then Some [v4_mapped 93 184 216 34] else None;
|}.
#[local] Instance demo_net : Internet := {| reply _ _ := Ok (mkAnswer 204 "204 No Content" "") |}.
#[local] Instance demo_json : JsonText := {| json_unmarshal _ := None; json_stream _ := ([], None); json_marshal _ := "{}" |}.

Definition hook_columns : channel_columns :=
  mkChannelColumns "org" "webhook" "hook" (JObj [("url", JStr "https://hook.example.com/x")]) None "" "alice" 0.
Definition hook : alert_channel := mkAlertChannel "alch_1" true hook_columns.
Definition alert (key : string) (at_ : Z) : alert_row :=
  mkAlert "org" "alch_1" "server_unreachable" key "down" "web-1 is unreachable" at_ (queued_delivery at_).

Definition alarmed : cp :=
  mkCp (mkTables [] [] [] [] [] [] [] [] [hook] [alert "a" 0; alert "b" 1] [] [] (mkFleet [] ∅ [] ∅)
          (mkVault [] [] [] [channel_cipher "alch_1" "org" None] []) no_backups (mkEstate [] [] [] [] [] [] [] [] []))
    1000 [] (fun n => "") 0 (mkMemory ∅ []).

Definition two_replicas : sys := mkSys (mkDesk alarmed []) [mkReplica [] []; mkReplica [] []] [].

Definition command_all (cs : list command) (s : sys) : sys := fold_left (fun s c => obey 50 8 8 c s) cs s.

Definition wait (dt : Z) (s : sys) : sys :=
  let c := dk_cp (sy_desk s) in
  mkSys (mkDesk (mkCp (cp_tables c) (cp_now c + dt) (cp_faults c) (cp_rand c) (cp_drawn c) (cp_memory c)) (dk_out (sy_desk s)))
    (sy_replicas s) (sy_sends s).

Lemma wait_world dt s : (0 <= dt)%Z -> world_step s (wait dt s).
Proof.
  intros H. eapply (world_moves _ _ _ []); [reflexivity|cbn; unfold now_of; lia|cbn; by rewrite app_nil_r|by intros r ?%elem_of_nil].
Qed.

Lemma command_steps cs s : rtc (sys_step 50 8 8) s (command_all cs s).
Proof. revert s. induction cs as [|c cs IH]; intros s; [apply rtc_refl|]. eapply rtc_l; [|apply IH]. left. by exists c. Qed.

Lemma command_prompt cs s : rtc (prompt_step 50 8 8) s (command_all cs s).
Proof. revert s. induction cs as [|c cs IH]; intros s; [apply rtc_refl|]. eapply rtc_l; [|apply IH]. left. by exists c. Qed.

Definition four (i k : nat) : list command := [Advance i k; Advance i k; Advance i k; Advance i k].

(** *** Both alerts, delivered *)

Definition drained : sys := Eval vm_compute in command_all ([Claim 0; Claim 1; Take 0; Take 0] ++ four 0 0 ++ four 0 0)%list two_replicas.

Example both_sent : map (fun r => dv_status (al_delivery r)) (outbox drained) = ["sent"; "sent"] /\ map fst (sy_sends drained) = [0%nat; 1%nat].
Proof. split; reflexivity. Qed.

Lemma two_sane : sane 8 two_replicas.
Proof.
  split; [|by repeat constructor]. intros i r Hi. assert (Hr : r ∈ [alert "a" 0; alert "b" 1]) by (by eapply list_elem_of_lookup_2).
  repeat (apply elem_of_cons in Hr as [->|Hr]; [split; [done|]; right; right; by vm_compute|]). by apply elem_of_nil in Hr.
Qed.


Lemma two_orderly : orderly two_replicas.
Proof. split; cbn; [constructor|by intros id ?%elem_of_nil]. Qed.

Definition sharing : sys := Eval vm_compute in command_all [Claim 0; Claim 1; Take 0; Advance 0 0; Crash 1; Claim 1] two_replicas.

Lemma prompt_dispatchers_hold_alone_witness :
  held sharing = [1%nat; 0%nat] /\ forall i j x, held sharing !! i = Some x -> held sharing !! j = Some x -> i = j.
Proof.
  split; [vm_compute; reflexivity|].
  apply (prompt_dispatchers_hold_alone 50 8 8 two_replicas sharing two_orderly
    (command_prompt [Claim 0; Claim 1; Take 0; Advance 0 0; Crash 1; Claim 1] two_replicas)).
Defined.

Lemma every_due_alert_is_claimed_witness :
  (length (due_rows (cp_now alarmed) (cp_tables alarmed)) <= 2 * 1)%nat /\ (claims 1 2 alarmed).1 ≡ₚ [0%nat; 1%nat].
Proof.
  split; [vm_compute; lia|]. destruct (every_due_alert_is_claimed 1 2 alarmed eq_refl) as [H _]; [vm_compute; lia|]. exact H.
Defined.

(** *** A late renewal *)

(** Renewing a lease does not tell whose it is.  A replica that is slow
    for longer than a lease, and a sibling that has claimed its row by then,
    both find the row still being sent, both renew it and both send it. *)
Theorem late_renewal_sends_twice :
  let slow := wait (301 * second) (command_all [Claim 0; Take 0; Advance 0 0] two_replicas) in
  let both := command_all [Claim 1; Take 1; Advance 1 0; Advance 1 0; Advance 0 0; Advance 1 0; Advance 0 0] slow in
  rtc (sys_step 50 8 8) two_replicas both /\ sy_sends both = [(0%nat, Ok tt); (0%nat, Ok tt)] /\
  length (dk_out (sy_desk both)) = 2%nat.
Proof.
  intros slow both. split; [|vm_compute; split; reflexivity].
  etransitivity; [apply (command_steps [Claim 0; Take 0; Advance 0 0])|]. eapply rtc_l; [right; apply (wait_world (301 * second)); done|].
  apply command_steps.
Qed.

(** *** Mail hosts that cannot be dialled *)

(** The check of a mail channel accepts an IPv6 literal, and the address
    the sender makes of it, the host, a colon and the port, is not one a dialler
    can split: such a channel passes the check and never delivers. *)
Theorem ipv6_mail_hosts_are_not_dialled {ds : Destinations} :
  ValidateEmailDestination "2606:4700:4700::1111" 587 = Ok tt /\
  SplitHostPort ("2606:4700:4700::1111" +:+ ":" +:+ dec 587) = None.
Proof. split; reflexivity. Qed.
